(* ===== verification/_CoqProject ===== *)
-Q . S2P
Prelude.v
Types.v
Config.v
Bitfields.v
Merkle.v
Slot.v
Codec.v
Containers.v
State.v
Ream.v
Stf.v
Justif.v
StfInv.v
Ancestry.v
Ghost.v
Store.v
StoreInv.v
Production.v
ProductionInv.v
Engine.v
EngineInv.v
Ots.v
Storage.v
Wire.v
Signer.v
Duties.v
Host.v
Genesis.v
Keygen.v
Lifecycle.v
Services.v
Chain.v
ChainInv.v
P2p.v
SwarmTask.v
Sync.v
SyncInv.v
Loop.v
LoopInv.v
Examples.v
ChainExamples.v
SyncExamples.v
LoopExamples.v
Api.v
Devnet.v
Cli.v
