(* ===== verification/Prelude.v ===== *)
(** * A verification of lean-rust

    lean-rust is a Lean consensus (Ethereum "lean chain", devnet 0) client.  Its
    consensus core is a stack of crates: [types] and [ssz] (byte vectors,
    bitfields, codecs, merkleization), [config], [protocol] (the containers, the
    beacon state and its state transition function), [forkchoice] (the LMD-GHOST
    store with its clock and vote pools, and block and vote production) and the
    consensus engine of [runtime] (one store behind a mutex; import of blocks and
    votes, production, clock).  Around it are the chain service, which persists
    what the engine accepts ([storage]) and signs with one-time keys ([crypto],
    [runtime/src/duties]); the network messages ([networking]); the peer-to-peer
    service, the sync loop and the HTTP and metrics endpoints of [runtime]; the
    consensus loop, which gives the node its ticks and duties, and the composition
    of all of them ([node]); and the command line ([lean-cli], [src/bin]), which
    generates keys, loads the genesis, and builds, starts and stops a node.  This
    development models these parts function by function and proves them correct.
    Paths below are relative to [src/crates].

    ** Files

    - [Prelude]: [Outcome] ([Result] plus [Panic] and [Diverge]) and its notation
      [let?], the state monad [M] with [let!], u8 bit operations, u64 arithmetic
      as [N] with its bounds, slices, indexing, the shared list lemmas, tactics.
    - [Types]: [types/src]: [ByteVector], hexadecimal text, little-endian integers.
    - [Config]: [config/src]: the devnet preset and [Config::validate]
      ([Config::from_yaml] is in [Genesis]).
    - [Bitfields]: [types/src/bitfields.rs].
    - [Merkle]: [ssz/src/merkleize.rs]; the interface [HashTreeRoot].
    - [Slot]: [protocol/src/slot.rs]: justifiable distances and [isqrt_u64].
    - [Codec]: [ssz/src/lists.rs], [protocol/src/internal.rs]; the interfaces
      [Encode], [Decode], and the laws [FixedCodec] and [SszCodec] every container
      discharges and its users rely on.
    - [Containers]: [checkpoint.rs], [validator.rs], [vote.rs], [block.rs].
    - [State]: [protocol/src/state.rs], the container, its codec and root.
    - [Ream]: [protocol/src/ream.rs], the compact genesis layout of other clients.
    - [Stf]: [protocol/src/state.rs], [stf.rs]: [process_slots],
      [process_block_header], [process_attestations], [state_transition], genesis.
    - [Justif], [StfInv]: the vote tally, and the theorems on the transition.
    - [Ancestry]: [forkchoice/src/time.rs], [error.rs], [HashMap] iteration
      ([HashOrder]) and walks along parent links.
    - [Ghost]: [forkchoice/src/helpers.rs]: LMD-GHOST.
    - [Store], [StoreInv]: [forkchoice/src/store.rs] and its invariant.
    - [Production], [ProductionInv]: [forkchoice/src/production.rs].
    - [Engine], [EngineInv]: [runtime/src/chain/engine], [signing_domain.rs].
    - [Ots]: [types/src/ots_*.rs], [crypto/src]: key records, keys, signatures.
    - [Storage]: [storage/src]: the store interface, its memory and redb adapters.
    - [Wire]: [networking/src] and the request codec of [runtime/src/p2p/host].
    - [Signer]: [runtime/src/duties]: the signer, its durable guard, key loading.
    - [Duties]: [runtime/src/duties]: configuration, validator assignment, genesis
      registry, and the proposer and attesters of a slot.
    - [Host]: [runtime/src/p2p/options.rs], [p2p/host]: options, bootnodes,
      identity, construction of the host.
    - [Genesis], [Keygen]: [lean-cli/src/genesis.rs]; [keygen.rs] and
      [validator_keygen.rs] beside it.
    - [Lifecycle]: [runtime/src/core]: start, stop, status and run of a node over the
      interface [Managed], with overlapping calls.
    - [Services]: the six services of a node that discharge this interface:
      [p2p/service.rs], [sync/loop_.rs], [api/server.rs], [consensus_loop.rs].
    - [Chain], [ChainInv]: [runtime/src/chain/chain]: the chain service, its calls
      interleaved at their await points, and start-up ([node/src/devnet.rs]).
    - [P2p]: [runtime/src/p2p]: admission, gossip ingress, peers, requests, swarm
      events.
    - [SwarmTask]: [p2p/service.rs], [rpc/client.rs], [gossip/publisher.rs]: the task
      that owns the swarm, its bounded command channel and its callers.
    - [Sync], [SyncInv]: [runtime/src/sync]: walks, imports, the watch loop.
    - [Loop], [LoopInv]: [node/src/consensus_loop.rs], beside other tasks.
    - [Examples], [ChainExamples], [SyncExamples], [LoopExamples]: concrete runs.
    - [Api]: [runtime/src/api]: the head endpoints, the metrics recorder and the
      cached scrape, with the gauges and histograms of [node/src/devnet.rs].
    - [Devnet]: [node/src/devnet.rs]: [new_devnet], which composes the node, over one
      store of either backend.
    - [Cli]: [lean-cli/src], [runtime/src/observability], [src/bin/lean-rust]: flags,
      subcommands, tracing, and the whole of an invocation.

    ** Correspondence

    A Rust struct is a [Record], an enum an [Inductive] with the source's
    constructors, a function one definition of the same name (a method of a type
    with a common name is prefixed, as in [bitlist_set] for [Bitlist::set]).  A loop
    or an inner expression of a function may be a definition of its own beside it
    ([isqrt_loop] of [isqrt_u64]).  A function that returns [Result] returns [Outcome]; a method on [&mut self] is a
    computation [M S E A] on the receiver, so that a write made before an early
    return stays.  Unchecked indexing and slicing give [Panic] out of range; the
    theorems show that it does not happen.  [u64] and [usize] are [N]; operations
    that can wrap, saturate or be checked are written as such.  [HashMap] is
    [gmap], and where the code iterates over one, the order is the parameter
    [HashOrder] with the law that it is a permutation of the entries.  [BTreeMap]
    is iterated in the order of its keys.  [Arc<State>] is the state.  An engine
    call holds the mutex from beginning to end, so a concurrent history is a
    sequence of calls ([run_entries]).

    Code outside the repository is a parameter: [Sha256] (the [sha2] crate),
    [EthSsz] with [EthSszLaws] (the primitive codecs of [eth_ssz]), [Verifier],
    [LeanSig] with [LeanSigLaws] (leanSig), [Redb] with [RedbLaws] (redb), [Snap]
    with [SnapLaws] (snap), [Libp2p] and [HostLib] with [HostLaws] (libp2p and its
    keys and addresses), [Yaml] (serde_yaml), [Prometheus] with [PrometheusLaws],
    [Tracing] (the tracing crates), [HashOrder] (the random seed of [std]'s hasher).
    So is the system: [HostFs] and [KeygenFs] (files), [GenesisEnv] and [Clocks]
    (files and clock), [Platform] with [PlatformLaws] (listeners, spawned tasks and
    their joins).  What the other tasks do while a task waits is a parameter too:
    the world of a walk ([SyncWorld]) may change in any way at each step of the
    walk, and [LoopEnv] with [LoopEnvLaws] gives the calls of the chain service and
    the gossip that fall between the steps of the consensus loop.  The theorems on
    the store need of the hash only that it has no cycle through the anchor
    ([anchor_parent_fresh]); [Merkle] states binding under no collision on the
    pairs that are hashed.

    ** Theorems

    - Encodings ([Types], [Bitfields], [Codec], [Containers], [State]): encoding
      and decoding are inverse to each other, each accepted string is the encoding
      of its value, no decoder panics; bitlist operations refine list operations.
    - Merkleization ([Merkle], [State]): the loops compute the root of the
      reference tree; the root binds the chunks; list roots follow SSZ.
    - State transition ([Slot], [Justif], [StfInv]): the invariant [state_inv],
      the exact effect of each step, no panic, an error leaves the state alone, a
      slot becomes justified only with two thirds of the registry, the finalized
      slot and the history are monotone along every chain.
    - Fork choice ([Ghost], [StoreInv]): the head is the LMD-GHOST head and does
      not depend on hash-map order; the invariant [store_inv]; what the clock, the
      vote intake, the safe target and the choice of the vote target do.
    - Production and engine ([ProductionInv], [EngineInv]): a produced block is
      accepted by the transition and by every peer that has its parent's state; an
      import does exactly what its outcome says; every history of calls from an
      anchor keeps the invariant and only grows the store.
    - Keys and signing ([Ots], [Signer]): records and signatures are read back as
      written; no epoch is signed twice, restarts included; a restarted node signs
      later slots.
    - Persistence ([Storage], [ChainInv]): the redb adapter refines the memory one;
      under any interleaving of calls a restart finds a block and state the engine
      accepted; [ChainExamples.failed_write_strands_head] is the run where one
      failed write costs the chain.
    - Network ([Wire], [P2p]): the request codec is faithful and total on any bytes;
      gossip is bounded per peer, and its cache is transparent; a call of the swarm
      task returns exactly once, however it ends ([SwarmTask.calls_return_once]).
    - Sync ([SyncInv]): a walk returns a hash chain whatever the peer answers; a
      node catches up with an honest peer within the depth limit, and not beyond
      it; walks are bounded and one per peer.
    - Duties, loop and life cycle ([Duties], [LoopInv], [Lifecycle], [Services]): an
      assignment partitions the validators, so that in every slot one node proposes
      and all others attest once; whatever other tasks do, a run of the loop returns,
      keeps every invariant and asks for exactly the duties of its slots; a node
      runs all services or none, stops them in reverse, and starts at most once; a
      stop that overlaps a start is lost ([stop_during_start_lost]), and after a
      restart the proposals fail until the ticks reach the head
      ([restart_proposals_fail]).
    - Offline commands and genesis ([Ream], [Keygen], [Genesis], [Host]): the decoder
      of the compact layout accepts exactly this layout; generated keys load in a
      node and sign what verifies under the registry; a loaded genesis is well formed
      and anchors the engine; an identity is stable.
    - Endpoints ([Api]): the head that is served is a block the engine tracks; a
      scrape exports every metric, at most one rendering per second; the exported
      slots need not be ordered.
    - The whole node ([Devnet], [Cli]): the two backends behind one interface refine
      the memory store; a node that flags give is one the theorems of the loop, the
      signer and the chain service apply to ([node_from_flags_safe]); with the
      default backend no node starts ([memory_backend_never_starts]).
    - [StfInv.empty_slot_votes_pooled], [Examples.known_vote_regresses] and
      [Examples.future_target_vote_blocks_production] record three behaviours
      that the source does not intend.

    ** Fuel

    Loops over data are structural.  The others: [isqrt_loop] 64 steps
    ([isqrt_loop_returns]: enough for every 64-bit input); the merkle loops one step per node of a level or per bit of a [usize]; the head walk and
    the descent [S (size blocks)], which is exact: a walk that outlives it has met
    a block twice and never ends ([Ancestry.survives]); the walks of
    [get_vote_target] likewise; the attestation loop of production
    [S (size latest_known_votes)], since each round adds a vote of the pool
    ([converge_loop_cases]); advancing a key at most one step per epoch of its
    range; reading frames one step per byte of the stream; a snappy frame
    [MAX_SNAPPY_CHUNK_ITERATIONS] and a walk [max_sync_depth], which are the bounds
    of the code; a call of the node [task_fuel], two sections per service and a
    few more; a drain of gossip one step per queued message and per message that
    can still arrive; the attesters' futures four polls each.  A run of the
    consensus loop takes its number of ticks as an argument, since the loop ends only
    with its cancellation.  Every theorem that a function returns a result is
    stated without fuel.

    ** Not modelled

    Argument parsing (clap fills the record [Cli]), serde adapters, the text of
    JSON answers, log lines and the observation of latencies, the permission bits of
    secret files, the building of the libp2p swarm and transport, the accept loop
    of axum, and time inside a call.  Helpers of tests ([fixtures],
    [test_fixtures.rs], the examples and benchmarks) are not part of the node.
    Thin handles that only lock and forward ([Engine::head], [Engine::with_store])
    are the functions they forward to. *)

From stdpp Require Import base numbers list gmap strings pretty sorting.
From Stdlib Require Import Strings.Byte ZArith Lia.

#[global] Open Scope N_scope.

(** ** Outcomes of Rust code

    A Rust function that returns [Result<A, E>] can also panic (an index out of
    range, an arithmetic overflow) or fail to return.  [Panic] is a Rust panic.
    [Diverge] is a loop of the model that used up its fuel: the theorems show
    that the fuel chosen is enough. *)
Inductive Outcome (E A : Type) :=
| Ok (a : A)
| Err (e : E)
| Panic
| Diverge.
Arguments Ok {E A} a.
Arguments Err {E A} e.
Arguments Panic {E A}.
Arguments Diverge {E A}.

Definition obind {E A B} (c : Outcome E A) (k : A -> Outcome E B) : Outcome E B :=
  match c with
  | Ok a => k a
  | Err e => Err e
  | Panic => Panic
  | Diverge => Diverge
  end.

Definition omap_err {E F A} (f : E -> F) (c : Outcome E A) : Outcome F A :=
  match c with
  | Ok a => Ok a
  | Err e => Err (f e)
  | Panic => Panic
  | Diverge => Diverge
  end.

(** [Option::ok_or]. *)
Definition ok_or {E A} (o : option A) (e : E) : Outcome E A :=
  match o with Some a => Ok a | None => Err e end.

(** A computation that returned: it neither panicked nor ran out of fuel. *)
Definition returned {E A} (c : Outcome E A) : Prop :=
  match c with Ok _ | Err _ => True | Panic | Diverge => False end.

(** [&mut self] methods: the state is threaded and, as in Rust, whatever was
    written to it before an early return stays written. *)
Definition M (S E A : Type) : Type := S -> Outcome E A * S.

Definition mret {S E A} (a : A) : M S E A := fun s => (Ok a, s).
Definition mthrow {S E A} (e : E) : M S E A := fun s => (Err e, s).
Definition mget {S E} : M S E S := fun s => (Ok s, s).
Definition mmodify {S E} (f : S -> S) : M S E unit := fun s => (Ok tt, f s).
Definition mlift {S E A} (c : Outcome E A) : M S E A := fun s => (c, s).
Definition mbind {S E A B} (c : M S E A) (k : A -> M S E B) : M S E B :=
  fun s =>
    match c s with
    | (Ok a, s') => k a s'
    | (Err e, s') => (Err e, s')
    | (Panic, s') => (Panic, s')
    | (Diverge, s') => (Diverge, s')
    end.

Declare Scope rust_scope.
Delimit Scope rust_scope with rust.
Notation "'let?' p ':=' c 'in' k" := (obind c (fun p => k))
  (at level 10, p pattern, c at level 100, k at level 200,
   format "'[v' 'let?'  p  ':='  c  'in' '/' k ']'") : rust_scope.
Notation "'let!' p ':=' c 'in' k" := (mbind c (fun p => k))
  (at level 10, p pattern, c at level 100, k at level 200,
   format "'[v' 'let!'  p  ':='  c  'in' '/' k ']'") : rust_scope.
#[global] Open Scope rust_scope.

(** Iteration with early exit: a [for] loop whose body may return an error. *)
Fixpoint ofold {E A X} (f : A -> X -> Outcome E A) (l : list X) (a : A) : Outcome E A :=
  match l with
  | [] => Ok a
  | x :: l' => let? a' := f a x in ofold f l' a'
  end.

(** Collecting an iterator of results: [items.push(f(x)?)]. *)
Fixpoint omapM {E X Y} (f : X -> Outcome E Y) (l : list X) : Outcome E (list Y) :=
  match l with
  | [] => Ok []
  | x :: l' => let? y := f x in let? ys := omapM f l' in Ok (y :: ys)
  end.

(** [for _ in 0..n { body }] on a threaded state. *)
Fixpoint mrepeat {S E} (n : nat) (body : M S E unit) : M S E unit :=
  match n with
  | O => mret tt
  | S n' => let! _ := body in mrepeat n' body
  end.

(** ** Machine integers

    [u64] and [usize] (64 bits on the targets the client supports) are values of
    [N]; the width is written out wherever an operation depends on it. *)
Definition u64_bound : N := 2 ^ 64.
Definition u64_max : N := 2 ^ 64 - 1.
Definition u32_max : N := 2 ^ 32 - 1.
Definition u64_ok (n : N) : Prop := n < u64_bound.

Definition checked_add (a b : N) : option N :=
  if a + b <? u64_bound then Some (a + b) else None.
Definition checked_mul (a b : N) : option N :=
  if a * b <? u64_bound then Some (a * b) else None.
Definition saturating_mul (a b : N) : N := N.min (a * b) u64_max.
Definition saturating_sub (a b : N) : N := a - b.
Definition div_ceil (a b : N) : N := if a mod b =? 0 then a / b else a / b + 1.
(** [usize::try_from(x: u64)] on a 64-bit target. *)
Definition usize_try_from (n : N) : option N :=
  if n <? u64_bound then Some n else None.
(** [u32::try_from(x: usize)]. *)
Definition u32_try_from (n : N) : option N :=
  if n <=? u32_max then Some n else None.

(** [Vec::len] and slice lengths. *)
Definition len {A} (l : list A) : N := N.of_nat (length l).

(** [lo..hi] as a list. *)
Definition range (lo hi : N) : list N :=
  (fun i => lo + N.of_nat i) <$> seq 0 (N.to_nat (hi - lo)).

(** ** Bytes *)

(** [u8] is the standard library's [Byte.byte]. *)
Abbreviation u8 := Byte.byte.

#[export] Instance byte_eq_decision : EqDecision u8 := Byte.byte_eq_dec.
#[export] Program Instance byte_countable : Countable u8 :=
  inj_countable Byte.to_N Byte.of_N _.
Next Obligation. apply Byte.of_to_N. Qed.
#[export] Instance byte_inhabited : Inhabited u8 := populate x00.

(** Truncating conversion, [n as u8]. *)
Definition u8_of_N (n : N) : u8 := default x00 (Byte.of_N (n mod 256)).
Definition u8_bit (b : u8) (i : N) : bool := N.testbit (Byte.to_N b) i.
Definition u8_or (a b : u8) : u8 := u8_of_N (N.lor (Byte.to_N a) (Byte.to_N b)).
Definition u8_and (a b : u8) : u8 := u8_of_N (N.land (Byte.to_N a) (Byte.to_N b)).
Definition u8_not (a : u8) : u8 := u8_of_N (N.lxor (Byte.to_N a) 255).
(** [1_u8 << i]. *)
Definition u8_shl1 (i : N) : u8 := u8_of_N (N.shiftl 1 i).

(** [u32::to_le_bytes], [u64::to_le_bytes] and the inverse. *)
Fixpoint to_le_bytes (n : nat) (v : N) : list u8 :=
  match n with
  | O => []
  | S n' => u8_of_N v :: to_le_bytes n' (v / 256)
  end.
Fixpoint from_le_bytes (bs : list u8) : N :=
  match bs with
  | [] => 0
  | b :: bs' => Byte.to_N b + 256 * from_le_bytes bs'
  end.

(** [&bytes[lo..hi]]: a slice out of range is a panic. *)
Definition slice {E A} (l : list A) (lo hi : N) : Outcome E (list A) :=
  if (lo <=? hi) && (hi <=? len l)
  then Ok (take (N.to_nat (hi - lo)) (drop (N.to_nat lo) l))
  else Panic.

(** [v[i]]: an index out of range is a panic. *)
Definition index {E A} (l : list A) (i : N) : Outcome E A :=
  match l !! N.to_nat i with Some a => Ok a | None => Panic end.

(** [v[i] = x]: an index out of range is a panic. *)
Definition index_set {E A} (l : list A) (i : N) (x : A) : Outcome E (list A) :=
  if i <? len l then Ok (<[N.to_nat i := x]> l) else Panic.

(** [Vec::resize]. *)
Definition resize_vec {A} (n : N) (x : A) (l : list A) : list A :=
  take (N.to_nat n) l ++ replicate (N.to_nat n - length l) x.

(** Lexicographic order on byte strings, the derived [Ord] of [[u8; N]]. *)
Fixpoint bytes_compare (a b : list u8) : comparison :=
  match a, b with
  | [], [] => Eq
  | [], _ :: _ => Lt
  | _ :: _, [] => Gt
  | x :: a', y :: b' =>
      match N.compare (Byte.to_N x) (Byte.to_N y) with
      | Eq => bytes_compare a' b'
      | c => c
      end
  end.

(** ** Shared automation *)

Create HintDb rust discriminated.
Create Rewrite HintDb u8_bits.
Create Rewrite HintDb len.

(** Case analysis on the innermost scrutinee of the goal or of a hypothesis,
    keeping the equation. *)
Ltac case_scrutinee :=
  match goal with
  | |- context [match ?x with _ => _ end] =>
      lazymatch x with
      | context [match _ with _ => _ end] => fail
      | _ => destruct x eqn:?
      end
  | H : context [match ?x with _ => _ end] |- _ =>
      lazymatch x with
      | context [match _ with _ => _ end] => fail
      | _ => destruct x eqn:?
      end
  end.

(** Turn the boolean comparisons of the code into propositions. *)
Ltac reflect_bools :=
  repeat match goal with
  | H : andb _ _ = true |- _ => apply andb_true_iff in H; destruct H
  | H : andb _ _ = false |- _ => apply andb_false_iff in H
  | H : orb _ _ = true |- _ => apply orb_true_iff in H
  | H : orb _ _ = false |- _ => apply orb_false_iff in H; destruct H
  | H : negb _ = true |- _ => apply negb_true_iff in H
  | H : negb _ = false |- _ => apply negb_false_iff in H
  | H : (_ <? _) = true |- _ => apply N.ltb_lt in H
  | H : (_ <? _) = false |- _ => apply N.ltb_ge in H
  | H : (_ <=? _) = true |- _ => apply N.leb_le in H
  | H : (_ <=? _) = false |- _ => apply N.leb_gt in H
  | H : (_ =? _) = true |- _ => apply N.eqb_eq in H
  | H : (_ =? _) = false |- _ => apply N.eqb_neq in H
  | H : bool_decide _ = true |- _ => apply bool_decide_eq_true in H
  | H : bool_decide _ = false |- _ => apply bool_decide_eq_false in H
  end.

(** [lia] with division and remainder by constants. *)
Ltac dlia := zify; Z.to_euclidean_division_equations; lia.

(** Split an [Ok] result of a sequence of steps into its steps. *)
Lemma obind_Ok_inv {E A B} (c : Outcome E A) (k : A -> Outcome E B) (b : B) :
  obind c k = Ok b -> exists a, c = Ok a /\ k a = Ok b.
Proof. destruct c; simpl; intros; simplify_eq; eauto. Qed.

Lemma obind_returned {E A B} (c : Outcome E A) (k : A -> Outcome E B) :
  returned c -> (forall a, returned (k a)) -> returned (obind c k).
Proof. destruct c; simpl; auto. Qed.

Ltac inv_ok :=
  repeat match goal with
  | H : obind _ _ = Ok _ |- _ =>
      let a := fresh "a" in let Ha := fresh "Ha" in
      apply obind_Ok_inv in H as (a & Ha & H)
  | H : Ok _ = Ok _ |- _ => injection H; clear H; intros; subst
  | H : Err _ = Ok _ |- _ => discriminate H
  | H : Panic = Ok _ |- _ => discriminate H
  | H : Diverge = Ok _ |- _ => discriminate H
  end.

(** ** Lemmas on bytes and little-endian integers *)

Lemma byte_to_N_bound (b : u8) : Byte.to_N b < 256.
Proof. pose proof (Byte.to_N_bounded b). lia. Qed.

Lemma byte_to_N_inj (a b : u8) : Byte.to_N a = Byte.to_N b -> a = b.
Proof.
  intros H. apply (f_equal Byte.of_N) in H. rewrite !Byte.of_to_N in H. by simplify_eq.
Qed.

Lemma to_N_u8_of_N (n : N) : Byte.to_N (u8_of_N n) = n mod 256.
Proof.
  unfold u8_of_N. destruct (Byte.of_N (n mod 256)) as [b|] eqn:E; simpl.
  - by apply Byte.to_of_N.
  - apply Byte.of_N_None_iff in E. pose proof (N.mod_lt n 256). lia.
Qed.

Lemma u8_of_to_N (b : u8) : u8_of_N (Byte.to_N b) = b.
Proof.
  apply byte_to_N_inj. rewrite to_N_u8_of_N.
  apply N.mod_small, byte_to_N_bound.
Qed.

Lemma u8_bit_high (b : u8) (i : N) : 8 <= i -> u8_bit b i = false.
Proof.
  intros Hi. unfold u8_bit. pose proof (byte_to_N_bound b) as Hb.
  destruct (decide (Byte.to_N b = 0)) as [->|Hne]; [apply N.bits_0|].
  apply N.bits_above_log2. apply N.log2_lt_pow2; [lia|].
  apply N.lt_le_trans with (2 ^ 8); [done|]. apply N.pow_le_mono_r; lia.
Qed.

Lemma u8_bit_of_N (n i : N) : u8_bit (u8_of_N n) i = (i <? 8) && N.testbit n i.
Proof.
  unfold u8_bit. rewrite to_N_u8_of_N. change 256 with (2 ^ 8).
  destruct (N.ltb_spec i 8).
  - by rewrite N.mod_pow2_bits_low.
  - by rewrite N.mod_pow2_bits_high.
Qed.

Lemma u8_bit_or a b i : u8_bit (u8_or a b) i = u8_bit a i || u8_bit b i.
Proof.
  unfold u8_or. rewrite u8_bit_of_N, N.lor_spec. fold (u8_bit a i) (u8_bit b i).
  destruct (N.ltb_spec i 8); [done|]. by rewrite !u8_bit_high.
Qed.

Lemma u8_bit_and a b i : u8_bit (u8_and a b) i = u8_bit a i && u8_bit b i.
Proof.
  unfold u8_and. rewrite u8_bit_of_N, N.land_spec. fold (u8_bit a i) (u8_bit b i).
  destruct (N.ltb_spec i 8); [done|]. by rewrite !u8_bit_high.
Qed.

Lemma u8_bit_not a i : i < 8 -> u8_bit (u8_not a) i = negb (u8_bit a i).
Proof.
  intros Hi. unfold u8_not. rewrite u8_bit_of_N, N.lxor_spec.
  change 255 with (N.ones 8). rewrite N.ones_spec_low by done.
  rewrite (proj2 (N.ltb_lt i 8)) by done. simpl. by rewrite xorb_true_r.
Qed.

Lemma u8_bit_shl1 i j : u8_bit (u8_shl1 i) j = (j <? 8) && (i =? j).
Proof.
  unfold u8_shl1. rewrite u8_bit_of_N, N.shiftl_1_l.
  by rewrite N.pow2_bits_eqb.
Qed.

Lemma u8_bit_zero i : u8_bit x00 i = false.
Proof. reflexivity. Qed.

Lemma u8_eq_bits a b : (forall i, i < 8 -> u8_bit a i = u8_bit b i) -> a = b.
Proof.
  intros H. apply byte_to_N_inj, N.bits_inj. intros i.
  change (u8_bit a i = u8_bit b i).
  destruct (N.ltb_spec i 8); [by apply H|]. by rewrite !u8_bit_high.
Qed.

#[export] Hint Rewrite u8_bit_or u8_bit_and u8_bit_shl1 u8_bit_zero : u8_bits.

Lemma length_to_le_bytes n v : length (to_le_bytes n v) = n.
Proof. revert v; induction n; intros; simpl; auto. Qed.

Lemma from_to_le_bytes n v : from_le_bytes (to_le_bytes n v) = v mod 256 ^ N.of_nat n.
Proof.
  revert v; induction n as [|n IH]; intros v; cbn [to_le_bytes from_le_bytes].
  - by rewrite N.pow_0_r, N.mod_1_r.
  - rewrite IH, to_N_u8_of_N, Nat2N.inj_succ, N.pow_succ_r'.
    rewrite N.Div0.mod_mul_r. done.
Qed.

Lemma from_le_bytes_bound bs : from_le_bytes bs < 256 ^ len bs.
Proof.
  unfold len. induction bs as [|b bs IH]; cbn [from_le_bytes length].
  - rewrite N.pow_0_r. lia.
  - rewrite Nat2N.inj_succ, N.pow_succ_r'. pose proof (byte_to_N_bound b). lia.
Qed.

Lemma to_from_le_bytes bs : to_le_bytes (length bs) (from_le_bytes bs) = bs.
Proof.
  induction bs as [|b bs IH]; cbn [from_le_bytes to_le_bytes length]; [done|].
  pose proof (byte_to_N_bound b) as Hb. f_equal.
  - apply byte_to_N_inj. rewrite to_N_u8_of_N.
    rewrite N.mul_comm, N.Div0.mod_add. by apply N.mod_small.
  - rewrite N.mul_comm, N.div_add by done. rewrite N.div_small by done. done.
Qed.

(** ** Lemmas on lists, slices and indexing *)

Lemma len_app {A} (l k : list A) : len (l ++ k) = len l + len k.
Proof. unfold len. rewrite length_app. lia. Qed.
Lemma len_cons {A} (x : A) l : len (x :: l) = 1 + len l.
Proof. unfold len. simpl. lia. Qed.
Lemma len_nil {A} : len (@nil A) = 0.
Proof. done. Qed.
Lemma len_fmap {A B} (f : A -> B) l : len (f <$> l) = len l.
Proof. unfold len. by rewrite length_fmap. Qed.
Lemma len_to_le_bytes n v : len (to_le_bytes n v) = N.of_nat n.
Proof. unfold len. by rewrite length_to_le_bytes. Qed.
Lemma len_replicate {A} n (x : A) : len (replicate n x) = N.of_nat n.
Proof. unfold len. by rewrite length_replicate. Qed.
Lemma len_insert {A} i (x : A) l : len (<[i:=x]> l) = len l.
Proof. unfold len. by rewrite length_insert. Qed.

#[export] Hint Rewrite @len_app @len_cons @len_nil len_to_le_bytes @len_replicate
  @len_insert : len.

Lemma slice_Ok {E A} (l : list A) lo hi :
  lo <= hi -> hi <= len l ->
  @slice E A l lo hi = Ok (take (N.to_nat (hi - lo)) (drop (N.to_nat lo) l)).
Proof.
  intros H1 H2. unfold slice.
  by rewrite (proj2 (N.leb_le lo hi) H1), (proj2 (N.leb_le hi (len l)) H2).
Qed.

(** Slicing the middle part out of a concatenation. *)
Lemma slice_app {E A} (pre mid post : list A) lo hi :
  lo = len pre -> hi = len pre + len mid ->
  @slice E A (pre ++ mid ++ post) lo hi = Ok mid.
Proof.
  intros -> ->. rewrite slice_Ok by (autorewrite with len; lia).
  unfold len. f_equal. rewrite Nat2N.id, drop_app_length.
  rewrite take_app_le by lia. apply take_ge. lia.
Qed.

Lemma slice_length {E A} (l k : list A) lo hi :
  @slice E A l lo hi = Ok k -> len k = hi - lo.
Proof.
  unfold slice, len. destruct (_ && _) eqn:Hb; [|done]. intros; simplify_eq.
  reflect_bools. rewrite length_take, length_drop. unfold len in *. lia.
Qed.

Lemma index_Ok {E A} (l : list A) i : i < len l -> exists x, @index E A l i = Ok x /\ l !! N.to_nat i = Some x.
Proof.
  intros Hi. unfold index. destruct (lookup_lt_is_Some_2 l (N.to_nat i)) as [x Hx].
  { unfold len in Hi. lia. }
  exists x. by rewrite Hx.
Qed.

Lemma ofold_app {E A X} (f : A -> X -> Outcome E A) l k a :
  ofold f (l ++ k) a = (let? a' := ofold f l a in ofold f k a').
Proof.
  revert a; induction l as [|x l IH]; intros a; simpl; [done|].
  destruct (f a x); simpl; auto.
Qed.

(** An invariant kept by every step of a fold holds at its end. *)
Lemma ofold_invariant {E A X} (P : A -> Prop) (f : A -> X -> Outcome E A) l a b :
  P a -> (forall a x a', P a -> f a x = Ok a' -> P a') -> ofold f l a = Ok b -> P b.
Proof.
  intros Ha Hf. revert a Ha. induction l as [|x l IH]; intros a Ha H; simpl in H; inv_ok; eauto.
Qed.

Lemma omapM_length {E X Y} (f : X -> Outcome E Y) l k : omapM f l = Ok k -> length k = length l.
Proof.
  revert k; induction l as [|x l IH]; intros k H; simpl in H; inv_ok; [done|].
  simpl. f_equal. auto.
Qed.

(** Decoding a list of encoded elements gives the elements back. *)
Lemma omapM_fmap {E X Y} (f : X -> Outcome E Y) (g : Y -> X) ys :
  Forall (fun y => f (g y) = Ok y) ys -> omapM f (g <$> ys) = Ok ys.
Proof. induction 1 as [|y ys Hy _ IH]; csimpl; [done|]. rewrite Hy. cbn [obind]. by rewrite IH. Qed.

Lemma omapM_compose {E X Y Z} (f : Y -> Outcome E Z) (g : X -> Y) l :
  omapM f (g <$> l) = omapM (fun x => f (g x)) l.
Proof. induction l as [|x l IH]; csimpl; [done|]. by rewrite IH. Qed.

Lemma omapM_ext {E X Y} (f g : X -> Outcome E Y) l :
  (forall x, x ∈ l -> f x = g x) -> omapM f l = omapM g l.
Proof.
  induction l as [|x l IH]; intros Hx; simpl; [done|].
  rewrite (Hx x) by apply list_elem_of_here. rewrite IH; [done|]. intros y Hy. apply Hx. by right.
Qed.

Lemma filter_ext_in {A} (P Q : A -> Prop) `{forall x, Decision (P x), forall x, Decision (Q x)} (l : list A) :
  (forall x, x ∈ l -> P x <-> Q x) -> filter P l = filter Q l.
Proof.
  induction l as [|x l IH]; intros Hx; [done|]. rewrite !filter_cons.
  assert (Hl : filter P l = filter Q l) by (apply IH; intros; apply Hx; by right).
  pose proof (Hx x (list_elem_of_here _ _)) as HP.
  destruct (decide (P x)), (decide (Q x)); [by f_equal|tauto|tauto|done].
Qed.

Lemma bytes_compare_eq a b : bytes_compare a b = Eq <-> a = b.
Proof.
  revert b; induction a as [|x a IH]; intros [|y b]; simpl; try done.
  destruct (N.compare_spec (Byte.to_N x) (Byte.to_N y)) as [H|H|H].
  - apply byte_to_N_inj in H as ->. rewrite IH. split; congruence.
  - split; [done|]. intros [= -> ->]. lia.
  - split; [done|]. intros [= -> ->]. lia.
Qed.

Lemma bytes_compare_antisym a b : bytes_compare b a = CompOpp (bytes_compare a b).
Proof.
  revert b; induction a as [|x a IH]; intros [|y b]; simpl; try done.
  rewrite (N.compare_antisym (Byte.to_N x) (Byte.to_N y)).
  destruct (N.compare _ _); simpl; auto.
Qed.

Lemma bytes_compare_lt_trans a b c :
  bytes_compare a b = Lt -> bytes_compare b c = Lt -> bytes_compare a c = Lt.
Proof.
  revert b c; induction a as [|x a IH]; intros [|y b] [|z c]; simpl; try done.
  destruct (N.compare_spec (Byte.to_N x) (Byte.to_N y)) as [H|H|H]; try done;
  destruct (N.compare_spec (Byte.to_N y) (Byte.to_N z)) as [H'|H'|H']; try done;
  destruct (N.compare_spec (Byte.to_N x) (Byte.to_N z)) as [H''|H''|H'']; try done; try lia.
  intros; by eapply IH.
Qed.

#[global] Arguments to_le_bytes : simpl never.
#[global] Arguments from_le_bytes : simpl never.
#[global] Arguments len : simpl never.

(** ** Ranges *)

Lemma len_range lo hi : len (range lo hi) = hi - lo.
Proof. unfold range, len. rewrite length_fmap, length_seq. lia. Qed.

Lemma range_lookup lo hi k : N.of_nat k < hi - lo -> range lo hi !! k = Some (lo + N.of_nat k).
Proof.
  intros H. unfold range. rewrite list_lookup_fmap, lookup_seq_lt by lia. simpl. f_equal; lia.
Qed.

Lemma elem_of_range lo hi i : i ∈ range lo hi <-> lo <= i < hi.
Proof.
  unfold range. rewrite list_elem_of_fmap. split.
  - intros (k & -> & Hk). apply elem_of_seq in Hk. lia.
  - intros H. exists (N.to_nat (i - lo)). split; [lia|]. apply elem_of_seq. lia.
Qed.

Lemma range_shift a n : range a (a + n) = (fun i => a + i) <$> range 0 n.
Proof.
  unfold range. replace (a + n - a) with (n - 0) by lia. rewrite <-list_fmap_compose.
  apply list_fmap_ext. intros _ i _. simpl. lia.
Qed.

Lemma range_app a b c : a <= b -> b <= c -> range a c = range a b ++ range b c.
Proof.
  intros. unfold range. replace (N.to_nat (c - a)) with (N.to_nat (b - a) + N.to_nat (c - b))%nat by lia.
  rewrite seq_app, fmap_app. f_equal. simpl.
  rewrite <-(Nat.add_0_r (N.to_nat (b - a))) at 1. rewrite <-fmap_add_seq, <-list_fmap_compose.
  apply list_fmap_ext. intros _ i _. simpl. lia.
Qed.

Lemma StronglySorted_filter_list {A} (R : A -> A -> Prop) (P : A -> Prop) `{!forall x, Decision (P x)} l :
  StronglySorted R l -> StronglySorted R (filter P l).
Proof.
  induction 1 as [|x l Hl IH Hx]; [constructor|]. rewrite filter_cons. destruct (decide (P x)); [|done].
  constructor; [done|]. apply Forall_forall. intros y [_ Hy]%list_elem_of_filter.
  by apply (proj1 (Forall_forall _ _) Hx).
Qed.

Lemma seq_fmap_sorted a b n : StronglySorted N.lt ((fun i => a + N.of_nat i) <$> seq b n).
Proof.
  revert b. induction n as [|n IH]; intros b; csimpl; constructor; [apply IH|].
  apply Forall_fmap, Forall_forall. intros i Hi%elem_of_seq. simpl. lia.
Qed.

Lemma range_sorted lo hi : StronglySorted N.lt (range lo hi).
Proof. apply seq_fmap_sorted. Qed.

Lemma range_0_succ k : range 0 (1 + k) = 0 :: (N.add 1 <$> range 0 k).
Proof. rewrite (range_app 0 1) by lia. by rewrite range_shift. Qed.

Lemma NoDup_incl_length_list {A} (l k : list A) : NoDup l -> l ⊆ k -> (length l <= length k)%nat.
Proof.
  intros Hnd Hsub. apply NoDup_incl_length; [by apply NoDup_ListNoDup|].
  intros x Hx. apply list_elem_of_In, Hsub. by apply list_elem_of_In.
Qed.

(** ** Running the state monad *)

Lemma mbind_Ok {S E A B} (c : M S E A) (k : A -> M S E B) s a s' :
  c s = (Ok a, s') -> mbind c k s = k a s'.
Proof. intros H. unfold mbind. by rewrite H. Qed.

Lemma mbind_Ok_split {St E A B} (c : M St E A) (k : A -> M St E B) s b s' :
  mbind c k s = (Ok b, s') -> exists a s1, c s = (Ok a, s1) /\ k a s1 = (Ok b, s').
Proof. unfold mbind. destruct (c s) as [[a|e| |] s1]; [|done..]. eauto. Qed.

Lemma mbind_Err {S E A B} (c : M S E A) (k : A -> M S E B) s e s' :
  c s = (Err e, s') -> mbind c k s = (Err e, s').
Proof. intros H. unfold mbind. by rewrite H. Qed.

Lemma mbind_mget {S E B} (k : S -> M S E B) s : mbind mget k s = k s s.
Proof. done. Qed.

Lemma mbind_mmodify {S E B} (f : S -> S) (k : unit -> M S E B) s : mbind (mmodify f) k s = k tt (f s).
Proof. done. Qed.

Lemma mbind_mlift_Ok {S E A B} (a : A) (k : A -> M S E B) s : mbind (mlift (Ok a)) k s = k a s.
Proof. done. Qed.

Lemma mbind_mlift_Err {S E A B} (e : E) (k : A -> M S E B) s : mbind (mlift (Err e)) k s = (Err e, s).
Proof. done. Qed.

Lemma mbind_mret {S E A B} (a : A) (k : A -> M S E B) s : mbind (mret a) k s = k a s.
Proof. done. Qed.

Create Rewrite HintDb monad.
#[export] Hint Rewrite @mbind_mget @mbind_mmodify @mbind_mlift_Ok @mbind_mlift_Err @mbind_mret : monad.

(** [mstep] runs the reductions of the state monad. *)
Ltac mstep := autorewrite with monad; cbv beta.
