(* ===== verification/Types.v ===== *)
(** * The [types] crate: byte vectors, little-endian integers, small newtypes

    Models [crates/types/src]: [error.rs], [byte_arrays.rs], [uint.rs],
    [boolean.rs], [basispt.rs] and [bytes.rs].  A Rust array [[u8; N]] is a list
    of bytes together with the proof that it has [N] elements, so its width is
    part of the type as it is in Rust.  A Rust string is its list of bytes. *)

From stdpp Require Import base numbers list gmap strings pretty.
From Stdlib Require Import Strings.Byte.
From S2P Require Import Prelude.

(** ** Errors ([error.rs]) *)

Inductive TypesError :=
| InvalidByteLength (type_name : string) (want got : N)
| InvalidBooleanByte (value : u8)
| BasisPointOutOfRange (value : N)
| ByteListLimitExceeded (limit got : N)
| BitlistLimitExceeded (limit got : N)
| InvalidBitlistEncoding
| InvalidBitvectorEncoding (length : N)
| BitvectorIndexOutOfBounds (length got : N)
| InvalidHexEncoding (type_name detail : string).

(** [{value:02x}] of a byte. *)
Definition hex_byte_display (b : u8) : string :=
  let digit v := if v <? 10 then u8_of_N (48 + v) else u8_of_N (87 + v) in
  String.string_of_list_byte [digit (Byte.to_N b / 16); digit (Byte.to_N b mod 16)].

(** The [Display] texts of the error. *)
Definition TypesError_display (e : TypesError) : string :=
  (match e with
  | InvalidByteLength type_name want got =>
      type_name +:+ " expects exactly " +:+ pretty want +:+ " bytes, got " +:+ pretty got
  | InvalidBooleanByte value =>
      "invalid SSZ boolean byte: 0x" +:+ hex_byte_display value +:+ " (must be 0x00 or 0x01)"
  | BasisPointOutOfRange value => "BasisPoint value " +:+ pretty value +:+ " exceeds the maximum of 10_000"
  | ByteListLimitExceeded limit got => "byte list length " +:+ pretty got +:+ " exceeds limit " +:+ pretty limit
  | BitlistLimitExceeded limit got => "bitlist limit " +:+ pretty limit +:+ " exceeded by " +:+ pretty got +:+ " bits"
  | InvalidBitlistEncoding => "invalid bitlist encoding (missing delimiter bit)"
  | InvalidBitvectorEncoding length =>
      "invalid bitvector encoding: trailing bits beyond length " +:+ pretty length +:+ " must be zero"
  | BitvectorIndexOutOfBounds length got =>
      "bitvector index " +:+ pretty got +:+ " out of bounds (length " +:+ pretty length +:+ ")"
  | InvalidHexEncoding type_name detail => type_name +:+ " hex decode failed: " +:+ detail
  end)%string.

(** ** Little-endian integers ([uint.rs]) *)

(** The shared shape of [decode_u8_le] .. [decode_u64_le]: the slice must have
    exactly the width of the integer. *)
Definition decode_uint_le (type_name : string) (width : N) (data : list u8) : Outcome TypesError N :=
  if len data =? width then Ok (from_le_bytes data)
  else Err (InvalidByteLength type_name width (len data)).

Definition decode_u8_le := decode_uint_le "u8" 1.
Definition decode_u16_le := decode_uint_le "u16" 2.
Definition decode_u32_le := decode_uint_le "u32" 4.
Definition decode_u64_le := decode_uint_le "u64" 8.

(** ** Booleans ([boolean.rs]) *)

Definition decode_boolean (data : list u8) : Outcome TypesError bool :=
  match data with
  | [b] =>
      if bool_decide (b = x00) then Ok false
      else if bool_decide (b = x01) then Ok true
      else Err (InvalidBooleanByte b)
  | _ => Err (InvalidByteLength "bool" 1 (len data))
  end.

(** ** Basis points ([basispt.rs]) *)

Definition MAX_BASIS_POINT : N := 10000.

Record BasisPoint := mkBasisPoint { bp_get : N }.

Definition basis_point_new (value : N) : Outcome TypesError BasisPoint :=
  if MAX_BASIS_POINT <? value then Err (BasisPointOutOfRange value)
  else Ok (mkBasisPoint value).

(** ** Bounded byte lists ([bytes.rs]) *)

Record ByteList := mkByteList { bl_bytes : list u8; bl_limit : N }.

Definition bytelist_try_new (bytes : list u8) (limit : N) : Outcome TypesError ByteList :=
  if limit <? len bytes then Err (ByteListLimitExceeded limit (len bytes))
  else Ok (mkByteList bytes limit).

(** ** Fixed-width byte vectors ([byte_arrays.rs]) *)

Record ByteVector (n : N) := BV { as_slice : list u8; bv_len : len as_slice = n }.
Arguments BV {n} as_slice bv_len.
Arguments as_slice {n} b.
Arguments bv_len {n} b.

Abbreviation Bytes32 := (ByteVector 32).
Abbreviation Signature := (ByteVector 3116).
Abbreviation PublicKey := (ByteVector 52).

Lemma bytevector_eq {n} (a b : ByteVector n) : as_slice a = as_slice b -> a = b.
Proof.
  destruct a as [l p], b as [k q]; simpl. intros ->. f_equal. apply proof_irrel.
Qed.

#[export] Instance bytevector_eq_dec {n} : EqDecision (ByteVector n).
Proof.
  intros a b. destruct (decide (as_slice a = as_slice b)) as [H|H].
  - left. by apply bytevector_eq.
  - right. congruence.
Defined.

(** [copy_from_slice] of a slice of the right length, [None] otherwise. *)
Definition bv_of_list (n : N) (l : list u8) : option (ByteVector n) :=
  match decide (len l = n) with
  | left H => Some (BV l H)
  | right _ => None
  end.

Lemma bv_of_list_as_slice {n} (v : ByteVector n) : bv_of_list n (as_slice v) = Some v.
Proof.
  unfold bv_of_list. destruct (decide _) as [H|H].
  - f_equal. by apply bytevector_eq.
  - destruct v as [l p]; simpl in *. congruence.
Qed.

Lemma bv_of_list_Some {n} l (v : ByteVector n) : bv_of_list n l = Some v -> as_slice v = l.
Proof. unfold bv_of_list. destruct (decide _); intros; by simplify_eq. Qed.

Lemma bv_of_list_is_Some n l : len l = n -> exists v : ByteVector n, bv_of_list n l = Some v /\ as_slice v = l.
Proof.
  intros H. unfold bv_of_list. destruct (decide _) as [H'|H']; [|done]. by exists (BV l H').
Qed.

#[export] Program Instance bytevector_countable {n} : Countable (ByteVector n) :=
  inj_countable as_slice (bv_of_list n) _.
Next Obligation. intros n v. apply bv_of_list_as_slice. Qed.

(** [ByteVector::zero], the [Default]. *)
Program Definition bv_zero (n : N) : ByteVector n := BV (replicate (N.to_nat n) x00) _.
Next Obligation. intros n. rewrite len_replicate. apply N2Nat.id. Qed.

#[export] Instance bytevector_inhabited {n} : Inhabited (ByteVector n) := populate (bv_zero n).

(** The derived [Ord]: lexicographic on the bytes. *)
Definition bv_compare {n} (a b : ByteVector n) : comparison :=
  bytes_compare (as_slice a) (as_slice b).
Definition bv_lt {n} (a b : ByteVector n) : Prop := bv_compare a b = Lt.
Definition bv_le {n} (a b : ByteVector n) : Prop := bv_compare a b <> Gt.

#[export] Instance bv_le_dec {n} (a b : ByteVector n) : Decision (bv_le a b).
Proof. unfold bv_le. apply _. Defined.
#[export] Instance bv_lt_dec {n} (a b : ByteVector n) : Decision (bv_lt a b).
Proof. unfold bv_lt. apply _. Defined.

(** [TryFrom<&[u8]>]. *)
Definition bv_try_from_slice (n : N) (bytes : list u8) : Outcome TypesError (ByteVector n) :=
  match bv_of_list n bytes with
  | Some v => Ok v
  | None => Err (InvalidByteLength "ByteVector" n (len bytes))
  end.

(** The lower-case digit of a nibble, as printed by [{:02x}]. *)
Definition hex_digit (v : N) : u8 := if v <? 10 then u8_of_N (48 + v) else u8_of_N (87 + v).

Definition to_hex {n} (v : ByteVector n) : list u8 :=
  [x30; x78] ++ concat ((fun b => [hex_digit (Byte.to_N b / 16); hex_digit (Byte.to_N b mod 16)]) <$> as_slice v).

Definition hex_nibble (c : u8) : Outcome TypesError N :=
  let v := Byte.to_N c in
  if (48 <=? v) && (v <=? 57) then Ok (v - 48)
  else if (97 <=? v) && (v <=? 102) then Ok (v - 97 + 10)
  else if (65 <=? v) && (v <=? 70) then Ok (v - 65 + 10)
  else Err (InvalidHexEncoding "ByteVector" "non-hex character").

(** [s.strip_prefix("0x").or_else(|| s.strip_prefix("0X")).unwrap_or(s)]. *)
Definition strip_0x (s : list u8) : list u8 :=
  match s with
  | a :: b :: rest =>
      if bool_decide (a = x30) && (bool_decide (b = x78) || bool_decide (b = x58)) then rest else s
  | _ => s
  end.

(** The [chunks_exact(2)] loop that fills the array. *)
Fixpoint decode_hex_pairs (hex : list u8) : Outcome TypesError (list u8) :=
  match hex with
  | hi :: lo :: rest =>
      let? h := hex_nibble hi in
      let? l := hex_nibble lo in
      let? bs := decode_hex_pairs rest in
      Ok (u8_of_N (N.lor (N.shiftl h 4) l) :: bs)
  | _ => Ok []
  end.

(** [TryFrom<&str>]. *)
Definition bv_try_from_hex (n : N) (s : list u8) : Outcome TypesError (ByteVector n) :=
  let hex := strip_0x s in
  if negb (len hex mod 2 =? 0) then Err (InvalidHexEncoding "ByteVector" "odd number of hex digits")
  else if negb (len hex =? 2 * n) then Err (InvalidByteLength "ByteVector" n (len hex / 2))
  else
    let? bs := decode_hex_pairs hex in
    match bv_of_list n bs with Some v => Ok v | None => Panic end.

(** ** Order lemmas *)

Lemma bv_compare_eq {n} (a b : ByteVector n) : bv_compare a b = Eq <-> a = b.
Proof.
  unfold bv_compare. rewrite bytes_compare_eq. split; [apply bytevector_eq|by intros ->].
Qed.

Lemma bv_le_lt_eq {n} (a b : ByteVector n) : bv_le a b <-> bv_lt a b \/ a = b.
Proof.
  unfold bv_le, bv_lt. rewrite <-bv_compare_eq. destruct (bv_compare a b); intuition discriminate.
Qed.

#[export] Instance bv_lt_trans {n} : Transitive (@bv_lt n).
Proof. intros a b c. unfold bv_lt, bv_compare. apply bytes_compare_lt_trans. Qed.

#[export] Instance bv_lt_irrefl {n} : Irreflexive (@bv_lt n).
Proof. intros a H. unfold bv_lt in H. by rewrite (proj2 (bv_compare_eq a a)) in H. Qed.

#[export] Instance bv_le_trans {n} : Transitive (@bv_le n).
Proof.
  intros a b c. rewrite !bv_le_lt_eq. intros [H1| ->] [H2| ->]; auto.
  left. by transitivity b.
Qed.

#[export] Instance bv_le_total {n} : Total (@bv_le n).
Proof.
  intros a b. unfold bv_le, bv_compare. rewrite (bytes_compare_antisym (as_slice a) (as_slice b)).
  destruct (bytes_compare _ _); simpl; naive_solver.
Qed.

#[export] Instance bv_le_antisym {n} : AntiSymm (=) (@bv_le n).
Proof.
  intros a b. rewrite !bv_le_lt_eq. intros [H1|E1] [H2|E2]; try done.
  exfalso. apply (irreflexivity bv_lt a). by transitivity b.
Qed.

Lemma bv_not_le {n} (a b : ByteVector n) : ~ bv_le a b <-> bv_lt b a.
Proof.
  unfold bv_le, bv_lt, bv_compare. rewrite (bytes_compare_antisym (as_slice a) (as_slice b)).
  destruct (bytes_compare _ _); simpl; naive_solver.
Qed.

(** ** Integer and hex decoding *)

Lemma decode_u64_le_round_trip v : u64_ok v -> decode_u64_le (to_le_bytes 8 v) = Ok v.
Proof.
  intros H. unfold decode_u64_le, decode_uint_le. rewrite len_to_le_bytes. simpl.
  rewrite from_to_le_bytes. f_equal. by apply N.mod_small.
Qed.

Lemma hex_nibble_digit v : v < 16 -> hex_nibble (hex_digit v) = Ok v.
Proof.
  intros H. assert (Hv : v ∈ range 0 16).
  { unfold range. apply list_elem_of_fmap. exists (N.to_nat v).
    split; [lia|]. apply elem_of_seq. lia. }
  clear H. revert v Hv. apply Forall_forall. vm_compute. repeat constructor.
Qed.

Lemma join_nibbles (b : u8) :
  u8_of_N (N.lor (N.shiftl (Byte.to_N b / 16) 4) (Byte.to_N b mod 16)) = b.
Proof. destruct b; vm_compute; reflexivity. Qed.

Lemma decode_hex_pairs_encode (l : list u8) :
  decode_hex_pairs
    (concat ((fun b => [hex_digit (Byte.to_N b / 16); hex_digit (Byte.to_N b mod 16)]) <$> l)) = Ok l.
Proof.
  induction l as [|b l IH]; [done|]. csimpl. pose proof (byte_to_N_bound b).
  rewrite !hex_nibble_digit by (first [apply N.Div0.div_lt_upper_bound | apply N.mod_lt]; lia).
  cbn [obind]. rewrite IH. cbn [obind]. by rewrite join_nibbles.
Qed.

Lemma length_hex_body (l : list u8) :
  len (concat ((fun b => [hex_digit (Byte.to_N b / 16); hex_digit (Byte.to_N b mod 16)]) <$> l)) = 2 * len l.
Proof.
  induction l as [|b l IH]; [done|]. csimpl. autorewrite with len. rewrite IH. lia.
Qed.

Lemma decode_hex_pairs_length (l k : list u8) :
  decode_hex_pairs l = Ok k -> len k = len l / 2.
Proof.
  remember (length l) as m eqn:Hm. revert l k Hm.
  induction m as [m IH] using lt_wf_ind; intros [|a [|b l]] k Hm H; simpl in H; inv_ok; try done.
  rewrite !len_cons. erewrite (IH (length l)); [|simpl in *; lia|done|done].
  rewrite N.add_assoc. replace (1 + 1 + len l) with (len l + 1 * 2) by lia.
  rewrite N.div_add by done. lia.
Qed.

Lemma hex_nibble_returned c : returned (hex_nibble c).
Proof. unfold hex_nibble. by repeat case_match. Qed.

Lemma decode_hex_pairs_returned (l : list u8) : len l mod 2 = 0 -> returned (decode_hex_pairs l).
Proof.
  remember (length l) as m eqn:Hm. revert l Hm.
  induction m as [m IH] using lt_wf_ind; intros [|a [|b l]] Hm Hl; [done|done|].
  simpl. pose proof (hex_nibble_returned a). destruct (hex_nibble a); [|done..].
  pose proof (hex_nibble_returned b). destruct (hex_nibble b); [|done..]. cbn [obind].
  assert (Hr : returned (decode_hex_pairs l)).
  { apply (IH (length l)); [simpl in *; lia|done|]. rewrite !len_cons in Hl. dlia. }
  by destruct (decode_hex_pairs l).
Qed.

(** ** Correctness *)

(** Hexadecimal text is a faithful rendering of a byte vector: parsing the
    text [to_hex] prints returns the same vector, for every length, and
    parsing returns a value or an error, without a panic, on any text. *)
Theorem to_hex_round_trip n :
  (forall v : ByteVector n, bv_try_from_hex n (to_hex v) = Ok v) /\
  (forall s, returned (bv_try_from_hex n s)).
Proof.
  unfold bv_try_from_hex, to_hex. split.
  - intros v. pose proof (bv_len v) as Hn. 
    match goal with |- context [strip_0x ([x30; x78] ++ ?b)] => change (strip_0x ([x30; x78] ++ b)) with b end.
    rewrite !length_hex_body, Hn, N.eqb_refl. replace (2 * n mod 2) with 0 by dlia. cbn [N.eqb negb].
    rewrite decode_hex_pairs_encode. cbn [obind]. by rewrite bv_of_list_as_slice.
  - intros s. destruct (N.eqb_spec (len (strip_0x s) mod 2) 0) as [He|]; [|done]. cbn [negb].
    destruct (N.eqb_spec (len (strip_0x s)) (2 * n)) as [Hl|]; [|done]. cbn [negb].
    pose proof (decode_hex_pairs_returned _ He) as Hr.
    destruct (decode_hex_pairs _) as [bs| | |] eqn:Hd; [|done..]. cbn [obind].
    apply decode_hex_pairs_length in Hd.
    destruct (bv_of_list_is_Some n bs) as (v & -> & _); [|done]. rewrite Hd, Hl. dlia.
Qed.
