(* ===== verification/Config.v ===== *)
(** * Chain configuration ([crates/config])

    The devnet0 [Config] record with its preset, and [validate]: the four
    basis-point fields in range and the two slot durations in agreement.  Loading
    from YAML is [config_from_yaml] of [Genesis]. *)

From stdpp Require Import base numbers list strings.
From Stdlib Require Import ZArith Lia.
From S2P Require Import Prelude Types.

Record Config := mkConfig {
  slot_duration_ms : N;
  seconds_per_slot : N;
  justification_lookback_slots : N;
  proposer_reorg_cutoff_bps : N;
  vote_due_bps : N;
  fast_confirm_due_bps : N;
  view_freeze_cutoff_bps : N;
  historical_roots_limit : N;
  validator_registry_limit : N;
}.

Definition DEVNET_CONFIG : Config := {|
  slot_duration_ms := 4000;
  seconds_per_slot := 4;
  justification_lookback_slots := 3;
  proposer_reorg_cutoff_bps := 2500;
  vote_due_bps := 5000;
  fast_confirm_due_bps := 7500;
  view_freeze_cutoff_bps := 7500;
  historical_roots_limit := N.shiftl 1 18;
  validator_registry_limit := N.shiftl 1 12;
|}.

Definition INTERVALS_PER_SLOT : N := 4.
Definition JUSTIFICATION_LOOKBACK_SLOTS : N := 3.
Definition SECONDS_PER_INTERVAL : N := seconds_per_slot DEVNET_CONFIG / INTERVALS_PER_SLOT.
Definition VALIDATOR_REGISTRY_LIMIT : N := validator_registry_limit DEVNET_CONFIG.

Inductive ConfigError :=
| ConfigBasisPointOutOfRange (field : string) (value : N)
| SlotDurationMismatch (slot_duration_ms seconds_per_slot : N).

Definition basis_point_fields (cfg : Config) : list (string * N) :=
  [("proposer_reorg_cutoff_bps", proposer_reorg_cutoff_bps cfg);
   ("vote_due_bps", vote_due_bps cfg);
   ("fast_confirm_due_bps", fast_confirm_due_bps cfg);
   ("view_freeze_cutoff_bps", view_freeze_cutoff_bps cfg)]%string.

Definition slot_duration_mismatch (cfg : Config) : ConfigError :=
  SlotDurationMismatch (slot_duration_ms cfg) (seconds_per_slot cfg).

(** [for (field, value) in fields { if BasisPoint::new(value).is_err() { return Err } }]. *)
Fixpoint validate_fields (fields : list (string * N)) : Outcome ConfigError unit :=
  match fields with
  | [] => Ok tt
  | (field, value) :: fields' =>
      match basis_point_new value with
      | Ok _ => validate_fields fields'
      | _ => Err (ConfigBasisPointOutOfRange field value)
      end
  end.

Definition validate (cfg : Config) : Outcome ConfigError unit :=
  let? _ := validate_fields (basis_point_fields cfg) in
  let consistent :=
    match checked_mul (seconds_per_slot cfg) 1000 with
    | Some derived_ms => derived_ms =? slot_duration_ms cfg
    | None => false
    end in
  if negb consistent then Err (slot_duration_mismatch cfg) else Ok tt.

Lemma validate_fields_cases fields :
  match validate_fields fields with
  | Ok _ => Forall (fun fv => fv.2 <= MAX_BASIS_POINT) fields
  | Err (ConfigBasisPointOutOfRange f v) =>
      exists i, fields !! i = Some (f, v) /\ MAX_BASIS_POINT < v /\
                Forall (fun fv => fv.2 <= MAX_BASIS_POINT) (take i fields)
  | _ => False
  end.
Proof.
  induction fields as [|[f v] fields IH]; [by constructor|]. simpl. unfold basis_point_new.
  destruct (N.ltb_spec MAX_BASIS_POINT v) as [Hlt|Hge].
  { by exists 0%nat. }
  destruct (validate_fields fields) as [| [f' v'|] | |]; try done.
  - by constructor.
  - destruct IH as (i & ? & ? & ?). exists (S i). split_and!; [done|done|]. simpl. by constructor.
Qed.

(** [Config::validate] accepts exactly the configurations whose four
    basis-point fields are at most 10,000 and whose slot duration in
    milliseconds is a thousand times the one in seconds; otherwise it reports
    the first field out of range, or else the two durations. *)
Theorem validate_config_spec cfg :
  u64_ok (slot_duration_ms cfg) ->
  match validate cfg with
  | Ok _ => Forall (fun fv => fv.2 <= MAX_BASIS_POINT) (basis_point_fields cfg) /\
            slot_duration_ms cfg = seconds_per_slot cfg * 1000
  | Err (ConfigBasisPointOutOfRange f v) =>
      exists i, basis_point_fields cfg !! i = Some (f, v) /\ MAX_BASIS_POINT < v /\
                Forall (fun fv => fv.2 <= MAX_BASIS_POINT) (take i (basis_point_fields cfg))
  | Err (SlotDurationMismatch ms s) =>
      Forall (fun fv => fv.2 <= MAX_BASIS_POINT) (basis_point_fields cfg) /\
      ms = slot_duration_ms cfg /\ s = seconds_per_slot cfg /\ ms <> s * 1000
  | _ => False
  end.
Proof.
  intros Hms. unfold validate. pose proof (validate_fields_cases (basis_point_fields cfg)) as Hf.
  destruct (validate_fields _) as [| [f v|] | |]; try done. cbn [obind].
  unfold checked_mul. destruct (N.ltb_spec (seconds_per_slot cfg * 1000) u64_bound) as [Hlt|Hge].
  - destruct (N.eqb_spec (seconds_per_slot cfg * 1000) (slot_duration_ms cfg)); simpl; auto.
  - simpl. split_and!; [done..|]. unfold u64_ok in Hms. lia.
Qed.

Lemma validate_config_spec_witness :
  validate DEVNET_CONFIG = Ok tt /\ slot_duration_ms DEVNET_CONFIG = seconds_per_slot DEVNET_CONFIG * 1000.
Proof. split; [done|]. apply (validate_config_spec DEVNET_CONFIG). by vm_compute. Defined.
