(* ===== verification/Bitfields.v ===== *)
(** * SSZ bitfields ([crates/types/src/bitfields.rs])

    [Bitvector<N>] and [Bitlist<LIMIT>] as the code stores them: packed bytes,
    least significant bit first.  The fields are private in Rust, so the invariant
    [bitlist_wf] is a type invariant; every operation keeps it.  [bits] is the
    abstraction to a list of booleans, and the theorems show that the packed
    operations implement the list operations and that the SSZ encoding with its
    delimiter bit is a bijection between well-formed bitlists and the byte strings
    the decoder accepts. *)

From stdpp Require Import base numbers list sorting gmap strings.
From Stdlib Require Import Strings.Byte ZArith Lia.
From S2P Require Import Prelude Types.

(** ** Packed bits *)

(** [bytes[i / 8] & (1 << (i % 8)) != 0]. *)
Definition bit_test {E} (bytes : list u8) (i : N) : Outcome E bool :=
  let? b := index bytes (i / 8) in
  Ok (negb (bool_decide (u8_and b (u8_shl1 (i mod 8)) = x00))).

(** [let byte = &mut bytes[i / 8]; if value { *byte |= mask } else { *byte &= !mask }]. *)
Definition bit_write {E} (bytes : list u8) (i : N) (value : bool) : Outcome E (list u8) :=
  let? b := index bytes (i / 8) in
  let mask := u8_shl1 (i mod 8) in
  index_set bytes (i / 8) (if value then u8_or b mask else u8_and b (u8_not mask)).

(** [u8::count_ones]. *)
Definition u8_count_ones (b : u8) : N :=
  len (filter (fun i => u8_bit b i = true) (range 0 8)).

Definition bytes_count_ones (bytes : list u8) : N :=
  foldr (fun b acc => u8_count_ones b + acc) 0 bytes.

(** ** [Bitvector<N>] *)

Record Bitvector (n : N) := mkBitvector { bvec_bytes : list u8 }.
Arguments mkBitvector {n} bvec_bytes.
Arguments bvec_bytes {n} b.

Definition bitvector_new (n : N) : Bitvector n :=
  mkBitvector (replicate (N.to_nat (div_ceil n 8)) x00).

Definition bitvector_get {E n} (bv : Bitvector n) (i : N) : Outcome E (option bool) :=
  if n <=? i then Ok None
  else let? b := bit_test (bvec_bytes bv) i in Ok (Some b).

Definition bitvector_set {n} (bv : Bitvector n) (i : N) (value : bool) : Outcome TypesError (Bitvector n) :=
  if n <=? i then Err (BitvectorIndexOutOfBounds n i)
  else let? bytes := bit_write (bvec_bytes bv) i value in Ok (mkBitvector bytes).

Definition bitvector_from_bytes (n : N) (data : list u8) : Outcome TypesError (Bitvector n) :=
  let want := div_ceil n 8 in
  if negb (len data =? want) then Err (InvalidByteLength "Bitvector" want (len data))
  else if negb (n mod 8 =? 0) then
    let trailing_mask := u8_not (u8_of_N (N.shiftl 1 (n mod 8) - 1)) in
    let? last := index data (want - 1) in
    if negb (bool_decide (u8_and last trailing_mask = x00))
    then Err (InvalidBitvectorEncoding n)
    else Ok (mkBitvector data)
  else Ok (mkBitvector data).

(** ** [Bitlist<LIMIT>] *)

Record Bitlist (limit : N) := mkBitlist { blist_bytes : list u8; blist_length : N }.
Arguments mkBitlist {limit} blist_bytes blist_length.
Arguments blist_bytes {limit} b.
Arguments blist_length {limit} b.

#[export] Instance bitlist_eq_dec {limit} : EqDecision (Bitlist limit).
Proof. solve_decision. Defined.

Definition bitlist_new (limit : N) : Bitlist limit := mkBitlist [] 0.

Definition bitlist_with_length (limit length : N) : Outcome TypesError (Bitlist limit) :=
  if limit <? length then Err (BitlistLimitExceeded limit length)
  else Ok (mkBitlist (replicate (N.to_nat (div_ceil length 8)) x00) length).

Definition bitlist_get {E limit} (bl : Bitlist limit) (i : N) : Outcome E (option bool) :=
  if blist_length bl <=? i then Ok None
  else let? b := bit_test (blist_bytes bl) i in Ok (Some b).

Definition bitlist_set {limit} (bl : Bitlist limit) (i : N) (value : bool) : Outcome TypesError (Bitlist limit) :=
  if limit <=? i then Err (BitlistLimitExceeded limit i)
  else
    let bl :=
      if blist_length bl <=? i
      then mkBitlist (resize_vec (div_ceil (i + 1) 8) x00 (blist_bytes bl)) (i + 1)
      else bl in
    let? bytes := bit_write (blist_bytes bl) i value in
    Ok (mkBitlist bytes (blist_length bl)).

Definition bitlist_count_ones {limit} (bl : Bitlist limit) : N := bytes_count_ones (blist_bytes bl).

(** [(0..length).filter(|i| bit i)], evaluated eagerly. *)
Fixpoint filter_bits {E} (bytes : list u8) (idxs : list N) : Outcome E (list N) :=
  match idxs with
  | [] => Ok []
  | i :: idxs' =>
      let? b := bit_test bytes i in
      let? rest := filter_bits bytes idxs' in
      Ok (if b : bool then i :: rest else rest)
  end.

Definition bitlist_iter_set_indices {E limit} (bl : Bitlist limit) : Outcome E (list N) :=
  filter_bits (blist_bytes bl) (range 0 (blist_length bl)).

Definition bitlist_as_bytes {E limit} (bl : Bitlist limit) : Outcome E (list u8) :=
  let delimiter_byte := blist_length bl / 8 in
  let delimiter_bit := blist_length bl mod 8 in
  let out := if len (blist_bytes bl) <=? delimiter_byte then blist_bytes bl ++ [x00] else blist_bytes bl in
  let? b := index out delimiter_byte in
  index_set out delimiter_byte (u8_or b (u8_shl1 delimiter_bit)).

Definition bitlist_from_bytes (limit : N) (data : list u8) : Outcome TypesError (Bitlist limit) :=
  match last data with
  | None => Err InvalidBitlistEncoding
  | Some last =>
      if bool_decide (last = x00) then Err InvalidBitlistEncoding
      else
        let highest_bit := N.log2 (Byte.to_N last) in
        let length := (len data - 1) * 8 + highest_bit in
        if limit <? length then Err (BitlistLimitExceeded limit length)
        else
          let expected_bytes_len := div_ceil length 8 in
          let last_idx := len data - 1 in
          let? b := index data last_idx in
          let? bytes := index_set data last_idx (u8_and b (u8_not (u8_shl1 highest_bit))) in
          Ok (mkBitlist (take (N.to_nat expected_bytes_len) bytes) length)
  end.

(** ** The abstraction and the invariant *)

(** The bit at position [i] of packed bytes; positions past the end read as
    false. *)
Definition bit_at (bytes : list u8) (i : N) : bool :=
  match bytes !! N.to_nat (i / 8) with Some b => u8_bit b (i mod 8) | None => false end.

(** The live bits of a bitlist. *)
Definition bits {limit} (bl : Bitlist limit) : list bool :=
  bit_at (blist_bytes bl) <$> range 0 (blist_length bl).
#[global] Arguments bits : simpl never.

Record bitlist_wf {limit} (bl : Bitlist limit) : Prop := {
  wf_limit : blist_length bl <= limit;
  wf_bytes : len (blist_bytes bl) = div_ceil (blist_length bl) 8;
  wf_tail : forall i, blist_length bl <= i -> bit_at (blist_bytes bl) i = false;
}.

(** [set] on the abstraction: grow with [false], then write. *)
Definition list_set_grow (l : list bool) (i : N) (v : bool) : list bool :=
  <[N.to_nat i := v]> (l ++ replicate (S (N.to_nat i) - length l) false).

(** ** Bit-level lemmas *)

Lemma div_ceil_8 n : div_ceil n 8 = (n + 7) / 8.
Proof. unfold div_ceil. destruct (N.eqb_spec (n mod 8) 0); dlia. Qed.

(** Byte strings of the same length are equal when their bits are. *)
Lemma bytes_ext (a b : list u8) :
  length a = length b -> (forall i, bit_at a i = bit_at b i) -> a = b.
Proof.
  intros Hlen Hbits. apply list_eq_same_length with (length a); [done|done|].
  intros k x y _ Hx Hy. apply u8_eq_bits. intros i Hi.
  specialize (Hbits (8 * N.of_nat k + i)). unfold bit_at in Hbits.
  replace ((8 * N.of_nat k + i) / 8) with (N.of_nat k) in Hbits by dlia.
  replace ((8 * N.of_nat k + i) mod 8) with i in Hbits by dlia.
  rewrite Nat2N.id, Hx, Hy in Hbits. done.
Qed.

Lemma bit_at_beyond bytes i : 8 * len bytes <= i -> bit_at bytes i = false.
Proof.
  intros H. unfold bit_at. rewrite lookup_ge_None_2; [done|]. unfold len in H. dlia.
Qed.

Lemma bit_test_spec {E} bytes i : i < 8 * len bytes -> @bit_test E bytes i = Ok (bit_at bytes i).
Proof.
  intros Hi. unfold bit_test, bit_at.
  destruct (index_Ok (E:=E) bytes (i / 8)) as (b & -> & ->); [dlia|]. cbn [obind]. f_equal.
  assert (Hm : i mod 8 < 8) by dlia.
  destruct (u8_bit b (i mod 8)) eqn:Hb.
  - rewrite bool_decide_eq_false_2; [done|]. intros H.
    apply (f_equal (fun x => u8_bit x (i mod 8))) in H.
    autorewrite with u8_bits in H. rewrite Hb, N.eqb_refl, (proj2 (N.ltb_lt _ _) Hm) in H. done.
  - rewrite bool_decide_eq_true_2; [done|]. apply u8_eq_bits. intros j Hj.
    autorewrite with u8_bits. destruct (N.eqb_spec (i mod 8) j) as [<-|]; [by rewrite Hb|].
    by rewrite !andb_false_r.
Qed.

Lemma bit_write_spec {E} bytes i v :
  i < 8 * len bytes ->
  exists bytes', @bit_write E bytes i v = Ok bytes' /\ length bytes' = length bytes /\
    forall j, bit_at bytes' j = if decide (j = i) then v else bit_at bytes j.
Proof.
  intros Hi. unfold bit_write.
  destruct (index_Ok (E:=E) bytes (i / 8)) as (b & -> & Hb); [dlia|]. cbn [obind].
  unfold index_set. rewrite (proj2 (N.ltb_lt (i / 8) (len bytes))) by dlia.
  eexists. split; [done|]. split; [by rewrite length_insert|].
  intros j. unfold bit_at.
  destruct (decide (j / 8 = i / 8)) as [Hd|Hd].
  - rewrite Hd, list_lookup_insert_eq by (unfold len in Hi; dlia). rewrite Hb.
    assert (Hj : j mod 8 < 8) by dlia. assert (Hm : i mod 8 < 8) by dlia.
    destruct (decide (j = i)) as [->|Hne].
    + destruct v; autorewrite with u8_bits; rewrite ?u8_bit_not by done;
        autorewrite with u8_bits; rewrite N.eqb_refl, (proj2 (N.ltb_lt _ _) Hm);
        simpl; by rewrite ?orb_true_r, ?andb_false_r.
    + assert (Hmod : i mod 8 <> j mod 8) by dlia. apply N.eqb_neq in Hmod.
      destruct v; autorewrite with u8_bits; rewrite ?u8_bit_not by done;
        autorewrite with u8_bits; rewrite Hmod, andb_false_r; simpl;
        by rewrite ?orb_false_r, ?andb_true_r.
  - rewrite list_lookup_insert_ne by lia. rewrite decide_False by congruence. done.
Qed.

Lemma bit_at_app_zero bytes n i : bit_at (bytes ++ replicate n x00) i = bit_at bytes i.
Proof.
  unfold bit_at. destruct (decide (N.to_nat (i / 8) < length bytes)%nat) as [H|H].
  - by rewrite lookup_app_l.
  - rewrite lookup_app_r by lia. rewrite (lookup_ge_None_2 bytes) by lia.
    destruct (replicate _ _ !! _) eqn:E; [|done].
    apply lookup_replicate in E as [-> _]. apply u8_bit_zero.
Qed.

(** ** Refinement of the bitlist operations *)

Section BitlistRefinement.
Context {limit : N}.
Implicit Types bl : Bitlist limit.

Lemma length_bits bl : length (bits bl) = N.to_nat (blist_length bl).
Proof. unfold bits. rewrite length_fmap. pose proof (len_range 0 (blist_length bl)). unfold len in *. lia. Qed.

Lemma bits_lookup bl i :
  bits bl !! N.to_nat i = if i <? blist_length bl then Some (bit_at (blist_bytes bl) i) else None.
Proof.
  destruct (N.ltb_spec i (blist_length bl)).
  - unfold bits. rewrite list_lookup_fmap, range_lookup by lia. simpl. do 2 f_equal. lia.
  - apply lookup_ge_None_2. rewrite length_bits. lia.
Qed.

(** Two well-formed bitlists with the same bits are the same bitlist. *)
Lemma bitlist_ext bl1 bl2 : bitlist_wf bl1 -> bitlist_wf bl2 -> bits bl1 = bits bl2 -> bl1 = bl2.
Proof.
  intros H1 H2 Hb.
  assert (Hl : blist_length bl1 = blist_length bl2).
  { apply (f_equal length) in Hb. rewrite !length_bits in Hb. lia. }
  assert (Hbytes : blist_bytes bl1 = blist_bytes bl2).
  { apply bytes_ext.
    - pose proof (wf_bytes _ H1). pose proof (wf_bytes _ H2). unfold len in *. rewrite Hl in *. lia.
    - intros i. destruct (decide (i < blist_length bl1)) as [Hi|Hi].
      + pose proof (bits_lookup bl1 i) as L1. pose proof (bits_lookup bl2 i) as L2.
        rewrite Hb, L2 in L1. rewrite <-Hl, (proj2 (N.ltb_lt _ _) Hi) in L1. by simplify_eq.
      + rewrite (wf_tail _ H1), (wf_tail _ H2) by lia. done. }
  destruct bl1, bl2; simpl in *; by subst.
Qed.

Lemma bitlist_new_wf : bitlist_wf (bitlist_new limit).
Proof. split; simpl; [lia|done|]. intros. by apply bit_at_beyond. Qed.

Lemma bits_new : bits (bitlist_new limit) = [].
Proof. done. Qed.

Lemma bitlist_get_spec {E} bl i : bitlist_wf bl -> @bitlist_get E limit bl i = Ok (bits bl !! N.to_nat i).
Proof.
  intros [Hl Hb Ht]. unfold bitlist_get. rewrite bits_lookup.
  destruct (N.leb_spec (blist_length bl) i), (N.ltb_spec i (blist_length bl)); try lia; [done|].
  rewrite bit_test_spec; [done|]. rewrite Hb, div_ceil_8. dlia.
Qed.

Lemma bitlist_with_length_spec n :
  n <= limit ->
  exists bl, bitlist_with_length limit n = Ok bl /\ bitlist_wf bl /\ bits bl = replicate (N.to_nat n) false.
Proof.
  intros Hn. unfold bitlist_with_length. rewrite (proj2 (N.ltb_ge limit n)) by done.
  assert (Hz : forall i, bit_at (replicate (N.to_nat (div_ceil n 8)) x00) i = false).
  { intros i. apply (bit_at_app_zero []). }
  eexists. split; [done|]. split.
  - split; simpl; [done|by rewrite len_replicate, N2Nat.id|auto].
  - apply list_eq_same_length with (N.to_nat n); rewrite ?length_replicate, ?length_bits; try done.
    intros k x y Hk Hx Hy. apply lookup_replicate in Hy as [-> _].
    rewrite <-(Nat2N.id k), bits_lookup in Hx. simpl in Hx.
    destruct (_ <? _) in Hx; [|done]. rewrite Hz in Hx. by simplify_eq.
Qed.

(** Growing a well-formed bitlist with false bits. *)
Lemma bitlist_grow_wf bl n :
  bitlist_wf bl -> blist_length bl <= n -> n <= limit ->
  let bl' := mkBitlist (limit:=limit) (resize_vec (div_ceil n 8) x00 (blist_bytes bl)) n in
  bitlist_wf bl' /\ forall i, bit_at (blist_bytes bl') i = bit_at (blist_bytes bl) i.
Proof.
  intros [Hl Hb Ht] Hn Hlim bl'.
  assert (Hle : (length (blist_bytes bl) <= N.to_nat (div_ceil n 8))%nat).
  { unfold len in Hb. rewrite div_ceil_8 in *. dlia. }
  assert (Hbits : forall i, bit_at (blist_bytes bl') i = bit_at (blist_bytes bl) i).
  { intros i. simpl. unfold resize_vec. rewrite take_ge by lia. apply bit_at_app_zero. }
  split; [|done]. split; simpl; [done| |].
  - unfold resize_vec. rewrite take_ge by lia. autorewrite with len. unfold len. lia.
  - intros i Hi. specialize (Hbits i). simpl in Hbits. rewrite Hbits. apply Ht. lia.
Qed.

(** [set] inside the limit succeeds and is [list_set_grow] on the bits. *)
Lemma bitlist_set_Ok bl i v :
  bitlist_wf bl -> i < limit ->
  exists bl', bitlist_set bl i v = Ok bl' /\ bitlist_wf bl' /\ bits bl' = list_set_grow (bits bl) i v.
Proof.
  intros Hwf Hi. unfold bitlist_set. rewrite (proj2 (N.leb_gt limit i)) by done.
  set (bl1 := if blist_length bl <=? i then _ else bl).
  assert (H1 : bitlist_wf bl1 /\ (forall j, bit_at (blist_bytes bl1) j = bit_at (blist_bytes bl) j)
               /\ blist_length bl1 = N.max (blist_length bl) (i + 1)).
  { subst bl1. destruct (N.leb_spec (blist_length bl) i).
    - destruct (bitlist_grow_wf bl (i + 1)) as [? ?]; [done|lia|lia|].
      split; [done|]. split; [done|]. simpl. lia.
    - split; [done|]. split; [done|]. lia. }
  destruct H1 as ([Hl1 Hb1 Ht1] & Hbits & Hlen).
  destruct (bit_write_spec (E:=TypesError) (blist_bytes bl1) i v) as (bytes' & -> & Hbl & Hbit).
  { rewrite Hb1, div_ceil_8. dlia. }
  cbn [obind]. eexists. split; [done|]. split.
  - split; simpl; [done| |].
    + unfold len in *. by rewrite Hbl.
    + intros j Hj. rewrite Hbit, decide_False by lia. by apply Ht1.
  - apply list_eq. intros k. rewrite <-(Nat2N.id k), bits_lookup. simpl.
    unfold list_set_grow. rewrite Hbit, Hbits, Hlen.
    pose proof (length_bits bl) as Hbb.
    destruct (decide (N.of_nat k = i)) as [->|Hne].
    + rewrite list_lookup_insert_eq by (rewrite length_app, length_replicate; lia).
      by rewrite (proj2 (N.ltb_lt _ _)) by lia.
    + rewrite list_lookup_insert_ne by lia.
      destruct (N.ltb_spec (N.of_nat k) (N.max (blist_length bl) (i + 1))).
      * destruct (decide (N.of_nat k < blist_length bl)) as [Hk|Hk].
        -- rewrite lookup_app_l by lia. rewrite bits_lookup. by rewrite (proj2 (N.ltb_lt _ _)) by lia.
        -- rewrite lookup_app_r by lia. rewrite lookup_replicate_2 by lia.
           f_equal. apply (wf_tail _ Hwf). lia.
      * symmetry. apply lookup_ge_None_2. rewrite length_app, length_replicate. lia.
Qed.

Lemma bitlist_set_Err bl i v : limit <= i -> bitlist_set bl i v = Err (BitlistLimitExceeded limit i).
Proof. intros Hi. unfold bitlist_set. by rewrite (proj2 (N.leb_le limit i)). Qed.

Lemma list_set_grow_length l i v :
  length (list_set_grow l i v) = Nat.max (length l) (S (N.to_nat i)).
Proof. unfold list_set_grow. rewrite length_insert, length_app, length_replicate. lia. Qed.

Lemma list_set_grow_in_range (l : list bool) i v :
  (N.to_nat i < length l)%nat -> list_set_grow l i v = <[N.to_nat i := v]> l.
Proof.
  intros H. unfold list_set_grow. replace (S (N.to_nat i) - length l)%nat with 0%nat by lia.
  simpl. by rewrite app_nil_r.
Qed.

Lemma list_set_grow_snoc (l : list bool) v : list_set_grow l (len l) v = l ++ [v].
Proof.
  unfold list_set_grow, len. rewrite Nat2N.id.
  replace (S (length l) - length l)%nat with 1%nat by lia. simpl.
  rewrite insert_app_r_alt by lia. by rewrite Nat.sub_diag.
Qed.

End BitlistRefinement.

(** ** The SSZ encoding *)

Section BitlistEncoding.
Context {limit : N}.
Implicit Types bl : Bitlist limit.

(** The encoded bytes carry the live bits and the delimiter, nothing else. *)
Lemma bitlist_as_bytes_spec {E} bl :
  bitlist_wf bl ->
  exists out, @bitlist_as_bytes E limit bl = Ok out /\ len out = blist_length bl / 8 + 1 /\
    forall j, bit_at out j = if decide (j = blist_length bl) then true else bit_at (blist_bytes bl) j.
Proof.
  intros [Hl Hb Ht].
  set (pad := if len (blist_bytes bl) <=? blist_length bl / 8
              then blist_bytes bl ++ [x00] else blist_bytes bl).
  assert (Hpad : len pad = blist_length bl / 8 + 1 /\ forall j, bit_at pad j = bit_at (blist_bytes bl) j).
  { subst pad. rewrite div_ceil_8 in Hb.
    destruct (N.leb_spec (len (blist_bytes bl)) (blist_length bl / 8)).
    - split; [autorewrite with len; dlia|]. intros j. apply (bit_at_app_zero _ 1).
    - split; [dlia|done]. }
  destruct Hpad as [Hplen Hpbit].
  destruct (bit_write_spec (E:=E) pad (blist_length bl) true) as (out & Hw & Hlen & Hbit); [dlia|].
  exists out. split; [exact Hw|]. split; [unfold len in *; lia|].
  intros j. by rewrite Hbit, Hpbit.
Qed.

Lemma last_Some_lookup {A} (l : list A) x : last l = Some x -> l !! (length l - 1)%nat = Some x.
Proof. rewrite last_lookup. by rewrite Nat.sub_1_r. Qed.

(** The highest set bit of a non-zero byte. *)
Lemma u8_log2_spec b :
  b <> x00 -> N.log2 (Byte.to_N b) < 8 /\ u8_bit b (N.log2 (Byte.to_N b)) = true /\
  (forall i, N.log2 (Byte.to_N b) < i -> u8_bit b i = false).
Proof.
  intros Hb. assert (Hne : Byte.to_N b <> 0) by (intros H; by apply Hb, byte_to_N_inj).
  pose proof (byte_to_N_bound b). split; [|split].
  - apply N.log2_lt_pow2; [lia|done].
  - by apply N.bit_log2.
  - intros i Hi. by apply N.bits_above_log2.
Qed.

Lemma u8_log2_unique b r :
  u8_bit b r = true -> (forall i, r < i -> u8_bit b i = false) -> N.log2 (Byte.to_N b) = r.
Proof.
  intros Hr Hhi. assert (Hb : b <> x00) by (intros ->; by rewrite u8_bit_zero in Hr).
  destruct (u8_log2_spec b Hb) as (_ & H1 & H2).
  destruct (N.lt_trichotomy (N.log2 (Byte.to_N b)) r) as [H|[H|H]]; [|done|].
  - by rewrite H2 in Hr.
  - by rewrite Hhi in H1.
Qed.

(** The decoder on a byte string that ends in a non-zero byte. *)
Lemma bitlist_from_bytes_step data b :
  last data = Some b -> b <> x00 ->
  let r := N.log2 (Byte.to_N b) in
  let length := 8 * (len data - 1) + r in
  exists bytes', len bytes' = len data /\
    (forall j, bit_at bytes' j = if decide (j = length) then false else bit_at data j) /\
    bitlist_from_bytes limit data =
      if limit <? length then Err (BitlistLimitExceeded limit length)
      else Ok (mkBitlist (take (N.to_nat (div_ceil length 8)) bytes') length).
Proof.
  intros Hlast Hb r length.
  destruct (u8_log2_spec b Hb) as (Hr8 & _ & _). fold r in Hr8.
  assert (Hne : 0 < len data) by (destruct data; [done|autorewrite with len; lia]).
  destruct (bit_write_spec (E:=TypesError) data length false) as (bytes' & Hw & Hlen & Hbit).
  { subst length. lia. }
  exists bytes'. split; [unfold len; by rewrite Hlen|]. split; [done|].
  unfold bitlist_from_bytes. rewrite Hlast, bool_decide_eq_false_2 by done. fold r.
  replace ((len data - 1) * 8 + r) with length by (subst length; lia).
  destruct (limit <? length); [done|].
  unfold bit_write in Hw. replace (length / 8) with (len data - 1) in Hw by (subst length; dlia).
  replace (length mod 8) with r in Hw by (subst length; dlia).
  destruct (index data (len data - 1)); try done. cbn [obind] in *. by rewrite Hw.
Qed.

Lemma bit_at_take bytes n j :
  bit_at (take n bytes) j = if decide (j < 8 * N.of_nat n) then bit_at bytes j else false.
Proof.
  unfold bit_at. destruct (decide _).
  - rewrite lookup_take_lt by dlia. done.
  - rewrite lookup_take_ge by dlia. done.
Qed.

Lemma bit_at_last data b k :
  last data = Some b -> k < 8 -> bit_at data (8 * (len data - 1) + k) = u8_bit b k.
Proof.
  intros Hlast Hk. apply last_Some_lookup in Hlast. unfold bit_at, len.
  replace (N.to_nat ((8 * (N.of_nat (length data) - 1) + k) / 8)) with (length data - 1)%nat by dlia.
  rewrite Hlast. f_equal. dlia.
Qed.

Lemma bitlist_decode_encode bl :
  bitlist_wf bl ->
  exists out, (forall E, @bitlist_as_bytes E limit bl = Ok out) /\ bitlist_from_bytes limit out = Ok bl.
Proof.
  intros Hwf. destruct (bitlist_as_bytes_spec (E:=TypesError) bl Hwf) as (out & Hout & Hlen & Hbit).
  exists out. split.
  { intros E. destruct (bitlist_as_bytes_spec (E:=E) bl Hwf) as (out' & Hout' & Hlen' & Hbit').
    rewrite Hout'. f_equal. apply bytes_ext; [unfold len in *; dlia|]. intros. by rewrite Hbit, Hbit'. }
  destruct (last out) as [b|] eqn:Hlast.
  2:{ apply last_None in Hlast as ->. rewrite len_nil in Hlen. dlia. }
  assert (Hlb : forall k, k < 8 -> u8_bit b k =
            if decide (k = blist_length bl mod 8) then true
            else bit_at (blist_bytes bl) (8 * (blist_length bl / 8) + k)).
  { intros k Hk. rewrite <-(bit_at_last out b k Hlast Hk), Hlen.
    replace (8 * (blist_length bl / 8 + 1 - 1) + k) with (8 * (blist_length bl / 8) + k) by dlia.
    rewrite Hbit. destruct (decide (_ = blist_length bl)), (decide (k = blist_length bl mod 8)); try done; exfalso; dlia. }
  assert (Hlog : N.log2 (Byte.to_N b) = blist_length bl mod 8).
  { apply u8_log2_unique.
    - rewrite Hlb by dlia. by rewrite decide_True.
    - intros i Hi. destruct (decide (i < 8)) as [H8|H8]; [|apply u8_bit_high; dlia].
      rewrite Hlb by done. rewrite decide_False by dlia. apply (wf_tail _ Hwf). dlia. }
  assert (Hb : b <> x00).
  { intros ->. specialize (Hlb (blist_length bl mod 8)). rewrite u8_bit_zero, decide_True in Hlb by done.
    discriminate Hlb. dlia. }
  destruct (bitlist_from_bytes_step out b Hlast Hb) as (bytes' & Hlen' & Hbit' & ->).
  rewrite Hlog, Hlen in *.
  replace (8 * (blist_length bl / 8 + 1 - 1) + blist_length bl mod 8) with (blist_length bl) in * by dlia.
  destruct Hwf as [Hl Hby Ht]. rewrite (proj2 (N.ltb_ge _ _) Hl). f_equal.
  destruct bl as [bytes L]; simpl in *. f_equal. apply bytes_ext.
  - rewrite length_take. unfold len in *. rewrite div_ceil_8 in *. dlia.
  - intros i. rewrite bit_at_take, Hbit', Hbit.
    destruct (decide (i = L)) as [->|]; destruct (decide (_ < _)); rewrite ?Ht by (rewrite ?div_ceil_8 in *; dlia); done.
Qed.

Lemma bitlist_encode_decode data bl :
  bitlist_from_bytes limit data = Ok bl ->
  bitlist_wf bl /\ forall E, @bitlist_as_bytes E limit bl = Ok data.
Proof.
  intros H. destruct (last data) as [b|] eqn:Hlast; [|unfold bitlist_from_bytes in H; by rewrite Hlast in H].
  destruct (decide (b = x00)) as [->|Hb]; [unfold bitlist_from_bytes in H; by rewrite Hlast in H|].
  destruct (bitlist_from_bytes_step data b Hlast Hb) as (bytes' & Hlen' & Hbit' & Heq).
  destruct (u8_log2_spec b Hb) as (Hr8 & Hset & Hhi).
  set (r := N.log2 (Byte.to_N b)) in *. set (L := 8 * (len data - 1) + r) in *.
  assert (Hne : 0 < len data) by (destruct data; [done|autorewrite with len; dlia]).
  rewrite Heq in H. destruct (N.ltb_spec limit L) as [|Hlim]; [done|]. simplify_eq.
  assert (Hzero : forall j, L < j -> bit_at data j = false).
  { intros j Hj. destruct (decide (j < 8 * len data)) as [Hd|Hd]; [|apply bit_at_beyond; dlia].
    replace j with (8 * (len data - 1) + (j - 8 * (len data - 1))) by dlia.
    rewrite (bit_at_last data b) by (try done; dlia). apply Hhi. dlia. }
  assert (Hwf : bitlist_wf (limit:=limit) (mkBitlist (take (N.to_nat (div_ceil L 8)) bytes') L)).
  { split; simpl; [done| |].
    - unfold len in *. rewrite length_take. rewrite div_ceil_8. subst L. dlia.
    - intros i Hi. rewrite bit_at_take, Hbit'. destruct (decide (_ < _)); [|done].
      destruct (decide (i = L)); [done|]. apply Hzero. dlia. }
  split; [exact Hwf|]. intros E.
  destruct (bitlist_as_bytes_spec (E:=E) _ Hwf) as (out & -> & Hol & Hob). f_equal. simpl in *.
  apply bytes_ext.
  - unfold len in *. subst L. dlia.
  - intros i. rewrite Hob, bit_at_take, Hbit'. rewrite div_ceil_8.
    destruct (decide (i = L)) as [->|].
    + unfold L. by rewrite (bit_at_last data b).
    + destruct (decide (_ < _)); [done|]. rewrite Hzero; [done|]. dlia.
Qed.

Lemma bitlist_from_bytes_returned data : returned (bitlist_from_bytes limit data).
Proof.
  destruct (last data) as [b|] eqn:Hlast; [|unfold bitlist_from_bytes; by rewrite Hlast].
  destruct (decide (b = x00)) as [->|Hb]; [unfold bitlist_from_bytes; by rewrite Hlast|].
  destruct (bitlist_from_bytes_step data b Hlast Hb) as (bytes' & _ & _ & ->). by destruct (_ <? _).
Qed.

End BitlistEncoding.

(** ** Counting and iterating the set bits *)

Definition count_true (l : list bool) : N := len (filter (fun b => b = true) l).

Lemma count_true_app l k : count_true (l ++ k) = count_true l + count_true k.
Proof. unfold count_true. by rewrite filter_app, len_app. Qed.

Lemma count_true_replicate_false n : count_true (replicate n false) = 0.
Proof. induction n; [done|]. simpl. unfold count_true in *. by rewrite filter_cons_False. Qed.

Lemma count_true_fmap (f : N -> bool) l : count_true (f <$> l) = len (filter (fun i => f i = true) l).
Proof.
  unfold count_true. induction l as [|i l IH]; [done|]. csimpl.
  rewrite !filter_cons. destruct (decide (f i = true)); autorewrite with len; by rewrite IH.
Qed.

Lemma bytes_count_ones_spec bytes :
  bytes_count_ones bytes = count_true (bit_at bytes <$> range 0 (8 * len bytes)).
Proof.
  induction bytes as [|b bytes IH]; [done|].
  rewrite len_cons. rewrite (range_app 0 8) by lia.
  replace (8 * (1 + len bytes)) with (8 + 8 * len bytes) by lia.
  rewrite range_shift, fmap_app, count_true_app. cbn [bytes_count_ones foldr]. fold (bytes_count_ones bytes).
  rewrite IH. f_equal.
  - unfold u8_count_ones. by rewrite count_true_fmap.
  - f_equal. rewrite <-list_fmap_compose. apply list_fmap_ext. intros _ i _. simpl. unfold bit_at.
    replace (N.to_nat ((8 + i) / 8)) with (S (N.to_nat (i / 8))) by dlia. simpl.
    by replace ((8 + i) mod 8) with (i mod 8) by dlia.
Qed.

Lemma bitlist_count_ones_spec {limit} (bl : Bitlist limit) :
  bitlist_wf bl -> bitlist_count_ones bl = count_true (bits bl).
Proof.
  intros [Hl Hb Ht]. unfold bitlist_count_ones. rewrite bytes_count_ones_spec.
  rewrite (range_app 0 (blist_length bl)) by (rewrite ?Hb, ?div_ceil_8; dlia).
  rewrite fmap_app, count_true_app. fold (bits bl).
  replace (bit_at (blist_bytes bl) <$> range (blist_length bl) _)
    with (replicate (length (range (blist_length bl) (8 * len (blist_bytes bl)))) false).
  - rewrite count_true_replicate_false. lia.
  - apply replicate_as_Forall. split; [by rewrite length_fmap|].
    apply Forall_fmap, Forall_forall. intros i Hi%elem_of_range. simpl. symmetry. apply Ht. lia.
Qed.

Lemma filter_bits_spec {E} bytes l :
  Forall (fun i => i < 8 * len bytes) l ->
  @filter_bits E bytes l = Ok (filter (fun i => bit_at bytes i = true) l).
Proof.
  induction 1 as [|i l Hi _ IH]; [done|]. cbn [filter_bits]. rewrite bit_test_spec by done.
  cbn [obind]. rewrite IH. cbn [obind]. rewrite filter_cons.
  destruct (bit_at bytes i); by destruct (decide _).
Qed.

Lemma bitlist_iter_set_indices_spec {E limit} (bl : Bitlist limit) :
  bitlist_wf bl ->
  @bitlist_iter_set_indices E limit bl
  = Ok (filter (fun i => bits bl !! N.to_nat i = Some true) (range 0 (blist_length bl))).
Proof.
  intros [Hl Hb Ht]. unfold bitlist_iter_set_indices. rewrite filter_bits_spec.
  - f_equal. apply filter_ext_in. intros i Hi%elem_of_range.
    rewrite bits_lookup, (proj2 (N.ltb_lt _ _)) by lia. split; [by intros ->|by intros [= ->]].
  - apply Forall_forall. intros i Hi%elem_of_range. rewrite Hb, div_ceil_8. dlia.
Qed.

(** ** [Bitvector] *)

Record bitvector_wf {n} (bv : Bitvector n) : Prop := {
  bvec_wf_bytes : len (bvec_bytes bv) = div_ceil n 8;
  bvec_wf_tail : forall i, n <= i -> bit_at (bvec_bytes bv) i = false;
}.

Lemma trailing_mask_bit r k :
  k < 8 -> r < 8 -> u8_bit (u8_not (u8_of_N (N.shiftl 1 r - 1))) k = (r <=? k).
Proof.
  intros Hk Hr. rewrite u8_bit_not, u8_bit_of_N by done.
  rewrite (proj2 (N.ltb_lt k 8)) by done. simpl.
  replace (N.shiftl 1 r - 1) with (N.ones r) by (unfold N.ones; lia).
  destruct (N.leb_spec r k); [by rewrite N.ones_spec_high|by rewrite N.ones_spec_low].
Qed.

Lemma trailing_mask_zero b r :
  r < 8 ->
  u8_and b (u8_not (u8_of_N (N.shiftl 1 r - 1))) = x00 <-> (forall k, r <= k -> u8_bit b k = false).
Proof.
  intros Hr. split.
  - intros H k Hk. destruct (decide (k < 8)); [|apply u8_bit_high; lia].
    apply (f_equal (fun x => u8_bit x k)) in H.
    rewrite u8_bit_and, trailing_mask_bit, u8_bit_zero in H by done.
    by rewrite (proj2 (N.leb_le r k) Hk), andb_true_r in H.
  - intros H. apply u8_eq_bits. intros k Hk. rewrite u8_bit_and, trailing_mask_bit, u8_bit_zero by done.
    destruct (N.leb_spec r k); [by rewrite H|by rewrite andb_false_r].
Qed.

Lemma bitvector_tail_iff n data b :
  len data = div_ceil n 8 -> n mod 8 <> 0 -> data !! N.to_nat (div_ceil n 8 - 1) = Some b ->
  (forall k, n mod 8 <= k -> u8_bit b k = false) <-> (forall i, n <= i -> bit_at data i = false).
Proof.
  intros Hlen Hn Hb. rewrite div_ceil_8 in *. split.
  - intros H i Hi. destruct (decide (i < 8 * len data)); [|apply bit_at_beyond; lia].
    unfold bit_at. replace (i / 8) with ((n + 7) / 8 - 1) by dlia. rewrite Hb. apply H. dlia.
  - intros H k Hk. destruct (decide (k < 8)); [|apply u8_bit_high; lia].
    specialize (H (8 * (n / 8) + k)). unfold bit_at in H.
    replace ((8 * (n / 8) + k) / 8) with ((n + 7) / 8 - 1) in H by dlia.
    rewrite Hb in H. replace ((8 * (n / 8) + k) mod 8) with k in H by dlia. apply H. dlia.
Qed.

Lemma bitvector_from_bytes_iff n data (bv : Bitvector n) :
  bitvector_from_bytes n data = Ok bv <-> bvec_bytes bv = data /\ bitvector_wf bv.
Proof.
  unfold bitvector_from_bytes.
  assert (Hmk : forall bv' : Bitvector n, bvec_bytes bv' = data -> bv' = mkBitvector data).
  { by intros [] <-. }
  destruct (N.eqb_spec (len data) (div_ceil n 8)) as [Hlen|Hlen]; simpl.
  2:{ split; [done|]. intros [<- [? ?]]. done. }
  destruct (N.eqb_spec (n mod 8) 0) as [Hn|Hn]; simpl.
  - split; [intros; simplify_eq|by intros [->%Hmk _]].
    split; [done|]. split; [done|]. intros i Hi. apply bit_at_beyond. simpl. rewrite Hlen, div_ceil_8. dlia.
  - destruct (index_Ok (E:=TypesError) data (div_ceil n 8 - 1)) as (b & -> & Hb).
    { rewrite Hlen, div_ceil_8. dlia. }
    cbn [obind]. pose proof (bitvector_tail_iff n data b Hlen Hn Hb) as Ht.
    rewrite <-(trailing_mask_zero b) in Ht by dlia.
    destruct (bool_decide _) eqn:Hd; simpl; reflect_bools.
    + split; [intros; simplify_eq|by intros [->%Hmk _]]. split; [done|]. split; [done|]. by apply Ht.
    + split; [done|]. intros [<- [_ Hw]]. exfalso. by apply Hd, Ht.
Qed.

Lemma bitvector_set_spec n (bv : Bitvector n) i v :
  bitvector_wf bv -> i < n ->
  exists bv', bitvector_set bv i v = Ok bv' /\ bitvector_wf bv' /\
    forall E j, @bitvector_get E n bv' j
                = if j =? i then Ok (Some v) else @bitvector_get E n bv j.
Proof.
  intros [Hb Ht] Hi. unfold bitvector_set. rewrite (proj2 (N.leb_gt n i)) by done.
  destruct (bit_write_spec (E:=TypesError) (bvec_bytes bv) i v) as (bytes' & -> & Hlen & Hbit).
  { rewrite Hb, div_ceil_8. dlia. }
  cbn [obind]. eexists. split; [done|]. split.
  - split; simpl; [unfold len in *; by rewrite Hlen|].
    intros j Hj. rewrite Hbit, decide_False by lia. by apply Ht.
  - intros E j. unfold bitvector_get; simpl. destruct (N.leb_spec n j).
    + destruct (N.eqb_spec j i); [lia|done].
    + rewrite !bit_test_spec by (unfold len in *; rewrite ?Hlen, ?Hb, ?div_ceil_8; dlia).
      cbn [obind]. rewrite Hbit. destruct (N.eqb_spec j i), (decide (j = i)); done.
Qed.

Lemma len_filter_set {limit} (bl : Bitlist limit) :
  len (filter (fun i => bits bl !! N.to_nat i = Some true) (range 0 (blist_length bl))) = count_true (bits bl).
Proof.
  etransitivity; [|symmetry; apply count_true_fmap]. f_equal. apply filter_ext_in.
  intros i Hi%elem_of_range. rewrite bits_lookup, (proj2 (N.ltb_lt _ _)) by lia.
  split; [by intros [= ->]|by intros ->].
Qed.

(** ** Correctness *)

(** [Bitlist::set] implements the growing boolean list it stands for. Below
    the limit it returns a well-formed bitlist whose bits are the old ones,
    extended with [false] up to the index, with the bit written; at or above
    the limit it reports [BitlistLimitExceeded] with the limit and the index. *)
Theorem bitlist_set_refines {limit} (bl : Bitlist limit) i v :
  bitlist_wf bl ->
  (i < limit ->
     exists bl', bitlist_set bl i v = Ok bl' /\ bitlist_wf bl' /\ bits bl' = list_set_grow (bits bl) i v) /\
  (limit <= i -> bitlist_set bl i v = Err (BitlistLimitExceeded limit i)).
Proof. intros Hwf. split; [by apply bitlist_set_Ok|apply bitlist_set_Err]. Qed.

Lemma bitlist_set_refines_witness :
  exists bl', bitlist_set (bitlist_new 20) 9 true = Ok bl' /\ bitlist_wf bl' /\
    bits bl' = list_set_grow [] 9 true.
Proof. destruct (bitlist_set_refines (bitlist_new 20) 9 true bitlist_new_wf) as [H _]. apply H. lia. Defined.

(** The bitlist wire format is a bijection between well-formed bitlists and
    the byte strings the decoder accepts: decoding an encoding gives the
    bitlist back, re-encoding an accepted string gives the string back, and
    the decoder never panics. *)
Theorem bitlist_encoding_bijective limit :
  (forall bl : Bitlist limit, bitlist_wf bl ->
     exists out, @bitlist_as_bytes TypesError limit bl = Ok out /\ bitlist_from_bytes limit out = Ok bl) /\
  (forall data bl, bitlist_from_bytes limit data = Ok bl ->
     bitlist_wf bl /\ @bitlist_as_bytes TypesError limit bl = Ok data) /\
  (forall data, returned (bitlist_from_bytes limit data)).
Proof.
  split; [|split].
  - intros bl Hwf. destruct (bitlist_decode_encode bl Hwf) as (out & He & Hd). eauto.
  - intros data bl H. destruct (bitlist_encode_decode data bl H) as [Hwf He]. eauto.
  - apply bitlist_from_bytes_returned.
Qed.

(** [count_ones] counts, and [iter_set_indices] lists in increasing order,
    exactly the positions whose bit is set. *)
Theorem bitlist_set_bits_counted {limit} (bl : Bitlist limit) :
  bitlist_wf bl ->
  bitlist_count_ones bl = count_true (bits bl) /\
  exists idxs, @bitlist_iter_set_indices TypesError limit bl = Ok idxs /\
    len idxs = bitlist_count_ones bl /\
    StronglySorted N.lt idxs /\
    forall i, i ∈ idxs <-> bits bl !! N.to_nat i = Some true.
Proof.
  intros Hwf. pose proof (bitlist_count_ones_spec bl Hwf) as Hc. split; [done|].
  eexists. split; [by apply bitlist_iter_set_indices_spec|]. split; [|split].
  - rewrite Hc. apply len_filter_set.
  - apply StronglySorted_filter_list, range_sorted.
  - intros i. rewrite list_elem_of_filter, elem_of_range. split; [by intros []|].
    intros Hi. split; [done|]. apply lookup_lt_Some in Hi. rewrite length_bits in Hi. lia.
Qed.

Lemma bitlist_set_bits_counted_witness :
  bitlist_count_ones (mkBitlist (limit:=20) [x05; x02] 10) = 3 /\
  @bitlist_iter_set_indices TypesError 20 (mkBitlist [x05; x02] 10) = Ok [0; 2; 9].
Proof.
  assert (Hwf : bitlist_wf (mkBitlist (limit:=20) [x05; x02] 10)).
  { by apply (bitlist_encode_decode [x05; x06]). }
  destruct (bitlist_set_bits_counted _ Hwf) as [Hc _]. split; [by rewrite Hc|by vm_compute].
Defined.

(** [Bitvector::from_bytes] accepts exactly the canonical byte strings, the
    ones of the right length whose unused high bits are clear, and keeps the
    bytes unchanged. *)
Theorem bitvector_from_bytes_canonical n data (bv : Bitvector n) :
  bitvector_from_bytes n data = Ok bv <-> bvec_bytes bv = data /\ bitvector_wf bv.
Proof. apply bitvector_from_bytes_iff. Qed.
