(* ===== verification/Merkle.v ===== *)
(** * SSZ merkleization ([crates/ssz/src/merkleize.rs])

    SHA-256 is the external crate [sha2]: a parameter, the class [Sha256].  The
    loops of the code (bottom-up reduction of a level, doubling against
    precomputed zero subtrees) are modelled as they are written, and shown equal
    to the reference definition [tree_root], the root of the full binary tree of a
    given depth whose leaves past the end of the list are zero.

    Fuel: a level of [n] nodes is reduced with fuel [n], the zero-subtree and
    sibling loops with one unit per bit of a [usize]; [reduce_levels_done],
    [zero_loop_spec] and [extend_loop_spec] show that this is enough. *)

From stdpp Require Import base numbers list gmap strings.
From Stdlib Require Import Strings.Byte ZArith Lia.
From S2P Require Import Prelude Types.

(** [Sha256::new(); update(l); update(r); finalize()] of the [sha2] crate. *)
Class Sha256 := sha256 : list u8 -> Bytes32.

Definition BYTES_PER_CHUNK : N := 32.
Definition ZERO_HASH : Bytes32 := bv_zero 32.

(** The errors of the [ssz] facade that merkleization raises. *)
Inductive MerkleError :=
| InvalidNumLeaves (got : N)
| InputExceedsLimit (got limit : N).

(** ** Packing *)

(** [bytes.chunks(n)]. *)
Fixpoint chunks_loop {A} (fuel : nat) (n : nat) (l : list A) : list (list A) :=
  match fuel, l with
  | S fuel', _ :: _ => take n l :: chunks_loop fuel' n (drop n l)
  | _, _ => []
  end.
Definition chunks_of {A} (n : nat) (l : list A) : list (list A) := chunks_loop (length l) n l.

(** A chunk copied to the front of a zeroed 32-byte array. *)
Program Definition chunk_pad (c : list u8) : Bytes32 := BV (take 32 (c ++ replicate 32 x00)) _.
Next Obligation.
  intros c. unfold len. rewrite length_take, length_app, length_replicate. lia.
Qed.

Definition pack (bytes : list u8) : list Bytes32 :=
  match bytes with [] => [] | _ => chunk_pad <$> chunks_of 32 bytes end.

(** [scalar_chunk], and [internal.rs]'s [u64_chunk]: the low 8 bytes little
    endian, the rest zero. *)
Definition scalar_chunk (value : N) : Bytes32 := chunk_pad (to_le_bytes 8 value).

(** [power_of_two_ceil] on a 64-bit [usize]. *)
Definition power_of_two_ceil (x : N) : N :=
  if x <=? 1 then 1
  else
    let bits := N.size (x - 1) in
    if 64 <=? bits then N.shiftl 1 63 else N.shiftl 1 bits.

Section Merkle.
Context {sha : Sha256}.

Definition hash_pair (l r : Bytes32) : Bytes32 := sha256 (as_slice l ++ as_slice r).

(** [for pair in level.chunks_exact(2) { next.push(hash_pair(..)) }]. *)
Fixpoint hash_level (level : list Bytes32) : list Bytes32 :=
  match level with
  | a :: b :: rest => hash_pair a b :: hash_level rest
  | _ => []
  end.

(** [while level.len() > 1 { level = next }]. *)
Fixpoint reduce_levels (fuel : nat) (level : list Bytes32) : list Bytes32 :=
  match fuel with
  | O => level
  | S fuel' => if len level <=? 1 then level else reduce_levels fuel' (hash_level level)
  end.

Definition merkleize_partial (chunks : list Bytes32) (width : N) : Bytes32 :=
  if width <=? 1 then default ZERO_HASH (head chunks)
  else
    let level := resize_vec width ZERO_HASH chunks in
    default ZERO_HASH (head (reduce_levels (length level) level)).

Definition merkleize (chunks : list Bytes32) : Bytes32 :=
  match chunks with
  | [] => ZERO_HASH
  | _ => merkleize_partial chunks (power_of_two_ceil (len chunks))
  end.

(** [while width > 1 { root = hash_pair(&root, &root); width /= 2 }]. *)
Fixpoint zero_loop (fuel : nat) (width : N) (root : Bytes32) : Bytes32 :=
  match fuel with
  | O => root
  | S fuel' => if width <=? 1 then root else zero_loop fuel' (width / 2) (hash_pair root root)
  end.

Definition zero_tree_root (width_pow2 : N) : Bytes32 :=
  if width_pow2 <=? 1 then ZERO_HASH else zero_loop 64 width_pow2 ZERO_HASH.

(** The loop of [extend_with_zero_siblings]. *)
Fixpoint extend_loop (fuel : nat) (width to : N) (current zero_sibling : Bytes32) : Bytes32 :=
  match fuel with
  | O => current
  | S fuel' =>
      if width <? to
      then extend_loop fuel' (saturating_mul width 2) to
             (hash_pair current zero_sibling) (hash_pair zero_sibling zero_sibling)
      else current
  end.

Definition extend_with_zero_siblings (root : Bytes32) (from to : N) : Bytes32 :=
  extend_loop 64 from to root (zero_tree_root from).

Definition merkleize_with_limit (chunks : list Bytes32) (limit : N) : Outcome MerkleError Bytes32 :=
  let n := len chunks in
  if n =? 0 then Ok (zero_tree_root (power_of_two_ceil limit))
  else if limit <? n then Err (InputExceedsLimit n limit)
  else
    let actual_width := power_of_two_ceil n in
    let root := merkleize_partial chunks actual_width in
    let target_width := power_of_two_ceil limit in
    if target_width <=? actual_width then Ok root
    else Ok (extend_with_zero_siblings root actual_width target_width).

(** The recursion of [merkleize_progressive]: the tail is strictly shorter. *)
Fixpoint progressive_loop (fuel : nat) (chunks : list Bytes32) (num_leaves : N) : Outcome MerkleError Bytes32 :=
  match fuel with
  | O => Diverge
  | S fuel' =>
      if num_leaves =? 0 then Err (InvalidNumLeaves num_leaves)
      else match chunks with
      | [] => Ok ZERO_HASH
      | _ =>
          let count := N.min (len chunks) num_leaves in
          let? right_root := merkleize_with_limit (take (N.to_nat count) chunks) num_leaves in
          let? left_root :=
            if num_leaves <? len chunks
            then
              let? next := ok_or (checked_mul num_leaves 4) (InvalidNumLeaves num_leaves) in
              progressive_loop fuel' (drop (N.to_nat num_leaves) chunks) next
            else Ok ZERO_HASH in
          Ok (hash_pair left_root right_root)
      end
  end.

Definition merkleize_progressive (chunks : list Bytes32) (num_leaves : N) : Outcome MerkleError Bytes32 :=
  progressive_loop (S (length chunks)) chunks num_leaves.

Definition mix_in_length (root : Bytes32) (length : N) : Bytes32 := hash_pair root (scalar_chunk length).

Definition mix_in_selector (root : Bytes32) (selector : u8) : Bytes32 :=
  hash_pair root (scalar_chunk (Byte.to_N selector)).

(** ** The reference definition *)

(** The root of the full binary tree of depth [d] over [leaves], zero leaves
    past the end of the list. *)
Fixpoint tree_root (d : nat) (leaves : list Bytes32) : Bytes32 :=
  match d with
  | O => default ZERO_HASH (head leaves)
  | S d' => hash_pair (tree_root d' (take (2 ^ d') leaves)) (tree_root d' (drop (2 ^ d') leaves))
  end.

(** The pairs of nodes hashed while computing [tree_root d leaves]. *)
Fixpoint tree_queries (d : nat) (leaves : list Bytes32) : list (Bytes32 * Bytes32) :=
  match d with
  | O => []
  | S d' =>
      let l := take (2 ^ d') leaves in
      let r := drop (2 ^ d') leaves in
      (tree_root d' l, tree_root d' r) :: tree_queries d' l ++ tree_queries d' r
  end.

(** [hash_pair] has no collision among the given pairs. *)
Definition collision_free (qs : list (Bytes32 * Bytes32)) : Prop :=
  forall p q, p ∈ qs -> q ∈ qs -> hash_pair p.1 p.2 = hash_pair q.1 q.2 -> p = q.

(** Depth of the tree over [n] leaves: the logarithm of the width. *)
Definition depth_of (n : N) : nat := N.to_nat (N.log2 (power_of_two_ceil n)).
End Merkle.

(** ** Widths *)

Lemma power_of_two_ceil_log2_up x : x <= 2 ^ 63 -> power_of_two_ceil x = 2 ^ N.log2_up x.
Proof.
  intros Hx. unfold power_of_two_ceil. destruct (N.leb_spec x 1).
  - by rewrite N.log2_up_eqn0.
  - rewrite N.log2_up_eqn by lia. rewrite <-N.sub_1_r.
    rewrite N.size_log2 by lia. rewrite N.shiftl_1_l.
    destruct (N.leb_spec 64 (N.succ (N.log2 (x - 1)))); [|by rewrite N.shiftl_1_l].
    assert (N.log2 (x - 1) < 63); [|lia]. apply N.log2_lt_pow2; lia.
Qed.

Lemma depth_of_log2_up x : x <= 2 ^ 63 -> depth_of x = N.to_nat (N.log2_up x).
Proof.
  intros Hx. unfold depth_of. rewrite power_of_two_ceil_log2_up by done.
  by rewrite N.log2_pow2 by lia.
Qed.

Lemma power_of_two_ceil_depth x : x <= 2 ^ 63 -> power_of_two_ceil x = N.of_nat (2 ^ depth_of x).
Proof.
  intros Hx. rewrite depth_of_log2_up, power_of_two_ceil_log2_up by done.
  rewrite Nat2N.inj_pow. by rewrite N2Nat.id.
Qed.

Lemma depth_of_bound x : x <= 2 ^ 63 -> (depth_of x <= 63)%nat.
Proof.
  intros Hx. rewrite depth_of_log2_up by done.
  pose proof (N.log2_up_le_mono _ _ Hx) as H. rewrite N.log2_up_pow2 in H by lia. lia.
Qed.

Lemma depth_of_mono x y : x <= y -> y <= 2 ^ 63 -> (depth_of x <= depth_of y)%nat.
Proof.
  intros Hxy Hy. rewrite !depth_of_log2_up by lia. pose proof (N.log2_up_le_mono _ _ Hxy). lia.
Qed.

(** The leaves fit in the width. *)
Lemma depth_of_fits x : x <= 2 ^ 63 -> x <= N.of_nat (2 ^ depth_of x).
Proof.
  intros Hx. rewrite <-power_of_two_ceil_depth, power_of_two_ceil_log2_up by done.
  destruct (decide (1 < x)) as [H|H]; [by apply N.log2_up_spec|].
  pose proof (N.pow_nonzero 2 (N.log2_up x)). lia.
Qed.

Lemma pow2_half d : (2 ^ S d / 2 = 2 ^ d)%nat.
Proof. rewrite Nat.pow_succ_r', Nat.mul_comm. by apply Nat.div_mul. Qed.

Lemma pow2_S_ge d : (2 <= 2 ^ S d)%nat.
Proof. rewrite Nat.pow_succ_r'. pose proof (Nat.pow_nonzero 2 d). lia. Qed.

(** ** The loops compute the reference tree *)

Section MerkleSpec.
Context {sha : Sha256}.

Lemma tree_root_pad d l n : tree_root d (l ++ replicate n ZERO_HASH) = tree_root d l.
Proof.
  revert l n. induction d as [|d IH]; intros l n; simpl.
  - destruct l; [by destruct n|done].
  - f_equal.
    + rewrite take_app, take_replicate. apply IH.
    + rewrite drop_app, drop_replicate. apply IH.
Qed.

Lemma hash_level_app l1 l2 : Nat.Even (length l1) -> hash_level (l1 ++ l2) = hash_level l1 ++ hash_level l2.
Proof.
  remember (length l1) as m eqn:Hm. revert l1 Hm.
  induction m as [m IH] using lt_wf_ind. intros [|a [|b l1]] Hm Hev; [done| |].
  - subst m. destruct Hev as [k Hk]. simpl in Hk. lia.
  - cbn [hash_level app]. f_equal. apply (IH (length l1)); simpl in *; [lia|done|].
    destruct Hev as [k Hk]. exists (k - 1)%nat. lia.
Qed.

Lemma length_hash_level l : length (hash_level l) = (length l / 2)%nat.
Proof.
  remember (length l) as m eqn:Hm. revert l Hm.
  induction m as [m IH] using lt_wf_ind. intros [|a [|b l]] Hm; subst m; [done|done|].
  cbn [hash_level length]. rewrite (IH (length l)); [|simpl; lia|done].
  replace (S (S (length l))) with (length l + 1 * 2)%nat by lia. rewrite Nat.div_add by done. lia.
Qed.

(** One level of the bottom-up reduction is one level of the tree. *)
Lemma tree_root_hash_level d l :
  length l = (2 ^ S d)%nat -> tree_root (S d) l = tree_root d (hash_level l).
Proof.
  revert l. induction d as [|d IH]; intros l Hl.
  - destruct l as [|a [|b [|c l]]]; simpl in Hl; try lia. done.
  - assert (Hp : (2 ^ S (S d) = 2 ^ S d + 2 ^ S d)%nat) by (simpl; lia).
    set (l1 := take (2 ^ S d) l). set (l2 := drop (2 ^ S d) l).
    assert (H1 : length l1 = (2 ^ S d)%nat) by (unfold l1; rewrite length_take; lia).
    assert (H2 : length l2 = (2 ^ S d)%nat) by (unfold l2; rewrite length_drop; lia).
    change (tree_root (S (S d)) l) with (hash_pair (tree_root (S d) l1) (tree_root (S d) l2)).
    rewrite (IH l1 H1), (IH l2 H2).
    assert (Hh1 : length (hash_level l1) = (2 ^ d)%nat).
    { rewrite length_hash_level, H1. apply pow2_half. }
    rewrite <-(take_drop (2 ^ S d) l). fold l1 l2. rewrite hash_level_app by (exists (2 ^ d)%nat; simpl in *; lia).
    cbn [tree_root]. by rewrite take_app_length', drop_app_length' by done.
Qed.

(** The reduction loop stops with one node, the root. *)
Lemma reduce_levels_done fuel d l :
  length l = (2 ^ d)%nat -> (d <= fuel)%nat -> reduce_levels fuel l = [tree_root d l].
Proof.
  revert fuel l. induction d as [|d IH]; intros fuel l Hl Hf.
  - destruct l as [|a [|b l]]; simpl in Hl; try lia. by destruct fuel.
  - destruct fuel as [|fuel]; [lia|]. cbn [reduce_levels].
    pose proof (pow2_S_ge d).
    rewrite (proj2 (N.leb_gt _ _)) by (unfold len; lia).
    rewrite tree_root_hash_level by done. apply IH; [|lia].
    rewrite length_hash_level, Hl. apply pow2_half.
Qed.

Lemma merkleize_partial_spec chunks d :
  (length chunks <= 2 ^ d)%nat -> merkleize_partial chunks (N.of_nat (2 ^ d)) = tree_root d chunks.
Proof.
  intros Hl. unfold merkleize_partial. destruct d as [|d]; [done|].
  pose proof (pow2_S_ge d).
  rewrite (proj2 (N.leb_gt _ _)) by lia. unfold resize_vec. rewrite Nat2N.id, take_ge by done.
  rewrite (reduce_levels_done _ (S d)).
  - cbn [head]. unfold default. apply tree_root_pad.
  - rewrite length_app, length_replicate. lia.
  - rewrite length_app, length_replicate. pose proof (Nat.pow_gt_lin_r 2 (S d)). lia.
Qed.

Lemma zero_loop_spec fuel d e :
  (d <= fuel)%nat ->
  zero_loop fuel (N.of_nat (2 ^ d)) (tree_root e []) = tree_root (d + e) [].
Proof.
  revert d e. induction fuel as [|fuel IH]; intros d e Hd.
  - by replace d with 0%nat by lia.
  - cbn [zero_loop]. destruct d as [|d]; [done|].
    pose proof (pow2_S_ge d).
    rewrite (proj2 (N.leb_gt _ _)) by lia.
    replace (N.of_nat (2 ^ S d) / 2) with (N.of_nat (2 ^ d)).
    2:{ by rewrite <-(pow2_half d), Nat2N.inj_div. }
    replace (hash_pair (tree_root e []) (tree_root e [])) with (tree_root (S e) []).
    + rewrite IH by lia. f_equal. lia.
    + simpl. by rewrite take_nil, drop_nil.
Qed.

Lemma zero_tree_root_spec d : (d <= 64)%nat -> zero_tree_root (N.of_nat (2 ^ d)) = tree_root d [].
Proof.
  intros Hd. unfold zero_tree_root. destruct d as [|d]; [done|].
  pose proof (pow2_S_ge d).
  rewrite (proj2 (N.leb_gt _ _)) by lia.
  change ZERO_HASH with (tree_root 0 []). rewrite zero_loop_spec by done. f_equal. lia.
Qed.

Lemma tree_root_short d l :
  (length l <= 2 ^ d)%nat -> tree_root (S d) l = hash_pair (tree_root d l) (tree_root d []).
Proof. intros Hl. cbn [tree_root]. by rewrite take_ge, drop_ge. Qed.

Lemma extend_loop_spec fuel d e l :
  (e < 64)%nat -> (e - d <= fuel)%nat -> (d <= e)%nat -> (length l <= 2 ^ d)%nat ->
  extend_loop fuel (N.of_nat (2 ^ d)) (N.of_nat (2 ^ e)) (tree_root d l) (tree_root d [])
  = tree_root e l.
Proof.
  revert d. induction fuel as [|fuel IH]; intros d He Hf Hd Hl.
  - by replace e with d by lia.
  - cbn [extend_loop]. destruct (decide (d = e)) as [->|Hne].
    { by rewrite N.ltb_irrefl. }
    assert (Hlt : (2 ^ d < 2 ^ e)%nat) by (apply Nat.pow_lt_mono_r; lia).
    rewrite (proj2 (N.ltb_lt _ _)) by lia.
    replace (saturating_mul (N.of_nat (2 ^ d)) 2) with (N.of_nat (2 ^ S d)).
    + rewrite <-tree_root_short by done. rewrite <-(tree_root_short d []) by (simpl; lia).
      apply IH; try lia. simpl. lia.
    + assert (Hs : N.of_nat (2 ^ d) * 2 = N.of_nat (2 ^ S d)) by (simpl; lia).
      unfold saturating_mul. rewrite N.min_l; [done|]. rewrite Hs, Nat2N.inj_pow.
      pose proof (N.pow_le_mono_r 2 (N.of_nat (S d)) 63). unfold u64_max. lia.
Qed.

Lemma merkleize_tree_root chunks :
  len chunks <= 2 ^ 63 -> merkleize chunks = tree_root (depth_of (len chunks)) chunks.
Proof.
  intros Hl. destruct chunks as [|c chunks]; [done|]. unfold merkleize.
  rewrite power_of_two_ceil_depth by done. apply merkleize_partial_spec.
  pose proof (depth_of_fits _ Hl) as H. unfold len in *. lia.
Qed.

Lemma merkleize_with_limit_tree_root chunks limit :
  limit <= 2 ^ 63 -> len chunks <= limit ->
  merkleize_with_limit chunks limit = Ok (tree_root (depth_of limit) chunks).
Proof.
  intros Hlim Hn. unfold merkleize_with_limit. pose proof (depth_of_bound limit Hlim) as Hdl.
  destruct (N.eqb_spec (len chunks) 0) as [H0|H0].
  { destruct chunks; [|unfold len in H0; simpl in H0; lia].
    rewrite power_of_two_ceil_depth by done. by rewrite zero_tree_root_spec by lia. }
  rewrite (proj2 (N.ltb_ge _ _)) by done.
  rewrite !power_of_two_ceil_depth by lia.
  assert (Hfit : (length chunks <= 2 ^ depth_of (len chunks))%nat).
  { pose proof (depth_of_fits (len chunks)). unfold len in *. lia. }
  rewrite merkleize_partial_spec by done.
  pose proof (depth_of_mono _ _ Hn Hlim) as Hd.
  destruct (N.leb_spec (N.of_nat (2 ^ depth_of limit)) (N.of_nat (2 ^ depth_of (len chunks)))) as [Hle|Hgt].
  - do 2 f_equal. assert (Hle' : (2 ^ depth_of limit <= 2 ^ depth_of (len chunks))%nat) by lia.
    apply Nat.pow_le_mono_r_iff in Hle'; lia.
  - unfold extend_with_zero_siblings. rewrite zero_tree_root_spec by lia.
    f_equal. apply extend_loop_spec; lia.
Qed.

Lemma merkleize_with_limit_exceeds chunks limit :
  limit < len chunks -> merkleize_with_limit chunks limit = Err (InputExceedsLimit (len chunks) limit).
Proof.
  intros H. unfold merkleize_with_limit.
  rewrite (proj2 (N.eqb_neq _ _)), (proj2 (N.ltb_lt _ _)) by lia. done.
Qed.

(** ** Binding *)

(** Leaf [i] of the zero-padded tree. *)
Definition leaf (l : list Bytes32) (i : nat) : Bytes32 := default ZERO_HASH (l !! i).

Lemma collision_free_sub qs qs' : qs' ⊆ qs -> collision_free qs -> collision_free qs'.
Proof. intros Hs Hc p q Hp Hq. apply Hc; by apply Hs. Qed.

Lemma tree_root_leaves d l1 l2 :
  collision_free (tree_queries d l1 ++ tree_queries d l2) ->
  tree_root d l1 = tree_root d l2 -> forall i, (i < 2 ^ d)%nat -> leaf l1 i = leaf l2 i.
Proof.
  revert l1 l2. induction d as [|d IH]; intros l1 l2 Hc Heq i Hi.
  - replace i with 0%nat by (simpl in Hi; lia). unfold leaf. by rewrite <-!head_lookup.
  - cbn [tree_root tree_queries] in *.
    assert (Hp := Hc _ _ ltac:(apply elem_of_app; left; apply list_elem_of_here)
                         ltac:(apply elem_of_app; right; apply list_elem_of_here) Heq).
    injection Hp as Hl Hr.
    destruct (decide (i < 2 ^ d)%nat) as [Hlt|Hge].
    + assert (H : leaf (take (2 ^ d) l1) i = leaf (take (2 ^ d) l2) i).
      { apply IH; [|done|done]. eapply collision_free_sub; [|exact Hc]. clear; set_solver. }
      unfold leaf in *. by rewrite !lookup_take_lt in H by done.
    + assert (H : leaf (drop (2 ^ d) l1) (i - 2 ^ d) = leaf (drop (2 ^ d) l2) (i - 2 ^ d)).
      { apply IH; [|done|simpl in Hi; lia]. eapply collision_free_sub; [|exact Hc]. clear; set_solver. }
      unfold leaf in *. rewrite !lookup_drop in H.
      by replace (2 ^ d + (i - 2 ^ d))%nat with i in H by lia.
Qed.

Lemma leaves_ext l1 l2 :
  length l1 = length l2 -> (forall i, (i < length l1)%nat -> leaf l1 i = leaf l2 i) -> l1 = l2.
Proof.
  intros Hlen Hl. apply list_eq_same_length with (n := length l1); [done|done|].
  intros i x y Hi Hx Hy. specialize (Hl i Hi). unfold leaf in Hl. by rewrite Hx, Hy in Hl.
Qed.

Lemma tree_root_binding d l1 l2 :
  length l1 = length l2 -> (length l1 <= 2 ^ d)%nat ->
  collision_free (tree_queries d l1 ++ tree_queries d l2) ->
  tree_root d l1 = tree_root d l2 -> l1 = l2.
Proof.
  intros Hlen Hd Hc Heq. apply leaves_ext; [done|]. intros i Hi.
  apply (tree_root_leaves d); [done|done|lia].
Qed.

(** ** Progressive merkleization *)

Lemma progressive_loop_fuel f1 f2 chunks n :
  (length chunks < f1)%nat -> (length chunks < f2)%nat ->
  progressive_loop f1 chunks n = progressive_loop f2 chunks n.
Proof.
  revert f2 chunks n. induction f1 as [|f1 IH]; intros [|f2] chunks n H1 H2; try lia.
  cbn [progressive_loop]. destruct (N.eqb_spec n 0) as [|Hn]; [done|].
  destruct chunks as [|c chunks]; [done|]. destruct (n <? _) eqn:Hlt; [|done].
  destruct (merkleize_with_limit _ _); [|done..]. cbn [obind].
  destruct (checked_mul n 4); [|done]. cbn [ok_or obind].
  assert (Hdrop : (length (drop (N.to_nat n) (c :: chunks)) < length (c :: chunks))%nat).
  { rewrite length_drop. simpl. lia. }
  by rewrite (IH f2) by lia.
Qed.

(** The recursion equation of the source, without fuel. *)
Lemma merkleize_progressive_unfold c chunks n :
  n <> 0 ->
  merkleize_progressive (c :: chunks) n =
    (let? right_root := merkleize_with_limit (take (N.to_nat (N.min (len (c :: chunks)) n)) (c :: chunks)) n in
     let? left_root :=
       if n <? len (c :: chunks)
       then let? next := ok_or (checked_mul n 4) (InvalidNumLeaves n) in
            merkleize_progressive (drop (N.to_nat n) (c :: chunks)) next
       else Ok ZERO_HASH in
     Ok (hash_pair left_root right_root)).
Proof.
  intros Hn. unfold merkleize_progressive at 1. cbn [progressive_loop].
  rewrite (proj2 (N.eqb_neq _ _)) by done.
  destruct (merkleize_with_limit _ _); [|done..]. cbn [obind].
  destruct (n <? _); [|done]. destruct (checked_mul n 4); [|done]. cbn [ok_or obind].
  unfold merkleize_progressive.
  rewrite (progressive_loop_fuel _ (S (length (drop (N.to_nat n) (c :: chunks))))); [done| |lia].
  rewrite length_drop. simpl. lia.
Qed.

Lemma progressive_loop_Ok fuel chunks n :
  0 < n -> n <= 2 ^ 63 -> len chunks <= 2 ^ 61 -> (length chunks < fuel)%nat ->
  exists root, progressive_loop fuel chunks n = Ok root.
Proof.
  revert chunks n. induction fuel as [|fuel IH]; intros chunks n Hn0 Hn Hl Hf; [lia|].
  cbn [progressive_loop]. rewrite (proj2 (N.eqb_neq _ _)) by lia.
  destruct chunks as [|c chunks]; [by eexists|].
  rewrite merkleize_with_limit_tree_root by (unfold len in *; rewrite ?length_take; lia). cbn [obind].
  destruct (N.ltb_spec n (len (c :: chunks))) as [Hlt|_]; [|by eexists].
  unfold checked_mul. rewrite (proj2 (N.ltb_lt _ _)) by (unfold u64_bound; lia). cbn [ok_or obind].
  destruct (IH (drop (N.to_nat n) (c :: chunks)) (n * 4)) as [root ->]; [lia|lia| | |by eexists].
  - unfold len in *. rewrite length_drop. lia.
  - rewrite length_drop. simpl in *. lia.
Qed.

End MerkleSpec.

(** ** Correctness *)

(** C38. [merkleize_with_limit] computes the SSZ reference root: for a limit of
    at most 2^63 it returns the root of the complete binary tree of the
    limit's depth over the zero-padded chunks, although it hashes only the
    populated part and extends it with precomputed zero subtrees; with more
    chunks than the limit it reports [InputExceedsLimit]. [merkleize] is the
    same tree at the depth of the chunk count. *)
Theorem merkleize_is_reference {sha : Sha256} chunks limit :
  limit <= 2 ^ 63 ->
  (len chunks <= limit -> merkleize_with_limit chunks limit = Ok (tree_root (depth_of limit) chunks)) /\
  (limit < len chunks -> merkleize_with_limit chunks limit = Err (InputExceedsLimit (len chunks) limit)) /\
  (len chunks <= 2 ^ 63 -> merkleize chunks = tree_root (depth_of (len chunks)) chunks).
Proof.
  intros Hl. split; [|split]; intros H.
  - by apply merkleize_with_limit_tree_root.
  - by apply merkleize_with_limit_exceeds.
  - by apply merkleize_tree_root.
Qed.

(** A stand-in for the hash, to evaluate the definitions: a polynomial in the
    bytes modulo a 32-bit prime, as a chunk. *)
Definition toy_sha256 : Sha256 := fun input =>
  scalar_chunk (fold_left (fun a b => N.double (N.double (N.double a)) + Byte.to_N b + 1) input 7 mod 4294967291).

Lemma merkleize_is_reference_witness :
  @merkleize_with_limit toy_sha256 [scalar_chunk 1; scalar_chunk 2; scalar_chunk 3] 16
  = Ok (@tree_root toy_sha256 4 [scalar_chunk 1; scalar_chunk 2; scalar_chunk 3]).
Proof.
  apply (@merkleize_is_reference toy_sha256 [scalar_chunk 1; scalar_chunk 2; scalar_chunk 3] 16); by vm_compute.
Defined.

(** A root commits to the list: two chunk lists of the same length with the
    same [merkleize_with_limit] root are equal, unless the hash has a
    collision among the pairs hashed for the two trees. *)
Theorem merkleize_with_limit_binding {sha : Sha256} l1 l2 limit root :
  limit <= 2 ^ 63 -> length l1 = length l2 ->
  collision_free (tree_queries (depth_of limit) l1 ++ tree_queries (depth_of limit) l2) ->
  merkleize_with_limit l1 limit = Ok root -> merkleize_with_limit l2 limit = Ok root -> l1 = l2.
Proof.
  intros Hlim Hlen Hc H1 H2.
  destruct (decide (len l1 <= limit)) as [Hle|Hgt].
  2:{ by rewrite merkleize_with_limit_exceeds in H1 by lia. }
  assert (Hle2 : len l2 <= limit) by (unfold len in *; lia).
  rewrite merkleize_with_limit_tree_root in H1, H2 by done. simplify_eq.
  apply (tree_root_binding (depth_of limit)); [done| |done|by etrans].
  pose proof (depth_of_fits _ Hlim). unfold len in *. lia.
Qed.

#[global] Instance collision_free_dec {sha : Sha256} qs : Decision (collision_free qs).
Proof.
  refine (cast_if (decide (Forall (fun p => Forall (fun q =>
    hash_pair p.1 p.2 = hash_pair q.1 q.2 -> p = q) qs) qs))).
  - abstract (intros p q Hp Hq; rewrite Forall_forall in f; specialize (f p Hp);
      rewrite Forall_forall in f; by apply f).
  - abstract (intros Hc; apply n; apply Forall_forall; intros p Hp; apply Forall_forall; intros q Hq; by apply Hc).
Defined.

Lemma merkleize_with_limit_binding_witness :
  [scalar_chunk 1; scalar_chunk 2; scalar_chunk 3] = [scalar_chunk 1; scalar_chunk 2; scalar_chunk 3].
Proof.
  apply (@merkleize_with_limit_binding toy_sha256 [scalar_chunk 1; scalar_chunk 2; scalar_chunk 3]
           [scalar_chunk 1; scalar_chunk 2; scalar_chunk 3] 4
           (@tree_root toy_sha256 2 [scalar_chunk 1; scalar_chunk 2; scalar_chunk 3]));
    [by vm_compute|done| |by vm_compute|by vm_compute].
  apply (bool_decide_unpack (collision_free _)). by vm_compute.
Defined.

(** [merkleize_progressive] terminates and satisfies the recursion equation
    of the source, without fuel: it rejects zero leaves, and otherwise hashes
    the root of the first [num_leaves] chunks on the right with the
    progressive root of the rest at four times the leaves on the left; for a
    list of at most 2^61 chunks it returns a root. *)
Theorem merkleize_progressive_spec {sha : Sha256} chunks num_leaves :
  num_leaves <= 2 ^ 63 -> len chunks <= 2 ^ 61 ->
  if num_leaves =? 0 then merkleize_progressive chunks num_leaves = Err (InvalidNumLeaves 0)
  else (exists root, merkleize_progressive chunks num_leaves = Ok root) /\
       merkleize_progressive chunks num_leaves =
         match chunks with
         | [] => Ok ZERO_HASH
         | _ =>
             let right_root := tree_root (depth_of num_leaves) (take (N.to_nat num_leaves) chunks) in
             if num_leaves <? len chunks
             then let? left_root := merkleize_progressive (drop (N.to_nat num_leaves) chunks) (num_leaves * 4) in
                  Ok (hash_pair left_root right_root)
             else Ok (hash_pair ZERO_HASH right_root)
         end.
Proof.
  intros Hn Hl. destruct (N.eqb_spec num_leaves 0) as [->|H0]; [by destruct chunks|].
  split; [apply progressive_loop_Ok; lia|]. destruct chunks as [|c chunks]; [by unfold merkleize_progressive; simpl; rewrite (proj2 (N.eqb_neq _ _))|].
  rewrite merkleize_progressive_unfold by done.
  rewrite merkleize_with_limit_tree_root by (unfold len in *; rewrite ?length_take; lia). cbn [obind].
  replace (take (N.to_nat (N.min (len (c :: chunks)) num_leaves)) (c :: chunks))
    with (take (N.to_nat num_leaves) (c :: chunks)).
  2:{ destruct (N.min_spec (len (c :: chunks)) num_leaves) as [[? ->]|[? ->]]; [|done].
      rewrite !take_ge; [done|..]; unfold len in *; lia. }
  destruct (N.ltb_spec num_leaves (len (c :: chunks))) as [Hlt|Hge]; [|done].
  unfold checked_mul. rewrite (proj2 (N.ltb_lt _ _)) by (unfold u64_bound; lia). done.
Qed.

Lemma merkleize_progressive_spec_witness :
  exists root, @merkleize_progressive toy_sha256 (scalar_chunk <$> range 0 7) 1 = Ok root.
Proof.
  apply (@merkleize_progressive_spec toy_sha256 (scalar_chunk <$> range 0 7) 1); by vm_compute.
Defined.
