(* ===== verification/Slot.v ===== *)
(** * Slots and the 3SF-mini justification schedule ([crates/protocol/src/slot.rs])

    [Slot] is a [u64] newtype; the development uses its number.  [isqrt_u64] is
    the Newton iteration of the source with the loop bounded by fuel, [None] when
    it runs out; [isqrt_loop_returns] shows that 64 steps are enough for every
    64-bit input and that the value is the floor of the square root.  The
    multiplications of [is_justifiable_after] wrap at 64 bits, as the machine
    ones do, and the theorem about it holds because they never reach the bound. *)

From stdpp Require Import base numbers list gmap strings.
From Stdlib Require Import Strings.Byte ZArith Lia.
From S2P Require Import Prelude.

Abbreviation Slot := N (only parsing).

Definition slot_is_zero (s : Slot) : bool := s =? 0.

Definition advance (s : Slot) : option Slot := checked_add s 1.

(** [a * b] on [u64]. *)
Definition wrapping_mul (a b : N) : N := (a * b) mod u64_bound.

(** [u64::midpoint]: the exact average, rounded towards zero. *)
Definition midpoint (a b : N) : N := (a + b) / 2.

(** [loop { let next = midpoint(x, n / x); if next >= x { return x } x = next }]. *)
Fixpoint isqrt_loop (fuel : nat) (n x : N) : option N :=
  match fuel with
  | O => None
  | S fuel' =>
      let next := midpoint x (n / x) in
      if x <=? next then Some x else isqrt_loop fuel' n next
  end.

Definition isqrt_u64 (n : N) : N :=
  if n <? 2 then n
  else
    let bits := N.size n in
    let x := N.shiftl 1 (div_ceil bits 2) in
    default 0 (isqrt_loop 64 n x).

Definition is_justifiable_after (self finalized : Slot) : bool :=
  if self <? finalized then false
  else
    let delta := self - finalized in
    if delta <=? 5 then true
    else
      let s := isqrt_u64 delta in
      (delta =? wrapping_mul s s) || (delta =? wrapping_mul s (s + 1)).

(** ** Newton's iteration *)

Lemma newton_lower n x : 0 < x -> N.sqrt n <= midpoint x (n / x).
Proof.
  intros Hx. unfold midpoint. pose proof (N.sqrt_spec n (N.le_0_l n)) as [Hlo _].
  set (s := N.sqrt n) in *. pose proof (N.mul_succ_div_gt n x ltac:(lia)) as Hq.
  generalize dependent (n / x). intros q Hq. clearbody s. apply N.div_le_lower_bound; [done|].
  destruct (N.le_gt_cases (2 * s) (x + q)) as [|Hgt]; [done|exfalso].
  assert (Hsum : x + N.succ q <= 2 * s) by lia.
  assert (Hsq : (x + N.succ q) * (x + N.succ q) <= (2 * s) * (2 * s)) by (apply N.mul_le_mono; done).
  generalize dependent (N.succ q). intros q' Hn Hs Hsq.
  pose proof (Z.square_nonneg (Z.of_N x - Z.of_N q')). nia.
Qed.

Lemma newton_upper n x : N.sqrt n < x -> 2 * (midpoint x (n / x) - N.sqrt n) <= x - N.sqrt n.
Proof.
  intros Hx. unfold midpoint. pose proof (N.sqrt_spec n (N.le_0_l n)) as [_ Hhi].
  set (s := N.sqrt n) in *.
  assert (Hq : n / x <= s).
  { apply N.lt_succ_r. apply N.Div0.div_lt_upper_bound. nia. }
  set (q := n / x) in *. dlia.
Qed.

Lemma sqrt_positive n : 0 < n -> 0 < N.sqrt n.
Proof.
  intros H. pose proof (N.sqrt_spec n (N.le_0_l n)) as [_ Hhi].
  destruct (N.eq_0_gt_0_cases (N.sqrt n)) as [E|]; [|done]. rewrite E in Hhi. simpl in Hhi. lia.
Qed.

(** The distance to the root halves at each step, so the loop returns. *)
Lemma isqrt_loop_returns fuel n x :
  0 < N.sqrt n -> N.sqrt n <= x -> x - N.sqrt n < 2 ^ N.of_nat fuel ->
  isqrt_loop (S fuel) n x = Some (N.sqrt n).
Proof.
  intros H0. revert x. induction fuel as [|fuel IH]; intros x Hx Hd; cbn [isqrt_loop].
  - assert (x = N.sqrt n) as -> by (simpl in Hd; lia).
    by rewrite (proj2 (N.leb_le _ _)) by (apply newton_lower; lia).
  - destruct (decide (x = N.sqrt n)) as [->|Hne].
    { by rewrite (proj2 (N.leb_le _ _)) by (apply newton_lower; lia). }
    pose proof (newton_lower n x ltac:(lia)) as Hlo. pose proof (newton_upper n x ltac:(lia)) as Hup.
    rewrite (proj2 (N.leb_gt _ _)) by lia.
    apply (IH (midpoint x (n / x))); [done|].
    rewrite Nat2N.inj_succ, N.pow_succ_r' in Hd. lia.
Qed.

(** The seed is an upper bound of the root, and at most 2^32. *)
Lemma isqrt_seed n :
  2 <= n -> u64_ok n -> N.sqrt n <= N.shiftl 1 (div_ceil (N.size n) 2) <= 2 ^ 32.
Proof.
  intros H2 Hn. rewrite N.shiftl_1_l. pose proof (N.size_gt n) as Hgt.
  assert (Hs : N.size n <= 64).
  { rewrite N.size_log2 by lia. apply N.le_succ_l, N.log2_lt_pow2; [lia|]. exact Hn. }
  assert (Hd : N.size n <= 2 * div_ceil (N.size n) 2 /\ div_ceil (N.size n) 2 <= 32).
  { unfold div_ceil. destruct (N.eqb_spec (N.size n mod 2) 0); dlia. }
  set (e := div_ceil (N.size n) 2) in *. split.
  - assert (n < 2 ^ e * 2 ^ e).
    { rewrite <-N.pow_add_r. eapply N.lt_le_trans; [exact Hgt|]. apply N.pow_le_mono_r; lia. }
    by apply N.lt_le_incl, N.sqrt_lt_square.
  - apply N.pow_le_mono_r; lia.
Qed.

Lemma isqrt_u64_sqrt n : u64_ok n -> isqrt_u64 n = N.sqrt n.
Proof.
  intros Hn. unfold isqrt_u64. destruct (N.ltb_spec n 2) as [Hlt|Hge].
  - assert (n = 0 \/ n = 1) as [-> | ->] by lia; done.
  - pose proof (isqrt_seed n Hge Hn) as [Hlo Hhi].
    rewrite (isqrt_loop_returns 63); [done| |done|].
    + apply sqrt_positive. lia.
    + change (N.of_nat 63) with 63. pose proof (N.pow_lt_mono_r 2 32 63). lia.
Qed.

Lemma sqrt_u64_bound n : u64_ok n -> N.sqrt n < 2 ^ 32.
Proof. intros Hn. apply N.sqrt_lt_square. exact Hn. Qed.

(** A slot at a justifiable distance: at most 5, a square or a pronic number. *)
Definition justifiable_distance (delta : N) : Prop :=
  delta <= 5 \/ (exists k, delta = k * k) \/ (exists k, delta = k * (k + 1)).

Lemma is_justifiable_after_iff self finalized :
  u64_ok self ->
  is_justifiable_after self finalized = true
  <-> finalized <= self /\ justifiable_distance (self - finalized).
Proof.
  intros Hs. unfold is_justifiable_after, justifiable_distance.
  destruct (N.ltb_spec self finalized) as [Hlt|Hge]; [split; [done|lia]|].
  set (delta := self - finalized). assert (Hd : u64_ok delta) by (unfold u64_ok in *; lia).
  destruct (N.leb_spec delta 5) as [H5|H5]; [split; [auto|done]|].
  rewrite isqrt_u64_sqrt by done. pose proof (sqrt_u64_bound delta Hd) as Hb.
  pose proof (N.sqrt_spec delta (N.le_0_l delta)) as [Hlo Hhi]. set (s := N.sqrt delta) in *. clearbody s delta.
  unfold wrapping_mul. rewrite !N.mod_small by (unfold u64_bound; nia).
  rewrite orb_true_iff, !N.eqb_eq. split.
  - intros [H|H]; (split; [lia|]); right; [left|right]; by exists s.
  - intros [_ [H|[[k Hk]|[k Hk]]]]; [lia| |].
    + left. assert (Hks : k = s) by nia. by subst k.
    + right. assert (Hks : k = s) by nia. by subst k.
Qed.

(** The finalized slot itself, and the five after it, can always be justified. *)
Lemma is_justifiable_after_near finalized delta :
  delta <= 5 -> is_justifiable_after (finalized + delta) finalized = true.
Proof.
  intros Hd. unfold is_justifiable_after. rewrite (proj2 (N.ltb_ge _ _)) by lia.
  rewrite (proj2 (N.leb_le _ _)); [done|lia].
Qed.

(** ** Correctness *)

(** [isqrt_u64] is the floor of the square root on every 64-bit input: the
    loop leaves through its exit condition within 64 steps. *)
Theorem isqrt_u64_correct n :
  u64_ok n ->
  (2 <= n -> isqrt_loop 64 n (N.shiftl 1 (div_ceil (N.size n) 2)) = Some (N.sqrt n)) /\
  isqrt_u64 n * isqrt_u64 n <= n < (isqrt_u64 n + 1) * (isqrt_u64 n + 1).
Proof.
  intros Hn. split.
  - intros H2. pose proof (isqrt_seed n H2 Hn) as [Hlo Hhi].
    apply (isqrt_loop_returns 63); [apply sqrt_positive; lia|done|].
    change (N.of_nat 63) with 63. pose proof (N.pow_lt_mono_r 2 32 63). lia.
  - rewrite isqrt_u64_sqrt by done. rewrite N.add_1_r. apply N.sqrt_spec. lia.
Qed.

Lemma isqrt_u64_correct_witness :
  isqrt_u64 (2 ^ 64 - 1) * isqrt_u64 (2 ^ 64 - 1) <= 2 ^ 64 - 1.
Proof. apply (isqrt_u64_correct (2 ^ 64 - 1)). by vm_compute. Defined.

(** A slot is justifiable after the finalized one exactly when it is not
    before it and the distance is at most 5, a perfect square or a pronic
    number; no 64-bit multiplication wraps on the way. *)
Theorem is_justifiable_after_correct self finalized :
  u64_ok self ->
  is_justifiable_after self finalized = true
  <-> finalized <= self /\ justifiable_distance (self - finalized).
Proof. apply is_justifiable_after_iff. Qed.

Lemma is_justifiable_after_correct_witness :
  is_justifiable_after 112 100 = true.
Proof.
  apply (is_justifiable_after_correct 112 100); [by vm_compute|].
  split; [lia|]. right. right. exists 3. done.
Defined.
