(* ===== verification/Codec.v ===== *)
(** * The SSZ wire codec ([crates/ssz/src/lists.rs], [crates/protocol/src/internal.rs])

    [Encode] and [Decode] are the traits of the same names, and [EthSsz] holds
    the primitive codecs of the [eth_ssz] crate the sources import: the
    operations are parameters, and [EthSszLaws] states their documented
    behaviour, the little-endian fixed-width encoding of SSZ.

    A container's codec is described by two classes.  [FixedCodec] is for types
    of a constant width: every string of the right length is the encoding of
    one value.  [SszCodec] is for all types: encoding then decoding is the
    identity, a decoded string is the encoding of its value, and the decoder
    never panics.  The list helpers and the containers are instances, so that a
    container's proof uses only the classes of its fields. *)

From stdpp Require Import base numbers list sorting gmap strings pretty.
From Stdlib Require Import Strings.Byte ZArith Lia.
From S2P Require Import Prelude Types.

(** ** Errors and traits *)

(** The variants of [eth_ssz::DecodeError] the sources construct. *)
Inductive DecodeError :=
| DecodeInvalidByteLength (len expected : N)
| BytesInvalid (message : string)
| OffsetIntoFixedPortion (offset : N)
| OffsetsAreDecreasing (offset : N)
| OffsetOutOfBounds (offset : N)
| ZeroLengthItem.

Definition BYTES_PER_LENGTH_OFFSET : N := 4.
Definition U64_LEN : N := 8.
Definition BYTES32_LEN : N := 32.
Definition SIGNATURE_LEN : N := 3116.
Definition SLOT_LEN : N := U64_LEN.
Definition VALIDATOR_INDEX_LEN : N := U64_LEN.
Definition PUBLIC_KEY_LEN : N := 52.
Definition VALIDATOR_SSZ_LEN : N := PUBLIC_KEY_LEN + VALIDATOR_INDEX_LEN.
Definition CHECKPOINT_LEN : N := BYTES32_LEN + SLOT_LEN.
Definition BLOCK_HEADER_LEN : N := SLOT_LEN + VALIDATOR_INDEX_LEN + 3 * BYTES32_LEN.

Class Encode (T : Type) := {
  ssz_bytes_len : T -> N;
  ssz_append : T -> list u8 -> list u8;
}.

Class Decode (T : Type) := {
  ssz_fixed_len : N;
  from_ssz_bytes : list u8 -> Outcome DecodeError T;
}.
Arguments ssz_fixed_len T {_}.

(** [as_ssz_bytes]: append to an empty buffer. *)
Definition encode {T} `{Encode T} (x : T) : list u8 := ssz_append x [].

(** [ssz::decode]: the decode error in the crate's own error type. *)
Inductive SszError := SszDecode (source : DecodeError).
Definition ssz_decode {T} `{Decode T} (data : list u8) : Outcome SszError T := omap_err SszDecode (from_ssz_bytes data).

(** The integer codecs of [eth_ssz]. *)
Class EthSsz := {
  eth_u64_append : N -> list u8 -> list u8;
  eth_u64_from_ssz_bytes : list u8 -> Outcome DecodeError N;
  eth_u32_from_ssz_bytes : list u8 -> Outcome DecodeError N;
}.

Class EthSszLaws `{EthSsz} : Prop := {
  eth_u64_append_le v buf : eth_u64_append v buf = buf ++ to_le_bytes 8 v;
  eth_u64_from_le bs :
    eth_u64_from_ssz_bytes bs
    = if len bs =? 8 then Ok (from_le_bytes bs) else Err (DecodeInvalidByteLength (len bs) 8);
  eth_u32_from_le bs :
    eth_u32_from_ssz_bytes bs
    = if len bs =? 4 then Ok (from_le_bytes bs) else Err (DecodeInvalidByteLength (len bs) 4);
}.

(** ** The helpers of [internal.rs] *)

Definition ensure_len (bytes : list u8) (expected : N) : Outcome DecodeError unit :=
  if len bytes =? expected then Ok tt else Err (DecodeInvalidByteLength (len bytes) expected).

(** [copy_from_slice] into [[u8; N]]: a length mismatch is a panic. *)
Definition copy_array {E} (n : N) (l : list u8) : Outcome E (ByteVector n) :=
  match bv_of_list n l with Some v => Ok v | None => Panic end.

(** The readers take the cursor and return the value with the new cursor. *)
Definition read_fixed {T} `{Decode T} (bytes : list u8) (cursor : N) : Outcome DecodeError (T * N) :=
  let? s := slice bytes cursor (cursor + ssz_fixed_len T) in
  let? value := from_ssz_bytes s in
  Ok (value, cursor + ssz_fixed_len T).

Definition read_byte_array (n : N) (bytes : list u8) (cursor : N) : Outcome DecodeError (ByteVector n * N) :=
  let? s := slice bytes cursor (cursor + n) in
  let? arr := copy_array n s in
  Ok (arr, cursor + n).

Definition write_offset (buf : list u8) (value : N) : list u8 :=
  let offset := default u32_max (u32_try_from value) in
  buf ++ to_le_bytes 4 offset.

Definition read_offset `{EthSsz} (bytes : list u8) (cursor : N) : Outcome DecodeError (N * N) :=
  let? s := slice bytes cursor (cursor + BYTES_PER_LENGTH_OFFSET) in
  let? value := eth_u32_from_ssz_bytes s in
  Ok (value, cursor + BYTES_PER_LENGTH_OFFSET).

Definition encode_fixed_element_list {T} `{Encode T} (items : list T) (buf : list u8) : list u8 :=
  fold_left (fun buf item => ssz_append item buf) items buf.

Definition decode_fixed_element_list {T} `{Decode T} (bytes : list u8) (max : N) : Outcome DecodeError (list T) :=
  let elem_len := ssz_fixed_len T in
  if elem_len =? 0 then Err ZeroLengthItem
  else if negb (len bytes mod elem_len =? 0)
  then Err (BytesInvalid ("list bytes (" +:+ pretty (len bytes) +:+ ") not divisible by element size ("
                          +:+ pretty elem_len +:+ ")"))
  else
    let count := len bytes / elem_len in
    if max <? count
    then Err (BytesInvalid ("list length (" +:+ pretty count +:+ ") exceeds max (" +:+ pretty max +:+ ")"))
    else
      omapM (fun i =>
        let start := i * elem_len in
        let? s := slice bytes start (start + elem_len) in
        from_ssz_bytes s) (range 0 count).

Definition encode_byte_vector_list {n} (items : list (ByteVector n)) (buf : list u8) : list u8 :=
  fold_left (fun buf item => buf ++ as_slice item) items buf.

(** [bytes.chunks_exact(n)]. *)
Definition chunks_exact (n : N) (bytes : list u8) : list (list u8) :=
  (fun i => take (N.to_nat n) (drop (N.to_nat (i * n)) bytes)) <$> range 0 (len bytes / n).

Definition decode_byte_vector_list (n : N) (bytes : list u8) (max : N) : Outcome DecodeError (list (ByteVector n)) :=
  if n =? 0 then Err ZeroLengthItem
  else if negb (len bytes mod n =? 0)
  then Err (BytesInvalid ("byte-vector list bytes (" +:+ pretty (len bytes)
                          +:+ ") not divisible by element size (" +:+ pretty n +:+ ")"))
  else
    let count := len bytes / n in
    if max <? count
    then Err (BytesInvalid ("byte-vector list length (" +:+ pretty count +:+ ") exceeds max ("
                            +:+ pretty max +:+ ")"))
    else omapM (copy_array n) (chunks_exact n bytes).

Definition encode_bytes32_list (items : list Bytes32) (buf : list u8) : list u8 :=
  encode_byte_vector_list items buf.

Definition decode_bytes32_list (bytes : list u8) (max : N) : Outcome DecodeError (list Bytes32) :=
  decode_byte_vector_list 32 bytes max.

(** ** Variable-element lists ([lists.rs]) *)

(** [buf[pos..pos + bs.len()].copy_from_slice(bs)]. *)
Definition write_range {E} (buf : list u8) (pos : N) (bs : list u8) : Outcome E (list u8) :=
  if pos + len bs <=? len buf
  then Ok (take (N.to_nat pos) buf ++ bs ++ drop (N.to_nat (pos + len bs)) buf)
  else Panic.

(** [for (i, item) in items.iter().enumerate() { ... }]. *)
Fixpoint encode_variable_loop {E T} `{Encode T} (items : list T) (i prefix_start current_offset : N)
    (buf : list u8) : Outcome E (list u8) :=
  match items with
  | [] => Ok buf
  | item :: items' =>
      let offset_pos := prefix_start + i * BYTES_PER_LENGTH_OFFSET in
      match u32_try_from current_offset with
      | None => Panic
      | Some offset_u32 =>
          let? buf := write_range buf offset_pos (to_le_bytes 4 offset_u32) in
          let before := len buf in
          let buf := ssz_append item buf in
          encode_variable_loop items' (i + 1) prefix_start (current_offset + (len buf - before)) buf
      end
  end.

Definition encode_variable_element_list {E T} `{Encode T} (items : list T) (buf : list u8) : Outcome E (list u8) :=
  let n := len items in
  if n =? 0 then Ok buf
  else
    let prefix_start := len buf in
    let prefix_len := n * BYTES_PER_LENGTH_OFFSET in
    let buf := resize_vec (prefix_start + prefix_len) x00 buf in
    encode_variable_loop items 0 prefix_start prefix_len buf.

(** [read_offset] of [lists.rs]. *)
Definition list_read_offset (bytes : list u8) (pos : N) : Outcome DecodeError N :=
  let? stop := ok_or (checked_add pos BYTES_PER_LENGTH_OFFSET)
                 (BytesInvalid ("offset position " +:+ pretty pos +:+ " overflows")) in
  if len bytes <? stop
  then Err (BytesInvalid ("offset read out of bounds at " +:+ pretty pos))
  else
    let? s := slice bytes pos stop in
    Ok (from_le_bytes s).

(** [for i in 1..count { ... offsets.push(off); prev = off; }]. *)
Fixpoint read_offsets_loop (bytes : list u8) (idxs : list N) (prev : N) : Outcome DecodeError (list N) :=
  match idxs with
  | [] => Ok []
  | i :: idxs' =>
      let? off := list_read_offset bytes (i * BYTES_PER_LENGTH_OFFSET) in
      if (off <? prev) || (len bytes <? off)
      then Err (BytesInvalid ("variable-element list: non-monotonic offset " +:+ pretty off
                              +:+ " at index " +:+ pretty i))
      else
        let? rest := read_offsets_loop bytes idxs' off in
        Ok (off :: rest)
  end.

(** [for window in offsets.windows(2)]: decode each element's bytes. *)
Fixpoint decode_windows {T} `{Decode T} (bytes : list u8) (offsets : list N) : Outcome DecodeError (list T) :=
  match offsets with
  | start :: ((stop :: _) as rest) =>
      let? s := slice bytes start stop in
      let? x := from_ssz_bytes s in
      let? xs := decode_windows bytes rest in
      Ok (x :: xs)
  | _ => Ok []
  end.

Definition decode_variable_element_list {T} `{Decode T} (bytes : list u8) (max : N) : Outcome DecodeError (list T) :=
  if len bytes =? 0 then Ok []
  else if len bytes <? BYTES_PER_LENGTH_OFFSET
  then Err (BytesInvalid ("variable-element list too short for first offset: " +:+ pretty (len bytes)))
  else
    let? first_offset := list_read_offset bytes 0 in
    if (first_offset =? 0) || negb (first_offset mod BYTES_PER_LENGTH_OFFSET =? 0)
    then Err (BytesInvalid ("variable-element list: malformed first offset " +:+ pretty first_offset))
    else if len bytes <? first_offset
    then Err (BytesInvalid ("variable-element list: first offset " +:+ pretty first_offset
                            +:+ " exceeds bytes (" +:+ pretty (len bytes) +:+ ")"))
    else
      let count := first_offset / BYTES_PER_LENGTH_OFFSET in
      if max <? count
      then Err (BytesInvalid ("variable-element list length (" +:+ pretty count +:+ ") exceeds max ("
                              +:+ pretty max +:+ ")"))
      else
        let? rest := read_offsets_loop bytes (range 1 count) first_offset in
        decode_windows bytes (first_offset :: rest ++ [len bytes]).

(** ** The [u64] newtypes ([impl_u64_ssz_newtype!]) *)

(** [Slot] and [ValidatorIndex] forward to the [u64] codec. *)
Definition u64_newtype_append `{EthSsz} (v : N) (buf : list u8) : list u8 := eth_u64_append v buf.
Definition u64_newtype_from_ssz_bytes `{EthSsz} (bytes : list u8) : Outcome DecodeError N :=
  eth_u64_from_ssz_bytes bytes.

#[export] Instance u64_Encode `{EthSsz} : Encode N := {
  ssz_bytes_len := fun _ => U64_LEN;
  ssz_append := u64_newtype_append;
}.
#[export] Instance u64_Decode `{EthSsz} : Decode N := {
  ssz_fixed_len := U64_LEN;
  from_ssz_bytes := u64_newtype_from_ssz_bytes;
}.

(** ** What a codec promises *)

(** The values a type has in Rust: its integers are within their width and its
    lists within the limits the decoder enforces. *)
Class SszWf (T : Type) := ssz_wf : T -> Prop.

Class FixedCodec (T : Type) `{Encode T, Decode T, SszWf T} : Prop := {
  fc_append (x : T) buf : ssz_append x buf = buf ++ encode x;
  fc_bytes_len (x : T) : ssz_bytes_len x = ssz_fixed_len T;
  fc_len (x : T) : len (encode x) = ssz_fixed_len T;
  fc_decode (x : T) : ssz_wf x -> from_ssz_bytes (encode x) = Ok x;
  fc_onto bs : len bs = ssz_fixed_len T -> exists x : T, ssz_wf x /\ encode x = bs;
  fc_wrong_len bs : len bs <> ssz_fixed_len T ->
    from_ssz_bytes (T:=T) bs = Err (DecodeInvalidByteLength (len bs) (ssz_fixed_len T));
}.

Class SszCodec (T : Type) `{Encode T, Decode T, SszWf T} : Prop := {
  sc_append (x : T) buf : ssz_append x buf = buf ++ encode x;
  sc_len (x : T) : ssz_wf x -> len (encode x) = ssz_bytes_len x;
  sc_decode (x : T) : ssz_wf x -> from_ssz_bytes (encode x) = Ok x;
  sc_canonical bs (x : T) : from_ssz_bytes bs = Ok x -> ssz_wf x /\ encode x = bs;
  sc_returned bs : returned (from_ssz_bytes (T:=T) bs);
}.

(** The outcome of decoding [bs]: an error, or a value that [bs] encodes. *)
Definition canonical_at {T} `{Encode T, Decode T, SszWf T} (bs : list u8) : Prop :=
  match from_ssz_bytes (T:=T) bs with
  | Ok x => ssz_wf x /\ encode x = bs
  | Err _ => True
  | Panic | Diverge => False
  end.
Arguments canonical_at T {_ _ _} bs.

Lemma sc_cases {T} `{SszCodec T} bs : canonical_at T bs.
Proof.
  unfold canonical_at. pose proof (sc_returned (T:=T) bs) as Hr.
  destruct (from_ssz_bytes bs) eqn:Hd; try done. by apply sc_canonical.
Qed.

Lemma mk_SszCodec {T} `{Encode T, Decode T, SszWf T} :
  (forall (x : T) buf, ssz_append x buf = buf ++ encode x) ->
  (forall x : T, ssz_wf x -> len (encode x) = ssz_bytes_len x) ->
  (forall x : T, ssz_wf x -> from_ssz_bytes (encode x) = Ok x) ->
  (forall bs, canonical_at T bs) -> SszCodec T.
Proof.
  intros Ha Hl Hd Hc. split; [done..| |].
  - intros bs x Hx. specialize (Hc bs). unfold canonical_at in Hc. by rewrite Hx in Hc.
  - intros bs. specialize (Hc bs). unfold canonical_at in Hc. by destruct (from_ssz_bytes bs).
Qed.

Section FixedCodecs.
Context {T : Type} `{FixedCodec T}.

Lemma fc_decode_total bs : len bs = ssz_fixed_len T -> exists x : T, from_ssz_bytes bs = Ok x /\ ssz_wf x /\ encode x = bs.
Proof. intros (x & Hx & <-)%fc_onto. exists x. split_and!; [by apply fc_decode|done|done]. Qed.

#[export] Instance fixed_ssz_codec : SszCodec T.
Proof.
  split.
  - apply fc_append.
  - intros x _. by rewrite fc_bytes_len, fc_len.
  - apply fc_decode.
  - intros bs x Hd. destruct (decide (len bs = ssz_fixed_len T)) as [Hl|Hl].
    + destruct (fc_decode_total bs Hl) as (y & Hy & Hwf & He). rewrite Hy in Hd. by simplify_eq.
    + by rewrite fc_wrong_len in Hd.
  - intros bs. destruct (decide (len bs = ssz_fixed_len T)) as [Hl|Hl].
    + destruct (fc_decode_total bs Hl) as (y & -> & _). done.
    + by rewrite fc_wrong_len.
Qed.

(** Reading a field at the cursor. *)
Lemma read_fixed_at (x : T) pre post cursor :
  ssz_wf x -> cursor = len pre ->
  read_fixed (pre ++ encode x ++ post) cursor = Ok (x, cursor + ssz_fixed_len T).
Proof.
  intros Hwf ->. unfold read_fixed. rewrite slice_app by (rewrite ?fc_len; done).
  cbn [obind]. by rewrite fc_decode.
Qed.

End FixedCodecs.

Lemma ensure_len_Ok bytes n : len bytes = n -> ensure_len bytes n = Ok tt.
Proof. intros <-. unfold ensure_len. by rewrite N.eqb_refl. Qed.

Lemma ensure_len_Err bytes n : len bytes <> n -> ensure_len bytes n = Err (DecodeInvalidByteLength (len bytes) n).
Proof. intros Hn. unfold ensure_len. by rewrite (proj2 (N.eqb_neq _ _)). Qed.

Lemma copy_array_as_slice {E n} (v : ByteVector n) : @copy_array E n (as_slice v) = Ok v.
Proof. unfold copy_array. by rewrite bv_of_list_as_slice. Qed.

Lemma read_byte_array_at {n} (v : ByteVector n) pre post cursor :
  cursor = len pre -> read_byte_array n (pre ++ as_slice v ++ post) cursor = Ok (v, cursor + n).
Proof.
  intros ->. unfold read_byte_array. rewrite slice_app by (rewrite ?bv_len; done).
  cbn [obind]. by rewrite copy_array_as_slice.
Qed.

(** Splitting a string of known length into its fields. *)
Lemma bytes_split a b (bs : list u8) :
  len bs = a + b -> exists p q, bs = p ++ q /\ len p = a /\ len q = b.
Proof.
  intros Hl. exists (take (N.to_nat a) bs), (drop (N.to_nat a) bs). unfold len in *.
  rewrite take_drop, length_take, length_drop. split; [done|]. lia.
Qed.

Lemma byte_vector_of n (bs : list u8) : len bs = n -> exists v : ByteVector n, as_slice v = bs.
Proof. intros Hl. by exists (BV bs Hl). Qed.

Section Primitives.
Context `{EthSszLaws}.

Lemma encode_u64 (v : N) : encode v = to_le_bytes 8 v.
Proof. unfold encode. simpl. unfold u64_newtype_append. by rewrite eth_u64_append_le. Qed.

#[export] Instance u64_SszWf : SszWf N := u64_ok.

#[export] Instance u64_FixedCodec : FixedCodec N.
Proof.
  split.
  - intros v buf. rewrite encode_u64. simpl. apply eth_u64_append_le.
  - done.
  - intros v. rewrite encode_u64. apply len_to_le_bytes.
  - intros v Hv. rewrite encode_u64. simpl. unfold u64_newtype_from_ssz_bytes.
    rewrite eth_u64_from_le, len_to_le_bytes, from_to_le_bytes. simpl. f_equal. by apply N.mod_small.
  - intros bs Hl. exists (from_le_bytes bs). rewrite encode_u64. simpl in Hl. split.
    + pose proof (from_le_bytes_bound bs) as Hb. unfold ssz_wf, u64_SszWf, u64_ok, u64_bound.
      rewrite Hl in Hb. exact Hb.
    + replace 8%nat with (length bs) by (unfold len in Hl; unfold U64_LEN in Hl; lia). apply to_from_le_bytes.
  - intros bs Hl. simpl in *. unfold u64_newtype_from_ssz_bytes. rewrite eth_u64_from_le.
    unfold U64_LEN in *. by rewrite (proj2 (N.eqb_neq _ _)).
Qed.

Lemma write_offset_small buf v : v <= u32_max -> write_offset buf v = buf ++ to_le_bytes 4 v.
Proof. intros Hv. unfold write_offset, u32_try_from. by rewrite (proj2 (N.leb_le _ _)). Qed.

Lemma from_to_le_bytes_u32 v : v <= u32_max -> from_le_bytes (to_le_bytes 4 v) = v.
Proof. intros Hv. rewrite from_to_le_bytes. apply N.mod_small. unfold u32_max in *. simpl. lia. Qed.

Lemma read_offset_at v pre post cursor :
  v <= u32_max -> cursor = len pre ->
  read_offset (pre ++ to_le_bytes 4 v ++ post) cursor = Ok (v, cursor + BYTES_PER_LENGTH_OFFSET).
Proof.
  intros Hv ->. unfold read_offset. rewrite slice_app by (rewrite ?len_to_le_bytes; done).
  cbn [obind]. rewrite eth_u32_from_le, len_to_le_bytes. simpl. by rewrite from_to_le_bytes_u32.
Qed.

End Primitives.

(** ** Reading the fields in order *)

(** The cursor is at position [c] and [rest] is what is left to read. *)
Definition at_cursor (bytes : list u8) (c : N) (rest : list u8) : Prop :=
  exists pre, bytes = pre ++ rest /\ len pre = c.

Lemma at_cursor_start bytes : at_cursor bytes 0 (bytes ++ []).
Proof. exists []. by rewrite app_nil_r. Qed.

Lemma at_cursor_app bytes c x rest : at_cursor bytes c (x ++ rest) -> at_cursor bytes (c + len x) rest.
Proof. intros (pre & -> & <-). exists (pre ++ x). by rewrite <-app_assoc, len_app. Qed.

Lemma slice_cursor {E} bytes c x rest stop :
  at_cursor bytes c (x ++ rest) -> stop = c + len x -> @slice E u8 bytes c stop = Ok x.
Proof. intros (pre & -> & <-) ->. by apply slice_app. Qed.

Lemma slice_cursor_tail {E} bytes c rest : at_cursor bytes c rest -> @slice E u8 bytes c (len bytes) = Ok rest.
Proof.
  intros (pre & -> & <-). rewrite <-(app_nil_r rest) at 1. apply slice_app; [done|]. apply len_app.
Qed.

Lemma read_fixed_cursor {T} `{FixedCodec T} bytes c (x : T) rest :
  at_cursor bytes c (encode x ++ rest) -> ssz_wf x ->
  read_fixed bytes c = Ok (x, c + ssz_fixed_len T) /\ at_cursor bytes (c + ssz_fixed_len T) rest.
Proof.
  intros Hc Hwf. rewrite <-(fc_len x). split; [|by apply at_cursor_app].
  destruct Hc as (pre & -> & <-). rewrite fc_len. by apply read_fixed_at.
Qed.

Lemma read_byte_array_cursor {n} bytes c (v : ByteVector n) rest :
  at_cursor bytes c (as_slice v ++ rest) ->
  read_byte_array n bytes c = Ok (v, c + n) /\ at_cursor bytes (c + n) rest.
Proof.
  intros Hc. split.
  - destruct Hc as (pre & -> & <-). by apply read_byte_array_at.
  - apply at_cursor_app in Hc. by rewrite bv_len in Hc.
Qed.

Lemma read_offset_cursor `{EthSszLaws} bytes c v rest :
  at_cursor bytes c (to_le_bytes 4 v ++ rest) -> v <= u32_max ->
  read_offset bytes c = Ok (v, c + BYTES_PER_LENGTH_OFFSET) /\ at_cursor bytes (c + BYTES_PER_LENGTH_OFFSET) rest.
Proof.
  intros Hc Hv. split.
  - destruct Hc as (pre & -> & <-). by apply read_offset_at.
  - apply at_cursor_app in Hc. by rewrite len_to_le_bytes in Hc.
Qed.

(** An offset word of any string. *)
Lemma offset_word (w : list u8) : len w = 4 -> exists v, v <= u32_max /\ w = to_le_bytes 4 v.
Proof.
  intros Hw. exists (from_le_bytes w). pose proof (from_le_bytes_bound w) as Hb. rewrite Hw in Hb.
  split; [unfold u32_max; lia|].
  replace 4%nat with (length w) by (unfold len in Hw; lia). by rewrite to_from_le_bytes.
Qed.

(** [read_field] runs the next reader of the goal against the cursor
    hypothesis. *)
Ltac read_field :=
  let step lem b :=
    (let Hr := fresh in let Hn := fresh in
     edestruct lem as [Hr Hn]; [try done ..|]; rewrite Hr; clear Hr; cbn [obind];
     match goal with Hc : at_cursor b ?c _ |- _ => first [constr_eq_strict Hc Hn; fail 1 | clear Hc; rename Hn into Hc] end) in
  match goal with
  | Hc : at_cursor ?b ?c _ |- context [read_fixed ?b ?c] => step (read_fixed_cursor _ _ _ _ Hc) b
  | Hc : at_cursor ?b ?c _ |- context [read_byte_array ?n ?b ?c] =>
      step (read_byte_array_cursor (n:=n) _ _ _ _ Hc) b
  | Hc : at_cursor ?b ?c _ |- context [read_offset ?b ?c] => step (read_offset_cursor _ _ _ _ Hc) b
  end.

(** ** Chunks of a fixed width *)

Lemma chunks_exact_cons n (p rest : list u8) :
  0 < n -> len p = n -> chunks_exact n (p ++ rest) = p :: chunks_exact n rest.
Proof.
  intros Hn Hp. unfold chunks_exact. rewrite len_app, Hp.
  replace ((n + len rest) / n) with (1 + len rest / n).
  2:{ replace (n + len rest) with (len rest + 1 * n) by lia. rewrite N.div_add by lia. lia. }
  rewrite range_0_succ. csimpl. f_equal.
  - rewrite drop_0. apply take_app_length'. unfold len in *. lia.
  - rewrite <-list_fmap_compose. apply list_fmap_ext. intros _ i _. simpl.
    rewrite drop_app_ge by (unfold len in *; lia). do 2 f_equal. unfold len in *. lia.
Qed.

Lemma chunks_exact_concat n (pieces : list (list u8)) :
  0 < n -> Forall (fun p => len p = n) pieces -> chunks_exact n (concat pieces) = pieces.
Proof.
  intros Hn. induction 1 as [|p pieces Hp _ IH]; [done|]. csimpl. by rewrite chunks_exact_cons, IH.
Qed.

(** A string whose length is a multiple of [n] is the concatenation of its chunks. *)
Lemma chunks_exact_split n (bs : list u8) :
  0 < n -> len bs mod n = 0 ->
  exists pieces, bs = concat pieces /\ Forall (fun p => len p = n) pieces /\ len pieces = len bs / n.
Proof.
  intros Hn Hm. apply N.Div0.mod_divides in Hm as [k Hk].
  assert (Hdiv : len bs / n = k) by (rewrite Hk, N.mul_comm; by apply N.div_mul; lia).
  rewrite Hdiv. clear Hdiv. revert bs Hk. induction k as [|k IH] using N.peano_ind; intros bs Hk.
  - exists []. destruct bs; [done|]. rewrite len_cons in Hk. lia.
  - destruct (bytes_split n (n * k) bs) as (p & q & -> & Hp & Hq); [lia|].
    destruct (IH q Hq) as (pieces & -> & Hall & Hlen).
    exists (p :: pieces). split_and!; [done|by constructor|]. rewrite len_cons. lia.
Qed.

Lemma omapM_slices {E B} n (bs : list u8) (f : list u8 -> Outcome E B) :
  0 < n ->
  omapM (fun i => let? s := slice bs (i * n) (i * n + n) in f s) (range 0 (len bs / n))
  = omapM f (chunks_exact n bs).
Proof.
  intros Hn. unfold chunks_exact. rewrite omapM_compose. apply omapM_ext. intros i Hi%elem_of_range.
  rewrite slice_Ok; [|lia|].
  - cbn [obind]. simpl. by replace (i * n + n - i * n) with n by lia.
  - pose proof (N.Div0.mul_div_le (len bs) n). nia.
Qed.

(** ** Fixed-element lists *)

Lemma decode_pieces_Ok {E A} (dec : list u8 -> Outcome E A) (enc : A -> list u8) (P : A -> Prop) n pieces :
  (forall p, len p = n -> exists x, dec p = Ok x /\ P x /\ enc x = p) ->
  Forall (fun p => len p = n) pieces ->
  exists items, omapM dec pieces = Ok items /\ Forall P items /\ enc <$> items = pieces.
Proof.
  intros Hdec. induction 1 as [|p pieces Hp _ IH]; [by exists []|].
  destruct (Hdec p Hp) as (x & Hx & HP & He), IH as (items & Hi & HPs & Hes).
  exists (x :: items). csimpl. rewrite Hx. cbn [obind]. rewrite Hi, He, Hes. auto.
Qed.

Section FixedLists.
Context {T : Type} `{FixedCodec T}.

Lemma encode_fixed_element_list_concat items buf :
  encode_fixed_element_list items buf = buf ++ concat (encode <$> items).
Proof.
  unfold encode_fixed_element_list. revert buf. induction items as [|x items IH]; intros buf; csimpl.
  - by rewrite app_nil_r.
  - by rewrite fc_append, IH, <-app_assoc.
Qed.

Lemma len_concat_encode items : len (concat (encode <$> items)) = len items * ssz_fixed_len T.
Proof.
  induction items as [|x items IH]; csimpl; [done|]. rewrite len_app, len_cons, IH, fc_len. lia.
Qed.

Hypothesis Hpos : 0 < ssz_fixed_len T.

Lemma decode_fixed_element_list_encode items max :
  Forall ssz_wf items -> len items <= max ->
  decode_fixed_element_list (concat (encode <$> items)) max = Ok items.
Proof.
  intros Hwf Hmax. unfold decode_fixed_element_list. rewrite (proj2 (N.eqb_neq _ _)) by lia.
  rewrite len_concat_encode, N.Div0.mod_mul, N.div_mul by lia. simpl.
  rewrite (proj2 (N.ltb_ge _ _)) by done.
  replace (len items) with (len (concat (encode <$> items)) / ssz_fixed_len T)
    by (rewrite len_concat_encode, N.div_mul; lia).
  rewrite omapM_slices by done. rewrite chunks_exact_concat; [|done|].
  - apply omapM_fmap. eapply Forall_impl; [exact Hwf|]. intros x. apply fc_decode.
  - apply Forall_fmap, Forall_true. intros x. apply fc_len.
Qed.

(** The decoder accepts exactly the concatenations of at most [max] elements. *)
Lemma decode_fixed_element_list_cases bs max :
  (exists items : list T, decode_fixed_element_list bs max = Ok items /\ Forall ssz_wf items /\
     len items <= max /\ concat (encode <$> items) = bs) \/
  (exists m, decode_fixed_element_list (T:=T) bs max = Err (BytesInvalid m)).
Proof.
  unfold decode_fixed_element_list. rewrite (proj2 (N.eqb_neq _ _)) by lia.
  destruct (N.eqb_spec (len bs mod ssz_fixed_len T) 0) as [Hm|]; [|by right; eexists]. cbn [negb].
  destruct (N.ltb_spec max (len bs / ssz_fixed_len T)) as [|Hmax]; [by right; eexists|].
  left. rewrite omapM_slices by done.
  destruct (chunks_exact_split _ bs Hpos Hm) as (pieces & -> & Hall & Hlen).
  rewrite chunks_exact_concat by done.
  destruct (decode_pieces_Ok from_ssz_bytes encode ssz_wf (ssz_fixed_len T) pieces fc_decode_total Hall)
    as (items & -> & Hwf & He).
  exists items. rewrite He. split_and!; [done|done| |done].
  rewrite <-Hlen in Hmax. by rewrite <-He, len_fmap in Hmax.
Qed.

End FixedLists.

Section ByteVectorLists.
Context {n : N}.

Lemma encode_byte_vector_list_concat (items : list (ByteVector n)) buf :
  encode_byte_vector_list items buf = buf ++ concat (as_slice <$> items).
Proof.
  unfold encode_byte_vector_list. revert buf. induction items as [|x items IH]; intros buf; csimpl.
  - by rewrite app_nil_r.
  - by rewrite IH, <-app_assoc.
Qed.

Lemma len_concat_as_slice (items : list (ByteVector n)) : len (concat (as_slice <$> items)) = len items * n.
Proof.
  induction items as [|x items IH]; csimpl; [done|]. rewrite len_app, len_cons, IH, bv_len. lia.
Qed.

Lemma decode_byte_vector_list_encode (items : list (ByteVector n)) max :
  0 < n -> len items <= max ->
  decode_byte_vector_list n (concat (as_slice <$> items)) max = Ok items.
Proof.
  intros Hn Hmax. unfold decode_byte_vector_list. rewrite (proj2 (N.eqb_neq _ _)) by lia.
  rewrite len_concat_as_slice, N.Div0.mod_mul, N.div_mul by lia. simpl.
  rewrite (proj2 (N.ltb_ge _ _)) by done. rewrite chunks_exact_concat; [|done|].
  - apply omapM_fmap. apply Forall_true. intros x. apply copy_array_as_slice.
  - apply Forall_fmap, Forall_true. intros x. apply bv_len.
Qed.

Lemma decode_byte_vector_list_cases bs max :
  0 < n ->
  (exists items : list (ByteVector n), decode_byte_vector_list n bs max = Ok items /\
     len items <= max /\ concat (as_slice <$> items) = bs) \/
  (exists m, decode_byte_vector_list n bs max = Err (BytesInvalid m)).
Proof.
  intros Hn. unfold decode_byte_vector_list. rewrite (proj2 (N.eqb_neq _ _)) by lia.
  destruct (N.eqb_spec (len bs mod n) 0) as [Hm|]; [|by right; eexists]. cbn [negb].
  destruct (N.ltb_spec max (len bs / n)) as [|Hmax]; [by right; eexists|].
  left. destruct (chunks_exact_split _ bs Hn Hm) as (pieces & -> & Hall & Hlen).
  rewrite chunks_exact_concat by done.
  destruct (decode_pieces_Ok (copy_array (E:=DecodeError) n) as_slice (fun _ => True) n pieces)
    as (items & -> & _ & He); [|done|].
  { intros p Hp. destruct (byte_vector_of n p Hp) as [v <-]. exists v. by rewrite copy_array_as_slice. }
  exists items. rewrite He. split_and!; [done| |done].
  rewrite <-Hlen in Hmax. by rewrite <-He, len_fmap in Hmax.
Qed.

End ByteVectorLists.

(** ** Variable-element lists *)

Lemma write_range_at {E} (pre old post bs : list u8) pos :
  pos = len pre -> len old = len bs -> @write_range E (pre ++ old ++ post) pos bs = Ok (pre ++ bs ++ post).
Proof.
  intros -> Hl. unfold write_range. rewrite (proj2 (N.leb_le _ _)) by (autorewrite with len; lia).
  f_equal. unfold len in *. rewrite Nat2N.id, take_app_length. f_equal. f_equal.
  rewrite app_assoc. apply drop_app_length'. rewrite length_app. lia.
Qed.

Lemma list_read_offset_at w pre post pos :
  len w = 4 -> pos = len pre -> len pre + 4 < u64_bound ->
  list_read_offset (pre ++ w ++ post) pos = Ok (from_le_bytes w).
Proof.
  intros Hw -> Hb. unfold list_read_offset, checked_add, BYTES_PER_LENGTH_OFFSET.
  rewrite (proj2 (N.ltb_lt _ _)) by done. cbn [ok_or obind].
  rewrite (proj2 (N.ltb_ge _ _)) by (autorewrite with len; lia).
  rewrite slice_app by lia. done.
Qed.

Lemma len_add_sub {A} (b e : list A) : len (b ++ e) - len b = len e.
Proof. rewrite len_app. lia. Qed.

Section VariableLists.
Context {T : Type} `{SszCodec T}.

(** The offsets of elements laid out from position [o]. *)
Fixpoint offsets_from (o : N) (items : list T) : list N :=
  match items with
  | [] => []
  | x :: items' => o :: offsets_from (o + len (encode x)) items'
  end.

(** The wire layout: the offset words, then the elements. *)
Definition variable_layout (items : list T) : list u8 :=
  concat (to_le_bytes 4 <$> offsets_from (4 * len items) items) ++ concat (encode <$> items).

Lemma len_offset_words offs : len (concat (to_le_bytes 4 <$> offs)) = 4 * len offs.
Proof.
  induction offs as [|o offs IH]; [done|]. rewrite fmap_cons. cbn [concat].
  rewrite len_app, len_to_le_bytes, len_cons, IH. lia.
Qed.

Lemma len_offsets_from o items : len (offsets_from o items) = len items.
Proof. revert o. induction items as [|x items IH]; intros o; simpl; [done|]. by rewrite !len_cons, IH. Qed.

Lemma len_variable_layout items : len (variable_layout items) = 4 * len items + len (concat (encode <$> items)).
Proof. unfold variable_layout. by rewrite len_app, len_offset_words, len_offsets_from. Qed.

Lemma encode_variable_loop_spec {E} items i pre done_ cur payload :
  len done_ = 4 * i -> cur + len (concat (encode <$> items)) <= u32_max ->
  encode_variable_loop (E:=E) items i (len pre) cur
    (pre ++ done_ ++ replicate (4 * length items) x00 ++ payload)
  = Ok (pre ++ done_ ++ concat (to_le_bytes 4 <$> offsets_from cur items) ++ payload ++ concat (encode <$> items)).
Proof.
  revert i done_ cur payload.
  induction items as [|x items IH]; intros i done_ cur payload Hd Hc; [simpl; by rewrite app_nil_r|].
  cbn [encode_variable_loop]. csimpl in Hc. rewrite len_app in Hc.
  unfold u32_try_from. rewrite (proj2 (N.leb_le _ _)) by lia.
  replace (4 * length (x :: items))%nat with (4 + 4 * length items)%nat by (simpl; lia).
  rewrite replicate_add, <-!app_assoc. rewrite (app_assoc pre done_).
  rewrite write_range_at by (rewrite ?len_app, ?len_replicate, ?len_to_le_bytes, ?Hd; unfold BYTES_PER_LENGTH_OFFSET; lia).
  cbn [obind]. rewrite sc_append, len_add_sub, <-!app_assoc, (app_assoc done_).
  rewrite (IH (i + 1) (done_ ++ to_le_bytes 4 cur)); [|rewrite len_app, len_to_le_bytes, Hd; lia|lia].
  f_equal. csimpl. by rewrite <-!app_assoc.
Qed.

Lemma encode_variable_element_list_layout {E} items buf :
  len (variable_layout items) <= u32_max ->
  encode_variable_element_list (E:=E) items buf = Ok (buf ++ variable_layout items).
Proof.
  intros Hl. rewrite len_variable_layout in Hl. unfold encode_variable_element_list.
  destruct items as [|x items]; [simpl; by rewrite app_nil_r|].
  rewrite (proj2 (N.eqb_neq _ _)) by (rewrite len_cons; lia). unfold BYTES_PER_LENGTH_OFFSET.
  set (xs := x :: items) in *. unfold resize_vec.
  rewrite take_ge by (unfold len; lia).
  replace (N.to_nat (len buf + len xs * 4) - length buf)%nat with (4 * length xs)%nat by (unfold len; lia).
  pose proof (encode_variable_loop_spec (E:=E) xs 0 buf [] (len xs * 4) []) as Hs.
  cbn [app] in Hs. rewrite app_nil_r in Hs. rewrite Hs; [|done|lia].
  unfold variable_layout. by rewrite N.mul_comm.
Qed.

(** Reading the offsets back. *)
Lemma read_offsets_loop_layout i pre offs post prev :
  len pre = 4 * i -> 4 * (i + len offs) < u64_bound ->
  Forall (fun o => prev <= o <= u32_max) offs -> StronglySorted N.le offs ->
  Forall (fun o => o <= len (pre ++ concat (to_le_bytes 4 <$> offs) ++ post)) offs ->
  read_offsets_loop (pre ++ concat (to_le_bytes 4 <$> offs) ++ post) (range i (i + len offs)) prev = Ok offs.
Proof.
  revert i pre prev. induction offs as [|o offs IH]; intros i pre prev Hp Hb Hall Hsort Hin.
  { rewrite range_shift. done. }
  rewrite len_cons in *. rewrite (range_app i (i + 1)), range_shift by lia.
  change (range 0 1) with [0]. cbn [fmap list_fmap app read_offsets_loop]. rewrite N.add_0_r.
  apply Forall_cons in Hall as [[Ho1 Ho2] Hall], Hin as [Hi1 Hin].
  apply StronglySorted_cons in Hsort as [Hle Hsort].
  rewrite !fmap_cons in *. cbn [concat] in *. rewrite <-!app_assoc in *.
  rewrite list_read_offset_at by (rewrite ?len_to_le_bytes; unfold BYTES_PER_LENGTH_OFFSET; lia).
  cbn [obind]. rewrite from_to_le_bytes_u32 by done.
  rewrite (proj2 (N.ltb_ge o prev)), (proj2 (N.ltb_ge _ o)) by done. cbn [orb].
  rewrite (app_assoc pre) in *.
  replace (i + (1 + len offs)) with (i + 1 + len offs) by lia.
  rewrite (IH (i + 1)); [done|rewrite len_app, len_to_le_bytes; lia|lia| |done|done].
  apply Forall_forall. intros o' Ho'. rewrite Forall_forall in Hle, Hall.
  specialize (Hle o' Ho'). specialize (Hall o' Ho'). lia.
Qed.

Lemma offsets_from_bounds o items :
  Forall (fun o' => o <= o' <= o + len (concat (encode <$> items))) (offsets_from o items) /\
  StronglySorted N.le (offsets_from o items).
Proof.
  revert o. induction items as [|x items IH]; intros o; [by repeat constructor|].
  rewrite fmap_cons. cbn [offsets_from concat]. rewrite len_app.
  destruct (IH (o + len (encode x))) as [Hall Hsort].
  split; constructor; [lia| |done|]; eapply Forall_impl; [exact Hall| |exact Hall|]; simpl; lia.
Qed.

Lemma decode_windows_cons bytes start stop rest :
  decode_windows (T:=T) bytes (start :: stop :: rest) =
    (let? s := slice bytes start stop in
     let? x := from_ssz_bytes s in
     let? xs := decode_windows bytes (stop :: rest) in
     Ok (x :: xs)).
Proof. done. Qed.

Lemma decode_windows_layout items pre o :
  Forall ssz_wf items -> len pre = o ->
  decode_windows (pre ++ concat (encode <$> items)) (offsets_from o items ++ [o + len (concat (encode <$> items))])
  = Ok items.
Proof.
  intros Hwf. revert pre o. induction Hwf as [|x items Hx _ IH]; intros pre o Ho; [done|].
  rewrite fmap_cons. cbn [offsets_from concat app]. rewrite len_app, N.add_assoc.
  specialize (IH (pre ++ encode x) (o + len (encode x))). rewrite len_app, <-app_assoc in IH.
  specialize (IH ltac:(lia)).
  destruct (offsets_from (o + len (encode x)) items ++ _) as [|o2 rest] eqn:Hrest; [by destruct (offsets_from _ _)|].
  assert (o2 = o + len (encode x)) as ->.
  { destruct items; simpl in Hrest; simplify_eq; [|done]. unfold len. simpl. lia. }
  rewrite decode_windows_cons, slice_app by lia. cbn [obind]. rewrite sc_decode by done. cbn [obind].
  by rewrite IH.
Qed.

Lemma decode_variable_element_list_layout items max :
  Forall ssz_wf items -> len items <= max -> len (variable_layout items) <= u32_max ->
  decode_variable_element_list (variable_layout items) max = Ok items.
Proof.
  intros Hwf Hmax Hl. pose proof (len_variable_layout items) as Hlen.
  destruct items as [|x items']; [done|]. set (items := x :: items') in *.
  assert (Hn : 1 <= len items) by (unfold items; rewrite len_cons; lia).
  unfold decode_variable_element_list, BYTES_PER_LENGTH_OFFSET.
  rewrite (proj2 (N.eqb_neq _ _)), (proj2 (N.ltb_ge (len (variable_layout items)) 4)) by lia.
  destruct (offsets_from_bounds (4 * len items) items) as [Hall Hsort].
  set (o := 4 * len items) in *. set (offs := offsets_from (o + len (encode x)) items').
  change (offsets_from o items) with (o :: offs) in *.
  assert (Hlo : len items = 1 + len offs) by (unfold offs, items; by rewrite len_offsets_from, len_cons).
  apply Forall_cons in Hall as [_ Hall]. apply StronglySorted_cons in Hsort as [Hge Hsort].
  assert (Hlay : variable_layout items = to_le_bytes 4 o ++ concat (to_le_bytes 4 <$> offs) ++ concat (encode <$> items)).
  { unfold variable_layout. fold o. change (offsets_from o items) with (o :: offs).
    rewrite fmap_cons. cbn [concat]. by rewrite <-app_assoc. }
  assert (Hread : list_read_offset (variable_layout items) 0 = Ok o).
  { rewrite Hlay. etransitivity; [apply (list_read_offset_at (to_le_bytes 4 o) []); done|].
    by rewrite from_to_le_bytes_u32 by lia. }
  rewrite Hread. cbn [obind]. rewrite (proj2 (N.eqb_neq o 0)) by lia.
  replace (o mod 4) with 0 by (unfold o; dlia). cbn [orb negb N.eqb].
  rewrite (proj2 (N.ltb_ge _ o)) by lia. replace (o / 4) with (len items) by (unfold o; dlia).
  rewrite (proj2 (N.ltb_ge max _)) by done.
  assert (Hloop : read_offsets_loop (variable_layout items) (range 1 (len items)) o = Ok offs).
  { rewrite Hlay, Hlo. apply read_offsets_loop_layout; [done|unfold u32_max, u64_bound in *; lia| |done|].
    - eapply Forall_impl; [exact Hall|]. cbv beta. intros o' Ho'. lia.
    - rewrite <-Hlay. eapply Forall_impl; [exact Hall|]. cbv beta. intros o' Ho'. lia. }
  rewrite Hloop. cbn [obind]. rewrite Hlen. unfold variable_layout.
  apply (decode_windows_layout items); [done|]. by rewrite len_offset_words, len_offsets_from.
Qed.

(** The offset words read from any string. *)
Lemma read_offsets_loop_cases k i pre words post prev :
  len pre = 4 * i -> len words = 4 * k -> 4 * (i + k) < u64_bound ->
  (exists offs, read_offsets_loop (pre ++ words ++ post) (range i (i + k)) prev = Ok offs /\
     words = concat (to_le_bytes 4 <$> offs) /\ StronglySorted N.le (prev :: offs) /\
     Forall (fun o => o <= len (pre ++ words ++ post)) offs) \/
  (exists m, read_offsets_loop (pre ++ words ++ post) (range i (i + k)) prev = Err (BytesInvalid m)).
Proof.
  revert i pre words prev. induction k as [|k IH] using N.peano_ind; intros i pre words prev Hp Hw Hb.
  { left. exists []. rewrite range_shift. split; [done|]. destruct words; [by repeat constructor|].
    rewrite len_cons in Hw. lia. }
  destruct (bytes_split 4 (4 * k) words) as (w & ws & -> & Hlw & Hlws); [lia|].
  rewrite (range_app i (i + 1)), range_shift by lia.
  change (range 0 1) with [0]. cbn [fmap list_fmap app read_offsets_loop]. rewrite N.add_0_r.
  rewrite <-!app_assoc. rewrite list_read_offset_at by (unfold BYTES_PER_LENGTH_OFFSET; lia). cbn [obind].
  destruct (N.ltb_spec (from_le_bytes w) prev) as [|Hge]; [by right; eexists|].
  destruct (N.ltb_spec (len (pre ++ w ++ ws ++ post)) (from_le_bytes w)) as [|Hle]; [by right; eexists|].
  cbn [orb]. replace (i + N.succ k) with (i + 1 + k) by lia.
  destruct (IH (i + 1) (pre ++ w) ws (from_le_bytes w)) as [(offs & Hr & Hws & Hs & Hall)|[m Hr]];
    [rewrite len_app; lia|done|lia| |].
  - left. exists (from_le_bytes w :: offs). rewrite <-app_assoc in Hr, Hall. rewrite Hr. cbn [obind].
    split_and!; [done| | |].
    + rewrite fmap_cons. cbn [concat]. rewrite <-Hws. f_equal.
      replace 4%nat with (length w) by (unfold len in Hlw; lia). by rewrite to_from_le_bytes.
    + constructor; [done|]. constructor; [done|]. apply StronglySorted_cons in Hs as [Hs _].
      eapply Forall_impl; [exact Hs|]. cbv beta. lia.
    + by constructor.
  - right. exists m. rewrite <-app_assoc in Hr. by rewrite Hr.
Qed.

Lemma decode_windows_cases bytes o offs :
  StronglySorted N.le (o :: offs) -> Forall (fun o' => o' <= len bytes) (o :: offs) ->
  returned (decode_windows (T:=T) bytes (o :: offs ++ [len bytes])) /\
  forall xs : list T, decode_windows bytes (o :: offs ++ [len bytes]) = Ok xs ->
    Forall ssz_wf xs /\ concat (encode <$> xs) = drop (N.to_nat o) bytes /\ offsets_from o xs = o :: offs.
Proof.
  revert o. induction offs as [|o2 offs IH]; intros o Hs Hall.
  - apply Forall_cons in Hall as [Ho _]. cbn [app]. rewrite decode_windows_cons, slice_Ok by lia. cbn [obind].
    rewrite take_ge by (rewrite length_drop; unfold len; lia).
    set (s := drop _ bytes). pose proof (sc_returned (T:=T) s) as Hr.
    split; [by destruct (from_ssz_bytes s)|]. intros xs Hxs. destruct (from_ssz_bytes s) as [x| | |] eqn:Hx; [|done..].
    cbn in Hxs. inv_ok. apply sc_canonical in Hx as [Hwf He]. csimpl. rewrite app_nil_r. auto.
  - apply Forall_cons in Hall as [Ho Hall]. apply StronglySorted_cons in Hs as [Hle Hs].
    assert (Ho2 : o <= o2) by (by apply Forall_cons in Hle as [? _]).
    assert (Hb2 : o2 <= len bytes) by (by apply Forall_cons in Hall as [? _]).
    cbn [app]. rewrite decode_windows_cons, slice_Ok by lia. cbn [obind].
    destruct (IH o2 Hs Hall) as [Hret Hok]. cbn [app] in Hret, Hok.
    set (s := take _ _). pose proof (sc_returned (T:=T) s) as Hr.
    destruct (from_ssz_bytes s) as [x| | |] eqn:Hx; [|done..]. cbn [obind].
    destruct (decode_windows bytes (o2 :: _)) as [xs'| | |]; [|done..]. split; [done|].
    intros xs Hxs. cbn in Hxs. inv_ok. destruct (Hok xs' eq_refl) as (Hwfs & Hcat & Hoff).
    apply sc_canonical in Hx as [Hwf He]. assert (Hls : len (encode x) = o2 - o).
    { rewrite He. unfold s, len. rewrite length_take, length_drop. unfold len in *. lia. }
    split_and!; [by constructor| |].
    + rewrite fmap_cons. cbn [concat]. rewrite Hcat, He. unfold s.
      replace (N.to_nat o2) with (N.to_nat o + N.to_nat (o2 - o))%nat by lia.
      rewrite <-drop_drop. apply take_drop.
    + cbn [offsets_from]. f_equal. rewrite Hls. by replace (o + (o2 - o)) with o2 by lia.
Qed.

(** Any string: an error, or the layout of the decoded elements. *)
Lemma decode_variable_element_list_cases bytes max :
  returned (decode_variable_element_list (T:=T) bytes max) /\
  forall items : list T, decode_variable_element_list bytes max = Ok items ->
    Forall ssz_wf items /\ len items <= max /\ variable_layout items = bytes.
Proof.
  unfold decode_variable_element_list, BYTES_PER_LENGTH_OFFSET.
  destruct (N.eqb_spec (len bytes) 0) as [Hz|Hz].
  { split; [done|]. intros items [= <-]. destruct bytes; [|rewrite len_cons in Hz; lia].
    split_and!; [done|unfold len; simpl; lia|done]. }
  destruct (N.ltb_spec (len bytes) 4) as [|H4]; [by split|].
  destruct (bytes_split 4 (len bytes - 4) bytes) as (w & rest & -> & Hw & Hrest); [lia|].
  assert (Hread : list_read_offset (w ++ rest) 0 = Ok (from_le_bytes w)).
  { by apply (list_read_offset_at w []). }
  rewrite Hread. cbn [obind]. pose proof (from_le_bytes_bound w) as Hb. rewrite Hw in Hb.
  assert (Hword : to_le_bytes 4 (from_le_bytes w) = w).
  { replace 4%nat with (length w) by (unfold len in Hw; lia). apply to_from_le_bytes. }
  set (o := from_le_bytes w) in *.
  destruct (N.eqb_spec o 0) as [|Ho0]; [by split|]. destruct (N.eqb_spec (o mod 4) 0) as [Hm|]; [|by split].
  cbn [orb negb]. destruct (N.ltb_spec (len (w ++ rest)) o) as [|Hol]; [by split|].
  destruct (N.ltb_spec max (o / 4)) as [|Hmax]; [by split|].
  rewrite len_app in *. destruct (bytes_split (o - 4) (len rest - (o - 4)) rest) as (words & post & -> & Hlw & _);
    [dlia|].
  destruct (read_offsets_loop_cases (o / 4 - 1) 1 w words post o) as [(offs & Hr & Hws & Hs & Hall)|[m Hr]];
    [lia|dlia|unfold u64_bound; dlia| |].
  2:{ replace (1 + (o / 4 - 1)) with (o / 4) in Hr by dlia. rewrite Hr. by split. }
  replace (1 + (o / 4 - 1)) with (o / 4) in Hr by dlia. rewrite Hr. cbn [obind].
  rewrite <-len_app. destruct (decode_windows_cases (w ++ words ++ post) o offs) as [Hret Hok];
    [done|constructor; [rewrite len_app; lia|done]|]. split; [done|].
  intros items Hi. destruct (Hok items Hi) as (Hwf & Hcat & Hoff).
  assert (Hn : len items = o / 4).
  { rewrite <-(len_offsets_from o items), Hoff, len_cons. rewrite Hws, len_offset_words in Hlw. dlia. }
  split_and!; [done|lia|]. unfold variable_layout. rewrite Hn. replace (4 * (o / 4)) with o by dlia.
  rewrite Hoff, Hcat, fmap_cons, Hword. cbn [concat]. rewrite <-Hws, <-app_assoc. do 2 f_equal.
  rewrite app_assoc. apply drop_app_length'. rewrite length_app. unfold len in *. dlia.
Qed.

(** The variable-element list format is a bijection between the lists of at
    most [max] elements and the strings the decoder accepts. For any element
    codec that has this property, a list whose encoding fits the 4-byte
    offsets is encoded without a panic and decoded back; a decoded string is
    the encoding of its elements; and the decoder never panics. *)
Theorem variable_element_list_round_trip max :
  (forall items buf, Forall ssz_wf items -> len items <= max -> len (variable_layout items) <= u32_max ->
     exists bytes, encode_variable_element_list (E:=DecodeError) items buf = Ok (buf ++ bytes) /\
                   decode_variable_element_list bytes max = Ok items) /\
  (forall bytes items, decode_variable_element_list bytes max = Ok items -> len bytes <= u32_max ->
     Forall ssz_wf items /\ len items <= max /\
     encode_variable_element_list (E:=DecodeError) items [] = Ok bytes) /\
  (forall bytes, returned (decode_variable_element_list (T:=T) bytes max)).
Proof.
  split; [|split].
  - intros items buf Hwf Hmax Hl. exists (variable_layout items). split.
    + by apply encode_variable_element_list_layout.
    + by apply decode_variable_element_list_layout.
  - intros bytes items Hd Hl. destruct (decode_variable_element_list_cases bytes max) as [_ Hok].
    destruct (Hok items Hd) as (Hwf & Hmax & Hlay). split_and!; [done|done|].
    rewrite encode_variable_element_list_layout by by rewrite Hlay. by rewrite Hlay.
  - intros bytes. apply decode_variable_element_list_cases.
Qed.

End VariableLists.

(** ** A reference instance of the primitive codecs *)

Definition eth_ssz_reference : EthSsz := {|
  eth_u64_append v buf := buf ++ to_le_bytes 8 v;
  eth_u64_from_ssz_bytes bs :=
    if len bs =? 8 then Ok (from_le_bytes bs) else Err (DecodeInvalidByteLength (len bs) 8);
  eth_u32_from_ssz_bytes bs :=
    if len bs =? 4 then Ok (from_le_bytes bs) else Err (DecodeInvalidByteLength (len bs) 4);
|}.

Lemma eth_ssz_reference_laws : @EthSszLaws eth_ssz_reference.
Proof. by split. Qed.

Lemma variable_element_list_round_trip_witness :
  exists bytes, @encode_variable_element_list DecodeError N (@u64_Encode eth_ssz_reference) [7; 300] []
                = Ok ([] ++ bytes) /\
    @decode_variable_element_list N (@u64_Decode eth_ssz_reference) bytes 2 = Ok [7; 300].
Proof.
  pose proof eth_ssz_reference_laws as Hlaws.
  apply (@variable_element_list_round_trip N (@u64_Encode eth_ssz_reference)
           (@u64_Decode eth_ssz_reference) u64_SszWf _ 2).
  - repeat constructor; by vm_compute.
  - by vm_compute.
  - by vm_compute.
Defined.
