(* ===== verification/Containers.v ===== *)
(** * Consensus containers ([checkpoint.rs], [validator.rs], [vote.rs], [block.rs])

    Each container of [crates/protocol] with its SSZ [Encode] and [Decode]
    implementations and its hash tree root, in the order of the source.  The
    decoders use the cursor readers of [internal.rs] and keep the slice accesses
    that would panic out of range.  The codec instances show, container by
    container, that encoding and decoding are inverse to each other and that
    the decoders return on every input; a container's proof uses the instances
    of its fields. *)

From stdpp Require Import base numbers list gmap strings.
From Stdlib Require Import Strings.Byte ZArith Lia.
From S2P Require Import Prelude Config Types Merkle Codec Slot.

Class HashTreeRoot (T : Type) := hash_tree_root : T -> Bytes32.
#[global] Arguments hash_tree_root : simpl never.

(** ** Data *)

Abbreviation ValidatorIndex := N (only parsing).

Record Checkpoint := mkCheckpoint { cp_root : Bytes32; cp_slot : Slot }.

Record Validator := mkValidator { v_pubkey : PublicKey; v_index : ValidatorIndex }.

Record AttestationData := mkAttestationData {
  ad_slot : Slot;
  ad_head : Checkpoint;
  ad_target : Checkpoint;
  ad_source : Checkpoint;
}.

Record Attestation := mkAttestation { att_validator_id : ValidatorIndex; att_data : AttestationData }.

Record SignedAttestation := mkSignedAttestation { sa_message : Attestation; sa_signature : Signature }.

Record BlockHeader := mkBlockHeader {
  bh_slot : Slot;
  bh_proposer_index : ValidatorIndex;
  bh_parent_root : Bytes32;
  bh_state_root : Bytes32;
  bh_body_root : Bytes32;
}.

Record BlockBody := mkBlockBody { bb_attestations : list Attestation }.

Record Block := mkBlock {
  b_slot : Slot;
  b_proposer_index : ValidatorIndex;
  b_parent_root : Bytes32;
  b_state_root : Bytes32;
  b_body : BlockBody;
}.

Record BlockSignatures := mkBlockSignatures { bs_signatures : list Signature }.

Record BlockWithAttestation := mkBlockWithAttestation {
  bwa_block : Block;
  bwa_proposer_attestation : Attestation;
}.

Record SignedBlockWithAttestation := mkSignedBlockWithAttestation {
  sb_message : BlockWithAttestation;
  sb_signature : BlockSignatures;
}.

#[export] Instance Checkpoint_eq_dec : EqDecision Checkpoint.
Proof. solve_decision. Defined.
#[export] Instance Validator_eq_dec : EqDecision Validator.
Proof. solve_decision. Defined.
#[export] Instance AttestationData_eq_dec : EqDecision AttestationData.
Proof. solve_decision. Defined.
#[export] Instance Attestation_eq_dec : EqDecision Attestation.
Proof. solve_decision. Defined.
#[export] Instance SignedAttestation_eq_dec : EqDecision SignedAttestation.
Proof. solve_decision. Defined.
#[export] Instance BlockHeader_eq_dec : EqDecision BlockHeader.
Proof. solve_decision. Defined.
#[export] Instance BlockBody_eq_dec : EqDecision BlockBody.
Proof. solve_decision. Defined.
#[export] Instance Block_eq_dec : EqDecision Block.
Proof. solve_decision. Defined.

(** The derived [Default] values. *)
Definition Checkpoint_default : Checkpoint := mkCheckpoint (bv_zero 32) 0.
Definition BlockBody_default : BlockBody := mkBlockBody [].

Definition MAX_ATTESTATIONS : N := VALIDATOR_REGISTRY_LIMIT.
Definition ATTESTATION_DATA_SSZ_LEN : N := SLOT_LEN + 3 * CHECKPOINT_LEN.
Definition ATTESTATION_SSZ_LEN : N := VALIDATOR_INDEX_LEN + ATTESTATION_DATA_SSZ_LEN.
Definition SIGNED_ATTESTATION_SSZ_LEN : N := ATTESTATION_SSZ_LEN + SIGNATURE_LEN.
Definition BLOCK_HEADER_SSZ_LEN : N := BLOCK_HEADER_LEN.
Definition BLOCK_FIXED_PART_LEN : N :=
  SLOT_LEN + VALIDATOR_INDEX_LEN + 2 * BYTES32_LEN + BYTES_PER_LENGTH_OFFSET.
Definition BLOCK_WITH_ATTESTATION_FIXED_PART_LEN : N := BYTES_PER_LENGTH_OFFSET + ATTESTATION_SSZ_LEN.
Definition SIGNED_BLOCK_WITH_ATTESTATION_FIXED_PART_LEN : N := 2 * BYTES_PER_LENGTH_OFFSET.

(** [is_proposer]: [ProtocolError::Invariant] as the pair of its strings. *)
Definition is_proposer (validator_index : ValidatorIndex) (slot : Slot) (num_validators : N)
    : Outcome (string * string) bool :=
  if num_validators =? 0
  then Err ("is_proposer", "num_validators must be greater than zero")%string
  else Ok (slot mod num_validators =? validator_index).

(** ** Codecs *)

Section Codecs.
Context `{EthSsz}.

#[export] Instance Checkpoint_Encode : Encode Checkpoint := {
  ssz_bytes_len := fun _ => CHECKPOINT_LEN;
  ssz_append := fun self buf =>
    let buf := buf ++ as_slice (cp_root self) in
    ssz_append (cp_slot self) buf;
}.

Definition Checkpoint_from_ssz_bytes (bytes : list u8) : Outcome DecodeError Checkpoint :=
  if negb (len bytes =? CHECKPOINT_LEN)
  then Err (DecodeInvalidByteLength (len bytes) CHECKPOINT_LEN)
  else
    let? root_bytes := slice bytes 0 BYTES32_LEN in
    let? root_arr := copy_array 32 root_bytes in
    let? slot_bytes := slice bytes BYTES32_LEN (len bytes) in
    let? slot := from_ssz_bytes slot_bytes in
    Ok (mkCheckpoint root_arr slot).

#[export] Instance Checkpoint_Decode : Decode Checkpoint := {
  ssz_fixed_len := CHECKPOINT_LEN;
  from_ssz_bytes := Checkpoint_from_ssz_bytes;
}.

#[export] Instance Validator_Encode : Encode Validator := {
  ssz_bytes_len := fun _ => VALIDATOR_SSZ_LEN;
  ssz_append := fun self buf =>
    let buf := buf ++ as_slice (v_pubkey self) in
    ssz_append (v_index self) buf;
}.

Definition Validator_from_ssz_bytes (bytes : list u8) : Outcome DecodeError Validator :=
  let? _ := ensure_len bytes VALIDATOR_SSZ_LEN in
  let? (pubkey, cursor) := read_byte_array PUBLIC_KEY_LEN bytes 0 in
  let? index_bytes := slice bytes cursor (cursor + VALIDATOR_INDEX_LEN) in
  let? idx := from_ssz_bytes index_bytes in
  Ok (mkValidator pubkey idx).

#[export] Instance Validator_Decode : Decode Validator := {
  ssz_fixed_len := VALIDATOR_SSZ_LEN;
  from_ssz_bytes := Validator_from_ssz_bytes;
}.

#[export] Instance AttestationData_Encode : Encode AttestationData := {
  ssz_bytes_len := fun _ => ATTESTATION_DATA_SSZ_LEN;
  ssz_append := fun self buf =>
    let buf := ssz_append (ad_slot self) buf in
    let buf := ssz_append (ad_head self) buf in
    let buf := ssz_append (ad_target self) buf in
    ssz_append (ad_source self) buf;
}.

Definition AttestationData_from_ssz_bytes (bytes : list u8) : Outcome DecodeError AttestationData :=
  let? _ := ensure_len bytes ATTESTATION_DATA_SSZ_LEN in
  let? (slot, c) := read_fixed bytes 0 in
  let? (head, c) := read_fixed bytes c in
  let? (target, c) := read_fixed bytes c in
  let? (source, c) := read_fixed bytes c in
  Ok (mkAttestationData slot head target source).

#[export] Instance AttestationData_Decode : Decode AttestationData := {
  ssz_fixed_len := ATTESTATION_DATA_SSZ_LEN;
  from_ssz_bytes := AttestationData_from_ssz_bytes;
}.

#[export] Instance Attestation_Encode : Encode Attestation := {
  ssz_bytes_len := fun _ => ATTESTATION_SSZ_LEN;
  ssz_append := fun self buf =>
    let buf := ssz_append (att_validator_id self) buf in
    ssz_append (att_data self) buf;
}.

Definition Attestation_from_ssz_bytes (bytes : list u8) : Outcome DecodeError Attestation :=
  let? _ := ensure_len bytes ATTESTATION_SSZ_LEN in
  let? (validator_id, c) := read_fixed bytes 0 in
  let? (data, c) := read_fixed bytes c in
  Ok (mkAttestation validator_id data).

#[export] Instance Attestation_Decode : Decode Attestation := {
  ssz_fixed_len := ATTESTATION_SSZ_LEN;
  from_ssz_bytes := Attestation_from_ssz_bytes;
}.

#[export] Instance SignedAttestation_Encode : Encode SignedAttestation := {
  ssz_bytes_len := fun _ => SIGNED_ATTESTATION_SSZ_LEN;
  ssz_append := fun self buf =>
    let buf := ssz_append (sa_message self) buf in
    buf ++ as_slice (sa_signature self);
}.

Definition SignedAttestation_from_ssz_bytes (bytes : list u8) : Outcome DecodeError SignedAttestation :=
  let? _ := ensure_len bytes SIGNED_ATTESTATION_SSZ_LEN in
  let? (message, c) := read_fixed bytes 0 in
  let? (signature, c) := read_byte_array SIGNATURE_LEN bytes c in
  Ok (mkSignedAttestation message signature).

#[export] Instance SignedAttestation_Decode : Decode SignedAttestation := {
  ssz_fixed_len := SIGNED_ATTESTATION_SSZ_LEN;
  from_ssz_bytes := SignedAttestation_from_ssz_bytes;
}.

#[export] Instance BlockHeader_Encode : Encode BlockHeader := {
  ssz_bytes_len := fun _ => BLOCK_HEADER_SSZ_LEN;
  ssz_append := fun self buf =>
    let buf := ssz_append (bh_slot self) buf in
    let buf := ssz_append (bh_proposer_index self) buf in
    let buf := buf ++ as_slice (bh_parent_root self) in
    let buf := buf ++ as_slice (bh_state_root self) in
    buf ++ as_slice (bh_body_root self);
}.

Definition BlockHeader_from_ssz_bytes (bytes : list u8) : Outcome DecodeError BlockHeader :=
  let? _ := ensure_len bytes BLOCK_HEADER_SSZ_LEN in
  let? (slot, c) := read_fixed bytes 0 in
  let? (proposer_index, c) := read_fixed bytes c in
  let? (parent_root, c) := read_byte_array 32 bytes c in
  let? (state_root, c) := read_byte_array 32 bytes c in
  let? (body_root, c) := read_byte_array 32 bytes c in
  Ok (mkBlockHeader slot proposer_index parent_root state_root body_root).

#[export] Instance BlockHeader_Decode : Decode BlockHeader := {
  ssz_fixed_len := BLOCK_HEADER_SSZ_LEN;
  from_ssz_bytes := BlockHeader_from_ssz_bytes;
}.

#[export] Instance BlockBody_Encode : Encode BlockBody := {
  ssz_bytes_len := fun self => BYTES_PER_LENGTH_OFFSET + len (bb_attestations self) * ATTESTATION_SSZ_LEN;
  ssz_append := fun self buf =>
    let buf := write_offset buf BYTES_PER_LENGTH_OFFSET in
    encode_fixed_element_list (bb_attestations self) buf;
}.

Definition BlockBody_from_ssz_bytes (bytes : list u8) : Outcome DecodeError BlockBody :=
  if len bytes <? BYTES_PER_LENGTH_OFFSET
  then Err (DecodeInvalidByteLength (len bytes) BYTES_PER_LENGTH_OFFSET)
  else
    let? (offset, c) := read_offset bytes 0 in
    if negb (offset =? BYTES_PER_LENGTH_OFFSET) then Err (OffsetIntoFixedPortion offset)
    else
      let? tail := slice bytes c (len bytes) in
      let? attestations := decode_fixed_element_list tail MAX_ATTESTATIONS in
      Ok (mkBlockBody attestations).

(** A variable-length type occupies an offset in its container: the default
    [ssz_fixed_len] of the trait. *)
#[export] Instance BlockBody_Decode : Decode BlockBody := {
  ssz_fixed_len := BYTES_PER_LENGTH_OFFSET;
  from_ssz_bytes := BlockBody_from_ssz_bytes;
}.

#[export] Instance Block_Encode : Encode Block := {
  ssz_bytes_len := fun self => BLOCK_FIXED_PART_LEN + ssz_bytes_len (b_body self);
  ssz_append := fun self buf =>
    let buf := ssz_append (b_slot self) buf in
    let buf := ssz_append (b_proposer_index self) buf in
    let buf := buf ++ as_slice (b_parent_root self) in
    let buf := buf ++ as_slice (b_state_root self) in
    let buf := write_offset buf BLOCK_FIXED_PART_LEN in
    ssz_append (b_body self) buf;
}.

Definition Block_from_ssz_bytes (bytes : list u8) : Outcome DecodeError Block :=
  if len bytes <? BLOCK_FIXED_PART_LEN
  then Err (DecodeInvalidByteLength (len bytes) BLOCK_FIXED_PART_LEN)
  else
    let? (slot, c) := read_fixed bytes 0 in
    let? (proposer_index, c) := read_fixed bytes c in
    let? (parent_root, c) := read_byte_array 32 bytes c in
    let? (state_root, c) := read_byte_array 32 bytes c in
    let? (offset, c) := read_offset bytes c in
    if negb (offset =? BLOCK_FIXED_PART_LEN) then Err (OffsetIntoFixedPortion offset)
    else
      let? tail := slice bytes offset (len bytes) in
      let? body := from_ssz_bytes tail in
      Ok (mkBlock slot proposer_index parent_root state_root body).

#[export] Instance Block_Decode : Decode Block := {
  ssz_fixed_len := BYTES_PER_LENGTH_OFFSET;
  from_ssz_bytes := Block_from_ssz_bytes;
}.

#[export] Instance BlockSignatures_Encode : Encode BlockSignatures := {
  ssz_bytes_len := fun self => len (bs_signatures self) * SIGNATURE_LEN;
  ssz_append := fun self buf => encode_byte_vector_list (bs_signatures self) buf;
}.

Definition BlockSignatures_from_ssz_bytes (bytes : list u8) : Outcome DecodeError BlockSignatures :=
  let? signatures := decode_byte_vector_list SIGNATURE_LEN bytes MAX_ATTESTATIONS in
  Ok (mkBlockSignatures signatures).

#[export] Instance BlockSignatures_Decode : Decode BlockSignatures := {
  ssz_fixed_len := BYTES_PER_LENGTH_OFFSET;
  from_ssz_bytes := BlockSignatures_from_ssz_bytes;
}.

#[export] Instance BlockWithAttestation_Encode : Encode BlockWithAttestation := {
  ssz_bytes_len := fun self => BLOCK_WITH_ATTESTATION_FIXED_PART_LEN + ssz_bytes_len (bwa_block self);
  ssz_append := fun self buf =>
    let buf := write_offset buf BLOCK_WITH_ATTESTATION_FIXED_PART_LEN in
    let buf := ssz_append (bwa_proposer_attestation self) buf in
    ssz_append (bwa_block self) buf;
}.

Definition BlockWithAttestation_from_ssz_bytes (bytes : list u8) : Outcome DecodeError BlockWithAttestation :=
  if len bytes <? BLOCK_WITH_ATTESTATION_FIXED_PART_LEN
  then Err (DecodeInvalidByteLength (len bytes) BLOCK_WITH_ATTESTATION_FIXED_PART_LEN)
  else
    let? (offset, c) := read_offset bytes 0 in
    if negb (offset =? BLOCK_WITH_ATTESTATION_FIXED_PART_LEN) then Err (OffsetIntoFixedPortion offset)
    else
      let? (proposer_attestation, c) := read_fixed bytes c in
      let? tail := slice bytes offset (len bytes) in
      let? block := from_ssz_bytes tail in
      Ok (mkBlockWithAttestation block proposer_attestation).

#[export] Instance BlockWithAttestation_Decode : Decode BlockWithAttestation := {
  ssz_fixed_len := BYTES_PER_LENGTH_OFFSET;
  from_ssz_bytes := BlockWithAttestation_from_ssz_bytes;
}.

#[export] Instance SignedBlockWithAttestation_Encode : Encode SignedBlockWithAttestation := {
  ssz_bytes_len := fun self =>
    SIGNED_BLOCK_WITH_ATTESTATION_FIXED_PART_LEN + ssz_bytes_len (sb_message self)
    + ssz_bytes_len (sb_signature self);
  ssz_append := fun self buf =>
    let message_offset := SIGNED_BLOCK_WITH_ATTESTATION_FIXED_PART_LEN in
    let signature_offset := message_offset + ssz_bytes_len (sb_message self) in
    let buf := write_offset buf message_offset in
    let buf := write_offset buf signature_offset in
    let buf := ssz_append (sb_message self) buf in
    ssz_append (sb_signature self) buf;
}.

Definition SignedBlockWithAttestation_from_ssz_bytes (bytes : list u8)
    : Outcome DecodeError SignedBlockWithAttestation :=
  if len bytes <? SIGNED_BLOCK_WITH_ATTESTATION_FIXED_PART_LEN
  then Err (DecodeInvalidByteLength (len bytes) SIGNED_BLOCK_WITH_ATTESTATION_FIXED_PART_LEN)
  else
    let? (message_offset, c) := read_offset bytes 0 in
    let? (signature_offset, c) := read_offset bytes c in
    if negb (message_offset =? SIGNED_BLOCK_WITH_ATTESTATION_FIXED_PART_LEN)
    then Err (OffsetIntoFixedPortion message_offset)
    else if (signature_offset <? message_offset) || (len bytes <? signature_offset)
    then Err (OffsetOutOfBounds signature_offset)
    else
      let? message_bytes := slice bytes message_offset signature_offset in
      let? message := from_ssz_bytes message_bytes in
      let? signature_bytes := slice bytes signature_offset (len bytes) in
      let? signature := from_ssz_bytes signature_bytes in
      Ok (mkSignedBlockWithAttestation message signature).

#[export] Instance SignedBlockWithAttestation_Decode : Decode SignedBlockWithAttestation := {
  ssz_fixed_len := BYTES_PER_LENGTH_OFFSET;
  from_ssz_bytes := SignedBlockWithAttestation_from_ssz_bytes;
}.

End Codecs.

(** ** Hash tree roots *)

Section HashTreeRoots.
Context {sha : Sha256}.

#[export] Instance ByteVector_HashTreeRoot n : HashTreeRoot (ByteVector n) :=
  fun v => merkleize (pack (as_slice v)).

(** [u64_chunk] of the [u64] newtypes. *)
Definition u64_chunk (v : N) : Bytes32 := scalar_chunk v.

#[export] Instance Checkpoint_HashTreeRoot : HashTreeRoot Checkpoint :=
  fun self => hash_pair (cp_root self) (u64_chunk (cp_slot self)).

#[export] Instance Validator_HashTreeRoot : HashTreeRoot Validator :=
  fun self => merkleize [hash_tree_root (v_pubkey self); u64_chunk (v_index self)].

#[export] Instance AttestationData_HashTreeRoot : HashTreeRoot AttestationData :=
  fun self => merkleize [u64_chunk (ad_slot self); hash_tree_root (ad_head self);
                         hash_tree_root (ad_target self); hash_tree_root (ad_source self)].

#[export] Instance Attestation_HashTreeRoot : HashTreeRoot Attestation :=
  fun self => merkleize [u64_chunk (att_validator_id self); hash_tree_root (att_data self)].

#[export] Instance SignedAttestation_HashTreeRoot : HashTreeRoot SignedAttestation :=
  fun self => merkleize [hash_tree_root (sa_message self); hash_tree_root (sa_signature self)].

Definition list_hash_tree_root {T} `{HashTreeRoot T} (items : list T) (max : N) : Bytes32 :=
  let roots := hash_tree_root <$> items in
  let merkle := match merkleize_with_limit roots max with Ok r => r | _ => ZERO_HASH end in
  mix_in_length merkle (len items).

#[export] Instance BlockHeader_HashTreeRoot : HashTreeRoot BlockHeader :=
  fun self => merkleize [u64_chunk (bh_slot self); u64_chunk (bh_proposer_index self);
                         bh_parent_root self; bh_state_root self; bh_body_root self].

#[export] Instance BlockBody_HashTreeRoot : HashTreeRoot BlockBody :=
  fun self => list_hash_tree_root (bb_attestations self) MAX_ATTESTATIONS.

#[export] Instance Block_HashTreeRoot : HashTreeRoot Block :=
  fun self => merkleize [u64_chunk (b_slot self); u64_chunk (b_proposer_index self);
                         b_parent_root self; b_state_root self; hash_tree_root (b_body self)].

#[export] Instance BlockSignatures_HashTreeRoot : HashTreeRoot BlockSignatures :=
  fun self => list_hash_tree_root (bs_signatures self) MAX_ATTESTATIONS.

#[export] Instance BlockWithAttestation_HashTreeRoot : HashTreeRoot BlockWithAttestation :=
  fun self => merkleize [hash_tree_root (bwa_block self); hash_tree_root (bwa_proposer_attestation self)].

#[export] Instance SignedBlockWithAttestation_HashTreeRoot : HashTreeRoot SignedBlockWithAttestation :=
  fun self => merkleize [hash_tree_root (sb_message self); hash_tree_root (sb_signature self)].

Definition BlockHeader_genesis : BlockHeader :=
  mkBlockHeader 0 0 (bv_zero 32) (bv_zero 32) (hash_tree_root BlockBody_default).

End HashTreeRoots.

(** ** Correctness of the codecs *)

#[export] Instance Checkpoint_SszWf : SszWf Checkpoint := fun cp => u64_ok (cp_slot cp).
#[export] Instance Validator_SszWf : SszWf Validator := fun v => u64_ok (v_index v).
#[export] Instance AttestationData_SszWf : SszWf AttestationData := fun d =>
  u64_ok (ad_slot d) /\ ssz_wf (ad_head d) /\ ssz_wf (ad_target d) /\ ssz_wf (ad_source d).
#[export] Instance Attestation_SszWf : SszWf Attestation := fun a =>
  u64_ok (att_validator_id a) /\ ssz_wf (att_data a).
#[export] Instance SignedAttestation_SszWf : SszWf SignedAttestation := fun a => ssz_wf (sa_message a).
#[export] Instance BlockHeader_SszWf : SszWf BlockHeader := fun h =>
  u64_ok (bh_slot h) /\ u64_ok (bh_proposer_index h).
#[export] Instance BlockBody_SszWf : SszWf BlockBody := fun b =>
  Forall ssz_wf (bb_attestations b) /\ len (bb_attestations b) <= MAX_ATTESTATIONS.
#[export] Instance Block_SszWf : SszWf Block := fun b =>
  u64_ok (b_slot b) /\ u64_ok (b_proposer_index b) /\ ssz_wf (b_body b).
#[export] Instance BlockSignatures_SszWf : SszWf BlockSignatures := fun s =>
  len (bs_signatures s) <= MAX_ATTESTATIONS.
#[export] Instance BlockWithAttestation_SszWf : SszWf BlockWithAttestation := fun b =>
  ssz_wf (bwa_block b) /\ ssz_wf (bwa_proposer_attestation b).
#[export] Instance SignedBlockWithAttestation_SszWf : SszWf SignedBlockWithAttestation := fun b =>
  ssz_wf (sb_message b) /\ ssz_wf (sb_signature b).

(** [lia] on the wire sizes. *)
Ltac unfold_sizes :=
  cbn [ssz_fixed_len u64_Decode Checkpoint_Decode Validator_Decode AttestationData_Decode Attestation_Decode
       SignedAttestation_Decode BlockHeader_Decode] in *;
  unfold SIGNED_BLOCK_WITH_ATTESTATION_FIXED_PART_LEN, BLOCK_WITH_ATTESTATION_FIXED_PART_LEN,
    SIGNED_ATTESTATION_SSZ_LEN, ATTESTATION_SSZ_LEN, ATTESTATION_DATA_SSZ_LEN, BLOCK_HEADER_SSZ_LEN,
    BLOCK_HEADER_LEN, BLOCK_FIXED_PART_LEN, CHECKPOINT_LEN, VALIDATOR_SSZ_LEN, VALIDATOR_INDEX_LEN,
    SLOT_LEN, U64_LEN, BYTES32_LEN, PUBLIC_KEY_LEN, SIGNATURE_LEN, BYTES_PER_LENGTH_OFFSET in *.
Ltac size_lia := unfold_sizes; lia.

(** Cut the first [a] bytes off a string of known length. *)
Ltac cut_bytes a bs p q :=
  let Hp := fresh "Hl" in let Hq := fresh "Hl" in
  destruct (bytes_split a (len bs - a) bs) as (p & q & -> & Hp & Hq); [size_lia|];
  repeat match goal with Hx : context [len (_ ++ _)] |- _ => rewrite len_app in Hx end.

(** Start reading the encoding [He : encode x = ...] of a value. *)
Ltac start_reading He :=
  match goal with
  | |- context [encode ?x] =>
      let Hc := fresh "Hc" in
      pose proof (at_cursor_start (encode x)) as Hc; rewrite He in Hc at 2; rewrite <-?app_assoc in Hc
  end.

Section FixedContainers.
Context `{EthSszLaws}.

Lemma encode_Checkpoint cp : encode cp = as_slice (cp_root cp) ++ encode (cp_slot cp).
Proof. unfold encode at 1. cbn [ssz_append Checkpoint_Encode]. by rewrite fc_append. Qed.

#[export] Instance Checkpoint_FixedCodec : FixedCodec Checkpoint.
Proof.
  assert (Hlen : forall cp : Checkpoint, len (encode cp) = CHECKPOINT_LEN).
  { intros cp. by rewrite encode_Checkpoint, len_app, fc_len, bv_len. }
  split.
  - intros cp buf. rewrite encode_Checkpoint. cbn [ssz_append Checkpoint_Encode].
    by rewrite fc_append, <-app_assoc.
  - done.
  - done.
  - intros cp Hwf. start_reading (encode_Checkpoint cp).
    cbn [from_ssz_bytes Checkpoint_Decode]. unfold Checkpoint_from_ssz_bytes.
    rewrite Hlen, N.eqb_refl. cbn [negb].
    rewrite (slice_cursor _ _ _ _ _ Hc) by by rewrite bv_len. cbn [obind].
    rewrite copy_array_as_slice. cbn [obind].
    apply at_cursor_app in Hc. rewrite bv_len in Hc.
    rewrite <-(Hlen cp), (slice_cursor_tail _ _ _ Hc), app_nil_r. cbn [obind].
    rewrite fc_decode by done. by destruct cp.
  - intros bs Hl. cut_bytes 32 bs p q. destruct (byte_vector_of 32 p) as [v <-]; [done|].
    destruct (fc_onto (T:=N) q) as (slot & Hw & <-); [size_lia|].
    exists (mkCheckpoint v slot). split; [done|]. apply encode_Checkpoint.
  - intros bs Hl. cbn in *. unfold Checkpoint_from_ssz_bytes. by rewrite (proj2 (N.eqb_neq _ _)).
Qed.

Lemma encode_Validator v : encode v = as_slice (v_pubkey v) ++ encode (v_index v).
Proof. unfold encode at 1. cbn [ssz_append Validator_Encode]. by rewrite fc_append. Qed.

#[export] Instance Validator_FixedCodec : FixedCodec Validator.
Proof.
  assert (Hlen : forall v : Validator, len (encode v) = VALIDATOR_SSZ_LEN).
  { intros v. by rewrite encode_Validator, len_app, fc_len, bv_len. }
  split.
  - intros v buf. rewrite encode_Validator. cbn [ssz_append Validator_Encode].
    by rewrite fc_append, <-app_assoc.
  - done.
  - done.
  - intros v Hwf. start_reading (encode_Validator v).
    cbn [from_ssz_bytes Validator_Decode]. unfold Validator_from_ssz_bytes.
    rewrite ensure_len_Ok by apply Hlen. cbn [obind]. read_field.
    rewrite (slice_cursor _ _ (encode (v_index v)) [] (0 + PUBLIC_KEY_LEN + VALIDATOR_INDEX_LEN));
      [|done|by rewrite fc_len]. cbn [obind].
    rewrite fc_decode by done. by destruct v.
  - intros bs Hl. cut_bytes 52 bs p q. destruct (byte_vector_of 52 p) as [v <-]; [done|].
    destruct (fc_onto (T:=N) q) as (idx & Hw & <-); [size_lia|].
    exists (mkValidator v idx). split; [done|]. apply encode_Validator.
  - intros bs Hl. cbn in *. unfold Validator_from_ssz_bytes. by rewrite ensure_len_Err.
Qed.

Lemma encode_AttestationData d :
  encode d = encode (ad_slot d) ++ encode (ad_head d) ++ encode (ad_target d) ++ encode (ad_source d).
Proof. unfold encode at 1. cbn [ssz_append AttestationData_Encode]. by rewrite !fc_append, <-!app_assoc. Qed.

#[export] Instance AttestationData_FixedCodec : FixedCodec AttestationData.
Proof.
  assert (Hlen : forall d : AttestationData, len (encode d) = ATTESTATION_DATA_SSZ_LEN).
  { intros d. by rewrite encode_AttestationData, !len_app, !fc_len. }
  split.
  - intros d buf. rewrite encode_AttestationData. cbn [ssz_append AttestationData_Encode].
    by rewrite !fc_append, <-!app_assoc.
  - done.
  - done.
  - intros d (Hs & Hh & Ht & Hsrc). start_reading (encode_AttestationData d).
    cbn [from_ssz_bytes AttestationData_Decode]. unfold AttestationData_from_ssz_bytes.
    rewrite ensure_len_Ok by apply Hlen. cbn [obind]. do 4 read_field. by destruct d.
  - intros bs Hl. cut_bytes 8 bs p1 q1. cut_bytes 40 q1 p2 q2. cut_bytes 40 q2 p3 p4.
    destruct (fc_onto (T:=N) p1) as (slot & Hw1 & <-); [size_lia|].
    destruct (fc_onto (T:=Checkpoint) p2) as (h & Hw2 & <-); [size_lia|].
    destruct (fc_onto (T:=Checkpoint) p3) as (t & Hw3 & <-); [size_lia|].
    destruct (fc_onto (T:=Checkpoint) p4) as (src & Hw4 & <-); [size_lia|].
    exists (mkAttestationData slot h t src). split; [done|]. apply encode_AttestationData.
  - intros bs Hl. cbn in *. unfold AttestationData_from_ssz_bytes. by rewrite ensure_len_Err.
Qed.

Lemma encode_Attestation a : encode a = encode (att_validator_id a) ++ encode (att_data a).
Proof. unfold encode at 1. cbn [ssz_append Attestation_Encode]. by rewrite !fc_append. Qed.

#[export] Instance Attestation_FixedCodec : FixedCodec Attestation.
Proof.
  assert (Hlen : forall a : Attestation, len (encode a) = ATTESTATION_SSZ_LEN).
  { intros a. by rewrite encode_Attestation, !len_app, !fc_len. }
  split.
  - intros a buf. rewrite encode_Attestation. cbn [ssz_append Attestation_Encode].
    by rewrite !fc_append, <-!app_assoc.
  - done.
  - done.
  - intros a (Hi & Hd). start_reading (encode_Attestation a).
    cbn [from_ssz_bytes Attestation_Decode]. unfold Attestation_from_ssz_bytes.
    rewrite ensure_len_Ok by apply Hlen. cbn [obind]. do 2 read_field. by destruct a.
  - intros bs Hl. cut_bytes 8 bs p1 p2.
    destruct (fc_onto (T:=N) p1) as (i & Hw1 & <-); [size_lia|].
    destruct (fc_onto (T:=AttestationData) p2) as (d & Hw2 & <-); [size_lia|].
    exists (mkAttestation i d). split; [done|]. apply encode_Attestation.
  - intros bs Hl. cbn in *. unfold Attestation_from_ssz_bytes. by rewrite ensure_len_Err.
Qed.

Lemma encode_SignedAttestation a : encode a = encode (sa_message a) ++ as_slice (sa_signature a).
Proof. unfold encode at 1. cbn [ssz_append SignedAttestation_Encode]. by rewrite !fc_append. Qed.

#[export] Instance SignedAttestation_FixedCodec : FixedCodec SignedAttestation.
Proof.
  assert (Hlen : forall a : SignedAttestation, len (encode a) = SIGNED_ATTESTATION_SSZ_LEN).
  { intros a. by rewrite encode_SignedAttestation, !len_app, !fc_len, bv_len. }
  split.
  - intros a buf. rewrite encode_SignedAttestation. cbn [ssz_append SignedAttestation_Encode].
    by rewrite !fc_append, <-!app_assoc.
  - done.
  - done.
  - intros a Hm. start_reading (encode_SignedAttestation a).
    cbn [from_ssz_bytes SignedAttestation_Decode]. unfold SignedAttestation_from_ssz_bytes.
    rewrite ensure_len_Ok by apply Hlen. cbn [obind]. do 2 read_field. by destruct a.
  - intros bs Hl. cut_bytes 136 bs p1 p2.
    destruct (fc_onto (T:=Attestation) p1) as (m & Hw1 & <-); [size_lia|].
    destruct (byte_vector_of SIGNATURE_LEN p2) as [sg <-]; [size_lia|].
    exists (mkSignedAttestation m sg). split; [done|]. apply encode_SignedAttestation.
  - intros bs Hl. cbn in *. unfold SignedAttestation_from_ssz_bytes. by rewrite ensure_len_Err.
Qed.

Lemma encode_BlockHeader h :
  encode h = encode (bh_slot h) ++ encode (bh_proposer_index h) ++ as_slice (bh_parent_root h)
             ++ as_slice (bh_state_root h) ++ as_slice (bh_body_root h).
Proof. unfold encode at 1. cbn [ssz_append BlockHeader_Encode]. by rewrite !fc_append, <-!app_assoc. Qed.

#[export] Instance BlockHeader_FixedCodec : FixedCodec BlockHeader.
Proof.
  assert (Hlen : forall h : BlockHeader, len (encode h) = BLOCK_HEADER_SSZ_LEN).
  { intros h. by rewrite encode_BlockHeader, !len_app, !fc_len, !bv_len. }
  split.
  - intros h buf. rewrite encode_BlockHeader. cbn [ssz_append BlockHeader_Encode].
    by rewrite !fc_append, <-!app_assoc.
  - done.
  - done.
  - intros h (Hs & Hp). start_reading (encode_BlockHeader h).
    cbn [from_ssz_bytes BlockHeader_Decode]. unfold BlockHeader_from_ssz_bytes.
    rewrite ensure_len_Ok by apply Hlen. cbn [obind]. do 5 read_field. by destruct h.
  - intros bs Hl. cut_bytes 8 bs p1 q1. cut_bytes 8 q1 p2 q2. cut_bytes 32 q2 p3 q3.
    cut_bytes 32 q3 p4 p5.
    destruct (fc_onto (T:=N) p1) as (slot & Hw1 & <-); [size_lia|].
    destruct (fc_onto (T:=N) p2) as (pr & Hw2 & <-); [size_lia|].
    destruct (byte_vector_of 32 p3) as [v3 <-]; [size_lia|]. destruct (byte_vector_of 32 p4) as [v4 <-]; [size_lia|].
    destruct (byte_vector_of 32 p5) as [v5 <-]; [size_lia|].
    exists (mkBlockHeader slot pr v3 v4 v5). split; [done|]. apply encode_BlockHeader.
  - intros bs Hl. cbn in *. unfold BlockHeader_from_ssz_bytes. by rewrite ensure_len_Err.
Qed.

End FixedContainers.

Section VariableContainers.
Context `{EthSszLaws}.

Lemma encode_BlockBody b :
  encode b = to_le_bytes 4 BYTES_PER_LENGTH_OFFSET ++ concat (encode <$> bb_attestations b).
Proof.
  unfold encode at 1. cbn [ssz_append BlockBody_Encode].
  rewrite encode_fixed_element_list_concat. by rewrite write_offset_small.
Qed.

Lemma attestation_len_pos : 0 < ssz_fixed_len Attestation.
Proof. done. Qed.

#[export] Instance BlockBody_SszCodec : SszCodec BlockBody.
Proof.
  apply mk_SszCodec.
  - intros b buf. rewrite encode_BlockBody. cbn [ssz_append BlockBody_Encode].
    rewrite encode_fixed_element_list_concat, write_offset_small by done. by rewrite <-app_assoc.
  - intros b _. by rewrite encode_BlockBody, len_app, len_to_le_bytes, len_concat_encode.
  - intros b [Hwf Hmax]. start_reading (encode_BlockBody b).
    cbn [from_ssz_bytes BlockBody_Decode]. unfold BlockBody_from_ssz_bytes.
    rewrite (proj2 (N.ltb_ge _ _)) by (rewrite encode_BlockBody, len_app, len_to_le_bytes; size_lia).
    read_field. rewrite N.eqb_refl. cbn [negb].
    rewrite (slice_cursor_tail _ _ _ Hc), app_nil_r. cbn [obind].
    rewrite decode_fixed_element_list_encode by done. by destruct b.
  - intros bs. unfold canonical_at. cbn [from_ssz_bytes BlockBody_Decode]. unfold BlockBody_from_ssz_bytes.
    destruct (N.ltb_spec (len bs) BYTES_PER_LENGTH_OFFSET) as [|Hge]; [done|]. pose proof (at_cursor_start bs) as Hc.
    cut_bytes 4 bs w rest. destruct (offset_word w Hl) as (v & Hv & ->). rewrite <-app_assoc in Hc. read_field.
    destruct (N.eqb_spec v BYTES_PER_LENGTH_OFFSET) as [->|]; [|done]. cbn [negb].
    rewrite (slice_cursor_tail _ _ _ Hc), app_nil_r. cbn [obind].
    destruct (decode_fixed_element_list_cases attestation_len_pos rest MAX_ATTESTATIONS)
      as [(items & -> & Hwf & Hmax & <-)|[m ->]]; [|done]. cbn [obind]. split; [done|]. apply encode_BlockBody.
Qed.

Lemma BlockBody_bytes_len_bound (b : BlockBody) : ssz_wf b -> ssz_bytes_len b <= 4 + 4096 * 136.
Proof.
  intros [_ Hmax]. cbn [ssz_bytes_len BlockBody_Encode]. change MAX_ATTESTATIONS with 4096 in Hmax. size_lia.
Qed.

Lemma encode_Block b :
  encode b = encode (b_slot b) ++ encode (b_proposer_index b) ++ as_slice (b_parent_root b)
             ++ as_slice (b_state_root b) ++ to_le_bytes 4 BLOCK_FIXED_PART_LEN ++ encode (b_body b).
Proof.
  unfold encode at 1. cbn [ssz_append Block_Encode]. rewrite sc_append, write_offset_small by done.
  by rewrite !fc_append, <-!app_assoc.
Qed.

Lemma len_encode_Block b : len (encode b) = BLOCK_FIXED_PART_LEN + len (encode (b_body b)).
Proof. rewrite encode_Block, !len_app, len_to_le_bytes, !fc_len, !bv_len. size_lia. Qed.

#[export] Instance Block_SszCodec : SszCodec Block.
Proof.
  apply mk_SszCodec.
  - intros b buf. rewrite encode_Block. cbn [ssz_append Block_Encode].
    rewrite sc_append, write_offset_small by done. by rewrite !fc_append, <-!app_assoc.
  - intros b (_ & _ & Hb). by rewrite len_encode_Block, sc_len.
  - intros b (Hs & Hp & Hb). start_reading (encode_Block b).
    cbn [from_ssz_bytes Block_Decode]. unfold Block_from_ssz_bytes.
    rewrite (proj2 (N.ltb_ge _ _)) by (rewrite len_encode_Block; lia).
    do 5 read_field. rewrite N.eqb_refl. cbn [negb].
    rewrite (slice_cursor_tail (encode b) BLOCK_FIXED_PART_LEN _ Hc), app_nil_r. cbn [obind].
    rewrite sc_decode by done. by destruct b.
  - intros bs. unfold canonical_at. cbn [from_ssz_bytes Block_Decode]. unfold Block_from_ssz_bytes.
    destruct (N.ltb_spec (len bs) BLOCK_FIXED_PART_LEN) as [|Hge]; [done|]. pose proof (at_cursor_start bs) as Hc.
    cut_bytes 8 bs p1 q1. cut_bytes 8 q1 p2 q2. cut_bytes 32 q2 p3 q3. cut_bytes 32 q3 p4 q4. cut_bytes 4 q4 w rest.
    destruct (fc_onto (T:=N) p1) as (slot & Hw1 & <-); [size_lia|].
    destruct (fc_onto (T:=N) p2) as (pr & Hw2 & <-); [size_lia|].
    destruct (byte_vector_of 32 p3) as [v3 <-]; [size_lia|]. destruct (byte_vector_of 32 p4) as [v4 <-]; [size_lia|].
    destruct (offset_word w) as (v & Hv & ->); [done|]. rewrite <-!app_assoc in Hc. do 5 read_field.
    destruct (N.eqb_spec v BLOCK_FIXED_PART_LEN) as [->|]; [|done]. cbn [negb].
    rewrite (slice_cursor_tail _ BLOCK_FIXED_PART_LEN _ Hc), app_nil_r. cbn [obind].
    pose proof (sc_cases (T:=BlockBody) rest) as Hb. unfold canonical_at in Hb.
    destruct (from_ssz_bytes rest) as [body| | |]; try done. destruct Hb as [Hwf <-]. cbn [obind].
    split; [done|]. apply encode_Block.
Qed.

Lemma encode_BlockSignatures s : encode s = concat (as_slice <$> bs_signatures s).
Proof. unfold encode. cbn. by rewrite encode_byte_vector_list_concat. Qed.

#[export] Instance BlockSignatures_SszCodec : SszCodec BlockSignatures.
Proof.
  apply mk_SszCodec.
  - intros s buf. rewrite encode_BlockSignatures. apply encode_byte_vector_list_concat.
  - intros s _. by rewrite encode_BlockSignatures, len_concat_as_slice.
  - intros s Hmax. rewrite encode_BlockSignatures. cbn [from_ssz_bytes BlockSignatures_Decode].
    unfold BlockSignatures_from_ssz_bytes. rewrite decode_byte_vector_list_encode by done. by destruct s.
  - intros bs. unfold canonical_at. cbn [from_ssz_bytes BlockSignatures_Decode]. unfold BlockSignatures_from_ssz_bytes.
    destruct (decode_byte_vector_list_cases (n:=SIGNATURE_LEN) bs MAX_ATTESTATIONS)
      as [(items & -> & Hmax & <-)|[m ->]]; [done| |done]. cbn [obind]. split; [done|]. apply encode_BlockSignatures.
Qed.

Lemma encode_BlockWithAttestation b :
  encode b = to_le_bytes 4 BLOCK_WITH_ATTESTATION_FIXED_PART_LEN ++ encode (bwa_proposer_attestation b)
             ++ encode (bwa_block b).
Proof.
  unfold encode at 1. cbn [ssz_append BlockWithAttestation_Encode]. rewrite sc_append, write_offset_small by done.
  by rewrite fc_append, <-!app_assoc.
Qed.

Lemma len_encode_BlockWithAttestation b :
  len (encode b) = BLOCK_WITH_ATTESTATION_FIXED_PART_LEN + len (encode (bwa_block b)).
Proof. rewrite encode_BlockWithAttestation, !len_app, len_to_le_bytes, fc_len. size_lia. Qed.

#[export] Instance BlockWithAttestation_SszCodec : SszCodec BlockWithAttestation.
Proof.
  apply mk_SszCodec.
  - intros b buf. rewrite encode_BlockWithAttestation. cbn [ssz_append BlockWithAttestation_Encode].
    rewrite sc_append, write_offset_small by done. by rewrite fc_append, <-!app_assoc.
  - intros b (Hb & _). by rewrite len_encode_BlockWithAttestation, sc_len.
  - intros b (Hb & Ha). start_reading (encode_BlockWithAttestation b).
    cbn [from_ssz_bytes BlockWithAttestation_Decode]. unfold BlockWithAttestation_from_ssz_bytes.
    rewrite (proj2 (N.ltb_ge _ _)) by (rewrite len_encode_BlockWithAttestation; lia).
    read_field. rewrite N.eqb_refl. cbn [negb]. read_field.
    rewrite (slice_cursor_tail (encode b) BLOCK_WITH_ATTESTATION_FIXED_PART_LEN _ Hc), app_nil_r. cbn [obind].
    rewrite sc_decode by done. by destruct b.
  - intros bs. unfold canonical_at. cbn [from_ssz_bytes BlockWithAttestation_Decode].
    unfold BlockWithAttestation_from_ssz_bytes.
    destruct (N.ltb_spec (len bs) BLOCK_WITH_ATTESTATION_FIXED_PART_LEN) as [|Hge]; [done|].
    pose proof (at_cursor_start bs) as Hc. cut_bytes 4 bs w q. cut_bytes 136 q p rest.
    destruct (offset_word w) as (v & Hv & ->); [done|].
    destruct (fc_onto (T:=Attestation) p) as (a & Hwa & <-); [size_lia|]. rewrite <-!app_assoc in Hc. read_field.
    destruct (N.eqb_spec v BLOCK_WITH_ATTESTATION_FIXED_PART_LEN) as [->|]; [|done]. cbn [negb]. read_field.
    rewrite (slice_cursor_tail _ BLOCK_WITH_ATTESTATION_FIXED_PART_LEN _ Hc), app_nil_r. cbn [obind].
    pose proof (sc_cases (T:=Block) rest) as Hb. unfold canonical_at in Hb.
    destruct (from_ssz_bytes rest) as [blk| | |]; try done. destruct Hb as [Hwf <-]. cbn [obind].
    split; [done|]. apply encode_BlockWithAttestation.
Qed.

(** The offset of the signatures never saturates. *)
Lemma signed_block_offset_fits (m : BlockWithAttestation) :
  ssz_wf m -> SIGNED_BLOCK_WITH_ATTESTATION_FIXED_PART_LEN + len (encode m) <= u32_max.
Proof.
  intros [(_ & _ & Hb) _]. pose proof (BlockBody_bytes_len_bound _ Hb).
  rewrite len_encode_BlockWithAttestation, len_encode_Block, sc_len by done. unfold u32_max. size_lia.
Qed.

Lemma encode_SignedBlockWithAttestation b :
  ssz_wf b ->
  encode b = to_le_bytes 4 SIGNED_BLOCK_WITH_ATTESTATION_FIXED_PART_LEN
             ++ to_le_bytes 4 (SIGNED_BLOCK_WITH_ATTESTATION_FIXED_PART_LEN + len (encode (sb_message b)))
             ++ encode (sb_message b) ++ encode (sb_signature b).
Proof.
  intros [Hm _]. unfold encode at 1. cbn [ssz_append SignedBlockWithAttestation_Encode].
  rewrite !sc_append, <-(sc_len (sb_message b)) by done.
  rewrite !write_offset_small; [by rewrite <-!app_assoc|done|by apply signed_block_offset_fits].
Qed.

#[export] Instance SignedBlockWithAttestation_SszCodec : SszCodec SignedBlockWithAttestation.
Proof.
  apply mk_SszCodec.
  - intros b buf. unfold encode. cbn [ssz_append SignedBlockWithAttestation_Encode]. unfold write_offset.
    by rewrite !sc_append, <-!app_assoc.
  - intros b Hwf. pose proof Hwf as [Hm Hs]. rewrite encode_SignedBlockWithAttestation by done.
    cbn [ssz_bytes_len SignedBlockWithAttestation_Encode].
    rewrite !len_app, !len_to_le_bytes, !sc_len by done. size_lia.
  - intros b Hwf. start_reading (encode_SignedBlockWithAttestation b Hwf). destruct Hwf as [Hm Hs].
    pose proof (signed_block_offset_fits (sb_message b) Hm).
    assert (Hlen : len (encode b) = SIGNED_BLOCK_WITH_ATTESTATION_FIXED_PART_LEN + len (encode (sb_message b))
                                    + len (encode (sb_signature b))).
    { rewrite encode_SignedBlockWithAttestation, !len_app, !len_to_le_bytes by done. size_lia. }
    cbn [from_ssz_bytes SignedBlockWithAttestation_Decode]. unfold SignedBlockWithAttestation_from_ssz_bytes.
    rewrite (proj2 (N.ltb_ge (len (encode b)) _)) by lia. do 2 read_field. rewrite N.eqb_refl. cbn [negb].
    rewrite (proj2 (N.ltb_ge _ SIGNED_BLOCK_WITH_ATTESTATION_FIXED_PART_LEN)),
      (proj2 (N.ltb_ge (len (encode b)) _)) by lia. cbn [orb].
    rewrite (slice_cursor (encode b) SIGNED_BLOCK_WITH_ATTESTATION_FIXED_PART_LEN _ _ _ Hc) by done. cbn [obind].
    rewrite sc_decode by done. cbn [obind]. apply at_cursor_app in Hc.
    rewrite (slice_cursor_tail (encode b) (SIGNED_BLOCK_WITH_ATTESTATION_FIXED_PART_LEN + _) _ Hc), app_nil_r.
    cbn [obind]. rewrite sc_decode by done. by destruct b.
  - intros bs. unfold canonical_at. cbn [from_ssz_bytes SignedBlockWithAttestation_Decode].
    unfold SignedBlockWithAttestation_from_ssz_bytes.
    destruct (N.ltb_spec (len bs) SIGNED_BLOCK_WITH_ATTESTATION_FIXED_PART_LEN) as [|Hge]; [done|].
    pose proof (at_cursor_start bs) as Hc. cut_bytes 4 bs w1 q. cut_bytes 4 q w2 rest.
    destruct (offset_word w1) as (v1 & Hv1 & ->); [done|]. destruct (offset_word w2) as (v2 & Hv2 & ->); [done|].
    rewrite <-!app_assoc in Hc. do 2 read_field.
    destruct (N.eqb_spec v1 SIGNED_BLOCK_WITH_ATTESTATION_FIXED_PART_LEN) as [->|]; [|done]. cbn [negb].
    destruct (N.ltb_spec v2 SIGNED_BLOCK_WITH_ATTESTATION_FIXED_PART_LEN) as [|Hlo]; [done|]. cbn [orb].
    match goal with |- context [len ?b <? v2] => destruct (N.ltb_spec (len b) v2) as [|Hhi]; [done|] end.
    rewrite !len_app, !len_to_le_bytes in Hhi.
    destruct (bytes_split (v2 - 8) (len rest - (v2 - 8)) rest) as (mb & sb & -> & Hmb & Hsb); [size_lia|].
    rewrite <-!app_assoc in Hc.
    rewrite (slice_cursor _ SIGNED_BLOCK_WITH_ATTESTATION_FIXED_PART_LEN _ _ _ Hc) by size_lia. cbn [obind].
    pose proof (sc_cases (T:=BlockWithAttestation) mb) as Hm. unfold canonical_at in Hm.
    destruct (from_ssz_bytes mb) as [m| | |]; try done. destruct Hm as [Hwm <-]. cbn [obind].
    apply at_cursor_app in Hc.
    replace (0 + BYTES_PER_LENGTH_OFFSET + BYTES_PER_LENGTH_OFFSET + len (encode m)) with v2 in Hc by size_lia.
    rewrite (slice_cursor_tail _ _ _ Hc), app_nil_r. cbn [obind].
    pose proof (sc_cases (T:=BlockSignatures) sb) as Hs. unfold canonical_at in Hs.
    destruct (from_ssz_bytes sb) as [sg| | |]; try done. destruct Hs as [Hws <-]. cbn [obind].
    split; [done|]. rewrite encode_SignedBlockWithAttestation by done. cbn [sb_message sb_signature].
    replace (SIGNED_BLOCK_WITH_ATTESTATION_FIXED_PART_LEN + len (encode m)) with v2 by size_lia. done.
Qed.

End VariableContainers.

(** C36. The wire format of a signed block is a bijection. Every signed block
    within the list limits is encoded to [ssz_bytes_len] bytes and decoded
    back; every string the decoder accepts is the encoding of the block it
    returns, so no second encoding of a block is accepted; and the decoder
    returns, without a panic, on any bytes a peer may send. *)
Theorem signed_block_codec `{EthSszLaws} :
  (forall b : SignedBlockWithAttestation, ssz_wf b ->
     len (encode b) = ssz_bytes_len b /\ from_ssz_bytes (encode b) = Ok b) /\
  (forall bs (b : SignedBlockWithAttestation), from_ssz_bytes bs = Ok b -> ssz_wf b /\ encode b = bs) /\
  (forall bs, returned (from_ssz_bytes (T:=SignedBlockWithAttestation) bs)).
Proof.
  split; [|split].
  - intros b Hwf. split; [by apply sc_len|by apply sc_decode].
  - apply sc_canonical.
  - apply sc_returned.
Qed.

Lemma signed_block_codec_witness :
  let b := mkSignedBlockWithAttestation
             (mkBlockWithAttestation (mkBlock 3 1 (bv_zero 32) (bv_zero 32) (mkBlockBody []))
                (mkAttestation 1 (mkAttestationData 3 Checkpoint_default Checkpoint_default Checkpoint_default)))
             (mkBlockSignatures []) in
  @from_ssz_bytes _ (@SignedBlockWithAttestation_Decode eth_ssz_reference)
    (@encode _ (@SignedBlockWithAttestation_Encode eth_ssz_reference) b) = Ok b.
Proof.
  intros b.
  destruct (@signed_block_codec eth_ssz_reference eth_ssz_reference_laws) as [H _].
  apply H. repeat split; try constructor; by vm_compute.
Defined.
