(* ===== verification/State.v ===== *)
(** * The consensus state ([crates/protocol/src/state.rs], data and codec)

    [State] with its SSZ codec and its hash tree root.  The five variable tails
    are encoded in declaration order after the fixed part, each addressed by an
    offset.  A [Bitlist] keeps its fields private in Rust, so the index
    accesses of its encoder and of the root computation are always in range:
    [bitlist_wire] and [bitlist_data] take the value of those computations, and
    [bitlist_as_bytes_spec] and [bitlist_rebuild_bytes] show that they return. *)

From stdpp Require Import base numbers list gmap strings pretty.
From Stdlib Require Import Strings.Byte ZArith Lia.
From S2P Require Import Prelude Config Types Bitfields Merkle Codec Slot Containers.

Definition HISTORICAL_ROOTS_LIMIT : N := historical_roots_limit DEVNET_CONFIG.
Definition JUSTIFICATIONS_VALIDATORS_LIMIT : N := HISTORICAL_ROOTS_LIMIT * VALIDATOR_REGISTRY_LIMIT.
#[global] Arguments HISTORICAL_ROOTS_LIMIT : simpl never.
#[global] Arguments JUSTIFICATIONS_VALIDATORS_LIMIT : simpl never.
Definition PROTOCOL_CONFIG_SSZ_LEN : N := U64_LEN.
Definition STATE_VARIABLE_FIELD_COUNT : N := 5.
Definition STATE_FIXED_PART_LEN : N :=
  PROTOCOL_CONFIG_SSZ_LEN + SLOT_LEN + BLOCK_HEADER_LEN + CHECKPOINT_LEN + CHECKPOINT_LEN
  + STATE_VARIABLE_FIELD_COUNT * BYTES_PER_LENGTH_OFFSET.

Record ProtocolConfig := mkProtocolConfig { genesis_time : N }.

Record State := mkState {
  st_config : ProtocolConfig;
  st_slot : Slot;
  st_latest_block_header : BlockHeader;
  st_latest_justified : Checkpoint;
  st_latest_finalized : Checkpoint;
  st_historical_block_hashes : list Bytes32;
  st_justified_slots : Bitlist HISTORICAL_ROOTS_LIMIT;
  st_validators : list Validator;
  st_justifications_roots : list Bytes32;
  st_justifications_validators : Bitlist JUSTIFICATIONS_VALIDATORS_LIMIT;
}.

#[export] Instance ProtocolConfig_eq_dec : EqDecision ProtocolConfig.
Proof. solve_decision. Defined.
#[export] Instance State_eq_dec : EqDecision State.
Proof. solve_decision. Defined.

(** Assignments to one field of [self]. *)
Definition set_slot (v : Slot) (s : State) : State :=
  mkState (st_config s) v (st_latest_block_header s) (st_latest_justified s) (st_latest_finalized s)
    (st_historical_block_hashes s) (st_justified_slots s) (st_validators s)
    (st_justifications_roots s) (st_justifications_validators s).
Definition set_header (v : BlockHeader) (s : State) : State :=
  mkState (st_config s) (st_slot s) v (st_latest_justified s) (st_latest_finalized s)
    (st_historical_block_hashes s) (st_justified_slots s) (st_validators s)
    (st_justifications_roots s) (st_justifications_validators s).
Definition set_justified (v : Checkpoint) (s : State) : State :=
  mkState (st_config s) (st_slot s) (st_latest_block_header s) v (st_latest_finalized s)
    (st_historical_block_hashes s) (st_justified_slots s) (st_validators s)
    (st_justifications_roots s) (st_justifications_validators s).
Definition set_finalized (v : Checkpoint) (s : State) : State :=
  mkState (st_config s) (st_slot s) (st_latest_block_header s) (st_latest_justified s) v
    (st_historical_block_hashes s) (st_justified_slots s) (st_validators s)
    (st_justifications_roots s) (st_justifications_validators s).
Definition set_history (v : list Bytes32) (s : State) : State :=
  mkState (st_config s) (st_slot s) (st_latest_block_header s) (st_latest_justified s) (st_latest_finalized s)
    v (st_justified_slots s) (st_validators s) (st_justifications_roots s) (st_justifications_validators s).
Definition set_justified_slots (v : Bitlist HISTORICAL_ROOTS_LIMIT) (s : State) : State :=
  mkState (st_config s) (st_slot s) (st_latest_block_header s) (st_latest_justified s) (st_latest_finalized s)
    (st_historical_block_hashes s) v (st_validators s) (st_justifications_roots s)
    (st_justifications_validators s).
Definition set_justifications (roots : list Bytes32) (bits : Bitlist JUSTIFICATIONS_VALIDATORS_LIMIT)
    (s : State) : State :=
  mkState (st_config s) (st_slot s) (st_latest_block_header s) (st_latest_justified s) (st_latest_finalized s)
    (st_historical_block_hashes s) (st_justified_slots s) (st_validators s) roots bits.

(** [num_validators]: [u64::try_from(len).unwrap_or(u64::MAX)]. *)
Definition num_validators (s : State) : N :=
  if len (st_validators s) <? u64_bound then len (st_validators s) else u64_max.

Definition ProtocolConfig_default : ProtocolConfig := mkProtocolConfig 0.
Definition BlockHeader_default : BlockHeader := mkBlockHeader 0 0 (bv_zero 32) (bv_zero 32) (bv_zero 32).
Definition State_default : State :=
  mkState ProtocolConfig_default 0 BlockHeader_default Checkpoint_default Checkpoint_default
    [] (bitlist_new _) [] [] (bitlist_new _).

(** ** Codec *)

(** [as_bytes] of a bitlist.  It indexes the packed bytes, which is in range for
    every value the private fields allow ([bitlist_as_bytes_spec]); the other
    branch is never taken. *)
Definition bitlist_wire {limit} (bl : Bitlist limit) : list u8 :=
  match bitlist_as_bytes (E:=TypesError) bl with Ok b => b | _ => [] end.

Section StateCodec.
Context `{EthSsz}.

#[export] Instance ProtocolConfig_Encode : Encode ProtocolConfig := {
  ssz_bytes_len := fun _ => PROTOCOL_CONFIG_SSZ_LEN;
  ssz_append := fun self buf => ssz_append (genesis_time self) buf;
}.

Definition ProtocolConfig_from_ssz_bytes (bytes : list u8) : Outcome DecodeError ProtocolConfig :=
  let? _ := ensure_len bytes PROTOCOL_CONFIG_SSZ_LEN in
  let? (genesis_time, c) := read_fixed bytes 0 in
  Ok (mkProtocolConfig genesis_time).

#[export] Instance ProtocolConfig_Decode : Decode ProtocolConfig := {
  ssz_fixed_len := PROTOCOL_CONFIG_SSZ_LEN;
  from_ssz_bytes := ProtocolConfig_from_ssz_bytes;
}.

Definition variable_tail_payloads (self : State) : list (list u8) :=
  [encode_bytes32_list (st_historical_block_hashes self) [];
   bitlist_wire (st_justified_slots self);
   encode_fixed_element_list (st_validators self) [];
   encode_bytes32_list (st_justifications_roots self) [];
   bitlist_wire (st_justifications_validators self)].

(** [for tail in &tails { write_offset(buf, offset); offset += tail.len(); }]. *)
Fixpoint write_offsets (tails : list (list u8)) (offset : N) (buf : list u8) : list u8 :=
  match tails with
  | [] => buf
  | tail :: tails' => write_offsets tails' (offset + len tail) (write_offset buf offset)
  end.

#[export] Instance State_Encode : Encode State := {
  ssz_bytes_len := fun self =>
    STATE_FIXED_PART_LEN + fold_right N.add 0 (len <$> variable_tail_payloads self);
  ssz_append := fun self buf =>
    let tails := variable_tail_payloads self in
    let buf := ssz_append (st_config self) buf in
    let buf := ssz_append (st_slot self) buf in
    let buf := ssz_append (st_latest_block_header self) buf in
    let buf := ssz_append (st_latest_justified self) buf in
    let buf := ssz_append (st_latest_finalized self) buf in
    let buf := write_offsets tails STATE_FIXED_PART_LEN buf in
    fold_left (fun buf tail => buf ++ tail) tails buf;
}.

(** [for offset in &mut offsets { *offset = read_offset(bytes, &mut c)?; }]. *)
Fixpoint read_offset_array (n : nat) (bytes : list u8) (c : N) : Outcome DecodeError (list N * N) :=
  match n with
  | O => Ok ([], c)
  | S n' =>
      let? (offset, c) := read_offset bytes c in
      let? (rest, c) := read_offset_array n' bytes c in
      Ok (offset :: rest, c)
  end.

(** [for pair in offsets.windows(2) { if pair[1] < pair[0] { return Err } }]. *)
Fixpoint check_windows (offsets : list N) : Outcome DecodeError unit :=
  match offsets with
  | a :: ((b :: _) as rest) => if b <? a then Err (OffsetsAreDecreasing b) else check_windows rest
  | _ => Ok tt
  end.

(** The closure [tail_slice]. *)
Definition tail_slice (bytes : list u8) (offsets : list N) (idx : N) : Outcome DecodeError (list u8) :=
  let? start := index offsets idx in
  let? stop := if idx + 1 <? STATE_VARIABLE_FIELD_COUNT then index offsets (idx + 1) else Ok (len bytes) in
  slice bytes start stop.

Definition bitlist_error (field : string) (e : TypesError) : DecodeError :=
  BytesInvalid (field +:+ ": " +:+ TypesError_display e).

Definition State_from_ssz_bytes (bytes : list u8) : Outcome DecodeError State :=
  if len bytes <? STATE_FIXED_PART_LEN
  then Err (DecodeInvalidByteLength (len bytes) STATE_FIXED_PART_LEN)
  else
    let? (config, c) := read_fixed bytes 0 in
    let? (slot, c) := read_fixed bytes c in
    let? (latest_block_header, c) := read_fixed bytes c in
    let? s := slice bytes c (c + CHECKPOINT_LEN) in
    let? latest_justified := from_ssz_bytes s in
    let c := c + CHECKPOINT_LEN in
    let? s := slice bytes c (c + CHECKPOINT_LEN) in
    let? latest_finalized := from_ssz_bytes s in
    let c := c + CHECKPOINT_LEN in
    let? (offsets, c) := read_offset_array 5 bytes c in
    let? first := index offsets 0 in
    if negb (first =? STATE_FIXED_PART_LEN) then Err (OffsetIntoFixedPortion first)
    else
      let? _ := check_windows offsets in
      let last_offset := default STATE_FIXED_PART_LEN (last offsets) in
      if len bytes <? last_offset then Err (OffsetOutOfBounds last_offset)
      else
        let? t0 := tail_slice bytes offsets 0 in
        let? historical_block_hashes := decode_bytes32_list t0 HISTORICAL_ROOTS_LIMIT in
        let? t1 := tail_slice bytes offsets 1 in
        let? justified_slots :=
          omap_err (bitlist_error "justified_slots") (bitlist_from_bytes HISTORICAL_ROOTS_LIMIT t1) in
        let? t2 := tail_slice bytes offsets 2 in
        let? validators := decode_fixed_element_list t2 VALIDATOR_REGISTRY_LIMIT in
        let? t3 := tail_slice bytes offsets 3 in
        let? justifications_roots := decode_bytes32_list t3 HISTORICAL_ROOTS_LIMIT in
        let? t4 := tail_slice bytes offsets 4 in
        let? justifications_validators :=
          omap_err (bitlist_error "justifications_validators")
            (bitlist_from_bytes JUSTIFICATIONS_VALIDATORS_LIMIT t4) in
        Ok (mkState config slot latest_block_header latest_justified latest_finalized
              historical_block_hashes justified_slots validators justifications_roots
              justifications_validators).

#[export] Instance State_Decode : Decode State := {
  ssz_fixed_len := BYTES_PER_LENGTH_OFFSET;
  from_ssz_bytes := State_from_ssz_bytes;
}.

End StateCodec.

(** ** Hash tree root *)

Section StateRoot.
Context {sha : Sha256}.

(** [data[i / 8] |= 1 << (i % 8)] for every set index, on a zeroed buffer. *)
Definition bitlist_data {E limit} (bl : Bitlist limit) : Outcome E (list u8) :=
  let? idxs := bitlist_iter_set_indices bl in
  ofold (fun data i => bit_write data i true) idxs
    (replicate (N.to_nat (div_ceil (blist_length bl) 8)) x00).

Definition bitlist_hash_tree_root {limit} (bl : Bitlist limit) : Bytes32 :=
  let length := blist_length bl in
  let data := match bitlist_data (E:=TypesError) bl with Ok d => d | _ => [] end in
  let chunks := pack data in
  let chunk_limit := N.max (div_ceil limit 256) 1 in
  let merkle := match merkleize_with_limit chunks chunk_limit with Ok r => r | _ => ZERO_HASH end in
  mix_in_length merkle length.

#[export] Instance ProtocolConfig_HashTreeRoot : HashTreeRoot ProtocolConfig :=
  fun self => merkleize [u64_chunk (genesis_time self)].

#[export] Instance State_HashTreeRoot : HashTreeRoot State :=
  fun self => merkleize
    [hash_tree_root (st_config self);
     u64_chunk (st_slot self);
     hash_tree_root (st_latest_block_header self);
     hash_tree_root (st_latest_justified self);
     hash_tree_root (st_latest_finalized self);
     list_hash_tree_root (st_historical_block_hashes self) HISTORICAL_ROOTS_LIMIT;
     bitlist_hash_tree_root (st_justified_slots self);
     list_hash_tree_root (st_validators self) VALIDATOR_REGISTRY_LIMIT;
     list_hash_tree_root (st_justifications_roots self) HISTORICAL_ROOTS_LIMIT;
     bitlist_hash_tree_root (st_justifications_validators self)].

End StateRoot.

(** The values the fields have in Rust. *)
#[export] Instance ProtocolConfig_SszWf : SszWf ProtocolConfig := fun c => u64_ok (genesis_time c).
Record state_wf (s : State) : Prop := {
  swf_config : ssz_wf (st_config s);
  swf_slot : u64_ok (st_slot s);
  swf_header : ssz_wf (st_latest_block_header s);
  swf_justified : ssz_wf (st_latest_justified s);
  swf_finalized : ssz_wf (st_latest_finalized s);
  swf_history : len (st_historical_block_hashes s) <= HISTORICAL_ROOTS_LIMIT;
  swf_justified_slots : bitlist_wf (st_justified_slots s);
  swf_validators : Forall ssz_wf (st_validators s);
  swf_validators_len : len (st_validators s) <= VALIDATOR_REGISTRY_LIMIT;
  swf_roots : len (st_justifications_roots s) <= HISTORICAL_ROOTS_LIMIT;
  swf_justifications : bitlist_wf (st_justifications_validators s);
}.
#[export] Instance State_SszWf : SszWf State := state_wf.

(** ** Correctness of the codec *)

Lemma bitlist_wire_spec {limit} (bl : Bitlist limit) :
  bitlist_wf bl ->
  bitlist_as_bytes (E:=TypesError) bl = Ok (bitlist_wire bl) /\ bitlist_from_bytes limit (bitlist_wire bl) = Ok bl /\
  len (bitlist_wire bl) = blist_length bl / 8 + 1.
Proof.
  intros Hwf. destruct (bitlist_decode_encode bl Hwf) as (out & He & Hd).
  unfold bitlist_wire. rewrite He. split_and!; [done|done|].
  destruct (bitlist_as_bytes_spec (E:=TypesError) bl Hwf) as (out' & He' & Hl & _). rewrite He in He'. by simplify_eq.
Qed.

Section StateCodecProofs.
Context `{EthSszLaws}.

#[export] Instance ProtocolConfig_FixedCodec : FixedCodec ProtocolConfig.
Proof.
  assert (He : forall c : ProtocolConfig, encode c = encode (genesis_time c)) by done.
  assert (Hlen : forall c : ProtocolConfig, len (encode c) = PROTOCOL_CONFIG_SSZ_LEN)
    by (intros c; by rewrite He, fc_len).
  split.
  - intros c buf. rewrite He. apply (fc_append (genesis_time c)).
  - done.
  - done.
  - intros c Hwf. start_reading (He c).
    cbn [from_ssz_bytes ProtocolConfig_Decode]. unfold ProtocolConfig_from_ssz_bytes.
    rewrite ensure_len_Ok by apply Hlen. cbn [obind]. read_field. by destruct c.
  - intros bs Hl. destruct (fc_onto (T:=N) bs) as (g & Hw & <-); [done|]. by exists (mkProtocolConfig g).
  - intros bs Hl. cbn in *. unfold ProtocolConfig_from_ssz_bytes. by rewrite ensure_len_Err.
Qed.

(** The fixed part of the encoding. *)
Definition state_fixed_bytes (s : State) : list u8 :=
  encode (st_config s) ++ encode (st_slot s) ++ encode (st_latest_block_header s)
  ++ encode (st_latest_justified s) ++ encode (st_latest_finalized s).

Fixpoint tail_offsets (offset : N) (tails : list (list u8)) : list N :=
  match tails with
  | [] => []
  | t :: tails' => offset :: tail_offsets (offset + len t) tails'
  end.

Lemma write_offsets_app tails offset buf :
  offset + len (concat tails) <= u32_max ->
  write_offsets tails offset buf = buf ++ concat (to_le_bytes 4 <$> tail_offsets offset tails).
Proof.
  revert offset buf. induction tails as [|t tails IH]; intros offset buf Hb; [by rewrite app_nil_r|].
  cbn [concat] in Hb. rewrite len_app in Hb. cbn [write_offsets tail_offsets].
  rewrite IH, write_offset_small by lia. rewrite fmap_cons. cbn [concat]. by rewrite <-app_assoc.
Qed.

Lemma fold_app_concat (tails : list (list u8)) buf : fold_left (fun b t => b ++ t) tails buf = buf ++ concat tails.
Proof.
  revert buf. induction tails as [|t tails IH]; intros buf; simpl; [by rewrite app_nil_r|].
  by rewrite IH, <-app_assoc.
Qed.

Lemma len_concat_sum (tails : list (list u8)) : len (concat tails) = fold_right N.add 0 (len <$> tails).
Proof. induction tails as [|t tails IH]; csimpl; [done|]. by rewrite len_app, IH. Qed.

(** The tails stay far below the 4 GiB an offset can address. *)
Lemma state_tails_fit s : state_wf s -> STATE_FIXED_PART_LEN + len (concat (variable_tail_payloads s)) <= u32_max.
Proof.
  intros Hwf. rewrite len_concat_sum. unfold variable_tail_payloads. csimpl.
  unfold encode_bytes32_list. rewrite !encode_byte_vector_list_concat, encode_fixed_element_list_concat.
  cbn [app]. rewrite !len_concat_as_slice, len_concat_encode.
  destruct Hwf as [_ _ _ _ _ Hh Hj _ Hv Hr Hjv].
  destruct (bitlist_wire_spec _ Hj) as (_ & _ & ->), (bitlist_wire_spec _ Hjv) as (_ & _ & ->).
  apply wf_limit in Hj, Hjv. change HISTORICAL_ROOTS_LIMIT with 262144 in *.
  change JUSTIFICATIONS_VALIDATORS_LIMIT with 1073741824 in *. change VALIDATOR_REGISTRY_LIMIT with 4096 in *.
  change (ssz_fixed_len Validator) with 60. change STATE_FIXED_PART_LEN with 228. unfold u32_max. dlia.
Qed.

Lemma encode_State s :
  state_wf s ->
  encode s = state_fixed_bytes s ++ concat (to_le_bytes 4 <$> tail_offsets STATE_FIXED_PART_LEN (variable_tail_payloads s))
             ++ concat (variable_tail_payloads s).
Proof.
  intros Hwf. unfold encode at 1. cbn [ssz_append State_Encode]. cbv zeta.
  rewrite fold_app_concat, write_offsets_app by by apply state_tails_fit.
  rewrite !fc_append, <-!app_assoc. unfold state_fixed_bytes. by rewrite <-!app_assoc.
Qed.

Lemma len_state_fixed_bytes s : len (state_fixed_bytes s) = 208.
Proof. unfold state_fixed_bytes. rewrite !len_app, !fc_len. done. Qed.

(** Decoding the fixed part and the offset words, for any five words. *)
Definition decode_tails (bytes : list u8) (s : State) (offsets : list N) : Outcome DecodeError State :=
  let? first := index offsets 0 in
  if negb (first =? STATE_FIXED_PART_LEN) then Err (OffsetIntoFixedPortion first)
  else
    let? _ := check_windows offsets in
    let last_offset := default STATE_FIXED_PART_LEN (last offsets) in
    if len bytes <? last_offset then Err (OffsetOutOfBounds last_offset)
    else
      let? t0 := tail_slice bytes offsets 0 in
      let? historical_block_hashes := decode_bytes32_list t0 HISTORICAL_ROOTS_LIMIT in
      let? t1 := tail_slice bytes offsets 1 in
      let? justified_slots :=
        omap_err (bitlist_error "justified_slots") (bitlist_from_bytes HISTORICAL_ROOTS_LIMIT t1) in
      let? t2 := tail_slice bytes offsets 2 in
      let? validators := decode_fixed_element_list t2 VALIDATOR_REGISTRY_LIMIT in
      let? t3 := tail_slice bytes offsets 3 in
      let? justifications_roots := decode_bytes32_list t3 HISTORICAL_ROOTS_LIMIT in
      let? t4 := tail_slice bytes offsets 4 in
      let? justifications_validators :=
        omap_err (bitlist_error "justifications_validators")
          (bitlist_from_bytes JUSTIFICATIONS_VALIDATORS_LIMIT t4) in
      Ok (mkState (st_config s) (st_slot s) (st_latest_block_header s) (st_latest_justified s)
            (st_latest_finalized s) historical_block_hashes justified_slots validators justifications_roots
            justifications_validators).

Lemma State_from_ssz_bytes_fixed s offsets rest :
  ssz_wf (st_config s) -> u64_ok (st_slot s) -> ssz_wf (st_latest_block_header s) ->
  ssz_wf (st_latest_justified s) -> ssz_wf (st_latest_finalized s) ->
  length offsets = 5%nat -> Forall (fun o => o <= u32_max) offsets ->
  let bytes := state_fixed_bytes s ++ concat (to_le_bytes 4 <$> offsets) ++ rest in
  State_from_ssz_bytes bytes = decode_tails bytes s offsets /\ at_cursor bytes STATE_FIXED_PART_LEN rest.
Proof.
  intros H1 H2 H3 H4 H5 Hl Hall bytes. destruct offsets as [|o0 [|o1 [|o2 [|o3 [|o4 []]]]]]; try done.
  repeat match goal with Hx : Forall _ (_ :: _) |- _ => apply Forall_cons in Hx as [? Hx] end.
  assert (Hlen : len bytes = 228 + len rest).
  { unfold bytes. rewrite !len_app, len_state_fixed_bytes, len_offset_words. unfold len at 1. simpl length. lia. }
  split.
  2:{ exists (state_fixed_bytes s ++ concat (to_le_bytes 4 <$> [o0; o1; o2; o3; o4])).
      split; [unfold bytes; by rewrite <-app_assoc|]. by rewrite len_app, len_state_fixed_bytes, len_offset_words. }
  unfold State_from_ssz_bytes. rewrite (proj2 (N.ltb_ge (len bytes) _)) by (rewrite Hlen; change STATE_FIXED_PART_LEN with 228; lia).
  pose proof (at_cursor_start bytes) as Hc. unfold bytes at 2 in Hc. unfold state_fixed_bytes in Hc.
  rewrite !fmap_cons in Hc. cbn [concat] in Hc. rewrite <-!app_assoc in Hc. clearbody bytes.
  do 3 read_field.
  rewrite (slice_cursor _ _ _ _ _ Hc) by by rewrite fc_len. cbn [obind]. rewrite fc_decode by done. cbn [obind].
  apply at_cursor_app in Hc. rewrite fc_len in Hc. change (ssz_fixed_len Checkpoint) with CHECKPOINT_LEN in Hc.
  rewrite (slice_cursor _ _ _ _ _ Hc) by by rewrite fc_len. cbn [obind]. rewrite fc_decode by done. cbn [obind].
  apply at_cursor_app in Hc. rewrite fc_len in Hc. change (ssz_fixed_len Checkpoint) with CHECKPOINT_LEN in Hc.
  cbn [read_offset_array]. do 5 read_field. done.
Qed.

(** Decoding the five tails once they are cut out. *)
Definition decode_tail_values (s : State) (t0 t1 t2 t3 t4 : list u8) : Outcome DecodeError State :=
  let? historical_block_hashes := decode_bytes32_list t0 HISTORICAL_ROOTS_LIMIT in
  let? justified_slots :=
    omap_err (bitlist_error "justified_slots") (bitlist_from_bytes HISTORICAL_ROOTS_LIMIT t1) in
  let? validators := decode_fixed_element_list t2 VALIDATOR_REGISTRY_LIMIT in
  let? justifications_roots := decode_bytes32_list t3 HISTORICAL_ROOTS_LIMIT in
  let? justifications_validators :=
    omap_err (bitlist_error "justifications_validators")
      (bitlist_from_bytes JUSTIFICATIONS_VALIDATORS_LIMIT t4) in
  Ok (mkState (st_config s) (st_slot s) (st_latest_block_header s) (st_latest_justified s)
        (st_latest_finalized s) historical_block_hashes justified_slots validators justifications_roots
        justifications_validators).

Lemma decode_tails_layout bytes s t0 t1 t2 t3 t4 :
  at_cursor bytes STATE_FIXED_PART_LEN (t0 ++ t1 ++ t2 ++ t3 ++ t4) ->
  decode_tails bytes s (tail_offsets STATE_FIXED_PART_LEN [t0; t1; t2; t3; t4])
  = decode_tail_values s t0 t1 t2 t3 t4.
Proof.
  intros Hc0. pose proof (at_cursor_app _ _ _ _ Hc0) as Hc1. pose proof (at_cursor_app _ _ _ _ Hc1) as Hc2.
  pose proof (at_cursor_app _ _ _ _ Hc2) as Hc3. pose proof (at_cursor_app _ _ _ _ Hc3) as Hc4.
  assert (Hl : STATE_FIXED_PART_LEN + len t0 + len t1 + len t2 + len t3 <= len bytes).
  { destruct Hc4 as (pre & -> & <-). rewrite len_app. lia. }
  cbn [tail_offsets]. unfold decode_tails, tail_slice. cbn [index obind].
  change (index (?a :: _) 0) with (Ok (E:=DecodeError) a). cbn [obind]. rewrite N.eqb_refl. cbn [negb check_windows].
  rewrite !(proj2 (N.ltb_ge _ _)) by lia. cbn [obind last default].
  rewrite !(proj2 (N.ltb_ge (len bytes) _)) by (simpl; lia).
  repeat match goal with
  | |- context [if ?b then _ else Ok (len bytes)] => let r := eval vm_compute in b in change b with r; cbv iota
  end.
  unfold index. repeat match goal with
  | |- context [?l !! N.to_nat ?i] => let n := eval vm_compute in (N.to_nat i) in change (N.to_nat i) with n
  end. cbn [lookup list_lookup obind].
  rewrite (slice_cursor _ _ _ _ _ Hc0), (slice_cursor _ _ _ _ _ Hc1), (slice_cursor _ _ _ _ _ Hc2),
    (slice_cursor _ _ _ _ _ Hc3), (slice_cursor_tail _ _ _ Hc4) by done. done.
Qed.

Lemma check_windows_cases o0 o1 o2 o3 o4 :
  (check_windows [o0; o1; o2; o3; o4] = Ok tt /\ o0 <= o1 /\ o1 <= o2 /\ o2 <= o3 /\ o3 <= o4) \/
  (exists o, check_windows [o0; o1; o2; o3; o4] = Err (OffsetsAreDecreasing o)).
Proof.
  cbn [check_windows].
  destruct (N.ltb_spec o1 o0); [right; by eexists|]. destruct (N.ltb_spec o2 o1); [right; by eexists|].
  destruct (N.ltb_spec o3 o2); [right; by eexists|]. destruct (N.ltb_spec o4 o3); [right; by eexists|]. by left.
Qed.

Lemma decode_tails_cases bytes s offsets rest :
  length offsets = 5%nat -> at_cursor bytes STATE_FIXED_PART_LEN rest ->
  (exists e, decode_tails bytes s offsets = Err e) \/
  (exists t0 t1 t2 t3 t4, rest = t0 ++ t1 ++ t2 ++ t3 ++ t4 /\
     offsets = tail_offsets STATE_FIXED_PART_LEN [t0; t1; t2; t3; t4]).
Proof.
  intros Hl Hc. destruct offsets as [|o0 [|o1 [|o2 [|o3 [|o4 []]]]]]; try done. unfold decode_tails.
  change (index (o0 :: _) 0) with (Ok (E:=DecodeError) o0). cbn [obind].
  destruct (N.eqb_spec o0 STATE_FIXED_PART_LEN) as [->|]; [|left; by eexists]. cbn [negb].
  destruct (check_windows_cases STATE_FIXED_PART_LEN o1 o2 o3 o4) as [(-> & H1 & H2 & H3 & H4)|[o ->]]; [|left; by eexists].
  cbn [obind]. change (default _ (last [_; o1; o2; o3; o4])) with o4.
  destruct (N.ltb_spec (len bytes) o4) as [|Hb]; [left; by eexists|]. right.
  destruct Hc as (pre & -> & Hpre). rewrite len_app, Hpre in Hb.
  destruct (bytes_split (o1 - STATE_FIXED_PART_LEN) (len rest - (o1 - STATE_FIXED_PART_LEN)) rest)
    as (t0 & r1 & -> & Ht0 & _); [lia|]. rewrite len_app in Hb.
  destruct (bytes_split (o2 - o1) (len r1 - (o2 - o1)) r1) as (t1 & r2 & -> & Ht1 & _); [lia|]. rewrite len_app in Hb.
  destruct (bytes_split (o3 - o2) (len r2 - (o3 - o2)) r2) as (t2 & r3 & -> & Ht2 & _); [lia|]. rewrite len_app in Hb.
  destruct (bytes_split (o4 - o3) (len r3 - (o4 - o3)) r3) as (t3 & t4 & -> & Ht3 & _); [lia|].
  exists t0, t1, t2, t3, t4. split; [done|]. cbn [tail_offsets]. repeat f_equal; lia.
Qed.

Lemma validator_len_pos : 0 < ssz_fixed_len Validator.
Proof. done. Qed.

(** The tails a state decodes from are its own. *)
Lemma decode_tail_values_cases s t0 t1 t2 t3 t4 :
  (exists e, decode_tail_values s t0 t1 t2 t3 t4 = Err e) \/
  (exists hist js vs roots jv,
     decode_tail_values s t0 t1 t2 t3 t4
     = Ok (mkState (st_config s) (st_slot s) (st_latest_block_header s) (st_latest_justified s)
             (st_latest_finalized s) hist js vs roots jv) /\
     len hist <= HISTORICAL_ROOTS_LIMIT /\ bitlist_wf js /\ Forall ssz_wf vs /\ len vs <= VALIDATOR_REGISTRY_LIMIT /\
     len roots <= HISTORICAL_ROOTS_LIMIT /\ bitlist_wf jv /\
     t0 = concat (as_slice <$> hist) /\ t1 = bitlist_wire js /\ t2 = concat (encode <$> vs) /\
     t3 = concat (as_slice <$> roots) /\ t4 = bitlist_wire jv).
Proof.
  unfold decode_tail_values, decode_bytes32_list.
  destruct (decode_byte_vector_list_cases (n:=32) t0 HISTORICAL_ROOTS_LIMIT)
    as [(hist & -> & Hh & <-)|[m ->]]; [done| |left; by eexists]. cbn [obind].
  pose proof (bitlist_from_bytes_returned (limit:=HISTORICAL_ROOTS_LIMIT) t1) as Hr1.
  destruct (bitlist_from_bytes HISTORICAL_ROOTS_LIMIT t1) as [js|e| |] eqn:Hjs; try done; [|left; by eexists].
  apply bitlist_encode_decode in Hjs as [Hwjs Hejs]. cbn [omap_err obind].
  destruct (decode_fixed_element_list_cases validator_len_pos t2 VALIDATOR_REGISTRY_LIMIT)
    as [(vs & -> & Hwv & Hv & <-)|[m ->]]; [|left; by eexists]. cbn [obind].
  destruct (decode_byte_vector_list_cases (n:=32) t3 HISTORICAL_ROOTS_LIMIT)
    as [(roots & -> & Hr & <-)|[m ->]]; [done| |left; by eexists]. cbn [obind].
  pose proof (bitlist_from_bytes_returned (limit:=JUSTIFICATIONS_VALIDATORS_LIMIT) t4) as Hr4.
  destruct (bitlist_from_bytes JUSTIFICATIONS_VALIDATORS_LIMIT t4) as [jv|e| |] eqn:Hjv; try done; [|left; by eexists].
  apply bitlist_encode_decode in Hjv as [Hwjv Hejv]. cbn [omap_err obind].
  right. exists hist, js, vs, roots, jv. unfold bitlist_wire. by rewrite Hejs, Hejv.
Qed.

Lemma decode_tail_values_encode s :
  state_wf s ->
  decode_tail_values s (concat (as_slice <$> st_historical_block_hashes s)) (bitlist_wire (st_justified_slots s))
    (concat (encode <$> st_validators s)) (concat (as_slice <$> st_justifications_roots s))
    (bitlist_wire (st_justifications_validators s)) = Ok s.
Proof.
  intros [_ _ _ _ _ Hh Hj Hv Hvl Hr Hjv]. unfold decode_tail_values, decode_bytes32_list.
  rewrite decode_byte_vector_list_encode by done. cbn [obind].
  destruct (bitlist_wire_spec _ Hj) as (_ & -> & _). cbn [omap_err obind].
  rewrite decode_fixed_element_list_encode by done. cbn [obind].
  rewrite decode_byte_vector_list_encode by done. cbn [obind].
  destruct (bitlist_wire_spec _ Hjv) as (_ & -> & _). by destruct s.
Qed.

Lemma variable_tail_payloads_eq s :
  variable_tail_payloads s =
    [concat (as_slice <$> st_historical_block_hashes s); bitlist_wire (st_justified_slots s);
     concat (encode <$> st_validators s); concat (as_slice <$> st_justifications_roots s);
     bitlist_wire (st_justifications_validators s)].
Proof.
  unfold variable_tail_payloads, encode_bytes32_list.
  by rewrite !encode_byte_vector_list_concat, encode_fixed_element_list_concat.
Qed.

Lemma len_encode_State s :
  state_wf s -> len (encode s) = STATE_FIXED_PART_LEN + len (concat (variable_tail_payloads s)).
Proof.
  intros Hwf. rewrite encode_State, !len_app, len_state_fixed_bytes, len_offset_words by done.
  rewrite variable_tail_payloads_eq. cbn [tail_offsets]. unfold len at 1. simpl length.
  change STATE_FIXED_PART_LEN with 228. lia.
Qed.

Lemma tail_offsets_bound o tails :
  o + len (concat tails) <= u32_max -> Forall (fun o' => o' <= u32_max) (tail_offsets o tails).
Proof.
  revert o. induction tails as [|t tails IH]; intros o Hb; cbn [tail_offsets]; constructor.
  - lia.
  - apply IH. cbn [concat] in Hb. rewrite len_app in Hb. lia.
Qed.

Lemma write_offsets_buf tails o buf : write_offsets tails o buf = buf ++ write_offsets tails o [].
Proof.
  revert o buf. induction tails as [|t tails IH]; intros o buf; cbn [write_offsets]; [by rewrite app_nil_r|].
  rewrite IH, (IH _ (write_offset [] o)). unfold write_offset. by rewrite <-!app_assoc.
Qed.

Lemma offset_words_of n (bs : list u8) :
  len bs = 4 * N.of_nat n ->
  exists offsets, length offsets = n /\ Forall (fun o => o <= u32_max) offsets /\
    bs = concat (to_le_bytes 4 <$> offsets).
Proof.
  revert bs. induction n as [|n IH]; intros bs Hl.
  - exists []. destruct bs; [done|]. rewrite len_cons in Hl. lia.
  - destruct (bytes_split 4 (4 * N.of_nat n) bs) as (w & r & -> & Hw & Hr); [lia|].
    destruct (offset_word w Hw) as (v & Hv & ->), (IH r Hr) as (offs & Ho & Hall & ->).
    exists (v :: offs). split_and!; [simpl; by f_equal|by constructor|done].
Qed.

Lemma State_canonical bs : canonical_at State bs.
Proof.
  unfold canonical_at. cbn [from_ssz_bytes State_Decode].
  destruct (N.ltb_spec (len bs) STATE_FIXED_PART_LEN) as [Hlt|Hge].
  { unfold State_from_ssz_bytes. by rewrite (proj2 (N.ltb_lt _ _)). }
  change STATE_FIXED_PART_LEN with 228 in Hge.
  cut_bytes 8 bs p1 q1. cut_bytes 8 q1 p2 q2. cut_bytes 112 q2 p3 q3. cut_bytes 40 q3 p4 q4. cut_bytes 40 q4 p5 q5.
  cut_bytes 20 q5 ws rest.
  destruct (fc_onto (T:=ProtocolConfig) p1) as (cfg & Hw1 & <-); [done|].
  destruct (fc_onto (T:=N) p2) as (slot & Hw2 & <-); [done|].
  destruct (fc_onto (T:=BlockHeader) p3) as (hd & Hw3 & <-); [done|].
  destruct (fc_onto (T:=Checkpoint) p4) as (cj & Hw4 & <-); [done|].
  destruct (fc_onto (T:=Checkpoint) p5) as (cf & Hw5 & <-); [done|].
  destruct (offset_words_of 5 ws) as (offs & Ho & Hall & ->); [done|].
  set (s := mkState cfg slot hd cj cf [] (bitlist_new _) [] [] (bitlist_new _)).
  replace (encode cfg ++ _) with (state_fixed_bytes s ++ concat (to_le_bytes 4 <$> offs) ++ rest)
    by (unfold state_fixed_bytes; by rewrite <-!app_assoc).
  destruct (State_from_ssz_bytes_fixed s offs rest) as [-> Hc]; [done..|].
  destruct (decode_tails_cases _ s offs rest Ho Hc) as [[e ->]|(t0 & t1 & t2 & t3 & t4 & -> & ->)]; [done|].
  rewrite decode_tails_layout by done.
  destruct (decode_tail_values_cases s t0 t1 t2 t3 t4)
    as [[e ->]|(hist & js & vs & roots & jv & -> & Hh & Hjs & Hvs & Hv & Hr & Hjv & -> & -> & -> & -> & ->)]; [done|].
  set (s' := mkState _ _ _ _ _ hist js vs roots jv). assert (Hwf : state_wf s') by by split.
  split; [done|]. rewrite encode_State by done. rewrite variable_tail_payloads_eq. cbn [concat]. by rewrite app_nil_r.
Qed.

#[export] Instance State_SszCodec : SszCodec State.
Proof.
  apply mk_SszCodec.
  - intros s buf. unfold encode. cbn [ssz_append State_Encode]. cbv zeta.
    rewrite !fold_app_concat, !fc_append, <-!app_assoc, !(write_offsets_buf _ _ (_ ++ _)).
    by rewrite <-!app_assoc.
  - intros s Hwf. rewrite len_encode_State, len_concat_sum by done. done.
  - intros s Hwf. pose proof (state_tails_fit s Hwf) as Hfit. rewrite encode_State by done.
    cbn [from_ssz_bytes State_Decode].
    destruct (State_from_ssz_bytes_fixed s (tail_offsets STATE_FIXED_PART_LEN (variable_tail_payloads s))
                (concat (variable_tail_payloads s))) as [-> Hc]; try apply Hwf.
    { by rewrite variable_tail_payloads_eq. }
    { by apply tail_offsets_bound. }
    match goal with |- decode_tails ?b _ _ = _ => generalize dependent b; intros bytes Hc end.
    rewrite variable_tail_payloads_eq in *. cbn [concat] in Hc. rewrite app_nil_r in Hc.
    rewrite decode_tails_layout by done. by apply decode_tail_values_encode.
  - apply State_canonical.
Qed.

End StateCodecProofs.

(** C35. The wire format of a state is a bijection. Every state within the limits
    of its lists and bitlists is encoded to [ssz_bytes_len] bytes and decoded
    back; every string the decoder accepts is the encoding of the state it
    returns; and the decoder returns on any bytes. *)
Theorem state_codec `{EthSszLaws} :
  (forall s : State, state_wf s -> len (encode s) = ssz_bytes_len s /\ from_ssz_bytes (encode s) = Ok s) /\
  (forall bs (s : State), from_ssz_bytes bs = Ok s -> state_wf s /\ encode s = bs) /\
  (forall bs, returned (from_ssz_bytes (T:=State) bs)).
Proof.
  split; [|split].
  - intros s Hwf. split; [by apply sc_len|by apply sc_decode].
  - apply sc_canonical.
  - apply sc_returned.
Qed.

Lemma State_default_wf : state_wf State_default.
Proof. split; try done; try apply bitlist_new_wf; by constructor. Qed.

Lemma state_codec_witness :
  @from_ssz_bytes _ (@State_Decode eth_ssz_reference)
    (@encode _ (@State_Encode eth_ssz_reference) State_default) = Ok State_default.
Proof.
  destruct (@state_codec eth_ssz_reference eth_ssz_reference_laws) as [H _].
  apply H. apply State_default_wf.
Defined.

(** ** Correctness of the roots *)

Lemma bit_write_fold {E} idxs data :
  Forall (fun i => i < 8 * len data) idxs ->
  exists data', ofold (fun d i => @bit_write E d i true) idxs data = Ok data' /\ len data' = len data /\
    forall j, bit_at data' j = bool_decide (j ∈ idxs) || bit_at data j.
Proof.
  intros Hall. revert data Hall. induction idxs as [|i idxs IH]; intros data Hall.
  { exists data. split_and!; [done|done|]. intros j. by rewrite bool_decide_eq_false_2 by set_solver. }
  apply Forall_cons in Hall as [Hi Hall]. cbn [ofold].
  destruct (bit_write_spec (E:=E) data i true Hi) as (d1 & -> & Hl1 & Hb1). cbn [obind].
  assert (Hl : len d1 = len data) by (unfold len; by rewrite Hl1).
  destruct (IH d1) as (d2 & -> & Hl2 & Hb2); [by rewrite Hl|].
  exists d2. split_and!; [done|by rewrite Hl2|]. intros j. rewrite Hb2, Hb1.
  destruct (decide (j = i)) as [->|Hne].
  - rewrite (bool_decide_eq_true_2 (i ∈ i :: idxs)) by set_solver. by rewrite orb_true_r.
  - f_equal. apply bool_decide_ext. set_solver.
Qed.

(** The root computation rebuilds exactly the stored bytes. *)
Lemma bitlist_rebuild_bytes {E limit} (bl : Bitlist limit) :
  bitlist_wf bl -> @bitlist_data E limit bl = Ok (blist_bytes bl).
Proof.
  intros Hwf. unfold bitlist_data. rewrite bitlist_iter_set_indices_spec by done. cbn [obind].
  set (z := replicate _ x00). set (idxs := filter _ _).
  assert (Hz : len z = len (blist_bytes bl)).
  { unfold z. rewrite len_replicate, N2Nat.id. symmetry. apply Hwf. }
  assert (Hin : forall j, j ∈ idxs <-> j < blist_length bl /\ bit_at (blist_bytes bl) j = true).
  { intros j. unfold idxs. rewrite list_elem_of_filter, elem_of_range, bits_lookup.
    destruct (N.ltb_spec j (blist_length bl)) as [Hlt|Hge].
    - split; [intros [[= ->] _]; done|intros [_ ->]; split; [done|lia]].
    - split; [by intros [? _]|lia]. }
  destruct (bit_write_fold (E:=E) idxs z) as (d & -> & Hl & Hb).
  { apply Forall_forall. intros j [Hj _]%Hin. rewrite Hz, (wf_bytes _ Hwf), div_ceil_8. dlia. }
  f_equal. apply bytes_ext; [unfold len in *; lia|]. intros j. rewrite Hb.
  replace (bit_at z j) with false by (symmetry; apply (bit_at_app_zero [])). rewrite orb_false_r.
  destruct (bool_decide_reflect (j ∈ idxs)) as [Hj|Hj]; rewrite Hin in Hj; [by destruct Hj as [_ ->]|].
  destruct (bit_at (blist_bytes bl) j) eqn:Hbit; [|done]. destruct Hj. split; [|done].
  destruct (N.lt_ge_cases j (blist_length bl)); [done|]. by rewrite (wf_tail _ Hwf) in Hbit.
Qed.

(** ** The packed chunks *)

Lemma div_ceil_eq a b : 0 < b -> div_ceil a b = (a + b - 1) / b.
Proof.
  intros Hb. unfold div_ceil. pose proof (N.div_mod a b ltac:(lia)) as Hd.
  pose proof (N.mod_lt a b ltac:(lia)) as Hm. generalize dependent (a mod b). generalize dependent (a / b).
  intros q r Hd Hm. destruct (N.eqb_spec r 0) as [Hz|Hz].
  - apply N.div_unique with (b - 1); nia.
  - apply N.div_unique with (r - 1); nia.
Qed.

Lemma div_ceil_step a b : (0 < a)%nat -> (0 < b)%nat ->
  1 + div_ceil (N.of_nat (a - b)) (N.of_nat b) = div_ceil (N.of_nat a) (N.of_nat b).
Proof.
  intros Ha Hb. rewrite !div_ceil_eq by lia. destruct (decide (a <= b)%nat) as [Hle|Hgt].
  - replace (a - b)%nat with 0%nat by lia. rewrite (N.div_small (N.of_nat 0 + _ - 1)) by lia.
    apply N.div_unique with (N.of_nat a - 1); lia.
  - replace (N.of_nat a + N.of_nat b - 1) with (N.of_nat (a - b) + N.of_nat b - 1 + 1 * N.of_nat b) by lia.
    rewrite N.div_add by lia. lia.
Qed.

Lemma len_chunks_of {A} n (l : list A) : (0 < n)%nat -> len (chunks_of n l) = div_ceil (len l) (N.of_nat n).
Proof.
  intros Hn. unfold chunks_of. assert (Hf : (length l <= length l)%nat) by lia. revert Hf.
  generalize (length l) at 2 3. intros fuel. revert l. induction fuel as [|fuel IH]; intros l Hf.
  - destruct l; [|simpl in Hf; lia]. unfold div_ceil. cbn. by rewrite N.Div0.mod_0_l.
  - destruct l as [|a l]; [unfold div_ceil; cbn; by rewrite N.Div0.mod_0_l|].
    cbn [chunks_loop]. rewrite len_cons, IH by (rewrite length_drop; simpl in *; lia).
    unfold len. rewrite length_drop. apply div_ceil_step; simpl; lia.
Qed.

Lemma len_pack bytes : len (pack bytes) = div_ceil (len bytes) 32.
Proof.
  unfold pack. destruct bytes as [|b bytes]; [done|].
  rewrite len_fmap. by rewrite len_chunks_of by lia.
Qed.

Lemma bitlist_chunks_fit {limit} (bl : Bitlist limit) :
  bitlist_wf bl -> len (pack (blist_bytes bl)) <= N.max (div_ceil limit 256) 1.
Proof.
  intros Hwf. rewrite len_pack, (wf_bytes _ Hwf). pose proof (wf_limit _ Hwf) as Hl.
  rewrite !div_ceil_eq by lia. dlia.
Qed.

(** Within their limits the list and bitlist roots are the SSZ roots, the
    complete tree over the element roots, or over the packed data bits, with
    the length mixed in; the collapse to the zero hash, which the code keeps
    for input over the limit, is never taken on them. *)
Theorem collection_roots_follow_ssz {sha : Sha256} :
  (forall T (htr : HashTreeRoot T) (items : list T) max, max <= 2 ^ 63 -> len items <= max ->
     list_hash_tree_root items max
     = mix_in_length (tree_root (depth_of max) (hash_tree_root <$> items)) (len items)) /\
  (forall limit (bl : Bitlist limit), limit <= 2 ^ 63 -> bitlist_wf bl ->
     bitlist_hash_tree_root bl
     = mix_in_length (tree_root (depth_of (N.max (div_ceil limit 256) 1)) (pack (blist_bytes bl))) (blist_length bl)).
Proof.
  split.
  - intros T htr items max Hmax Hl. unfold list_hash_tree_root.
    by rewrite merkleize_with_limit_tree_root by (rewrite ?len_fmap; done).
  - intros limit bl Hlim Hwf. unfold bitlist_hash_tree_root. rewrite bitlist_rebuild_bytes by done.
    rewrite merkleize_with_limit_tree_root; [done| |by apply bitlist_chunks_fit].
    rewrite div_ceil_eq by lia. dlia.
Qed.
