(* ===== verification/Ream.v ===== *)
(** * The compact genesis state of other clients ([crates/protocol/src/ream.rs])

    The decoder of the "leanchain" layout: a configuration pair, two checkpoints,
    and four tails addressed by offsets, two of them bit lists without a delimiter.

    Shown: the decoder accepts exactly the strings of the layout, returns on every
    string, and what it returns has an empty registry ([ream_format_exact]). *)

From stdpp Require Import base numbers list gmap strings pretty.
From Stdlib Require Import Strings.Byte ZArith Lia.
From S2P Require Import Prelude Config Types Bitfields Merkle Codec Slot Containers State.

Definition REAM_LEGACY_CONFIG_LEN : N := 2 * U64_LEN.
Definition REAM_STATE_VARIABLE_FIELD_COUNT : N := 4.
Definition REAM_LEAN_STATE_FIXED_PART_LEN : N :=
  REAM_LEGACY_CONFIG_LEN + CHECKPOINT_LEN + CHECKPOINT_LEN + REAM_STATE_VARIABLE_FIELD_COUNT * BYTES_PER_LENGTH_OFFSET.

(** ** Raw bit lists *)

(** [for bit_index in 0..bit_len]. *)
Fixpoint set_raw_bits {limit} (context : string) (bytes : list u8) (idxs : list N) (bl : Bitlist limit)
    : Outcome DecodeError (Bitlist limit) :=
  match idxs with
  | [] => Ok bl
  | bit_index :: idxs =>
      let? bit_set := bit_test bytes bit_index in
      let? bl := if bit_set : bool then omap_err (bitlist_error context) (bitlist_set bl bit_index true) else Ok bl in
      set_raw_bits context bytes idxs bl
  end.

Definition decode_ream_raw_bitlist (limit : N) (bytes : list u8) (bit_len : N) (context : string)
    : Outcome DecodeError (Bitlist limit) :=
  if limit <? bit_len
  then Err (BytesInvalid (context +:+ ": bit length " +:+ pretty bit_len +:+ " exceeds limit " +:+ pretty limit))
  else
    let expected_bytes := div_ceil bit_len 8 in
    if negb (len bytes =? expected_bytes)
    then Err (BytesInvalid (context +:+ ": raw bit payload has " +:+ pretty (len bytes) +:+ " bytes, expected " +:+ pretty expected_bytes))
    else
      let? bitlist := omap_err (bitlist_error context) (bitlist_with_length limit bit_len) in
      let? bitlist := set_raw_bits context bytes (range 0 bit_len) bitlist in
      let trailing_mask := u8_not (u8_of_N (N.shiftl 1 (bit_len mod 8) - 1)) in
      let trailing := match last bytes with Some last => negb (bool_decide (u8_and last trailing_mask = x00)) | None => false end in
      if negb (bit_len mod 8 =? 0) && trailing then Err (BytesInvalid (context +:+ ": non-zero trailing bits")) else Ok bitlist.

(** ** The decoder *)

Section Ream.
Context {eth : EthSsz} {sha : Sha256}.

(** The closure [tail_slice]. *)
Definition ream_tail_slice (bytes : list u8) (offsets : list N) (idx : N) : Outcome DecodeError (list u8) :=
  let? start := index offsets idx in
  let? stop := if idx + 1 <? REAM_STATE_VARIABLE_FIELD_COUNT then index offsets (idx + 1) else Ok (len bytes) in
  slice bytes start stop.

(** The four tails, checked and discarded. *)
Definition check_ream_tails (bytes : list u8) (offsets : list N) (legacy_validator_count : N) : Outcome DecodeError unit :=
  let? t0 := ream_tail_slice bytes offsets 0 in
  let? historical_block_hashes := decode_bytes32_list t0 HISTORICAL_ROOTS_LIMIT in
  let? t1 := ream_tail_slice bytes offsets 1 in
  let? _ := decode_ream_raw_bitlist HISTORICAL_ROOTS_LIMIT t1 (len historical_block_hashes) "justified_slots" in
  let? t2 := ream_tail_slice bytes offsets 2 in
  let? justifications_roots := decode_bytes32_list t2 HISTORICAL_ROOTS_LIMIT in
  let? validator_count := ok_or (usize_try_from legacy_validator_count) (BytesInvalid "num_validators does not fit usize") in
  let? justifications_validator_bits :=
    ok_or (checked_mul (len justifications_roots) validator_count) (BytesInvalid "justifications_validators length overflow") in
  let? t3 := ream_tail_slice bytes offsets 3 in
  let? _ := decode_ream_raw_bitlist JUSTIFICATIONS_VALIDATORS_LIMIT t3 justifications_validator_bits "justifications_validators" in
  Ok tt.

Definition ream_anchor (genesis_time : N) (latest_justified latest_finalized : Checkpoint) : State :=
  mkState (mkProtocolConfig genesis_time) (st_slot State_default) BlockHeader_genesis latest_justified latest_finalized
    (st_historical_block_hashes State_default) (st_justified_slots State_default) (st_validators State_default)
    (st_justifications_roots State_default) (st_justifications_validators State_default).

Definition from_ream_legacy_ssz_bytes (bytes : list u8) : Outcome DecodeError State :=
  if len bytes <? REAM_LEAN_STATE_FIXED_PART_LEN
  then Err (DecodeInvalidByteLength (len bytes) REAM_LEAN_STATE_FIXED_PART_LEN)
  else
    let? (legacy_validator_count, c) := read_fixed bytes 0 in
    let? (genesis_time, c) := read_fixed bytes c in
    let? s := slice bytes c (c + CHECKPOINT_LEN) in
    let? latest_justified := from_ssz_bytes s in
    let c := c + CHECKPOINT_LEN in
    let? s := slice bytes c (c + CHECKPOINT_LEN) in
    let? latest_finalized := from_ssz_bytes s in
    let c := c + CHECKPOINT_LEN in
    let? (offsets, c) := read_offset_array 4 bytes c in
    let? first := index offsets 0 in
    if negb (first =? REAM_LEAN_STATE_FIXED_PART_LEN) then Err (OffsetIntoFixedPortion first)
    else
      let? _ := check_windows offsets in
      let? last_offset := index offsets (REAM_STATE_VARIABLE_FIELD_COUNT - 1) in
      if len bytes <? last_offset then Err (OffsetOutOfBounds last_offset)
      else
        let? _ := check_ream_tails bytes offsets legacy_validator_count in
        Ok (ream_anchor genesis_time latest_justified latest_finalized).

End Ream.

(** ** The layout *)

(** What a compact state holds. *)
Record ReamState := mkReamState {
  rs_num_validators : N;
  rs_genesis_time : N;
  rs_justified : Checkpoint;
  rs_finalized : Checkpoint;
  rs_historical_block_hashes : list Bytes32;
  rs_justified_slots : Bitlist HISTORICAL_ROOTS_LIMIT;
  rs_justifications_roots : list Bytes32;
  rs_justifications_validators : Bitlist JUSTIFICATIONS_VALIDATORS_LIMIT;
}.

Record ream_wf (r : ReamState) : Prop := {
  rwf_count : u64_ok (rs_num_validators r);
  rwf_time : u64_ok (rs_genesis_time r);
  rwf_justified : ssz_wf (rs_justified r);
  rwf_finalized : ssz_wf (rs_finalized r);
  rwf_history : len (rs_historical_block_hashes r) <= HISTORICAL_ROOTS_LIMIT;
  rwf_slots : bitlist_wf (rs_justified_slots r);
  rwf_slots_len : blist_length (rs_justified_slots r) = len (rs_historical_block_hashes r);
  rwf_roots : len (rs_justifications_roots r) <= HISTORICAL_ROOTS_LIMIT;
  rwf_votes : bitlist_wf (rs_justifications_validators r);
  rwf_votes_len : blist_length (rs_justifications_validators r) = len (rs_justifications_roots r) * rs_num_validators r;
}.

Definition ream_tails (r : ReamState) : list (list u8) :=
  [concat (as_slice <$> rs_historical_block_hashes r); blist_bytes (rs_justified_slots r);
   concat (as_slice <$> rs_justifications_roots r); blist_bytes (rs_justifications_validators r)].

Definition ream_bytes {eth : EthSsz} (r : ReamState) : list u8 :=
  encode (rs_num_validators r) ++ encode (rs_genesis_time r) ++ encode (rs_justified r) ++ encode (rs_finalized r) ++
  concat (to_le_bytes 4 <$> tail_offsets REAM_LEAN_STATE_FIXED_PART_LEN (ream_tails r)) ++ concat (ream_tails r).

(** ** Raw bit lists are read exactly *)

Lemma bitlist_set_bit {limit} (bl : Bitlist limit) i : bitlist_wf bl -> blist_length bl <= limit -> i < blist_length bl ->
  exists bl', bitlist_set bl i true = Ok bl' /\ bitlist_wf bl' /\ blist_length bl' = blist_length bl /\
    forall j, j < blist_length bl -> bit_at (blist_bytes bl') j = bool_decide (j = i) || bit_at (blist_bytes bl) j.
Proof.
  intros Hwf Hlim Hi. destruct (bitlist_set_Ok bl i true Hwf) as (bl' & E & Hwf' & Hb); [lia|].
  pose proof (length_bits bl) as Hl. pose proof (length_bits bl') as Hl'.
  rewrite Hb, list_set_grow_length, Hl in Hl'. assert (Hlen : blist_length bl' = blist_length bl) by lia.
  exists bl'. split_and!; [done..|]. intros j Hj.
  apply (f_equal (fun l => l !! N.to_nat j)) in Hb. rewrite list_set_grow_in_range, bits_lookup, Hlen, (proj2 (N.ltb_lt _ _)) in Hb by lia.
  case_bool_decide as Hji.
  - subst. rewrite list_lookup_insert_eq in Hb by lia. by simplify_eq.
  - rewrite list_lookup_insert_ne, bits_lookup, (proj2 (N.ltb_lt _ _)) in Hb by lia. by simplify_eq.
Qed.

Lemma set_raw_bits_spec {limit} context bytes idxs (bl : Bitlist limit) :
  bitlist_wf bl -> Forall (fun i => i < blist_length bl /\ i < 8 * len bytes) idxs ->
  exists bl', set_raw_bits context bytes idxs bl = Ok bl' /\ bitlist_wf bl' /\ blist_length bl' = blist_length bl /\
    forall j, j < blist_length bl -> bit_at (blist_bytes bl') j = (bool_decide (j ∈ idxs) && bit_at bytes j) || bit_at (blist_bytes bl) j.
Proof.
  revert bl. induction idxs as [|i idxs IH]; intros bl Hwf Hall; cbn [set_raw_bits].
  { exists bl. split_and!; [done..|]. intros j _. by rewrite bool_decide_eq_false_2 by set_solver. }
  apply Forall_cons in Hall as [[Hi Hib] Hall]. rewrite bit_test_spec by done. cbn [obind].
  assert (Hsplit : forall j, bool_decide (j ∈ i :: idxs) = bool_decide (j = i) || bool_decide (j ∈ idxs)).
  { intros j. apply Bool.eq_iff_eq_true. rewrite orb_true_iff, !bool_decide_eq_true. set_solver. }
  destruct (bit_at bytes i) eqn:Hbit.
  - destruct (bitlist_set_bit bl i Hwf (wf_limit _ Hwf) Hi) as (bl1 & -> & Hwf1 & Hl1 & Hb1). cbn [omap_err obind].
    destruct (IH bl1 Hwf1) as (bl2 & -> & Hwf2 & Hl2 & Hb2); [by rewrite Hl1|].
    exists bl2. split_and!; [done|done|lia|]. intros j Hj. rewrite Hb2, Hb1, Hsplit by lia.
    destruct (bool_decide_reflect (j = i)) as [->|]; [by rewrite Hbit, !orb_true_r|done].
  - cbn [obind]. destruct (IH bl Hwf Hall) as (bl2 & -> & Hwf2 & Hl2 & Hb2).
    exists bl2. split_and!; [done..|]. intros j Hj. rewrite Hb2, Hsplit by lia.
    destruct (bool_decide_reflect (j = i)) as [->|]; [by rewrite Hbit, !andb_false_r|done].
Qed.

Lemma trailing_clear bytes n : len bytes = div_ceil n 8 ->
  negb (n mod 8 =? 0) &&
    match last bytes with Some b => negb (bool_decide (u8_and b (u8_not (u8_of_N (N.shiftl 1 (n mod 8) - 1))) = x00)) | None => false end = false
  <-> forall i, n <= i -> bit_at bytes i = false.
Proof.
  intros Hlen. destruct (N.eqb_spec (n mod 8) 0) as [Hn|Hn]; cbn [negb andb].
  { split; [intros _ i Hi|done]. apply bit_at_beyond. rewrite Hlen, div_ceil_8. dlia. }
  destruct (last bytes) as [b|] eqn:Hb.
  2:{ apply last_None in Hb as ->. rewrite div_ceil_8 in Hlen. unfold len in Hlen. cbn in Hlen. dlia. }
  apply last_Some_lookup in Hb.
  replace (length bytes - 1)%nat with (N.to_nat (div_ceil n 8 - 1)) in Hb by (unfold len in Hlen; lia).
  rewrite <- (bitvector_tail_iff n bytes b Hlen Hn Hb), <- (trailing_mask_zero b) by dlia.
  rewrite negb_false_iff. apply bool_decide_eq_true.
Qed.

Lemma decode_ream_raw_bitlist_cases limit bytes n context :
  (exists bl : Bitlist limit, decode_ream_raw_bitlist limit bytes n context = Ok bl /\ bitlist_wf bl /\ blist_length bl = n /\ blist_bytes bl = bytes) \/
  (exists e, decode_ream_raw_bitlist limit bytes n context = Err e /\
     forall bl : Bitlist limit, bitlist_wf bl -> blist_length bl = n -> blist_bytes bl <> bytes).
Proof.
  unfold decode_ream_raw_bitlist. destruct (N.ltb_spec limit n) as [Hlim|Hlim].
  { right. eexists. split; [done|]. intros bl Hwf <- _. pose proof (wf_limit _ Hwf). lia. }
  destruct (N.eqb_spec (len bytes) (div_ceil n 8)) as [Hlen|Hlen]; cbn [negb].
  2:{ right. eexists. split; [done|]. intros bl Hwf <- <-. by destruct (Hlen (wf_bytes _ Hwf)). }
  destruct (bitlist_with_length_spec n Hlim) as (bl0 & -> & Hwf0 & Hb0). cbn [omap_err obind].
  assert (Hl0 : blist_length bl0 = n) by (apply (f_equal length) in Hb0; rewrite length_bits, length_replicate in Hb0; lia).
  destruct (set_raw_bits_spec context bytes (range 0 n) bl0 Hwf0) as (bl & -> & Hwf & Hl & Hb).
  { apply Forall_forall. intros i Hi%elem_of_range. rewrite Hl0, Hlen, div_ceil_8. dlia. }
  cbn [obind]. pose proof (trailing_clear bytes n Hlen) as Ht. destruct (_ && _).
  { right. eexists. split; [done|]. intros bl' Hwf' <- <-. by discriminate (proj2 Ht (wf_tail _ Hwf')). }
  left. exists bl. split_and!; [done|done|lia|].
  assert (Hz : forall j, j < n -> bit_at (blist_bytes bl0) j = false).
  { intros j Hj. apply (f_equal (fun l => l !! N.to_nat j)) in Hb0.
    rewrite bits_lookup, Hl0, (proj2 (N.ltb_lt _ _) Hj), lookup_replicate_2 in Hb0 by lia. by simplify_eq. }
  apply bytes_ext.
  - pose proof (wf_bytes _ Hwf) as Hwb. rewrite Hl, Hl0, <- Hlen in Hwb. unfold len in Hwb. lia.
  - intros i. destruct (N.ltb_spec i n) as [Hi|Hi].
    + rewrite Hb, Hz, orb_false_r, bool_decide_eq_true_2 by (rewrite ?elem_of_range; lia). done.
    + rewrite (wf_tail _ Hwf) by lia. symmetry. by apply Ht.
Qed.

Lemma decode_ream_raw_bitlist_Ok limit (bl : Bitlist limit) context :
  bitlist_wf bl -> decode_ream_raw_bitlist limit (blist_bytes bl) (blist_length bl) context = Ok bl.
Proof.
  intros Hwf. destruct (decode_ream_raw_bitlist_cases limit (blist_bytes bl) (blist_length bl) context)
    as [(bl' & -> & _ & Hl & Hb)|(e & _ & Hno)]; [|by destruct (Hno bl)].
  f_equal. by destruct bl, bl'; cbn in *; subst.
Qed.

(** ** The format *)

Section Format.
Context {eth : EthSsz} {laws : EthSszLaws} {sha : Sha256}.

(** The tails once they are cut out. *)
Definition check_tail_values (t0 t1 t2 t3 : list u8) (count : N) : Outcome DecodeError unit :=
  let? hist := decode_bytes32_list t0 HISTORICAL_ROOTS_LIMIT in
  let? _ := decode_ream_raw_bitlist HISTORICAL_ROOTS_LIMIT t1 (len hist) "justified_slots" in
  let? roots := decode_bytes32_list t2 HISTORICAL_ROOTS_LIMIT in
  let? count := ok_or (usize_try_from count) (BytesInvalid "num_validators does not fit usize") in
  let? bits := ok_or (checked_mul (len roots) count) (BytesInvalid "justifications_validators length overflow") in
  let? _ := decode_ream_raw_bitlist JUSTIFICATIONS_VALIDATORS_LIMIT t3 bits "justifications_validators" in
  Ok tt.

Lemma check_ream_tails_layout bytes t0 t1 t2 t3 count :
  at_cursor bytes REAM_LEAN_STATE_FIXED_PART_LEN (t0 ++ t1 ++ t2 ++ t3) ->
  check_ream_tails bytes (tail_offsets REAM_LEAN_STATE_FIXED_PART_LEN [t0; t1; t2; t3]) count = check_tail_values t0 t1 t2 t3 count.
Proof.
  intros Hc0. pose proof (at_cursor_app _ _ _ _ Hc0) as Hc1. pose proof (at_cursor_app _ _ _ _ Hc1) as Hc2.
  pose proof (at_cursor_app _ _ _ _ Hc2) as Hc3. cbn [tail_offsets]. unfold check_ream_tails, ream_tail_slice.
  repeat match goal with
  | |- context [if ?b then _ else Ok (len bytes)] => let r := eval vm_compute in b in change b with r; cbv iota
  end.
  unfold index. repeat match goal with
  | |- context [?l !! N.to_nat ?i] => let n := eval vm_compute in (N.to_nat i) in change (N.to_nat i) with n
  end. cbn [lookup list_lookup obind].
  rewrite (slice_cursor _ _ _ _ _ Hc0), (slice_cursor _ _ _ _ _ Hc1), (slice_cursor _ _ _ _ _ Hc2),
    (slice_cursor_tail _ _ _ Hc3) by done. done.
Qed.

(** After the fixed part and four offset words. *)
Definition after_fixed (bytes : list u8) (count time : N) (cj cf : Checkpoint) (offsets : list N) : Outcome DecodeError State :=
  let? first := index offsets 0 in
  if negb (first =? REAM_LEAN_STATE_FIXED_PART_LEN) then Err (OffsetIntoFixedPortion first)
  else
    let? _ := check_windows offsets in
    let? last_offset := index offsets (REAM_STATE_VARIABLE_FIELD_COUNT - 1) in
    if len bytes <? last_offset then Err (OffsetOutOfBounds last_offset)
    else let? _ := check_ream_tails bytes offsets count in Ok (ream_anchor time cj cf).

Lemma from_ream_fixed count time cj cf offsets rest :
  u64_ok count -> u64_ok time -> ssz_wf cj -> ssz_wf cf -> length offsets = 4%nat -> Forall (fun o => o <= u32_max) offsets ->
  let bytes := encode count ++ encode time ++ encode cj ++ encode cf ++ concat (to_le_bytes 4 <$> offsets) ++ rest in
  from_ream_legacy_ssz_bytes bytes = after_fixed bytes count time cj cf offsets /\ at_cursor bytes REAM_LEAN_STATE_FIXED_PART_LEN rest.
Proof.
  intros H1 H2 H3 H4 Hl Hall bytes. destruct offsets as [|o0 [|o1 [|o2 [|o3 []]]]]; try done.
  repeat match goal with Hx : Forall _ (_ :: _) |- _ => apply Forall_cons in Hx as [? Hx] end.
  assert (Hlen : len bytes = 112 + len rest).
  { unfold bytes. rewrite !len_app, !fc_len, len_offset_words. unfold len at 1. cbn [length].
    change (ssz_fixed_len N) with 8. change (ssz_fixed_len Checkpoint) with 40. lia. }
  split.
  2:{ exists (encode count ++ encode time ++ encode cj ++ encode cf ++ concat (to_le_bytes 4 <$> [o0; o1; o2; o3])).
      split; [unfold bytes; by rewrite <- !app_assoc|]. by rewrite !len_app, !fc_len, len_offset_words. }
  unfold from_ream_legacy_ssz_bytes.
  rewrite (proj2 (N.ltb_ge (len bytes) _)) by (rewrite Hlen; change REAM_LEAN_STATE_FIXED_PART_LEN with 112; lia).
  pose proof (at_cursor_start bytes) as Hc. unfold bytes at 2 in Hc.
  rewrite !fmap_cons in Hc. cbn [concat] in Hc. rewrite <- !app_assoc in Hc. clearbody bytes.
  do 2 read_field.
  rewrite (slice_cursor _ _ _ _ _ Hc) by (by rewrite fc_len). cbn [obind]. rewrite fc_decode by done. cbn [obind].
  apply at_cursor_app in Hc. rewrite fc_len in Hc. change (ssz_fixed_len Checkpoint) with CHECKPOINT_LEN in Hc.
  rewrite (slice_cursor _ _ _ _ _ Hc) by (by rewrite fc_len). cbn [obind]. rewrite fc_decode by done. cbn [obind].
  apply at_cursor_app in Hc. rewrite fc_len in Hc. change (ssz_fixed_len Checkpoint) with CHECKPOINT_LEN in Hc.
  cbn [read_offset_array]. do 4 read_field. done.
Qed.

Lemma after_fixed_layout bytes count time cj cf t0 t1 t2 t3 :
  at_cursor bytes REAM_LEAN_STATE_FIXED_PART_LEN (t0 ++ t1 ++ t2 ++ t3) ->
  after_fixed bytes count time cj cf (tail_offsets REAM_LEAN_STATE_FIXED_PART_LEN [t0; t1; t2; t3]) =
  let? _ := check_tail_values t0 t1 t2 t3 count in Ok (ream_anchor time cj cf).
Proof.
  intros Hc. rewrite <- (check_ream_tails_layout bytes) by done. destruct Hc as (pre & -> & Hpre).
  unfold after_fixed. cbn [tail_offsets].
  change (index (?a :: _) 0) with (Ok (E:=DecodeError) a).
  change (index [?a; ?b; ?c; ?d] (REAM_STATE_VARIABLE_FIELD_COUNT - 1)) with (Ok (E:=DecodeError) d).
  cbn [obind]. rewrite N.eqb_refl. cbn [negb check_windows]. rewrite !(proj2 (N.ltb_ge _ _)) by (rewrite ?len_app; lia). done.
Qed.

Lemma after_fixed_cases bytes count time cj cf offsets rest :
  length offsets = 4%nat -> at_cursor bytes REAM_LEAN_STATE_FIXED_PART_LEN rest ->
  (exists e, after_fixed bytes count time cj cf offsets = Err e) \/
  (exists t0 t1 t2 t3, rest = t0 ++ t1 ++ t2 ++ t3 /\ offsets = tail_offsets REAM_LEAN_STATE_FIXED_PART_LEN [t0; t1; t2; t3]).
Proof.
  intros Hl Hc. destruct offsets as [|o0 [|o1 [|o2 [|o3 []]]]]; try done. unfold after_fixed.
  change (index (o0 :: _) 0) with (Ok (E:=DecodeError) o0).
  change (index [?a; ?b; ?c; ?d] (REAM_STATE_VARIABLE_FIELD_COUNT - 1)) with (Ok (E:=DecodeError) d). cbn [obind].
  destruct (N.eqb_spec o0 REAM_LEAN_STATE_FIXED_PART_LEN) as [->|]; [|left; by eexists]. cbn [negb check_windows].
  destruct (N.ltb_spec o1 REAM_LEAN_STATE_FIXED_PART_LEN); [left; by eexists|].
  destruct (N.ltb_spec o2 o1); [left; by eexists|]. destruct (N.ltb_spec o3 o2); [left; by eexists|]. cbn [obind].
  destruct (N.ltb_spec (len bytes) o3) as [|Hb]; [left; by eexists|]. right.
  destruct Hc as (pre & -> & Hpre). rewrite len_app, Hpre in Hb.
  destruct (bytes_split (o1 - REAM_LEAN_STATE_FIXED_PART_LEN) (len rest - (o1 - REAM_LEAN_STATE_FIXED_PART_LEN)) rest)
    as (t0 & r1 & -> & Ht0 & _); [lia|]. rewrite len_app in Hb.
  destruct (bytes_split (o2 - o1) (len r1 - (o2 - o1)) r1) as (t1 & r2 & -> & Ht1 & _); [lia|]. rewrite len_app in Hb.
  destruct (bytes_split (o3 - o2) (len r2 - (o3 - o2)) r2) as (t2 & t3 & -> & Ht2 & _); [lia|].
  exists t0, t1, t2, t3. split; [done|]. cbn [tail_offsets]. repeat f_equal; lia.
Qed.

Lemma check_tail_values_cases t0 t1 t2 t3 count : u64_ok count ->
  (exists e, check_tail_values t0 t1 t2 t3 count = Err e) \/
  (exists hist js roots jv, check_tail_values t0 t1 t2 t3 count = Ok tt /\
     len hist <= HISTORICAL_ROOTS_LIMIT /\ bitlist_wf js /\ blist_length js = len hist /\
     len roots <= HISTORICAL_ROOTS_LIMIT /\ bitlist_wf jv /\ blist_length jv = len roots * count /\
     forall time cj cf, ream_tails (mkReamState count time cj cf hist js roots jv) = [t0; t1; t2; t3]).
Proof.
  intros Hcount. unfold check_tail_values, decode_bytes32_list.
  destruct (decode_byte_vector_list_cases (n:=32) t0 HISTORICAL_ROOTS_LIMIT) as [(hist & -> & Hh & <-)|[m ->]]; [done| |left; by eexists]. cbn [obind].
  destruct (decode_ream_raw_bitlist_cases HISTORICAL_ROOTS_LIMIT t1 (len hist) "justified_slots") as [(js & -> & Hjs & Hjl & <-)|(e & -> & _)];
    [|left; by eexists]. cbn [obind].
  destruct (decode_byte_vector_list_cases (n:=32) t2 HISTORICAL_ROOTS_LIMIT) as [(roots & -> & Hr & <-)|[m ->]]; [done| |left; by eexists]. cbn [obind].
  unfold usize_try_from. rewrite (proj2 (N.ltb_lt _ _) Hcount). cbn [ok_or obind]. unfold checked_mul.
  destruct (_ <? u64_bound); [|left; by eexists]. cbn [ok_or obind].
  destruct (decode_ream_raw_bitlist_cases JUSTIFICATIONS_VALIDATORS_LIMIT t3 (len roots * count) "justifications_validators")
    as [(jv & -> & Hjv & Hvl & <-)|(e & -> & _)]; [|left; by eexists].
  right. by exists hist, js, roots, jv.
Qed.

Lemma check_tail_values_Ok r : ream_wf r ->
  check_tail_values (concat (as_slice <$> rs_historical_block_hashes r)) (blist_bytes (rs_justified_slots r))
    (concat (as_slice <$> rs_justifications_roots r)) (blist_bytes (rs_justifications_validators r)) (rs_num_validators r) = Ok tt.
Proof.
  intros [Hc _ _ _ Hh Hs Hsl Hr Hv Hvl]. unfold check_tail_values, decode_bytes32_list.
  rewrite decode_byte_vector_list_encode by done. cbn [obind]. rewrite <- Hsl, decode_ream_raw_bitlist_Ok by done. cbn [obind].
  rewrite decode_byte_vector_list_encode by done. cbn [obind].
  unfold usize_try_from. rewrite (proj2 (N.ltb_lt _ _) Hc). cbn [ok_or obind]. unfold checked_mul. rewrite <- Hvl.
  rewrite (proj2 (N.ltb_lt _ u64_bound)).
  2:{ by eapply N.le_lt_trans; [apply (wf_limit _ Hv)|]. }
  cbn [ok_or obind]. by rewrite decode_ream_raw_bitlist_Ok by done.
Qed.

Lemma ream_tails_fit r : ream_wf r -> REAM_LEAN_STATE_FIXED_PART_LEN + len (concat (ream_tails r)) <= u32_max.
Proof.
  intros Hwf. rewrite len_concat_sum. unfold ream_tails. csimpl. rewrite !len_concat_as_slice.
  destruct Hwf as [_ _ _ _ Hh Hs _ Hr Hv _]. rewrite (wf_bytes _ Hs), (wf_bytes _ Hv), !div_ceil_8.
  apply wf_limit in Hs, Hv. change HISTORICAL_ROOTS_LIMIT with 262144 in *.
  change JUSTIFICATIONS_VALIDATORS_LIMIT with 1073741824 in *. change REAM_LEAN_STATE_FIXED_PART_LEN with 112. unfold u32_max. dlia.
Qed.

Lemma from_ream_Ok r : ream_wf r ->
  from_ream_legacy_ssz_bytes (ream_bytes r) = Ok (ream_anchor (rs_genesis_time r) (rs_justified r) (rs_finalized r)).
Proof.
  intros Hwf. pose proof (ream_tails_fit r Hwf) as Hfit. unfold ream_bytes.
  destruct (from_ream_fixed (rs_num_validators r) (rs_genesis_time r) (rs_justified r) (rs_finalized r)
    (tail_offsets REAM_LEAN_STATE_FIXED_PART_LEN (ream_tails r)) (concat (ream_tails r))) as [-> Hc]; try apply Hwf.
  { done. }
  { by apply tail_offsets_bound. }
  match goal with |- after_fixed ?b _ _ _ _ _ = _ => generalize dependent b; intros bytes Hc end.
  unfold ream_tails in *. cbn [concat] in Hc. rewrite app_nil_r in Hc. rewrite after_fixed_layout by done.
  by rewrite check_tail_values_Ok.
Qed.

(** Every string is a layout that decodes, or is refused. *)
Lemma ream_format bytes :
  (exists r s, ream_wf r /\ bytes = ream_bytes r /\ from_ream_legacy_ssz_bytes bytes = Ok s /\ st_validators s = []) \/
  (exists e, from_ream_legacy_ssz_bytes bytes = Err e /\ forall r, ream_wf r -> bytes <> ream_bytes r).
Proof.
  assert (Herr : forall e, from_ream_legacy_ssz_bytes bytes = Err e ->
    exists e, from_ream_legacy_ssz_bytes bytes = Err e /\ forall r, ream_wf r -> bytes <> ream_bytes r).
  { intros e He. exists e. split; [done|]. intros r Hwf ->. by rewrite from_ream_Ok in He. }
  destruct (N.ltb_spec (len bytes) REAM_LEAN_STATE_FIXED_PART_LEN) as [Hlt|Hge].
  { right. eapply Herr. unfold from_ream_legacy_ssz_bytes. by rewrite (proj2 (N.ltb_lt _ _) Hlt). }
  change REAM_LEAN_STATE_FIXED_PART_LEN with 112 in Hge.
  cut_bytes 8 bytes p1 q1. cut_bytes 8 q1 p2 q2. cut_bytes 40 q2 p3 q3. cut_bytes 40 q3 p4 q4. cut_bytes 16 q4 ws rest.
  destruct (fc_onto (T:=N) p1) as (count & Hw1 & <-); [done|]. destruct (fc_onto (T:=N) p2) as (time & Hw2 & <-); [done|].
  destruct (fc_onto (T:=Checkpoint) p3) as (cj & Hw3 & <-); [done|]. destruct (fc_onto (T:=Checkpoint) p4) as (cf & Hw4 & <-); [done|].
  destruct (offset_words_of 4 ws) as (offs & Ho & Hall & ->); [done|].
  destruct (from_ream_fixed count time cj cf offs rest Hw1 Hw2 Hw3 Hw4 Ho Hall) as [E Hc].
  destruct (after_fixed_cases _ count time cj cf offs rest Ho Hc) as [[e He]|(t0 & t1 & t2 & t3 & -> & ->)].
  { right. eapply Herr. by rewrite E. }
  rewrite after_fixed_layout in E by done.
  destruct (check_tail_values_cases t0 t1 t2 t3 count Hw1) as [[e He]|(hist & js & roots & jv & Hok & Hh & Hjs & Hjl & Hr & Hjv & Hvl & Ht)].
  { right. apply (Herr e). by rewrite E, He. }
  rewrite Hok in E. left. exists (mkReamState count time cj cf hist js roots jv), (ream_anchor time cj cf). split; [by split|].
  split; [unfold ream_bytes; rewrite Ht; cbn [concat]; by rewrite app_nil_r|]. by split.
Qed.

(** C37. The decoder of compact genesis states accepts exactly the layout of the
    generator and returns on every string: either the bytes are the layout of some
    compact state within the limits, and the result is the slot-0 anchor with its
    genesis time and checkpoints, no history and an empty registry; or they are not
    the layout of any, and the result is an error. *)
Theorem ream_format_exact bytes :
  (exists r s, ream_wf r /\ bytes = ream_bytes r /\ from_ream_legacy_ssz_bytes bytes = Ok s /\
     genesis_time (st_config s) = rs_genesis_time r /\ st_latest_justified s = rs_justified r /\ st_latest_finalized s = rs_finalized r /\
     st_slot s = 0 /\ st_latest_block_header s = BlockHeader_genesis /\ st_validators s = [] /\ st_historical_block_hashes s = []) \/
  (exists e, from_ream_legacy_ssz_bytes bytes = Err e /\ forall r, ream_wf r -> bytes <> ream_bytes r).
Proof.
  destruct (ream_format bytes) as [(r & s & Hwf & -> & E & _)|He]; [left|by right].
  exists r, s. rewrite from_ream_Ok in E by done. injection E as <-. rewrite from_ream_Ok by done. by split.
Qed.

End Format.

(** A compact genesis state of two validators with no history. *)
Definition toy_ream : ReamState :=
  mkReamState 2 1000 (mkCheckpoint (bv_zero 32) 0) (mkCheckpoint (bv_zero 32) 0) [] (bitlist_new _) [] (bitlist_new _).

Lemma ream_format_exact_witness :
  exists s, from_ream_legacy_ssz_bytes (eth := eth_ssz_reference) (sha := toy_sha256) (ream_bytes (eth := eth_ssz_reference) toy_ream) = Ok s /\ st_validators s = [].
Proof.
  assert (Hwf : ream_wf toy_ream) by (split; try done; apply bitlist_new_wf).
  destruct (ream_format_exact (laws := eth_ssz_reference_laws) (sha := toy_sha256) (ream_bytes (eth := eth_ssz_reference) toy_ream))
    as [(r & s & _ & _ & E & _ & _ & _ & _ & _ & Hv & _)|(e & _ & Hno)]; [by exists s|]. by destruct (Hno toy_ream Hwf).
Defined.
