(* ===== verification/Stf.v ===== *)
(** * The state transition function ([state.rs], [stf.rs], [error.rs] of [crates/protocol])

    The [&mut self] methods of [State] are computations of the state monad [M]:
    a write made before an early return stays, so what an error leaves behind is
    part of the model.  [process_attestations] works on copies and commits at
    the end, as the source does; [state_transition] works on a clone.

    The [BTreeMap] of [Justifications] is a finite map iterated in the order of
    its keys.  The slot loop repeats its body once per slot, and every other loop
    is over a list, so nothing here needs fuel. *)

From stdpp Require Import base numbers list sorting gmap strings.
From Stdlib Require Import Strings.Byte ZArith Lia.
From S2P Require Import Prelude Config Types Bitfields Merkle Codec Slot Containers State.

(** ** Errors *)

Inductive AttSlotKind := AttSource | AttTarget.

Inductive StateTransitionError :=
| TargetSlotNotInFuture (current target : Slot)
| SlotOverflow (slot : Slot)
| BlockSlotMismatch (got want : Slot)
| BlockOlderThanLatest (slot latest : Slot)
| IncorrectBlockProposer (slot : Slot) (proposer : ValidatorIndex)
| BlockParentRootMismatch (slot : Slot) (got want : Bytes32)
| AttestationSlotOutOfRange (kind : AttSlotKind) (slot : Slot) (len : N)
| AttestationValidatorOutOfRange (validator : ValidatorIndex) (num_validators : N)
| StateBoundExceeded (context : string)
| StateRootMismatch (slot : Slot) (got want : Bytes32)
| ProtocolInvariant (context reason : string).

Abbreviation STM := (M State StateTransitionError).

Definition bound_exceeded {E} (context : string) (_ : E) : StateTransitionError := StateBoundExceeded context.

(** ** [BTreeMap] *)

(** Iteration in the order of the keys. *)
Definition btree_iter {A} (m : gmap Bytes32 A) : list (Bytes32 * A) :=
  omap (fun k => pair k <$> m !! k) (merge_sort bv_le (map_to_list m).*1).

(** ** [Justifications] *)

Record Justifications := mkJustifications {
  j_table : gmap Bytes32 (list bool);
  j_num_validators : N;
}.

(** [for (j, vote) in votes.iter_mut().enumerate() { *vote = bits.get(i * n + j).unwrap_or(false) }]. *)
Definition hydrate_votes {limit} (bits : Bitlist limit) (i n : N) : Outcome StateTransitionError (list bool) :=
  omapM (fun j => let? b := bitlist_get bits (i * n + j) in Ok (default false b)) (range 0 n).

Definition hydrate_row {limit} (bits : Bitlist limit) (n : N) (table : gmap Bytes32 (list bool))
    (entry : N * Bytes32) : Outcome StateTransitionError (gmap Bytes32 (list bool)) :=
  let '(i, root) := entry in
  let? votes := hydrate_votes bits i n in
  Ok (<[root := votes]> table).

(** [iter().enumerate()]. *)
Definition enumerate {A} (l : list A) : list (N * A) := zip (range 0 (len l)) l.

Definition justifications_try_from (state : State) : Outcome StateTransitionError Justifications :=
  let n := len (st_validators state) in
  if n =? 0 then Ok (mkJustifications ∅ 0)
  else
    let bits := st_justifications_validators state in
    let? expected := ok_or (checked_mul (len (st_justifications_roots state)) n)
                       (StateBoundExceeded "justifications_validators") in
    if negb (blist_length bits =? expected) then Err (StateBoundExceeded "justifications_validators")
    else
      let? table := ofold (hydrate_row bits n) (enumerate (st_justifications_roots state)) ∅ in
      Ok (mkJustifications table n).

(** The body of the loop over one entry: set the bits of the votes cast. *)
Definition flatten_votes {limit} (i n : N) (votes : list bool) (flat : Bitlist limit)
    : Outcome StateTransitionError (Bitlist limit) :=
  ofold (fun flat '(j, voted) =>
    if voted : bool
    then omap_err (bound_exceeded "justifications_validators") (bitlist_set flat (i * n + j) true)
    else Ok flat) (enumerate votes) flat.

Definition flatten_table {limit} (n : N) (entries : list (Bytes32 * list bool)) (flat : Bitlist limit)
    : Outcome StateTransitionError (list Bytes32 * Bitlist limit) :=
  ofold (fun '(roots, flat) '(i, (root, votes)) =>
    let? flat := flatten_votes i n votes flat in
    Ok (roots ++ [root], flat)) (enumerate entries) ([], flat).

Definition write_back (self : Justifications) : STM unit :=
  let n := j_num_validators self in
  let entries := btree_iter (j_table self) in
  let! total_bits := mlift (ok_or (checked_mul (N.of_nat (size (j_table self))) n)
                              (StateBoundExceeded "justifications_validators")) in
  if JUSTIFICATIONS_VALIDATORS_LIMIT <? total_bits
  then mthrow (StateBoundExceeded "justifications_validators")
  else
    let! flat := mlift (omap_err (bound_exceeded "justifications_validators")
                          (bitlist_with_length JUSTIFICATIONS_VALIDATORS_LIMIT total_bits)) in
    let! (roots, flat) := mlift (flatten_table n entries flat) in
    mmodify (set_justifications roots flat).

(** ** Slots *)

Definition advance_slot (slot : Slot) : Outcome StateTransitionError Slot :=
  ok_or (advance slot) (SlotOverflow slot).

Section Stf.
Context {sha : Sha256}.

Definition set_header_state_root (root : Bytes32) (h : BlockHeader) : BlockHeader :=
  mkBlockHeader (bh_slot h) (bh_proposer_index h) (bh_parent_root h) root (bh_body_root h).

Definition process_slot : STM unit :=
  let! self := mget in
  if bool_decide (bh_state_root (st_latest_block_header self) = bv_zero 32)
  then mmodify (fun self =>
         set_header (set_header_state_root (hash_tree_root self) (st_latest_block_header self)) self)
  else mret tt.

Definition process_slots (target_slot : Slot) : STM unit :=
  let! self := mget in
  if target_slot <=? st_slot self
  then mthrow (TargetSlotNotInFuture (st_slot self) target_slot)
  else
    let steps := target_slot - st_slot self in
    mrepeat (N.to_nat steps)
      (let! _ := process_slot in
       let! self := mget in
       let! next := mlift (advance_slot (st_slot self)) in
       mmodify (set_slot next)).

(** ** Block header *)

(** [self.justified_slots.set(self.justified_slots.len(), value)]. *)
Definition push_justified_slot (idx : N) (value : bool) : STM unit :=
  let! self := mget in
  let! bl := mlift (omap_err (bound_exceeded "justified_slots")
                      (bitlist_set (st_justified_slots self) idx value)) in
  mmodify (set_justified_slots bl).

Definition process_block_header (block : Block) : STM unit :=
  let! self := mget in
  if negb (b_slot block =? st_slot self)
  then mthrow (BlockSlotMismatch (b_slot block) (st_slot self))
  else if b_slot block <=? bh_slot (st_latest_block_header self)
  then mthrow (BlockOlderThanLatest (b_slot block) (bh_slot (st_latest_block_header self)))
  else
    let! proposer := mlift (omap_err (fun '(context, reason) => ProtocolInvariant context reason)
                              (is_proposer (b_proposer_index block) (st_slot self) (num_validators self))) in
    if negb proposer then mthrow (IncorrectBlockProposer (st_slot self) (b_proposer_index block))
    else
      let parent_root := hash_tree_root (st_latest_block_header self) in
      if negb (bool_decide (b_parent_root block = parent_root))
      then mthrow (BlockParentRootMismatch (b_slot block) (b_parent_root block) parent_root)
      else
        let body_root := hash_tree_root (b_body block) in
        let was_genesis := slot_is_zero (bh_slot (st_latest_block_header self)) in
        let prev_slot := bh_slot (st_latest_block_header self) in
        let empty_slots := b_slot block - prev_slot - 1 in
        let! empty_slots_usize :=
          mlift (ok_or (usize_try_from empty_slots) (StateBoundExceeded "historical_block_hashes")) in
        let! next_history_len :=
          mlift (ok_or (n ← checked_add (len (st_historical_block_hashes self)) 1;
                        checked_add n empty_slots_usize) (StateBoundExceeded "historical_block_hashes")) in
        if HISTORICAL_ROOTS_LIMIT <? next_history_len
        then mthrow (StateBoundExceeded "historical_block_hashes")
        else
          let! _ :=
            if was_genesis
            then mmodify (fun self =>
                   set_finalized (mkCheckpoint parent_root (cp_slot (st_latest_finalized self)))
                     (set_justified (mkCheckpoint parent_root (cp_slot (st_latest_justified self))) self))
            else mret tt in
          let parent_idx := blist_length (st_justified_slots self) in
          let! _ := mmodify (fun self =>
                      set_history (st_historical_block_hashes self ++ [parent_root]) self) in
          let! _ := push_justified_slot parent_idx was_genesis in
          let! _ := mmodify (fun self =>
                      set_history (st_historical_block_hashes self
                                   ++ replicate (N.to_nat empty_slots_usize) (bv_zero 32)) self) in
          let! _ := mrepeat (N.to_nat empty_slots_usize)
                      (let! self := mget in
                       push_justified_slot (blist_length (st_justified_slots self)) false) in
          mmodify (set_header (mkBlockHeader (b_slot block) (b_proposer_index block) (b_parent_root block)
                                 (bv_zero 32) body_root)).

(** ** Attestations *)

Definition bounded_slot_index (slot : Slot) (kind : AttSlotKind) (len : N) : Outcome StateTransitionError N :=
  match usize_try_from slot with
  | Some i => if i <? len then Ok i else Err (AttestationSlotOutOfRange kind slot len)
  | None => Err (AttestationSlotOutOfRange kind slot len)
  end.

(** The working copies of one call. *)
Record Working := mkWorking {
  w_justifications : Justifications;
  w_justified_slots : Bitlist HISTORICAL_ROOTS_LIMIT;
  w_latest_justified : Checkpoint;
  w_latest_finalized : Checkpoint;
}.

(** The semantic filters, with the short-circuit of [&&]. *)
Definition acceptable (history : list Bytes32) (w : Working) (vote : AttestationData) (source_idx target_idx : N)
    : Outcome StateTransitionError bool :=
  let? source_bit := bitlist_get (w_justified_slots w) source_idx in
  if negb (bool_decide (source_bit = Some true)) then Ok false
  else
    let? target_bit := bitlist_get (w_justified_slots w) target_idx in
    if negb (bool_decide (target_bit = Some false)) then Ok false
    else
      let? source_root := index history source_idx in
      if negb (bool_decide (cp_root (ad_source vote) = source_root)) then Ok false
      else
        let? target_root := index history target_idx in
        if negb (bool_decide (cp_root (ad_target vote) = target_root)) then Ok false
        else Ok ((cp_slot (ad_source vote) <? cp_slot (ad_target vote))
                 && is_justifiable_after (cp_slot (ad_target vote)) (cp_slot (w_latest_finalized w))).

(** No justifiable slot strictly between the source and the target. *)
Definition no_intermediate (source_idx target_idx finalized : N) : bool :=
  forallb (fun mid => negb (is_justifiable_after mid finalized)) (range (source_idx + 1) target_idx).

(** The body of the loop over the attestations. *)
Definition attestation_step (self : State) (w : Working) (att : Attestation) : Outcome StateTransitionError Working :=
  let num_validators := num_validators self in
  let validator_limit := len (st_validators self) in
  let just_len := blist_length (st_justified_slots self) in
  let hist_len := len (st_historical_block_hashes self) in
  let vote := att_data att in
  let source_slot := cp_slot (ad_source vote) in
  let target_slot := cp_slot (ad_target vote) in
  let? source_idx := bounded_slot_index source_slot AttSource just_len in
  let? _ := bounded_slot_index source_slot AttSource hist_len in
  let? target_idx := bounded_slot_index target_slot AttTarget just_len in
  let? _ := bounded_slot_index target_slot AttTarget hist_len in
  let? validator_idx :=
    match usize_try_from (att_validator_id att) with
    | Some i => if i <? validator_limit then Ok i
                else Err (AttestationValidatorOutOfRange (att_validator_id att) num_validators)
    | None => Err (AttestationValidatorOutOfRange (att_validator_id att) num_validators)
    end in
  let? ok := acceptable (st_historical_block_hashes self) w vote source_idx target_idx in
  if negb ok then Ok w
  else
    let n := j_num_validators (w_justifications w) in
    let table := j_table (w_justifications w) in
    let votes := default (replicate (N.to_nat n) false) (table !! cp_root (ad_target vote)) in
    let? votes := index_set votes validator_idx true in
    let table := <[cp_root (ad_target vote) := votes]> table in
    let count := count_true votes in
    if 3 * count <? 2 * validator_limit
    then Ok (mkWorking (mkJustifications table n) (w_justified_slots w) (w_latest_justified w)
               (w_latest_finalized w))
    else
      let? justified_slots := omap_err (bound_exceeded "justified_slots")
                                (bitlist_set (w_justified_slots w) target_idx true) in
      let table := delete (cp_root (ad_target vote)) table in
      let latest_finalized :=
        if no_intermediate source_idx target_idx (cp_slot (w_latest_finalized w))
        then ad_source vote else w_latest_finalized w in
      Ok (mkWorking (mkJustifications table n) justified_slots (ad_target vote) latest_finalized).

Definition process_attestations (attestations : list Attestation) : STM unit :=
  let! self := mget in
  let! justifications := mlift (justifications_try_from self) in
  let! w := mlift (ofold (attestation_step self) attestations
                     (mkWorking justifications (st_justified_slots self) (st_latest_justified self)
                        (st_latest_finalized self))) in
  let! _ := mmodify (set_justified_slots (w_justified_slots w)) in
  let! _ := mmodify (set_justified (w_latest_justified w)) in
  let! _ := mmodify (set_finalized (w_latest_finalized w)) in
  write_back (w_justifications w).

(** ** The driver *)

Definition state_transition (signed_block : SignedBlockWithAttestation) (validate_state_root : bool) : STM unit :=
  fun self =>
    let block := bwa_block (sb_message signed_block) in
    match (let! _ := process_slots (b_slot block) in
           let! _ := process_block_header block in
           process_attestations (bb_attestations (b_body block))) self with
    | (Ok _, next) =>
        if validate_state_root
        then
          let got := hash_tree_root next in
          if negb (bool_decide (got = b_state_root block))
          then (Err (StateRootMismatch (b_slot block) got (b_state_root block)), self)
          else (Ok tt, next)
        else (Ok tt, next)
    | (Err e, _) => (Err e, self)
    | (Panic, _) => (Panic, self)
    | (Diverge, _) => (Diverge, self)
    end.

(** ** Genesis *)

Definition genesis_state (genesis_time : N) (validators : list Validator) : State :=
  mkState (mkProtocolConfig genesis_time) (st_slot State_default) BlockHeader_genesis
    (st_latest_justified State_default) (st_latest_finalized State_default)
    (st_historical_block_hashes State_default) (st_justified_slots State_default) validators
    (st_justifications_roots State_default) (st_justifications_validators State_default).

Definition genesis_anchor_block (state : State) : Block :=
  mkBlock 0 0 (bv_zero 32) (hash_tree_root state) BlockBody_default.

End Stf.
