(* ===== verification/Justif.v ===== *)
(** * The vote tally ([Justifications] of [crates/protocol/src/state.rs])

    What hydrating the tally from the flat bitlist and writing it back compute,
    on the level of boolean lists: row [i] of the bitlist is the vote vector of
    root [i], and the rows are written in the order of the roots. *)

From stdpp Require Import base numbers list sorting gmap strings.
From Stdlib Require Import Strings.Byte ZArith Lia.
From S2P Require Import Prelude Config Types Bitfields Merkle Codec Slot Containers State Stf.

Lemma enumerate_cons_shift {A} (l : list A) a k :
  zip (range k (k + len (a :: l))) (a :: l) = (k, a) :: zip (range (k + 1) (k + 1 + len l)) l.
Proof.
  rewrite len_cons. rewrite (range_app k (k + 1)) by lia. rewrite (range_shift k 1).
  change (range 0 1) with [0]. cbn [fmap list_fmap app zip zip_with]. rewrite N.add_0_r. do 3 f_equal. lia.
Qed.

Lemma ofold_enumerate {E A X} (f : A -> N * X -> Outcome E A) (l : list X) a :
  ofold f (enumerate l) a = ofold f (zip (range 0 (0 + len l)) l) a.
Proof. done. Qed.

(** ** Hydrating *)

Lemma hydrate_votes_spec {limit} (bits_ : Bitlist limit) i n :
  bitlist_wf bits_ -> i * n + n <= blist_length bits_ ->
  hydrate_votes bits_ i n = Ok (take (N.to_nat n) (drop (N.to_nat (i * n)) (bits bits_))).
Proof.
  intros Hwf Hl. unfold hydrate_votes.
  assert (Hf : Forall (fun j => i * n + j < blist_length bits_) (range 0 n)).
  { apply Forall_forall. intros j Hj%elem_of_range. lia. }
  transitivity (Ok (E:=StateTransitionError) ((fun j => bit_at (blist_bytes bits_) (i * n + j)) <$> range 0 n)).
  - clear Hl. induction Hf as [|j l Hj _ IH]; [done|]. cbn [omapM].
    rewrite bitlist_get_spec by done. cbn [obind]. rewrite IH. cbn [obind]. do 3 f_equal.
    rewrite bits_lookup, (proj2 (N.ltb_lt _ _)) by done. done.
  - f_equal. apply list_eq. intros k. rewrite list_lookup_fmap.
    destruct (decide (k < N.to_nat n)%nat) as [Hk|Hk].
    + rewrite range_lookup by lia. rewrite lookup_take_lt, lookup_drop by lia. simpl.
      replace (N.to_nat (i * n) + k)%nat with (N.to_nat (i * n + N.of_nat k)) by lia.
      rewrite bits_lookup, (proj2 (N.ltb_lt _ _)) by lia. done.
    + rewrite lookup_take_ge by lia. rewrite (lookup_ge_None_2 (range 0 n)); [done|].
      pose proof (len_range 0 n) as Hr. unfold len in Hr. lia.
Qed.

(** Row [i] of the flat bit list. *)
Definition vote_row (bs : list bool) (n i : N) : list bool := take (N.to_nat n) (drop (N.to_nat (i * n)) bs).

Lemma hydrate_table_lookup {limit} (bl : Bitlist limit) n roots k t0 :
  bitlist_wf bl -> NoDup roots -> (k + len roots) * n <= blist_length bl ->
  exists t, ofold (hydrate_row bl n) (zip (range k (k + len roots)) roots) t0 = Ok t /\
    (forall i r, roots !! i = Some r -> t !! r = Some (vote_row (bits bl) n (k + N.of_nat i))) /\
    (forall r, r ∉ roots -> t !! r = t0 !! r).
Proof.
  intros Hwf. revert k t0. induction roots as [|r0 roots IH]; intros k t0 Hnd Hl.
  { exists t0. rewrite zip_with_nil_r. split_and!; [done|done|done]. }
  apply NoDup_cons in Hnd as [Hr0 Hnd]. rewrite enumerate_cons_shift. rewrite len_cons in Hl.
  cbn [ofold hydrate_row]. rewrite hydrate_votes_spec by (done || nia). cbn [obind].
  fold (vote_row (bits bl) n k).
  destruct (IH (k + 1) (<[r0 := vote_row (bits bl) n k]> t0)) as (t & -> & Hin & Hout); [done|nia|].
  exists t. split_and!; [done| |].
  - intros [|i] r Hr.
    + simpl in Hr. simplify_eq. rewrite Hout, lookup_insert_eq by done. do 2 f_equal. lia.
    + rewrite (Hin i r) by done. do 2 f_equal. lia.
  - intros r Hr. rewrite Hout by set_solver. apply lookup_insert_ne. set_solver.
Qed.

(** ** Iterating the tally in key order *)

Section Btree.
Context {A : Type} (m : gmap Bytes32 A).

Lemma btree_keys : (btree_iter m).*1 = merge_sort bv_le (map_to_list m).*1.
Proof.
  unfold btree_iter. assert (Hall : Forall (fun k => is_Some (m !! k)) (merge_sort bv_le (map_to_list m).*1)).
  { apply Forall_forall. intros k Hk. rewrite merge_sort_Permutation in Hk.
    apply list_elem_of_fmap in Hk as ([k' v] & -> & Hkv). apply elem_of_map_to_list in Hkv. by exists v. }
  induction Hall as [|k l [v Hv] _ IH]; [done|]. csimpl. rewrite Hv. csimpl. by f_equal.
Qed.

Lemma elem_of_btree_iter k v : (k, v) ∈ btree_iter m <-> m !! k = Some v.
Proof.
  unfold btree_iter. rewrite list_elem_of_omap. split.
  - intros (k' & _ & Hk). destruct (m !! k') eqn:Hm; simpl in Hk; by simplify_eq.
  - intros Hm. exists k. rewrite Hm. split; [|done]. rewrite merge_sort_Permutation.
    apply list_elem_of_fmap. exists (k, v). split; [done|]. by apply elem_of_map_to_list.
Qed.

Lemma btree_keys_NoDup : NoDup (btree_iter m).*1.
Proof. rewrite btree_keys, merge_sort_Permutation. apply NoDup_fst_map_to_list. Qed.

Lemma btree_keys_sorted : StronglySorted bv_le (btree_iter m).*1.
Proof. rewrite btree_keys. apply StronglySorted_merge_sort; tc_solve. Qed.

Lemma length_btree_iter : length (btree_iter m) = size m.
Proof.
  rewrite <-(length_fmap fst), btree_keys, merge_sort_Permutation, length_fmap. apply length_map_to_list.
Qed.

End Btree.

(** ** Writing back *)

(** Setting the bits of the votes cast in an all-false segment writes the votes. *)
Lemma flatten_votes_loop {limit} i n votes k (flat : Bitlist limit) pre post :
  bitlist_wf flat -> bits flat = pre ++ replicate (length votes) false ++ post ->
  len pre = i * n + k -> blist_length flat <= limit ->
  exists flat', ofold (fun flat '(j, voted) =>
      if voted : bool
      then omap_err (bound_exceeded "justifications_validators") (bitlist_set flat (i * n + j) true)
      else Ok flat) (zip (range k (k + len votes)) votes) flat = Ok flat' /\
    bitlist_wf flat' /\ bits flat' = pre ++ votes ++ post.
Proof.
  revert k flat pre. induction votes as [|v votes IH]; intros k flat pre Hwf Hb Hp Hl.
  { exists flat. by rewrite zip_with_nil_r. }
  rewrite enumerate_cons_shift. cbn [ofold]. simpl replicate in Hb.
  assert (Hstep : exists f1, (if v then omap_err (bound_exceeded "justifications_validators")
                                     (bitlist_set flat (i * n + k) true) else Ok flat) = Ok f1 /\
            bitlist_wf f1 /\ bits f1 = (pre ++ [v]) ++ replicate (length votes) false ++ post).
  { assert (Hlt : (length pre < length (bits flat))%nat).
    { rewrite Hb, length_app. simpl. lia. }
    rewrite length_bits in Hlt. destruct v.
    - destruct (bitlist_set_Ok flat (i * n + k) true Hwf) as (f1 & -> & Hwf1 & Hb1); [unfold len in Hp; lia|].
      exists f1. split_and!; [done|done|]. rewrite Hb1, list_set_grow_in_range by (rewrite length_bits; unfold len in Hp; lia).
      rewrite Hb. replace (N.to_nat (i * n + k)) with (length pre + 0)%nat by (unfold len in Hp; lia).
      rewrite insert_app_r. simpl. by rewrite <-app_assoc.
    - exists flat. split_and!; [done|done|]. by rewrite Hb, <-app_assoc. }
  destruct Hstep as (f1 & -> & Hwf1 & Hb1). cbn [obind].
  destruct (IH (k + 1) f1 (pre ++ [v])) as (f2 & Hf2 & Hwf2 & Hb2); [done|done| | |].
  - rewrite len_app, Hp. unfold len. simpl. lia.
  - apply wf_limit in Hwf1. done.
  - exists f2. split_and!; [done|done|]. by rewrite Hb2, <-app_assoc.
Qed.

Lemma flatten_table_loop {limit} n entries k roots (flat : Bitlist limit) pre :
  bitlist_wf flat -> Forall (fun e : Bytes32 * list bool => len e.2 = n) entries ->
  bits flat = pre ++ replicate (length entries * N.to_nat n) false -> len pre = k * n ->
  exists flat', ofold (fun '(roots, flat) '(i, (root, votes)) =>
      let? flat := flatten_votes i n votes flat in Ok (roots ++ [root], flat))
      (zip (range k (k + len entries)) entries) (roots, flat) = Ok (roots ++ entries.*1, flat') /\
    bitlist_wf flat' /\ bits flat' = pre ++ concat entries.*2.
Proof.
  intros Hwf Hall. revert k roots flat pre Hwf. induction Hall as [|[r votes] entries Hv _ IH];
    intros k roots flat pre Hwf Hb Hp.
  { exists flat. rewrite zip_with_nil_r. csimpl. rewrite !app_nil_r. simpl in Hb. by rewrite app_nil_r in Hb. }
  rewrite enumerate_cons_shift. cbn [ofold]. simpl length in Hb. simpl in Hv.
  assert (Hn : N.to_nat n = length votes) by (unfold len in Hv; lia).
  rewrite Nat.mul_succ_l, Nat.add_comm, replicate_add, Hn in Hb.
  unfold flatten_votes at 1. rewrite ofold_enumerate.
  destruct (flatten_votes_loop k n votes 0 flat pre (replicate (length entries * length votes) false))
    as (f1 & -> & Hwf1 & Hb1); [done|done|lia|by apply wf_limit|]. cbn [obind].
  destruct (IH (k + 1) (roots ++ [r]) f1 (pre ++ votes)) as (f2 & -> & Hwf2 & Hb2); [done| | |].
  - by rewrite Hb1, <-app_assoc, Hn.
  - rewrite len_app. lia.
  - exists f2. csimpl. rewrite <-!app_assoc in *. done.
Qed.

(** ** The tally as a whole *)

Definition rows_have_length (j : Justifications) (n : N) : Prop :=
  j_num_validators j = n /\ forall r v, j_table j !! r = Some v -> len v = n.

Lemma btree_rows_length j n :
  rows_have_length j n -> Forall (fun e : Bytes32 * list bool => len e.2 = n) (btree_iter (j_table j)).
Proof. intros [_ Hrows]. apply Forall_forall. intros [r v] He%elem_of_btree_iter. by apply (Hrows r). Qed.

Lemma write_back_spec j n s :
  rows_have_length j n -> N.of_nat (size (j_table j)) * n <= JUSTIFICATIONS_VALIDATORS_LIMIT ->
  exists flat, write_back j s = (Ok tt, set_justifications (btree_iter (j_table j)).*1 flat s) /\
    bitlist_wf flat /\ bits flat = concat (btree_iter (j_table j)).*2 /\
    blist_length flat = N.of_nat (size (j_table j)) * n.
Proof.
  intros Hrows Hsz. pose proof (btree_rows_length j n Hrows) as Hall. destruct Hrows as [Hn _].
  assert (Hu : N.of_nat (size (j_table j)) * n < u64_bound).
  { eapply N.le_lt_trans; [exact Hsz|]. done. }
  unfold write_back. rewrite Hn. unfold checked_mul. rewrite (proj2 (N.ltb_lt _ _)) by done.
  unfold mbind at 1, mlift at 1. cbn [ok_or]. rewrite (proj2 (N.ltb_ge _ _)) by done.
  destruct (bitlist_with_length_spec (limit:=JUSTIFICATIONS_VALIDATORS_LIMIT) _ Hsz) as (flat0 & -> & Hwf0 & Hb0).
  unfold mbind at 1, mlift at 1. cbn [omap_err]. unfold flatten_table. rewrite ofold_enumerate.
  destruct (flatten_table_loop n (btree_iter (j_table j)) 0 [] flat0 []) as (flat & Hf & Hwf & Hb); [done|done| |done|].
  { rewrite Hb0, length_btree_iter. cbn [app]. f_equal. lia. }
  rewrite Hf. exists flat. split_and!; [done|done|done|].
  apply (f_equal length) in Hb. rewrite length_bits in Hb. cbn [app] in Hb.
  assert (Hc : len (concat (btree_iter (j_table j)).*2) = N.of_nat (size (j_table j)) * n).
  { rewrite <-length_btree_iter. clear -Hall. induction Hall as [|[r v] l Hv _ IH]; [done|].
    csimpl. rewrite len_app, IH. simpl in *. lia. }
  unfold len in Hc. lia.
Qed.

Lemma justifications_try_from_spec s :
  bitlist_wf (st_justifications_validators s) -> NoDup (st_justifications_roots s) ->
  blist_length (st_justifications_validators s) = len (st_justifications_roots s) * len (st_validators s) ->
  len (st_validators s) <> 0 ->
  exists t, justifications_try_from s = Ok (mkJustifications t (len (st_validators s))) /\
    (forall i r, st_justifications_roots s !! i = Some r ->
       t !! r = Some (vote_row (bits (st_justifications_validators s)) (len (st_validators s)) (N.of_nat i))) /\
    (forall r, r ∉ st_justifications_roots s -> t !! r = None).
Proof.
  intros Hwf Hnd Hlen Hn. unfold justifications_try_from. rewrite (proj2 (N.eqb_neq _ _)) by done.
  assert (Hu : len (st_justifications_roots s) * len (st_validators s) < u64_bound).
  { rewrite <-Hlen. eapply N.le_lt_trans; [by apply wf_limit|]. done. }
  unfold checked_mul. rewrite (proj2 (N.ltb_lt _ _)) by done. cbn [ok_or obind].
  rewrite Hlen, N.eqb_refl. cbn [negb]. rewrite ofold_enumerate.
  destruct (hydrate_table_lookup (st_justifications_validators s) (len (st_validators s)) (st_justifications_roots s) 0 ∅)
    as (t & -> & Hin & Hout); [done|done|lia|]. cbn [obind].
  exists t. split_and!; [done| |].
  - intros i r Hr. by rewrite (Hin i r Hr).
  - intros r Hr. by rewrite Hout.
Qed.

Lemma vote_row_length bs n i : (i + 1) * n <= len bs -> len (vote_row bs n i) = n.
Proof. intros H. unfold vote_row, len in *. rewrite length_take, length_drop. nia. Qed.

Lemma vote_row_concat n (rows : list (list bool)) i v :
  Forall (fun r => len r = n) rows -> rows !! i = Some v -> vote_row (concat rows) n (N.of_nat i) = v.
Proof.
  intros Hall. revert i. induction Hall as [|r rows Hr _ IH]; intros [|i] Hi; [done|done| |].
  - simpl in Hi. simplify_eq. unfold vote_row. cbn [concat]. rewrite drop_0. apply take_app_length'.
    unfold len. lia.
  - unfold vote_row in *. cbn [concat].
    replace (N.to_nat (N.of_nat (S i) * n)) with (length r + N.to_nat (N.of_nat i * n))%nat by (unfold len in Hr; nia).
    rewrite <-drop_drop, drop_app_length. by apply IH.
Qed.

(** Every row of a hydrated tally has one entry per validator. *)
Lemma hydrated_rows s t :
  (forall i r, st_justifications_roots s !! i = Some r ->
     t !! r = Some (vote_row (bits (st_justifications_validators s)) (len (st_validators s)) (N.of_nat i))) ->
  (forall r, r ∉ st_justifications_roots s -> t !! r = None) ->
  blist_length (st_justifications_validators s) = len (st_justifications_roots s) * len (st_validators s) ->
  rows_have_length (mkJustifications t (len (st_validators s))) (len (st_validators s)).
Proof.
  intros Hin Hout Hlen. split; [done|]. simpl. intros r v Hv.
  destruct (decide (r ∈ st_justifications_roots s)) as [Hr|Hr]; [|by rewrite Hout in Hv].
  apply list_elem_of_lookup in Hr as [i Hi]. rewrite (Hin i r Hi) in Hv. simplify_eq.
  apply vote_row_length. apply lookup_lt_Some in Hi. unfold len. rewrite length_bits, Hlen. unfold len. nia.
Qed.

(** Writing the tally back and hydrating it again is the identity: for a
    tally with one row per root and one entry per validator, within the
    bitlist limit, [write_back] succeeds and [try_from] on the written state
    returns the same tally. *)
Theorem justifications_round_trip j s :
  len (st_validators s) <> 0 -> rows_have_length j (len (st_validators s)) ->
  N.of_nat (size (j_table j)) * len (st_validators s) <= JUSTIFICATIONS_VALIDATORS_LIMIT ->
  exists s', write_back j s = (Ok tt, s') /\ justifications_try_from s' = Ok j.
Proof.
  intros Hn Hrows Hsz. destruct (write_back_spec j _ s Hrows Hsz) as (flat & Hw & Hwf & Hb & Hl).
  eexists. split; [exact Hw|]. set (s' := set_justifications _ _ _).
  destruct (justifications_try_from_spec s') as (t & -> & Hin & Hout); [done|apply btree_keys_NoDup| |done|].
  { cbn. unfold len at 1. by rewrite length_fmap, length_btree_iter. }
  pose proof (btree_rows_length j _ Hrows) as Hall. destruct j as [tj nj], Hrows as [Hnj _]. simpl in *. subst nj.
  do 2 f_equal. apply map_eq. intros r. destruct (tj !! r) as [v|] eqn:Hr.
  - apply elem_of_btree_iter in Hr. apply list_elem_of_lookup in Hr as [i Hi].
    rewrite (Hin i r) by (cbn; by rewrite list_lookup_fmap, Hi). f_equal. cbn. rewrite Hb.
    apply vote_row_concat; [by apply Forall_fmap|]. by rewrite list_lookup_fmap, Hi.
  - apply Hout. cbn. intros ([r' v] & -> & Hv)%list_elem_of_fmap.
    apply elem_of_btree_iter in Hv. simpl in Hr. by rewrite Hr in Hv.
Qed.

Lemma justifications_round_trip_witness :
  let v := mkValidator (bv_zero 52) 0 in
  let s := mkState ProtocolConfig_default 0 BlockHeader_default Checkpoint_default Checkpoint_default
             [] (bitlist_new _) [v; v] [] (bitlist_new _) in
  let j := mkJustifications {[ bv_zero 32 := [true; false] ]} 2 in
  exists s', write_back j s = (Ok tt, s') /\ justifications_try_from s' = Ok j.
Proof.
  intros v s j. apply (justifications_round_trip j s); [done| |by vm_compute].
  split; [done|]. intros r w Hw. unfold j in Hw. cbn [j_table] in Hw. apply lookup_singleton_Some in Hw as [_ <-]. done.
Defined.
