(* ===== verification/StfInv.v ===== *)
(** * Invariants of the state transition

    [state_inv] is what every state reached from genesis by [state_transition]
    satisfies: the history and the justified bits have one entry per slot below
    the latest header's, both checkpoints are justified blocks of the history,
    the finalized one is not above the justified one, and the vote tally has one
    row per distinct root of the history.  The theorems show that each operation
    keeps it, that an error leaves the state as it was, that finality only
    advances, and that a slot becomes justified only with two thirds of the
    validators behind it. *)

From stdpp Require Import base numbers list sorting gmap strings.
From Stdlib Require Import Strings.Byte ZArith Lia.
From S2P Require Import Prelude Config Types Bitfields Merkle Codec Slot Containers State Stf Justif.

(** The checkpoint is a justified block of the history. *)
Definition on_chain (history : list Bytes32) (justified : list bool) (cp : Checkpoint) : Prop :=
  history !! N.to_nat (cp_slot cp) = Some (cp_root cp) /\ justified !! N.to_nat (cp_slot cp) = Some true.

Record state_inv (s : State) : Prop := {
  inv_wf : state_wf s;
  inv_history : len (st_historical_block_hashes s) = bh_slot (st_latest_block_header s);
  inv_justified_slots : blist_length (st_justified_slots s) = bh_slot (st_latest_block_header s);
  inv_slot : bh_slot (st_latest_block_header s) <= st_slot s;
  inv_checkpoints :
    (bh_slot (st_latest_block_header s) = 0 /\ cp_slot (st_latest_justified s) = 0 /\
     cp_slot (st_latest_finalized s) = 0) \/
    (on_chain (st_historical_block_hashes s) (bits (st_justified_slots s)) (st_latest_justified s) /\
     on_chain (st_historical_block_hashes s) (bits (st_justified_slots s)) (st_latest_finalized s));
  inv_order : cp_slot (st_latest_finalized s) <= cp_slot (st_latest_justified s);
  inv_roots : NoDup (st_justifications_roots s);
  inv_roots_history : st_justifications_roots s ⊆ st_historical_block_hashes s;
  inv_tally :
    blist_length (st_justifications_validators s)
    = len (st_justifications_roots s) * len (st_validators s);
}.

(** ** Genesis *)

Lemma genesis_state_inv {sha : Sha256} t vs :
  u64_ok t -> Forall ssz_wf vs -> len vs <= VALIDATOR_REGISTRY_LIMIT -> state_inv (genesis_state t vs).
Proof.
  intros Ht Hvs Hn. split; try done.
  all: first [by left | by constructor | idtac].
Qed.

(** ** Slots *)

Section Slots.
Context {sha : Sha256}.

Definition process_slot_result (s : State) : State :=
  if bool_decide (bh_state_root (st_latest_block_header s) = bv_zero 32)
  then set_header (set_header_state_root (hash_tree_root s) (st_latest_block_header s)) s else s.

Lemma process_slot_eq s : process_slot s = (Ok tt, process_slot_result s).
Proof. unfold process_slot, process_slot_result, mbind, mget. by case_bool_decide. Qed.

(** The body of the slot loop. *)
Definition slot_step : STM unit :=
  let! _ := process_slot in
  let! self := mget in
  let! next := mlift (advance_slot (st_slot self)) in
  mmodify (set_slot next).

Lemma slot_step_Ok s :
  st_slot s + 1 < u64_bound -> slot_step s = (Ok tt, set_slot (st_slot s + 1) (process_slot_result s)).
Proof.
  intros Hs. unfold slot_step, mbind, mget, mlift, mmodify. rewrite process_slot_eq.
  assert (Hsl : st_slot (process_slot_result s) = st_slot s) by (unfold process_slot_result; by case_bool_decide).
  rewrite Hsl. unfold advance_slot, advance, checked_add. by rewrite (proj2 (N.ltb_lt _ _)).
Qed.

(** After the first slot the header carries its state root, and the later ones
    only count. *)
Lemma slot_steps_Ok k s :
  st_slot s + N.of_nat k < u64_bound ->
  bh_state_root (st_latest_block_header s) <> bv_zero 32 ->
  mrepeat k slot_step s = (Ok tt, set_slot (st_slot s + N.of_nat k) s).
Proof.
  revert s. induction k as [|k IH]; intros s Hs Hr.
  - simpl. destruct s. unfold mret, set_slot. simpl. do 3 f_equal. lia.
  - cbn [mrepeat]. erewrite mbind_Ok by (apply slot_step_Ok; lia).
    unfold process_slot_result. rewrite bool_decide_eq_false_2 by done.
    rewrite IH by (simpl; done || lia). simpl. unfold set_slot. simpl. do 2 f_equal. lia.
Qed.

(** The state after advancing to [target]. *)
Definition advanced (s : State) (target : Slot) : State := set_slot target (process_slot_result s).

Lemma process_slots_cases s target :
  u64_ok target -> hash_tree_root s <> bv_zero 32 ->
  (st_slot s < target -> process_slots target s = (Ok tt, advanced s target)) /\
  (target <= st_slot s -> process_slots target s = (Err (TargetSlotNotInFuture (st_slot s) target), s)).
Proof.
  intros Ht Hroot. unfold process_slots. rewrite mbind_mget. split; intros Hlt.
  - rewrite (proj2 (N.leb_gt _ _)) by done.
    fold slot_step. replace (N.to_nat (target - st_slot s)) with (S (N.to_nat (target - st_slot s - 1))) by lia.
    cbn [mrepeat]. erewrite mbind_Ok by (apply slot_step_Ok; unfold u64_ok in Ht; lia).
    rewrite slot_steps_Ok.
    + unfold advanced, set_slot. simpl. do 3 f_equal. lia.
    + simpl. unfold u64_ok in Ht. lia.
    + simpl. unfold process_slot_result. case_bool_decide; done.
  - by rewrite (proj2 (N.leb_le _ _)).
Qed.

(** In any case only the slot and the header's state root change. *)
Definition at_slot (s : State) (target : Slot) (root : Bytes32) : State :=
  set_slot target (set_header (set_header_state_root root (st_latest_block_header s)) s).

Lemma slot_steps_general k s :
  st_slot s + N.of_nat k < u64_bound ->
  exists root, mrepeat k slot_step s = (Ok tt, at_slot s (st_slot s + N.of_nat k) root).
Proof.
  revert s. induction k as [|k IH]; intros s Hs.
  - exists (bh_state_root (st_latest_block_header s)). destruct s as [? ? [] ? ? ? ? ? ? ?]. unfold at_slot, mret. simpl.
    unfold set_slot, set_header, set_header_state_root. simpl. by rewrite N.add_0_r.
  - cbn [mrepeat]. erewrite mbind_Ok by (apply slot_step_Ok; lia).
    edestruct IH as [root ->]; [simpl; lia|]. exists root. unfold process_slot_result.
    replace (st_slot s + N.of_nat (S k)) with (st_slot s + 1 + N.of_nat k) by lia. by case_bool_decide.
Qed.

Lemma process_slots_general s target :
  u64_ok target ->
  (st_slot s < target -> exists root, process_slots target s = (Ok tt, at_slot s target root)) /\
  (target <= st_slot s -> process_slots target s = (Err (TargetSlotNotInFuture (st_slot s) target), s)).
Proof.
  intros Ht. unfold process_slots. rewrite mbind_mget. split; intros Hlt.
  - rewrite (proj2 (N.leb_gt _ _)) by done. fold slot_step.
    destruct (slot_steps_general (N.to_nat (target - st_slot s)) s) as [root ->]; [unfold u64_ok in Ht; lia|].
    exists root. do 3 f_equal. lia.
  - by rewrite (proj2 (N.leb_le _ _)).
Qed.

Lemma at_slot_inv s target root : state_inv s -> u64_ok target -> st_slot s <= target -> state_inv (at_slot s target root).
Proof.
  intros [Hwf Hh Hj Hs Hc Ho Hr Hrh Ht] Hu Hle. destruct Hwf. split; simpl; try done; lia.
Qed.

End Slots.

(** ** Block headers *)

Section Header.
Context {sha : Sha256}.

(** The conditions [process_block_header] checks. *)
Record header_valid (s : State) (block : Block) : Prop := {
  hv_slot : b_slot block = st_slot s;
  hv_newer : bh_slot (st_latest_block_header s) < b_slot block;
  hv_validators : st_validators s <> [];
  hv_proposer : b_proposer_index block = st_slot s mod len (st_validators s);
  hv_parent : b_parent_root block = hash_tree_root (st_latest_block_header s);
  hv_bound : b_slot block <= HISTORICAL_ROOTS_LIMIT;
}.

Lemma push_justified_slot_Ok idx v s b1 :
  bitlist_set (st_justified_slots s) idx v = Ok b1 ->
  push_justified_slot idx v s = (Ok tt, set_justified_slots b1 s).
Proof. intros H. unfold push_justified_slot. mstep. by rewrite H. Qed.

Lemma bitlist_push {limit} (bl : Bitlist limit) v :
  bitlist_wf bl -> blist_length bl < limit ->
  exists b1, bitlist_set bl (blist_length bl) v = Ok b1 /\ bitlist_wf b1 /\ bits b1 = bits bl ++ [v] /\
    blist_length b1 = blist_length bl + 1.
Proof.
  intros Hwf Hl. destruct (bitlist_set_Ok bl (blist_length bl) v Hwf Hl) as (b1 & Hset & Hwf1 & Hb1).
  assert (Hlb : blist_length bl = len (bits bl)) by (unfold len; rewrite length_bits; lia).
  rewrite Hlb, list_set_grow_snoc in Hb1. exists b1. split_and!; [done|done|done|].
  apply (f_equal len) in Hb1. rewrite len_app in Hb1. unfold len in Hb1. rewrite !length_bits in Hb1.
  simpl in Hb1. lia.
Qed.

#[export] Instance header_valid_dec s block : Decision (header_valid s block).
Proof.
  refine (cast_if (decide (b_slot block = st_slot s /\ bh_slot (st_latest_block_header s) < b_slot block /\
    st_validators s <> [] /\ b_proposer_index block = st_slot s mod len (st_validators s) /\
    b_parent_root block = hash_tree_root (st_latest_block_header s) /\ b_slot block <= HISTORICAL_ROOTS_LIMIT)));
    abstract (first [destruct_and!; by split | by intros []; naive_solver]).
Defined.

(** Pushing [k] false bits. *)
Lemma push_empty_slots k s :
  bitlist_wf (st_justified_slots s) -> blist_length (st_justified_slots s) + N.of_nat k <= HISTORICAL_ROOTS_LIMIT ->
  exists bl, mrepeat k (let! self := mget in push_justified_slot (blist_length (st_justified_slots self)) false) s
             = (Ok tt, set_justified_slots bl s) /\
    bitlist_wf bl /\ bits bl = bits (st_justified_slots s) ++ replicate k false.
Proof.
  revert s. induction k as [|k IH]; intros s Hwf Hl.
  { exists (st_justified_slots s). rewrite app_nil_r. split_and!; [by destruct s|done|done]. }
  destruct (bitlist_push (st_justified_slots s) false Hwf) as (b1 & Hset & Hwf1 & Hb1 & Hl1); [lia|].
  cbn [mrepeat]. rewrite (mbind_Ok _ _ s tt (set_justified_slots b1 s)) by (mstep; by apply push_justified_slot_Ok).
  destruct (IH (set_justified_slots b1 s)) as (bl & Hm & Hwf2 & Hb2); [done|simpl; lia|].
  exists bl. split_and!; [exact Hm|done|]. rewrite Hb2. simpl. by rewrite Hb1, <-app_assoc.
Qed.

(** The committed state. *)
Definition header_post (s : State) (block : Block) (bl : Bitlist HISTORICAL_ROOTS_LIMIT) : State :=
  let h := st_latest_block_header s in
  let parent_root := hash_tree_root h in
  let genesis_root cp := if slot_is_zero (bh_slot h) then mkCheckpoint parent_root (cp_slot cp) else cp in
  mkState (st_config s) (st_slot s)
    (mkBlockHeader (b_slot block) (b_proposer_index block) (b_parent_root block) (bv_zero 32)
       (hash_tree_root (b_body block)))
    (genesis_root (st_latest_justified s)) (genesis_root (st_latest_finalized s))
    (st_historical_block_hashes s ++ parent_root :: replicate (N.to_nat (b_slot block - bh_slot h - 1)) (bv_zero 32))
    bl (st_validators s) (st_justifications_roots s) (st_justifications_validators s).

Lemma num_validators_eq s : state_wf s -> num_validators s = len (st_validators s).
Proof.
  intros Hwf. unfold num_validators. rewrite (proj2 (N.ltb_lt _ _)); [done|].
  eapply N.le_lt_trans; [apply Hwf|]. done.
Qed.

Lemma len_zero_nil {A} (l : list A) : len l = 0 <-> l = [].
Proof. destruct l; [done|]. rewrite len_cons. split; [lia|done]. Qed.

Lemma process_block_header_Ok s block :
  state_inv s -> header_valid s block ->
  exists bl, process_block_header block s = (Ok tt, header_post s block bl) /\ bitlist_wf bl /\
    bits bl = bits (st_justified_slots s) ++ slot_is_zero (bh_slot (st_latest_block_header s))
              :: replicate (N.to_nat (b_slot block - bh_slot (st_latest_block_header s) - 1)) false.
Proof.
  intros [Hwf Hh Hj Hs _ _ _ _ _] [Hslot Hnew Hvs Hprop Hpar Hbound].
  set (h := st_latest_block_header s) in *. set (k := b_slot block - bh_slot h - 1).
  assert (Hlim : HISTORICAL_ROOTS_LIMIT < u64_bound) by done.
  unfold process_block_header. mstep. fold h. rewrite (proj2 (N.eqb_eq _ _) Hslot). cbn [negb].
  rewrite (proj2 (N.leb_gt _ _)) by lia. rewrite num_validators_eq by done. unfold is_proposer.
  rewrite (proj2 (N.eqb_neq _ _)) by by rewrite len_zero_nil. cbn [omap_err]. mstep.
  rewrite <-Hprop, N.eqb_refl. cbn [negb]. rewrite bool_decide_eq_true_2 by done. cbn [negb].
  fold k. unfold usize_try_from. rewrite (proj2 (N.ltb_lt k _)) by lia. cbn [ok_or]. mstep.
  rewrite Hh. unfold checked_add. rewrite (proj2 (N.ltb_lt (bh_slot h + 1) _)) by lia. cbn [mbind option_bind].
  simpl (_ ≫= _). rewrite (proj2 (N.ltb_lt (bh_slot h + 1 + k) _)) by lia. cbn [ok_or]. mstep.
  rewrite (proj2 (N.ltb_ge HISTORICAL_ROOTS_LIMIT _)) by lia.
  destruct (bitlist_push (st_justified_slots s) (slot_is_zero (bh_slot h)) (swf_justified_slots _ Hwf))
    as (b1 & Hset & Hwf1 & Hb1 & Hl1); [lia|].
  set (c := if slot_is_zero (bh_slot h) then _ else _).
  set (sA := if slot_is_zero (bh_slot h)
             then set_finalized (mkCheckpoint (hash_tree_root h) (cp_slot (st_latest_finalized s)))
                    (set_justified (mkCheckpoint (hash_tree_root h) (cp_slot (st_latest_justified s))) s) else s).
  rewrite (mbind_Ok c _ s tt sA) by (unfold c, sA; by destruct (slot_is_zero (bh_slot h))). mstep.
  assert (HjA : st_justified_slots sA = st_justified_slots s) by (unfold sA; by destruct (slot_is_zero _)).
  erewrite mbind_Ok by (apply push_justified_slot_Ok; simpl; rewrite HjA; exact Hset). mstep.
  edestruct (push_empty_slots (N.to_nat k)) as (bl & Hm & Hwf2 & Hb2);
    [| |erewrite mbind_Ok by exact Hm]; [done|simpl; lia|].
  exists bl. split_and!; [|done|by rewrite Hb2; simpl; rewrite Hb1, <-app_assoc].
  unfold header_post. fold h. fold k. unfold mmodify, sA.
  destruct (slot_is_zero (bh_slot h)); cbn; by rewrite <-app_assoc.
Qed.

(** Every failing check returns before the first write. *)
Lemma process_block_header_Err s block :
  state_inv s -> ~ header_valid s block -> exists e, process_block_header block s = (Err e, s).
Proof.
  intros [Hwf Hh Hj Hs _ _ _ _ _] Hnv. unfold process_block_header. mstep.
  destruct (N.eqb_spec (b_slot block) (st_slot s)) as [Hslot|]; cbn [negb]; [|by eexists].
  destruct (N.leb_spec (b_slot block) (bh_slot (st_latest_block_header s))) as [|Hnew]; [by eexists|].
  rewrite num_validators_eq by done. unfold is_proposer.
  destruct (N.eqb_spec (len (st_validators s)) 0) as [|Hn]; cbn [omap_err]; mstep; [by eexists|].
  destruct (N.eqb_spec (st_slot s mod len (st_validators s)) (b_proposer_index block)) as [Hp|]; cbn [negb]; [|by eexists].
  case_bool_decide as Hpar; cbn [negb]; [|by eexists].
  set (k := b_slot block - bh_slot (st_latest_block_header s) - 1).
  unfold usize_try_from. destruct (N.ltb_spec k u64_bound); cbn [ok_or]; mstep; [|by eexists].
  rewrite Hh. unfold checked_add.
  destruct (N.ltb_spec (bh_slot (st_latest_block_header s) + 1) u64_bound); simpl (_ ≫= _); [|by eexists].
  destruct (N.ltb_spec (bh_slot (st_latest_block_header s) + 1 + k) u64_bound); cbn [ok_or]; mstep; [|by eexists].
  destruct (N.ltb_spec HISTORICAL_ROOTS_LIMIT (bh_slot (st_latest_block_header s) + 1 + k)); [by eexists|].
  destruct Hnv. split; [done|lia|by rewrite <-len_zero_nil|done|done|lia].
Qed.

Lemma on_chain_app history justified cp h' j' :
  on_chain history justified cp -> on_chain (history ++ h') (justified ++ j') cp.
Proof. intros [H1 H2]. split; by apply lookup_app_l_Some. Qed.

Lemma header_post_inv s block bl :
  state_inv s -> header_valid s block -> ssz_wf block -> bitlist_wf bl ->
  bits bl = bits (st_justified_slots s) ++ slot_is_zero (bh_slot (st_latest_block_header s))
            :: replicate (N.to_nat (b_slot block - bh_slot (st_latest_block_header s) - 1)) false ->
  state_inv (header_post s block bl).
Proof.
  intros [Hwf Hh Hj Hs Hc Ho Hr Hrh Ht] [Hslot Hnew Hvs Hprop Hpar Hbound] (Hbs & Hbp & _) Hwfb Hb.
  set (h := st_latest_block_header s) in *. set (k := b_slot block - bh_slot h - 1) in *.
  assert (Hhist : len (st_historical_block_hashes s ++ hash_tree_root h :: replicate (N.to_nat k) (bv_zero 32))
                  = b_slot block).
  { rewrite len_app, len_cons, len_replicate, Hh. lia. }
  assert (Hbl : blist_length bl = b_slot block).
  { apply (f_equal len) in Hb. rewrite len_app, len_cons, len_replicate in Hb. unfold len in Hb.
    rewrite !length_bits in Hb. lia. }
  unfold header_post. fold h. fold k. unfold slot_is_zero in *. destruct Hwf.
  split; cbn; try done; try lia.
  - split; cbn; try done; [by destruct (bh_slot h =? 0)|by destruct (bh_slot h =? 0)|by rewrite Hhist].
  - right. rewrite Hb. destruct (N.eqb_spec (bh_slot h) 0) as [Hz|Hz].
    + destruct Hc as [(_ & Hj0 & Hf0)|[[Hc _] _]].
      * rewrite Hz in Hh, Hj. apply len_zero_nil in Hh. rewrite Hh.
        assert (Hjn : bits (st_justified_slots s) = []) by (apply nil_length_inv; rewrite length_bits; lia).
        rewrite Hjn. unfold on_chain. cbn. by rewrite Hj0, Hf0.
      * rewrite Hz in Hh. apply len_zero_nil in Hh. rewrite Hh in Hc. by rewrite lookup_nil in Hc.
    + destruct Hc as [(Hz' & _)|[Hcj Hcf]]; [done|]. split; by apply on_chain_app.
  - by destruct (bh_slot h =? 0).
  - intros r Hin. apply elem_of_app. left. by apply Hrh.
Qed.

End Header.

(** ** Attestations *)

Record work_inv (s : State) (w : Working) : Prop := {
  wi_wf : bitlist_wf (w_justified_slots w);
  wi_len : blist_length (w_justified_slots w) = blist_length (st_justified_slots s);
  wi_mono : forall i, bits (st_justified_slots s) !! i = Some true -> bits (w_justified_slots w) !! i = Some true;
  wi_rows : rows_have_length (w_justifications w) (len (st_validators s));
  wi_keys : forall r v, j_table (w_justifications w) !! r = Some v -> r ∈ st_historical_block_hashes s;
  wi_checkpoints :
    (bh_slot (st_latest_block_header s) = 0 /\ w_latest_justified w = st_latest_justified s /\
     w_latest_finalized w = st_latest_finalized s) \/
    (on_chain (st_historical_block_hashes s) (bits (w_justified_slots w)) (w_latest_justified w) /\
     on_chain (st_historical_block_hashes s) (bits (w_justified_slots w)) (w_latest_finalized w));
  wi_order : cp_slot (w_latest_finalized w) <= cp_slot (w_latest_justified w);
  wi_final : cp_slot (st_latest_finalized s) <= cp_slot (w_latest_finalized w);
}.

(** The checks an attestation passed to be counted. *)
Record vote_accepted (s : State) (w : Working) (att : Attestation) : Prop := {
  va_source_lt : cp_slot (ad_source (att_data att)) < bh_slot (st_latest_block_header s);
  va_target_lt : cp_slot (ad_target (att_data att)) < bh_slot (st_latest_block_header s);
  va_validator : att_validator_id att < len (st_validators s);
  va_source : on_chain (st_historical_block_hashes s) (bits (w_justified_slots w)) (ad_source (att_data att));
  va_target_bit : bits (w_justified_slots w) !! N.to_nat (cp_slot (ad_target (att_data att))) = Some false;
  va_target_root :
    st_historical_block_hashes s !! N.to_nat (cp_slot (ad_target (att_data att))) = Some (cp_root (ad_target (att_data att)));
  va_order : cp_slot (ad_source (att_data att)) < cp_slot (ad_target (att_data att));
  va_justifiable :
    is_justifiable_after (cp_slot (ad_target (att_data att))) (cp_slot (w_latest_finalized w)) = true;
}.

Lemma bounded_slot_index_cases slot kind n :
  (slot < n /\ u64_ok slot /\ bounded_slot_index slot kind n = Ok slot) \/
  (exists e, bounded_slot_index slot kind n = Err e).
Proof.
  unfold bounded_slot_index, usize_try_from.
  destruct (N.ltb_spec slot u64_bound); [|right; by eexists]. destruct (N.ltb_spec slot n); [by left|right; by eexists].
Qed.

Lemma index_lookup {E A} (l : list A) i x : l !! N.to_nat i = Some x -> @index E A l i = Ok x.
Proof. intros H. unfold index. by rewrite H. Qed.

(** The filter decides [vote_accepted] and never panics. *)
Lemma acceptable_cases s w att :
  state_inv s -> work_inv s w ->
  cp_slot (ad_source (att_data att)) < bh_slot (st_latest_block_header s) ->
  cp_slot (ad_target (att_data att)) < bh_slot (st_latest_block_header s) ->
  att_validator_id att < len (st_validators s) ->
  let ok := acceptable (st_historical_block_hashes s) w (att_data att)
              (cp_slot (ad_source (att_data att))) (cp_slot (ad_target (att_data att))) in
  (ok = Ok true /\ vote_accepted s w att) \/ ok = Ok false.
Proof.
  intros Hinv Hw Hs Ht Hv ok. unfold ok, acceptable. rewrite !bitlist_get_spec by apply Hw. cbn [obind].
  case_bool_decide as Hb1; cbn [negb]; [|by right]. case_bool_decide as Hb2; cbn [negb]; [|by right].
  assert (Hl : forall i, i < bh_slot (st_latest_block_header s) ->
    exists r, st_historical_block_hashes s !! N.to_nat i = Some r).
  { intros i Hi. apply lookup_lt_is_Some_2. pose proof (inv_history _ Hinv) as Hh. unfold len in Hh. lia. }
  destruct (Hl _ Hs) as [rs Hrs], (Hl _ Ht) as [rt Hrt].
  rewrite (index_lookup _ _ rs Hrs). cbn [obind]. case_bool_decide as Hrs'; cbn [negb]; [|by right].
  rewrite (index_lookup _ _ rt Hrt). cbn [obind]. case_bool_decide as Hrt'; cbn [negb]; [|by right].
  destruct (N.ltb_spec (cp_slot (ad_source (att_data att))) (cp_slot (ad_target (att_data att)))) as [Hlt|]; [|by right].
  destruct (is_justifiable_after _ _) eqn:Hjust; [|by right]. cbn [andb]. left. split; [done|].
  split; try done; [split|]; congruence.
Qed.

(** The vote vector after recording the attestation's vote. *)
Definition recorded_votes (s : State) (w : Working) (att : Attestation) : list bool :=
  <[N.to_nat (att_validator_id att) := true]>
    (default (replicate (N.to_nat (len (st_validators s))) false)
       (j_table (w_justifications w) !! cp_root (ad_target (att_data att)))).

(** The working copies after a vote that was counted. *)
Definition tallied (s : State) (w : Working) (att : Attestation) : Working :=
  mkWorking
    (mkJustifications (<[cp_root (ad_target (att_data att)) := recorded_votes s w att]> (j_table (w_justifications w)))
       (len (st_validators s)))
    (w_justified_slots w) (w_latest_justified w) (w_latest_finalized w).

(** The working copies after a vote that reached the supermajority. *)
Definition justified (s : State) (w : Working) (att : Attestation) (bl : Bitlist HISTORICAL_ROOTS_LIMIT) : Working :=
  mkWorking
    (mkJustifications (delete (cp_root (ad_target (att_data att)))
         (<[cp_root (ad_target (att_data att)) := recorded_votes s w att]> (j_table (w_justifications w))))
       (len (st_validators s)))
    bl (ad_target (att_data att))
    (if no_intermediate (cp_slot (ad_source (att_data att))) (cp_slot (ad_target (att_data att)))
          (cp_slot (w_latest_finalized w))
     then ad_source (att_data att) else w_latest_finalized w).

Lemma recorded_votes_length s w att :
  work_inv s w -> len (recorded_votes s w att) = len (st_validators s).
Proof.
  intros Hw. unfold recorded_votes, len. rewrite length_insert.
  destruct (j_table (w_justifications w) !! _) as [v|] eqn:Hv; simpl.
  - apply (wi_rows _ _ Hw) in Hv. exact Hv.
  - rewrite length_replicate. lia.
Qed.

Lemma attestation_step_cases s w att :
  state_inv s -> work_inv s w ->
  (exists e, attestation_step s w att = Err e) \/
  attestation_step s w att = Ok w \/
  (vote_accepted s w att /\
   ((3 * count_true (recorded_votes s w att) < 2 * len (st_validators s) /\
     attestation_step s w att = Ok (tallied s w att)) \/
    (2 * len (st_validators s) <= 3 * count_true (recorded_votes s w att) /\
     exists bl, bitlist_wf bl /\
       bits bl = <[N.to_nat (cp_slot (ad_target (att_data att))) := true]> (bits (w_justified_slots w)) /\
       attestation_step s w att = Ok (justified s w att bl)))).
Proof.
  intros Hinv Hw. unfold attestation_step. rewrite (inv_history _ Hinv), (inv_justified_slots _ Hinv).
  destruct (bounded_slot_index_cases (cp_slot (ad_source (att_data att))) AttSource (bh_slot (st_latest_block_header s)))
    as [(Hs & _ & ->)|[e ->]]; [|left; by eexists]. cbn [obind].
  destruct (bounded_slot_index_cases (cp_slot (ad_target (att_data att))) AttTarget (bh_slot (st_latest_block_header s)))
    as [(Ht & _ & ->)|[e ->]]; [|left; by eexists]. cbn [obind].
  unfold usize_try_from. destruct (N.ltb_spec (att_validator_id att) u64_bound); [|left; by eexists].
  destruct (N.ltb_spec (att_validator_id att) (len (st_validators s))) as [Hv|]; [|left; by eexists]. cbn [obind].
  destruct (acceptable_cases s w att Hinv Hw Hs Ht Hv) as [[-> Hacc]| ->]; [|right; by left]. cbn [obind negb].
  right. right. split; [done|]. pose proof (wi_rows _ _ Hw) as [Hn Hrows]. rewrite Hn.
  set (votes := default _ _). assert (Hvl : len votes = len (st_validators s)).
  { unfold votes. destruct (j_table (w_justifications w) !! _) as [v|] eqn:Hvv; simpl; [by eapply Hrows|].
    rewrite len_replicate. lia. }
  unfold index_set. rewrite (proj2 (N.ltb_lt _ _)) by lia. cbn [obind].
  change (<[N.to_nat (att_validator_id att) := true]> votes) with (recorded_votes s w att).
  destruct (N.ltb_spec (3 * count_true (recorded_votes s w att)) (2 * len (st_validators s))); [by left|right].
  split; [done|]. assert (Hlim : cp_slot (ad_target (att_data att)) < HISTORICAL_ROOTS_LIMIT).
  { pose proof (wf_limit _ (swf_justified_slots _ (inv_wf _ Hinv))) as Hlim.
    rewrite (inv_justified_slots _ Hinv) in Hlim. lia. }
  destruct (bitlist_set_Ok (w_justified_slots w) _ true (wi_wf _ _ Hw) Hlim) as (bl & -> & Hwf & Hb). cbn [omap_err obind].
  exists bl. split_and!; [done| |done]. rewrite Hb. apply list_set_grow_in_range.
  apply va_target_bit, lookup_lt_Some in Hacc. done.
Qed.

Lemma is_justifiable_after_ge self finalized : is_justifiable_after self finalized = true -> finalized <= self.
Proof. unfold is_justifiable_after. by destruct (N.ltb_spec self finalized). Qed.

Lemma is_justifiable_after_refl s : is_justifiable_after s s = true.
Proof. rewrite <-(N.add_0_r s) at 1. by apply is_justifiable_after_near. Qed.

(** Finality does not move back: a source below the finalized slot leaves the
    finalized slot itself as a justifiable slot in between. *)
Lemma no_intermediate_final s w att :
  work_inv s w -> vote_accepted s w att ->
  no_intermediate (cp_slot (ad_source (att_data att))) (cp_slot (ad_target (att_data att)))
    (cp_slot (w_latest_finalized w)) = true ->
  cp_slot (w_latest_finalized w) <= cp_slot (ad_source (att_data att)).
Proof.
  intros Hw Hacc Hno. pose proof (is_justifiable_after_ge _ _ (va_justifiable _ _ _ Hacc)) as Hge.
  destruct (wi_checkpoints _ _ Hw) as [[Hz _]|[_ [_ Hfin]]].
  { pose proof (va_target_lt _ _ _ Hacc). lia. }
  destruct (N.le_gt_cases (cp_slot (w_latest_finalized w)) (cp_slot (ad_source (att_data att)))) as [|Hlt]; [done|].
  assert (Hne : cp_slot (w_latest_finalized w) <> cp_slot (ad_target (att_data att))).
  { intros He. rewrite He, (va_target_bit _ _ _ Hacc) in Hfin. done. }
  unfold no_intermediate in Hno. rewrite forallb_forall in Hno.
  specialize (Hno (cp_slot (w_latest_finalized w))). rewrite is_justifiable_after_refl in Hno.
  discriminate Hno. apply list_elem_of_In, elem_of_range. lia.
Qed.

Lemma on_chain_insert history (bs : list bool) t cp :
  on_chain history bs cp -> on_chain history (<[t := true]> bs) cp.
Proof.
  intros [H1 H2]. split; [done|]. destruct (decide (t = N.to_nat (cp_slot cp))) as [->|Hne].
  - apply list_lookup_insert_eq. by eapply lookup_lt_Some.
  - by rewrite list_lookup_insert_ne.
Qed.

Lemma tallied_inv s w att : work_inv s w -> vote_accepted s w att -> work_inv s (tallied s w att).
Proof.
  intros Hw Hacc. pose proof (recorded_votes_length s w att Hw) as Hl.
  destruct Hw as [Hwf Hlen Hmono [Hn Hrows] Hkeys Hcps Hord Hfin]. split; try done.
  - split; [done|]. simpl. intros r v Hv. apply lookup_insert_Some in Hv as [[_ <-]|[_ Hv]]; [done|]. by eapply Hrows.
  - simpl. intros r v Hv. apply lookup_insert_Some in Hv as [[<- _]|[_ Hv]]; [|by eapply Hkeys].
    eapply list_elem_of_lookup_2, Hacc.
Qed.

Lemma justified_inv s w att bl :
  work_inv s w -> vote_accepted s w att -> bitlist_wf bl ->
  bits bl = <[N.to_nat (cp_slot (ad_target (att_data att))) := true]> (bits (w_justified_slots w)) ->
  work_inv s (justified s w att bl) /\
  cp_slot (w_latest_finalized w) <= cp_slot (w_latest_finalized (justified s w att bl)).
Proof.
  intros Hw Hacc Hwfb Hb.
  assert (Hfinal : cp_slot (w_latest_finalized w) <= cp_slot (w_latest_finalized (justified s w att bl))).
  { simpl. destruct (no_intermediate _ _ _) eqn:Hno; [|done]. by eapply no_intermediate_final. }
  split; [|done]. pose proof (is_justifiable_after_ge _ _ (va_justifiable _ _ _ Hacc)) as Hge.
  pose proof (tallied_inv s w att Hw Hacc) as [_ _ _ [_ Hrows] Hkeys _ _ _]. simpl in Hrows, Hkeys.
  destruct Hw as [Hwf Hlen Hmono _ _ Hcps Hord Hfin]. split; cbn [justified w_justified_slots w_justifications
    w_latest_justified w_latest_finalized j_table].
  - done.
  - apply (f_equal length) in Hb. rewrite length_insert, !length_bits in Hb. lia.
  - intros i Hi. rewrite Hb. apply Hmono in Hi.
    destruct (decide (N.to_nat (cp_slot (ad_target (att_data att))) = i)) as [<-|Hne];
      [by rewrite (va_target_bit _ _ _ Hacc) in Hi|by rewrite list_lookup_insert_ne].
  - split; [done|]. simpl. intros r v Hv. apply lookup_delete_Some in Hv as [_ Hv]. by eapply Hrows.
  - intros r v Hv. apply lookup_delete_Some in Hv as [_ Hv]. by eapply Hkeys.
  - right. rewrite Hb. split.
    + split; [apply Hacc|]. apply list_lookup_insert_eq. eapply lookup_lt_Some, Hacc.
    + destruct (no_intermediate _ _ _); apply on_chain_insert; [apply Hacc|].
      destruct Hcps as [[Hz _]|[_ Hf]]; [|done]. pose proof (va_target_lt _ _ _ Hacc). lia.
  - destruct (no_intermediate _ _ _); [|lia]. pose proof (va_order _ _ _ Hacc). lia.
  - etrans; [exact Hfin|exact Hfinal].
Qed.

Lemma attestation_step_inv s w att w' :
  state_inv s -> work_inv s w -> attestation_step s w att = Ok w' ->
  work_inv s w' /\ cp_slot (w_latest_finalized w) <= cp_slot (w_latest_finalized w').
Proof.
  intros Hs Hw Hstep.
  destruct (attestation_step_cases s w att Hs Hw) as [[e He]|[He|[Hacc [[_ He]|(_ & bl & Hwf & Hb & He)]]]];
    rewrite He in Hstep; simplify_eq; [done| |].
  - split; [by apply tallied_inv|done].
  - by apply justified_inv.
Qed.

Lemma attestations_loop_inv s atts w w' :
  state_inv s -> work_inv s w -> ofold (attestation_step s) atts w = Ok w' -> work_inv s w'.
Proof.
  intros Hs Hw. revert w Hw. induction atts as [|att atts IH]; intros w Hw Hf; cbn [ofold] in Hf; inv_ok; [done|].
  apply (IH a); [|done]. by eapply attestation_step_inv.
Qed.

Lemma attestations_loop_returned s atts w :
  state_inv s -> work_inv s w -> returned (ofold (attestation_step s) atts w).
Proof.
  intros Hs. revert w. induction atts as [|att atts IH]; intros w Hw; [done|]. cbn [ofold].
  destruct (attestation_step s w att) as [w'|e| |] eqn:Hstep; [|done|..].
  - cbn [obind]. apply IH. by eapply attestation_step_inv.
  - destruct (attestation_step_cases s w att Hs Hw) as [[e He]|[He|[_ [[_ He]|(_ & bl & _ & _ & He)]]]];
      by rewrite He in Hstep.
  - destruct (attestation_step_cases s w att Hs Hw) as [[e He]|[He|[_ [[_ He]|(_ & bl & _ & _ & He)]]]];
      by rewrite He in Hstep.
Qed.

(** The working copies a call starts from. *)
Lemma initial_working s :
  state_inv s ->
  exists j, justifications_try_from s = Ok j /\
    work_inv s (mkWorking j (st_justified_slots s) (st_latest_justified s) (st_latest_finalized s)).
Proof.
  intros Hs. pose proof Hs as [Hwf Hh Hj Hsl Hc Ho Hnd Hrh Ht].
  assert (Hmk : forall t n, rows_have_length (mkJustifications t n) (len (st_validators s)) ->
    (forall r v, t !! r = Some v -> r ∈ st_justifications_roots s) ->
    work_inv s (mkWorking (mkJustifications t n) (st_justified_slots s) (st_latest_justified s) (st_latest_finalized s))).
  { intros t n Hrows Hk. split; try done; simpl.
    - by apply Hwf.
    - intros r v Hv. by eapply Hrh, Hk.
    - destruct Hc as [(Hz & _ & _)|Hc]; [by left|by right]. }
  destruct (decide (len (st_validators s) = 0)) as [Hz|Hn].
  - unfold justifications_try_from. rewrite Hz. simpl. eexists. split; [done|].
    apply Hmk; [split; [by rewrite Hz|]|]; simpl; intros r v Hv; by rewrite lookup_empty in Hv.
  - destruct (justifications_try_from_spec s) as (t & -> & Hin & Hout); [by apply Hwf|done|done|done|].
    eexists. split; [done|]. apply Hmk; [by apply hydrated_rows|].
    intros r v Hv. destruct (decide (r ∈ st_justifications_roots s)); [done|]. by rewrite Hout in Hv.
Qed.

Lemma work_table_size s w : work_inv s w -> N.of_nat (size (j_table (w_justifications w))) <= len (st_historical_block_hashes s).
Proof.
  intros Hw. unfold len. rewrite <-length_btree_iter, <-(length_fmap fst).
  enough (length (btree_iter (j_table (w_justifications w))).*1 <= length (st_historical_block_hashes s))%nat by lia.
  apply NoDup_incl_length_list; [apply btree_keys_NoDup|].
  intros r ([r' v] & -> & Hv)%list_elem_of_fmap. apply elem_of_btree_iter in Hv. by eapply Hw.
Qed.

Lemma work_table_bits s w :
  state_inv s -> work_inv s w ->
  N.of_nat (size (j_table (w_justifications w))) * len (st_validators s) <= JUSTIFICATIONS_VALIDATORS_LIMIT.
Proof.
  intros Hs Hw. pose proof (work_table_size s w Hw) as Hsz. destruct (inv_wf _ Hs).
  unfold JUSTIFICATIONS_VALIDATORS_LIMIT. apply N.mul_le_mono; [|done]. lia.
Qed.

(** The committed state. *)
Definition attestations_post (s : State) (w : Working) (roots : list Bytes32)
    (flat : Bitlist JUSTIFICATIONS_VALIDATORS_LIMIT) : State :=
  mkState (st_config s) (st_slot s) (st_latest_block_header s) (w_latest_justified w) (w_latest_finalized w)
    (st_historical_block_hashes s) (w_justified_slots w) (st_validators s) roots flat.

Lemma attestations_post_inv s w flat :
  state_inv s -> work_inv s w -> bitlist_wf flat ->
  blist_length flat = N.of_nat (size (j_table (w_justifications w))) * len (st_validators s) ->
  state_inv (attestations_post s w (btree_iter (j_table (w_justifications w))).*1 flat).
Proof.
  intros Hs Hw Hwff Hl. pose proof (work_table_size s w Hw) as Hsz.
  assert (Hk : len (btree_iter (j_table (w_justifications w))).*1 = N.of_nat (size (j_table (w_justifications w)))).
  { unfold len. by rewrite length_fmap, length_btree_iter. }
  assert (Hlt : forall cp, on_chain (st_historical_block_hashes s) (bits (w_justified_slots w)) cp -> ssz_wf cp).
  { intros cp [Hc _]. apply lookup_lt_Some in Hc. pose proof (swf_history _ (inv_wf _ Hs)) as Hh.
    unfold ssz_wf, Checkpoint_SszWf, u64_ok, u64_bound. unfold len in Hh.
    change HISTORICAL_ROOTS_LIMIT with 262144 in Hh. lia. }
  destruct Hs as [Hwf Hh Hj Hsl Hc Ho Hnd Hrh Ht], Hw as [Hwfw Hlen Hmono [Hn Hrows] Hkeys Hcps Hord Hfin].
  split; cbn; try done.
  - destruct Hwf. split; cbn; try done; [..|by rewrite Hk; lia].
    + destruct Hcps as [(_ & -> & _)|[Hc1 _]]; [done|by apply Hlt].
    + destruct Hcps as [(_ & _ & ->)|[_ Hc2]]; [done|by apply Hlt].
  - by rewrite Hlen.
  - destruct Hcps as [(Hz & -> & ->)|Hc']; [|by right]. left. destruct Hc as [Hc|[[Hc _] _]]; [done|].
    apply lookup_lt_Some in Hc. unfold len in Hh. lia.
  - apply btree_keys_NoDup.
  - intros r ([r' v] & -> & Hv)%list_elem_of_fmap. apply elem_of_btree_iter in Hv. by eapply Hkeys.
  - by rewrite Hk.
Qed.

Lemma process_attestations_cases s atts :
  state_inv s ->
  (exists e, process_attestations atts s = (Err e, s)) \/
  (exists j w flat,
     justifications_try_from s = Ok j /\
     ofold (attestation_step s) atts
       (mkWorking j (st_justified_slots s) (st_latest_justified s) (st_latest_finalized s)) = Ok w /\
     work_inv s w /\
     process_attestations atts s
     = (Ok tt, attestations_post s w (btree_iter (j_table (w_justifications w))).*1 flat) /\
     bits flat = concat (btree_iter (j_table (w_justifications w))).*2 /\
     state_inv (attestations_post s w (btree_iter (j_table (w_justifications w))).*1 flat)).
Proof.
  intros Hs. unfold process_attestations. mstep.
  destruct (initial_working s Hs) as (j & Hj & Hw0). rewrite Hj. mstep.
  pose proof (attestations_loop_returned s atts _ Hs Hw0) as Hret.
  destruct (ofold (attestation_step s) atts _) as [w|e| |] eqn:Hf; [|mstep; left; by eexists|done|done].
  mstep. right. pose proof (attestations_loop_inv s atts _ w Hs Hw0 Hf) as Hw.
  set (s' := set_finalized _ _).
  destruct (write_back_spec (w_justifications w) (len (st_validators s)) s') as (flat & Hwb & Hwf & Hb & Hl);
    [apply Hw|by apply work_table_bits|].
  exists j, w, flat. split_and!; [done|done|done|done|done|]. by apply attestations_post_inv.
Qed.

(** ** The whole transition *)

Section Transition.
Context {sha : Sha256}.

Lemma state_transition_cases s sb v :
  state_inv s -> ssz_wf (bwa_block (sb_message sb)) ->
  let block := bwa_block (sb_message sb) in
  (exists e, state_transition sb v s = (Err e, s)) \/
  (exists root bl j w flat,
     let s1 := at_slot s (b_slot block) root in
     let s2 := header_post s1 block bl in
     let s3 := attestations_post s2 w (btree_iter (j_table (w_justifications w))).*1 flat in
     st_slot s < b_slot block /\ header_valid s1 block /\ state_inv s2 /\
     justifications_try_from s2 = Ok j /\
     ofold (attestation_step s2) (bb_attestations (b_body block))
       (mkWorking j (st_justified_slots s2) (st_latest_justified s2) (st_latest_finalized s2)) = Ok w /\
     work_inv s2 w /\ state_inv s3 /\ (v = true -> hash_tree_root s3 = b_state_root block) /\
     state_transition sb v s = (Ok tt, s3)).
Proof.
  intros Hs Hb block. unfold state_transition. fold block.
  destruct (process_slots_general s (b_slot block)) as [Hfut Hpast]; [apply Hb|].
  destruct (N.le_gt_cases (b_slot block) (st_slot s)) as [Hle|Hlt].
  { erewrite mbind_Err by by apply Hpast. left. by eexists. }
  destruct (Hfut Hlt) as [root Hslots]. erewrite mbind_Ok by exact Hslots.
  pose proof (at_slot_inv s (b_slot block) root Hs (proj1 Hb) (N.lt_le_incl _ _ Hlt)) as Hs1.
  set (s1 := at_slot s (b_slot block) root) in *.
  destruct (decide (header_valid s1 block)) as [Hv|Hnv].
  2:{ destruct (process_block_header_Err s1 block Hs1 Hnv) as [e He].
      erewrite mbind_Err by exact He. left. by eexists. }
  destruct (process_block_header_Ok s1 block Hs1 Hv) as (bl & Hh & Hwf & Hbits). erewrite mbind_Ok by exact Hh.
  pose proof (header_post_inv s1 block bl Hs1 Hv Hb Hwf Hbits) as Hs2.
  destruct (process_attestations_cases _ (bb_attestations (b_body block)) Hs2)
    as [[e ->]|(j & w & flat & Hj & Hloop & Hw & -> & _ & Hs3)]; [left; by eexists|].
  set (s3 := attestations_post _ _ _ _) in *. destruct v.
  - case_bool_decide as Hroot; cbn [negb]; [|left; by eexists].
    right. exists root, bl, j, w, flat. by split_and!.
  - right. exists root, bl, j, w, flat. by split_and!.
Qed.

End Transition.

(** ** Justification needs a supermajority *)

Section Supermajority.
Context (s : State) (j0 : Justifications).

(** Validator [v] voted for the block [root]: in the tally the state carried, or
    in one of the attestations. *)
Definition voted_for (atts : list Attestation) (root : Bytes32) (v : nat) : Prop :=
  (exists row, j_table j0 !! root = Some row /\ row !! v = Some true) \/
  (exists att, att ∈ atts /\ N.to_nat (att_validator_id att) = v /\ cp_root (ad_target (att_data att)) = root).

(** Two thirds of the validators voted for the block at slot [t]. *)
Definition supermajority (atts : list Attestation) (t : nat) : Prop :=
  exists root votes, st_historical_block_hashes s !! t = Some root /\
    len votes = len (st_validators s) /\ 2 * len (st_validators s) <= 3 * count_true votes /\
    forall v, votes !! v = Some true -> voted_for atts root v.

Lemma voted_for_mono atts atts' root v : atts ⊆ atts' -> voted_for atts root v -> voted_for atts' root v.
Proof. intros Hsub [H|(att & Hin & H)]; [by left|right]. exists att. split; [by apply Hsub|done]. Qed.

Lemma supermajority_mono atts atts' t : atts ⊆ atts' -> supermajority atts t -> supermajority atts' t.
Proof.
  intros Hsub (root & votes & Hr & Hl & Hc & Hv). exists root, votes. split_and!; [done..|].
  intros v Hvv. by eapply voted_for_mono, Hv.
Qed.

(** What the working copies record, after the attestations [seen]. *)
Record tally_sound (seen : list Attestation) (w : Working) : Prop := {
  ts_votes : forall r votes v, j_table (w_justifications w) !! r = Some votes -> votes !! v = Some true ->
    voted_for seen r v;
  ts_slots : forall t, bits (w_justified_slots w) !! t = Some true ->
    bits (st_justified_slots s) !! t = Some true \/ supermajority seen t;
}.

Lemma recorded_votes_sound seen w att v :
  tally_sound seen w -> recorded_votes s w att !! v = Some true ->
  voted_for (seen ++ [att]) (cp_root (ad_target (att_data att))) v.
Proof.
  intros [Hv _] Hr. unfold recorded_votes in Hr.
  destruct (decide (N.to_nat (att_validator_id att) = v)) as [<-|Hne].
  { right. exists att. split_and!; [set_solver|done|done]. }
  rewrite list_lookup_insert_ne in Hr by done.
  destruct (j_table (w_justifications w) !! _) as [row|] eqn:Hrow; simpl in Hr.
  - eapply voted_for_mono, Hv; [|done|done]. set_solver.
  - apply lookup_replicate in Hr as [? _]. done.
Qed.

Lemma tally_sound_step seen w att w' :
  state_inv s -> work_inv s w -> tally_sound seen w -> attestation_step s w att = Ok w' ->
  tally_sound (seen ++ [att]) w'.
Proof.
  intros Hs Hw Hts Hstep.
  assert (Hsub : seen ⊆ seen ++ [att]) by set_solver.
  assert (Hrow : forall r votes v,
    <[cp_root (ad_target (att_data att)) := recorded_votes s w att]> (j_table (w_justifications w)) !! r = Some votes ->
    votes !! v = Some true -> voted_for (seen ++ [att]) r v).
  { intros r votes v Hr Hv. apply lookup_insert_Some in Hr as [[<- <-]|[_ Hr]].
    - by apply (recorded_votes_sound seen w).
    - eapply voted_for_mono; [exact Hsub|]. by eapply ts_votes. }
  assert (Hold : forall t, bits (w_justified_slots w) !! t = Some true ->
    bits (st_justified_slots s) !! t = Some true \/ supermajority (seen ++ [att]) t).
  { intros t Ht. destruct (ts_slots _ _ Hts t Ht) as [|Hsm]; [by left|right]. by eapply supermajority_mono. }
  destruct (attestation_step_cases s w att Hs Hw) as [[e He]|[He|[Hacc [[_ He]|(Hmaj & bl & _ & Hb & He)]]]];
    rewrite He in Hstep; simplify_eq.
  - split; [|done]. intros r votes v Hr Hv. eapply voted_for_mono; [exact Hsub|]. by eapply ts_votes.
  - by split.
  - split.
    + simpl. intros r votes v Hr Hv. apply lookup_delete_Some in Hr as [_ Hr]. by eapply Hrow.
    + simpl. intros t Ht. rewrite Hb in Ht.
      destruct (decide (N.to_nat (cp_slot (ad_target (att_data att))) = t)) as [<-|Hne].
      * right. exists (cp_root (ad_target (att_data att))), (recorded_votes s w att).
        split_and!; [apply Hacc|by apply recorded_votes_length|done|].
        intros v Hv. by apply (recorded_votes_sound seen w).
      * rewrite list_lookup_insert_ne in Ht by done. by apply Hold.
Qed.

Lemma tally_sound_loop seen atts w w' :
  state_inv s -> work_inv s w -> tally_sound seen w -> ofold (attestation_step s) atts w = Ok w' ->
  tally_sound (seen ++ atts) w'.
Proof.
  intros Hs. revert seen w. induction atts as [|att atts IH]; intros seen w Hw Hts Hf; cbn [ofold] in Hf.
  - simplify_eq. by rewrite app_nil_r.
  - inv_ok. change (att :: atts) with ([att] ++ atts). rewrite app_assoc. apply (IH _ a); [|by eapply tally_sound_step|done].
    by eapply attestation_step_inv.
Qed.

End Supermajority.

(** ** Correctness *)

Section StfTheorems.
Context {sha : Sha256}.

(** [process_slots] moves the state to the target slot and nowhere else: a
    target in the future is reached, the header caches the root of the state
    it was applied to when it had none, and nothing else changes; any other
    target is refused with the state untouched. *)
Theorem process_slots_spec s target :
  u64_ok target -> hash_tree_root s <> bv_zero 32 ->
  if st_slot s <? target
  then process_slots target s
       = (Ok tt, set_slot target
            (if bool_decide (bh_state_root (st_latest_block_header s) = bv_zero 32)
             then set_header (set_header_state_root (hash_tree_root s) (st_latest_block_header s)) s else s))
  else process_slots target s = (Err (TargetSlotNotInFuture (st_slot s) target), s).
Proof.
  intros Ht Hr. destruct (process_slots_cases s target Ht Hr) as [Hf Hp].
  destruct (N.ltb_spec (st_slot s) target); [by apply Hf|by apply Hp].
Qed.

(** [process_block_header] accepts exactly the valid headers, and an error
    leaves the state as it was. On success the parent root and one zero root
    per skipped slot are appended to the history, the justified bits grow by
    the same number, the header is the block's with its state root blank, and
    the invariant holds again. *)
Theorem process_block_header_spec s block :
  state_inv s -> ssz_wf block ->
  (header_valid s block ->
     exists bl, process_block_header block s = (Ok tt, header_post s block bl) /\
       bits bl = bits (st_justified_slots s) ++ slot_is_zero (bh_slot (st_latest_block_header s))
                 :: replicate (N.to_nat (b_slot block - bh_slot (st_latest_block_header s) - 1)) false /\
       state_inv (header_post s block bl)) /\
  (~ header_valid s block -> exists e, process_block_header block s = (Err e, s)).
Proof.
  intros Hs Hb. split.
  - intros Hv. destruct (process_block_header_Ok s block Hs Hv) as (bl & He & Hwf & Hbits).
    exists bl. split_and!; [done|done|]. by apply header_post_inv.
  - by apply process_block_header_Err.
Qed.

(** C32. [state_transition] on a state of the chain returns, without a panic, and
    an error leaves the state as it was. On success the state is at the
    block's slot, later than before, the invariant holds, the validators and
    the configuration are the same, the history only grew, and the finalized
    slot did not move back. *)
Theorem state_transition_spec s sb validate_state_root :
  state_inv s -> ssz_wf (bwa_block (sb_message sb)) ->
  match state_transition sb validate_state_root s with
  | (Ok _, s') =>
      state_inv s' /\ st_slot s < st_slot s' /\ st_slot s' = b_slot (bwa_block (sb_message sb)) /\
      bh_slot (st_latest_block_header s') = st_slot s' /\
      st_validators s' = st_validators s /\ st_config s' = st_config s /\
      st_historical_block_hashes s `prefix_of` st_historical_block_hashes s' /\
      cp_slot (st_latest_finalized s) <= cp_slot (st_latest_finalized s') /\
      (validate_state_root = true -> hash_tree_root s' = b_state_root (bwa_block (sb_message sb)))
  | (Err _, s') => s' = s
  | (Panic, _) | (Diverge, _) => False
  end.
Proof.
  intros Hs Hb. destruct (state_transition_cases s sb validate_state_root Hs Hb)
    as [[e ->]|(root & bl & j & w & flat & Hlt & Hv & Hs2 & Hj & Hloop & Hw & Hs3 & Hroot & ->)]; [done|].
  split_and!; [done|done|done|done|done|done| | |done].
  - simpl. by eexists.
  - etrans; [|apply (wi_final _ _ Hw)]. simpl. by destruct (slot_is_zero _).
Qed.

(** C2. No slot becomes justified without two thirds of the validators: after a
    successful [process_attestations], a justified slot was justified before,
    or there is a vote vector with one entry per validator, at least two
    thirds of it set, in which every vote is for the block root at that slot,
    either from the tally the state carried or from an attestation of the
    batch. *)
Theorem justified_by_supermajority s atts s' t :
  state_inv s -> process_attestations atts s = (Ok tt, s') ->
  bits (st_justified_slots s') !! t = Some true ->
  bits (st_justified_slots s) !! t = Some true \/
  exists j, justifications_try_from s = Ok j /\ supermajority s j atts t.
Proof.
  intros Hs Hp Ht. destruct (process_attestations_cases s atts Hs)
    as [[e He]|(j & w & flat & Hj & Hloop & Hw & He & _ & _)]; rewrite He in Hp; simplify_eq. simpl in Ht.
  destruct (initial_working s Hs) as (j' & Hj' & Hw0). rewrite Hj in Hj'. simplify_eq.
  assert (Hts : tally_sound s j' ([] ++ atts) w).
  { eapply (tally_sound_loop s j' [] atts); [done|exact Hw0| |done]. split; simpl; [|by left].
    intros r votes v Hr Hv. left. by exists votes. }
  destruct (ts_slots _ _ _ _ Hts t Ht) as [|Hsm]; [by left|right]. by exists j'.
Qed.

(** One block applied to the state. *)
Inductive chain_step : State -> State -> Prop :=
| chain_block s sb validate_state_root s' :
    ssz_wf (bwa_block (sb_message sb)) ->
    state_transition sb validate_state_root s = (Ok tt, s') ->
    chain_step s s'.

Lemma chain_step_inv s s' :
  chain_step s s' -> state_inv s ->
  state_inv s' /\ cp_slot (st_latest_finalized s) <= cp_slot (st_latest_finalized s') /\
  st_historical_block_hashes s `prefix_of` st_historical_block_hashes s'.
Proof.
  intros [s0 sb v s1 Hb Hst] Hs. destruct (state_transition_cases s0 sb v Hs Hb)
    as [[e He]|(root & bl & j & w & flat & Hlt & Hv & Hs2 & Hj & Hloop & Hw & Hs3 & Hroot & He)];
    rewrite He in Hst; simplify_eq.
  split_and!; [done| |by eexists].
  etrans; [|apply (wi_final _ _ Hw)]. simpl. by destruct (slot_is_zero _).
Qed.

(** C11. Along every chain of blocks from genesis the invariant holds, and between
    any two states of one chain the finalized slot never moves back and the
    earlier history is a prefix of the later one. *)
Theorem chain_finality_monotone t vs s s' :
  u64_ok t -> Forall ssz_wf vs -> len vs <= VALIDATOR_REGISTRY_LIMIT ->
  rtc chain_step (genesis_state t vs) s -> rtc chain_step s s' ->
  state_inv s' /\ cp_slot (st_latest_finalized s) <= cp_slot (st_latest_finalized s') /\
  st_historical_block_hashes s `prefix_of` st_historical_block_hashes s'.
Proof.
  intros Ht Hvs Hn Hreach Hchain.
  assert (Hs : state_inv s).
  { pose proof (genesis_state_inv t vs Ht Hvs Hn) as Hg. revert Hg. clear -Hreach.
    induction Hreach as [|x y z Hstep _ IH]; [done|]. intros Hx. by apply IH, (chain_step_inv x y). }
  induction Hchain as [x|x y z Hstep Hrest IH]; [done|].
  destruct (chain_step_inv x y Hstep Hs) as (Hy & Hfy & Hhy).
  destruct IH as (Hz & Hfz & Hhz); [by eapply rtc_r|done|].
  split_and!; [done|lia|by etrans].
Qed.

End StfTheorems.

(** ** Concrete runs *)

Definition example_root (k : N) : Bytes32 := scalar_chunk (k + 1).
Definition example_validators : list Validator :=
  [mkValidator (bv_zero 52) 0; mkValidator (bv_zero 52) 1; mkValidator (bv_zero 52) 2].

(** Three validators, a chain of blocks at slots 0 and 1, the block of slot 2
    just applied, and slot 0 justified. *)
Definition example_state (history : list Bytes32) (js : list u8) : State :=
  mkState (mkProtocolConfig 0) (len history)
    (mkBlockHeader (len history) 0 (bv_zero 32) (bv_zero 32) (bv_zero 32))
    (mkCheckpoint (example_root 0) 0) (mkCheckpoint (example_root 0) 0)
    history (mkBitlist js (len history)) example_validators [] (bitlist_new _).

Definition example_vote (validator : N) (source target : Checkpoint) : Attestation :=
  mkAttestation validator (mkAttestationData (cp_slot target) target target source).

Lemma example_state_inv history js :
  head history = Some (example_root 0) -> bitlist_wf (mkBitlist (limit:=HISTORICAL_ROOTS_LIMIT) js (len history)) ->
  bits (mkBitlist (limit:=HISTORICAL_ROOTS_LIMIT) js (len history)) !! 0%nat = Some true ->
  len history <= HISTORICAL_ROOTS_LIMIT -> state_inv (example_state history js).
Proof.
  intros Hh Hwf Hb Hl. assert (Hu : u64_ok (len history)).
  { unfold u64_ok. eapply N.le_lt_trans; [exact Hl|]. done. }
  split; cbn; try done.
  - split; cbn; try done. by repeat constructor.
  - right. by rewrite head_lookup in Hh.
  - constructor.
  - apply list_subseteq_nil.
Qed.

Lemma example_js_wf : bitlist_wf (mkBitlist (limit:=HISTORICAL_ROOTS_LIMIT) [x01] 2).
Proof. by apply (bitlist_encode_decode [x05]). Qed.

Definition example_two : State := example_state [example_root 0; example_root 1] [x01].

Lemma example_two_inv : state_inv example_two.
Proof. apply example_state_inv; [done|apply example_js_wf|done|done]. Qed.

Definition example_attestations : list Attestation :=
  [example_vote 0 (mkCheckpoint (example_root 0) 0) (mkCheckpoint (example_root 1) 1);
   example_vote 1 (mkCheckpoint (example_root 0) 0) (mkCheckpoint (example_root 1) 1)].

Lemma justified_by_supermajority_witness :
  bits (st_justified_slots (process_attestations example_attestations example_two).2) !! 1%nat = Some true /\
  exists j, justifications_try_from example_two = Ok j /\ supermajority example_two j example_attestations 1.
Proof.
  assert (Hb : bits (st_justified_slots (process_attestations example_attestations example_two).2) !! 1%nat = Some true)
    by (by vm_compute).
  split; [done|].
  destruct (justified_by_supermajority example_two example_attestations
              (process_attestations example_attestations example_two).2 1 example_two_inv) as [H|H]; [|done| |done].
  - assert (Hr : (process_attestations example_attestations example_two).1 = Ok tt) by (by vm_compute).
    destruct (process_attestations _ _) as [r s']. simpl in *. by subst r.
  - vm_compute in H. discriminate H.
Defined.


Lemma process_slots_spec_witness :
  (@process_slots toy_sha256 5 example_two).1 = Ok tt /\ st_slot (@process_slots toy_sha256 5 example_two).2 = 5.
Proof.
  assert (Hr : @hash_tree_root _ (@State_HashTreeRoot toy_sha256) example_two <> bv_zero 32).
  { intros H. apply (f_equal as_slice) in H. vm_compute in H. discriminate H. }
  pose proof (@process_slots_spec toy_sha256 example_two 5 ltac:(by vm_compute) Hr) as H.
  change (st_slot example_two <? 5) with true in H. cbv iota in H. rewrite H.
  split; reflexivity.
Defined.

(** The block that extends [s] at its slot, by the expected proposer. *)
Definition example_block (s : State) (slot : Slot) (atts : list Attestation) : Block :=
  let s1 := (@process_slots toy_sha256 slot s).2 in
  mkBlock slot (slot mod len (st_validators s))
    (@hash_tree_root _ (@BlockHeader_HashTreeRoot toy_sha256) (st_latest_block_header s1)) (bv_zero 32) (mkBlockBody atts).

Definition example_signed (b : Block) : SignedBlockWithAttestation :=
  mkSignedBlockWithAttestation
    (mkBlockWithAttestation b (example_vote 0 Checkpoint_default Checkpoint_default)) (mkBlockSignatures []).

Definition example_three : State := at_slot example_two 3 (bv_zero 32).

Lemma process_block_header_spec_witness :
  let b := mkBlock 3 0 (@hash_tree_root _ (@BlockHeader_HashTreeRoot toy_sha256) (st_latest_block_header example_three))
             (bv_zero 32) (mkBlockBody []) in
  exists bl, @process_block_header toy_sha256 b example_three = (Ok tt, @header_post toy_sha256 example_three b bl) /\
    bits bl = [true; false; false].
Proof.
  intros b. assert (Hinv : state_inv example_three).
  { apply at_slot_inv; [apply example_two_inv|by vm_compute|by vm_compute]. }
  destruct (@process_block_header_spec toy_sha256 example_three b Hinv) as [H _].
  { repeat split; try constructor; by vm_compute. }
  destruct H as (bl & Hp & Hb & _); [split; [done|by vm_compute|done|by vm_compute|done|by vm_compute]|].
  exists bl. split; [done|]. rewrite Hb. by vm_compute.
Defined.

Definition example_genesis : State := @genesis_state toy_sha256 0 example_validators.
Definition example_block_1 : Block := example_block example_genesis 1 [].
Definition example_chain_1 : State := (@state_transition toy_sha256 (example_signed example_block_1) false example_genesis).2.

Lemma example_genesis_inv : state_inv example_genesis.
Proof. apply genesis_state_inv; [by vm_compute|by repeat constructor|by vm_compute]. Qed.

Lemma example_block_wf s slot atts :
  u64_ok slot -> len (st_validators s) <> 0 -> Forall ssz_wf atts -> len atts <= MAX_ATTESTATIONS ->
  ssz_wf (example_block s slot atts).
Proof.
  intros Hs Hn Ha Hl. split_and!; [done| |done]. unfold u64_ok in *. simpl.
  eapply N.le_lt_trans; [apply N.Div0.mod_le|done].
Qed.

Lemma example_chain_1_run :
  @state_transition toy_sha256 (example_signed example_block_1) false example_genesis = (Ok tt, example_chain_1).
Proof.
  assert (Hr : (@state_transition toy_sha256 (example_signed example_block_1) false example_genesis).1 = Ok tt)
    by (vm_compute; reflexivity).
  unfold example_chain_1. destruct (state_transition _ _ _) as [r s']. simpl in Hr. by subst r.
Qed.

Lemma state_transition_spec_witness : state_inv example_chain_1 /\ st_slot example_chain_1 = 1.
Proof.
  assert (Hwf : ssz_wf (bwa_block (sb_message (example_signed example_block_1)))).
  { apply example_block_wf; done. }
  pose proof (@state_transition_spec toy_sha256 example_genesis (example_signed example_block_1) false
                example_genesis_inv Hwf) as H.
  rewrite example_chain_1_run in H. destruct H as (Hi & _ & Hs & _). exact (conj Hi Hs).
Defined.

Lemma example_chain_1_step : @chain_step toy_sha256 example_genesis example_chain_1.
Proof.
  apply (chain_block _ (example_signed example_block_1) false); [|apply example_chain_1_run].
  apply example_block_wf; done.
Qed.

Lemma chain_finality_monotone_witness :
  state_inv example_chain_1 /\ cp_slot (st_latest_finalized example_genesis) <= cp_slot (st_latest_finalized example_chain_1).
Proof.
  destruct (@chain_finality_monotone toy_sha256 0 example_validators example_genesis example_chain_1) as (H1 & H2 & _).
  - reflexivity.
  - repeat constructor.
  - discriminate.
  - apply rtc_refl.
  - apply rtc_once, example_chain_1_step.
  - exact (conj H1 H2).
Defined.

(** Two votes for two different empty slots are counted together, because the
    tally is keyed by the target root and an empty slot's root is all zero:
    with three validators, one vote for slot 1 and one for slot 2 justify
    slot 2. *)
Definition example_empty_slots : State := example_state [example_root 0; bv_zero 32; bv_zero 32] [x01].

Theorem empty_slot_votes_pooled :
  let source := mkCheckpoint (example_root 0) 0 in
  let atts := [example_vote 0 source (mkCheckpoint (bv_zero 32) 1); example_vote 1 source (mkCheckpoint (bv_zero 32) 2)] in
  let s' := (process_attestations atts example_empty_slots).2 in
  state_inv example_empty_slots /\
  (process_attestations atts example_empty_slots).1 = Ok tt /\
  bits (st_justified_slots s') !! 2%nat = Some true /\
  len (filter (fun a => cp_slot (ad_target (att_data a)) = 2) atts) = 1 /\ len (st_validators s') = 3.
Proof.
  split; [|by vm_compute]. apply example_state_inv; [done| |done|done]. by apply (bitlist_encode_decode [x09]).
Qed.
