(* ===== verification/Ancestry.v ===== *)
(** * Block maps, hash-map iteration and walks along parent links

    What [crates/forkchoice/src/helpers.rs] and [store.rs] share: the error type
    of [error.rs], [std]'s [HashMap] as a [gmap] with an iteration order, and the
    reasoning on walks from a block to its parent. *)

From stdpp Require Import base numbers list gmap strings sorting.
From Stdlib Require Import Strings.Byte ZArith Lia.
From S2P Require Import Prelude Config Types Merkle Codec Slot Containers State Stf.

(** ** Time ([time.rs]) *)

Inductive Phase := Proposal | Idle | UpdateSafeTarget | AcceptNewVotes.

Abbreviation Time := N.

Definition time_slot (t : Time) : N := t / INTERVALS_PER_SLOT.
Definition time_interval (t : Time) : N := t mod INTERVALS_PER_SLOT.

Definition time_phase (t : Time) : Phase :=
  match time_interval t with
  | 0 => Proposal
  | 1 => Idle
  | 2 => UpdateSafeTarget
  | _ => AcceptNewVotes
  end.

Definition checked_advance (t : Time) : option Time := checked_add t 1.

(** ** Errors ([error.rs]) *)

Inductive ForkchoiceError :=
| AnchorStateRootMismatch (got want : Bytes32)
| AnchorTimeOverflow (slot : Slot) (intervals_per_slot : N)
| TimeOverflow (time : Time)
| UnknownSourceBlock (root : Bytes32)
| UnknownTargetBlock (root : Bytes32)
| SourceSlotExceedsTarget
| SourceCheckpointSlotMismatch
| TargetCheckpointSlotMismatch
| UnknownAttestationHeadBlock (root : Bytes32)
| HeadSlotBelowTarget (head_slot target_slot : Slot)
| HeadCheckpointSlotMismatch
| AttestationTooFarInFuture (vote_slot limit : Slot)
| AttestationFutureLimitOverflow (current_slot : Slot)
| ValidatorIndexOutOfRange (validator_id num_validators : N)
| UnknownRootBlock (root : Bytes32)
| ParentBlockNotFound (root : Bytes32)
| NoBlocksAvailable
| UnauthorizedProposer (validator : ValidatorIndex) (slot : Slot)
| HeadStateNotFound (root : Bytes32)
| UnknownHeadBlock (root : Bytes32)
| UnknownSafeTarget (root : Bytes32)
| BlockStateRootMismatch (got want : Bytes32)
| StateSlotAheadOfTarget (state_slot target_slot : Slot)
| FcStateTransition (e : StateTransitionError)
| FcProtocol (context reason : string).

(** ** [HashMap]

    A map is a [gmap].  The order in which Rust visits its entries is arbitrary,
    so it is a parameter of the code that iterates, of which only the documented
    fact is known: every entry is visited once. *)
Class HashOrder := hash_iter : forall (K A : Type) (EK : EqDecision K) (CK : Countable K), gmap K A -> list (K * A).
Arguments hash_iter {_} {K A EK CK} m.

Class HashOrderLaws (o : HashOrder) : Prop :=
  hash_iter_perm : forall K A (EK : EqDecision K) (CK : Countable K) (m : gmap K A),
    hash_iter (HashOrder:=o) m ≡ₚ map_to_list m.

(** Two orders used in examples. *)
Definition order_forward : HashOrder := fun K A EK CK m => map_to_list m.
Definition order_backward : HashOrder := fun K A EK CK m => reverse (map_to_list m).

Lemma order_forward_laws : HashOrderLaws order_forward.
Proof. by intros ?????. Qed.

Lemma order_backward_laws : HashOrderLaws order_backward.
Proof. intros ?????. apply reverse_Permutation. Qed.

Section HashOrder.
Context `{HashOrderLaws} {K A : Type} `{Countable K}.
Implicit Types m : gmap K A.

Lemma elem_of_hash_iter m k x : (k, x) ∈ hash_iter m <-> m !! k = Some x.
Proof. by rewrite hash_iter_perm, elem_of_map_to_list. Qed.

Lemma NoDup_hash_iter m : NoDup (hash_iter m).
Proof. rewrite hash_iter_perm. apply NoDup_map_to_list. Qed.

Lemma NoDup_hash_keys m : NoDup (hash_iter m).*1.
Proof. rewrite hash_iter_perm. apply NoDup_fst_map_to_list. Qed.

End HashOrder.

(** ** Iterating a partial function on a finite set

    A walk that makes one step more than the set has elements never ends: the
    points from which [k] steps are possible shrink with [k], and once one more
    step costs no point none is ever lost again. *)
Section Survival.
Context `{Countable A} (f : A -> option A) (X : gset A).
Hypothesis f_closed : forall x y, f x = Some y -> x ∈ X /\ y ∈ X.

Fixpoint steps (k : nat) (x : A) : option A :=
  match k with O => Some x | S k => match f x with Some y => steps k y | None => None end end.

Definition alive (k : nat) : gset A := filter (fun x => is_Some (steps k x)) X.

Lemma alive_S_subset k : alive (S k) ⊆ alive k.
Proof.
  unfold alive. intros x. rewrite !elem_of_filter. intros [Hs Hx]. split; [|done]. clear Hx.
  revert x Hs. induction k as [|k IH]; intros x [z Hz]; [by exists x|].
  cbn [steps] in *. destruct (f x) as [y|]; [|done]. apply IH. by exists z.
Qed.

Lemma alive_stable k : alive (S k) = alive k -> alive (S (S k)) = alive (S k).
Proof.
  intros Hk. apply (anti_symm (⊆)); [apply alive_S_subset|]. intros x. unfold alive in *.
  rewrite !elem_of_filter. intros [Hs Hx]. split; [|done]. cbn [steps] in Hs |- *.
  destruct (f x) as [y|] eqn:Hy; [|done]. destruct (f_closed _ _ Hy) as [_ HyX].
  assert (Hin : y ∈ filter (fun x => is_Some (steps k x)) X) by (by apply elem_of_filter).
  rewrite <-Hk in Hin. by apply elem_of_filter in Hin as [? _].
Qed.

Lemma alive_shrinks k : (size (alive k) + k <= size X)%nat \/ exists i, (i < k)%nat /\ alive (S i) = alive i.
Proof.
  induction k as [|k [IH|(i & Hi & Heq)]].
  - left. rewrite Nat.add_0_r. apply subseteq_size. intros y Hy. by apply elem_of_filter in Hy as [_ ?].
  - destruct (decide (alive (S k) = alive k)) as [|Hne]; [right; by exists k; split; [lia|]|].
    left. assert (size (alive (S k)) < size (alive k))%nat; [|lia].
    apply subset_size. split; [apply alive_S_subset|]. intros Hsub. apply Hne.
    apply (anti_symm (⊆)); [apply alive_S_subset|done].
  - right. exists i. split; [lia|done].
Qed.

Lemma alive_stable_from i j : alive (S i) = alive i -> (i <= j)%nat -> alive j = alive i.
Proof.
  intros Hi Hj. assert (Hs : alive (S j) = alive j /\ alive j = alive i); [|by destruct Hs].
  induction Hj as [|j Hj [IH1 IH2]]; [done|]. split; [by apply alive_stable|]. by rewrite IH1.
Qed.

Lemma survives x : is_Some (steps (S (size X)) x) -> forall k, is_Some (steps k x).
Proof.
  intros Hx k. assert (Hin : x ∈ X).
  { cbn [steps] in Hx. destruct (f x) as [y|] eqn:Hy; [by apply (f_closed x y)|by destruct Hx]. }
  assert (Ha : x ∈ alive (S (size X))) by (by apply elem_of_filter).
  destruct (alive_shrinks (S (size X))) as [|(i & Hi & Hst)]; [lia|].
  rewrite (alive_stable_from i) in Ha by (done || lia).
  destruct (decide (i <= k)%nat) as [Hk|Hk].
  - rewrite <-(alive_stable_from i k) in Ha by done. by apply elem_of_filter in Ha as [? _].
  - assert (Hmono : forall j d, alive (d + j) ⊆ alive j).
    { intros j d. induction d as [|d IHd]; [done|]. cbn [Nat.add]. etrans; [apply alive_S_subset|done]. }
    replace i with (i - k + k)%nat in Ha by lia. apply Hmono in Ha. by apply elem_of_filter in Ha as [? _].
Qed.

End Survival.

(** ** Block trees *)

Abbreviation BlockMap := (gmap Bytes32 Block).

(** [p] is the tracked parent of the tracked block [r]. *)
Definition parent_step (blocks : BlockMap) (r p : Bytes32) : Prop :=
  exists b, blocks !! r = Some b /\ b_parent_root b = p /\ is_Some (blocks !! p).

(** [a] is [r] or a tracked ancestor of it. *)
Definition ancestor (blocks : BlockMap) (a r : Bytes32) : Prop := rtc (parent_step blocks) r a.

(** Slots strictly decrease along parent links, as [process_block_header]
    demands of every block it accepts. *)
Definition slots_decrease (blocks : BlockMap) : Prop :=
  forall r b p, blocks !! r = Some b -> blocks !! b_parent_root b = Some p -> b_slot p < b_slot b.

(** Every block above [slot] has a tracked parent. *)
Definition rooted_above (blocks : BlockMap) (slot : Slot) : Prop :=
  forall r b, blocks !! r = Some b -> slot < b_slot b -> is_Some (blocks !! b_parent_root b).

Lemma ancestor_slot blocks a r ab b :
  slots_decrease blocks -> ancestor blocks a r -> blocks !! a = Some ab -> blocks !! r = Some b ->
  b_slot ab <= b_slot b /\ (a = r \/ b_slot ab < b_slot b).
Proof.
  intros Hd Ha. revert b. unfold ancestor in Ha.
  induction Ha as [r|r p a (b0 & Hb0 & Hp & [pb Hpb]) _ IH]; intros b Hab Hb; simplify_eq.
  - split; [done|by left].
  - destruct (IH pb Hab Hpb) as [Hle _]. pose proof (Hd r b0 pb Hb0 Hpb). split; [lia|right; lia].
Qed.
