(* ===== verification/Ghost.v ===== *)
(** * LMD-GHOST head selection

    Models [get_fork_choice_head] and [min_block_root] of
    [crates/forkchoice/src/helpers.rs]: weights are accumulated by walking from
    every vote towards the origin, blocks below the threshold are dropped from the
    children map, and the descent follows the child with the largest
    [(weight, root)].  The two [while] loops run on fuel [S (size blocks)]: a run
    that needs more never ends ([weigh_walk_fuel], [descend_fuel]), so [Diverge] is exactly the
    non-termination of the code, which happens only on a cycle of parent links. *)

From stdpp Require Import base numbers list gmap strings sorting.
From Stdlib Require Import Strings.Byte ZArith Lia.
From S2P Require Import Prelude Config Types Merkle Codec Slot Containers State Stf Ancestry.

(** ** The code *)

(** [Iterator::min_by_key] and [max_by_key] on keys [(u64, Bytes32)] compared as
    tuples: the first minimum and the last maximum. *)
Definition key_compare (a b : N * Bytes32) : comparison :=
  match (a.1 ?= b.1) with Eq => bv_compare a.2 b.2 | c => c end.

Definition min_by_key {X} (key : X -> N * Bytes32) (l : list X) : option X :=
  foldl (fun best x => match best with
    | None => Some x
    | Some b => match key_compare (key b) (key x) with Gt => Some x | _ => Some b end
    end) None l.

Definition max_by_key {X} (key : X -> N * Bytes32) (l : list X) : option X :=
  foldl (fun best x => match best with
    | None => Some x
    | Some b => match key_compare (key b) (key x) with Gt => Some b | _ => Some x end
    end) None l.

Section Code.
Context {o : HashOrder}.

Definition min_block_root (blocks : BlockMap) : option Bytes32 :=
  fst <$> min_by_key (fun '(root, block) => (b_slot block, root)) (hash_iter blocks).

(** [while block.slot > root_slot { *weights.entry(cursor).or_default() += 1; .. }]. *)
Fixpoint weigh_walk (fuel : nat) (blocks : BlockMap) (root_slot : Slot) (weights : gmap Bytes32 N)
    (cursor : Bytes32) (block : Block) : Outcome ForkchoiceError (gmap Bytes32 N) :=
  match fuel with
  | O => Diverge
  | S fuel =>
      if root_slot <? b_slot block then
        let weights := <[cursor := default 0 (weights !! cursor) + 1]> weights in
        let cursor := b_parent_root block in
        let? block := ok_or (blocks !! cursor) (ParentBlockNotFound cursor) in
        weigh_walk fuel blocks root_slot weights cursor block
      else Ok weights
  end.

(** One iteration of [for checkpoint in latest_votes.values()]. *)
Definition weigh_vote (blocks : BlockMap) (root_slot : Slot) (weights : gmap Bytes32 N) (checkpoint : Checkpoint)
    : Outcome ForkchoiceError (gmap Bytes32 N) :=
  match blocks !! cp_root checkpoint with
  | None => Ok weights
  | Some block => weigh_walk (S (size blocks)) blocks root_slot weights (cp_root checkpoint) block
  end.

Definition accumulate_weights (blocks : BlockMap) (root_slot : Slot) (latest_votes : gmap ValidatorIndex Checkpoint)
    : Outcome ForkchoiceError (gmap Bytes32 N) :=
  ofold (weigh_vote blocks root_slot) (hash_iter latest_votes).*2 ∅.

Definition weight_of (weights : gmap Bytes32 N) (r : Bytes32) : N := default 0 (weights !! r).

(** The children map of the blocks that reach the threshold. *)
Definition children_map (blocks : BlockMap) (weights : gmap Bytes32 N) (min_score : N)
    : gmap Bytes32 (list Bytes32) :=
  foldl (fun children '(block_root, block) =>
    if min_score <=? weight_of weights block_root
    then <[b_parent_root block := default [] (children !! b_parent_root block) ++ [block_root]]> children
    else children) ∅ (hash_iter blocks).

Definition best_child (children : gmap Bytes32 (list Bytes32)) (weights : gmap Bytes32 N) (current : Bytes32)
    : option Bytes32 :=
  kids ← children !! current; max_by_key (fun child => (weight_of weights child, child)) kids.

(** [while let Some(best) = .. { current = best; }]. *)
Fixpoint descend (fuel : nat) (children : gmap Bytes32 (list Bytes32)) (weights : gmap Bytes32 N)
    (current : Bytes32) : Outcome ForkchoiceError Bytes32 :=
  match fuel with
  | O => Diverge
  | S fuel =>
      match best_child children weights current with
      | Some best => descend fuel children weights best
      | None => Ok current
      end
  end.

Definition get_fork_choice_head (blocks : BlockMap) (root : Bytes32)
    (latest_votes : gmap ValidatorIndex Checkpoint) (min_score : N) : Outcome ForkchoiceError Bytes32 :=
  let? root := if bool_decide (root = bv_zero 32) then ok_or (min_block_root blocks) NoBlocksAvailable else Ok root in
  let? root_block := ok_or (blocks !! root) (UnknownRootBlock root) in
  let? weights := accumulate_weights blocks (b_slot root_block) latest_votes in
  descend (S (size blocks)) (children_map blocks weights min_score) weights root.

End Code.

(** ** Selection by key *)

Definition key_le (a b : N * Bytes32) : Prop := a.1 < b.1 \/ a.1 = b.1 /\ bv_le a.2 b.2.
Definition key_lt (a b : N * Bytes32) : Prop := a.1 < b.1 \/ a.1 = b.1 /\ bv_lt a.2 b.2.

Lemma key_compare_le a b : key_compare a b <> Gt <-> key_le a b.
Proof.
  unfold key_compare, key_le, bv_le. destruct (N.compare_spec a.1 b.1) as [He|He|He].
  - split; [by right|]. intros [|[_ ?]]; [lia|done].
  - split; [by left|done].
  - split; [done|]. intros [|[? _]]; lia.
Qed.

Lemma key_compare_gt a b : key_compare a b = Gt -> key_le b a.
Proof.
  unfold key_compare, key_le. destruct (N.compare_spec a.1 b.1); try done; intros Hc; [right|by left].
  split; [done|]. destruct (total bv_le a.2 b.2) as [Hle|]; [|done]. by destruct Hle.
Qed.

#[export] Instance key_le_trans : Transitive key_le.
Proof.
  intros a b c [Hab|[Hab Hab']] [Hbc|[Hbc Hbc']]; unfold key_le; [left; lia|left; lia|left; lia|right].
  split; [lia|by etrans].
Qed.

#[export] Instance key_le_refl : Reflexive key_le.
Proof. intros a. right. split; [done|]. apply bv_le_lt_eq. by right. Qed.

Lemma key_le_cases a b : key_le a b -> key_lt a b \/ a.2 = b.2.
Proof.
  intros [H|[H1 [H2|H2]%bv_le_lt_eq]]; [by left; left|by left; right|by right].
Qed.

Lemma key_lt_not_le a b : key_lt a b -> ~ key_le b a.
Proof.
  intros [H|[H1 H2]] [H'|[H1' H2']]; try lia. by apply bv_not_le in H2.
Qed.

Section Select.
Context {X : Type} (key : X -> N * Bytes32).

Lemma max_by_key_from l b m :
  foldl (fun best x => match best with
    | None => Some x
    | Some b => match key_compare (key b) (key x) with Gt => Some b | _ => Some x end end) (Some b) l = Some m ->
  m ∈ b :: l /\ forall x, x ∈ b :: l -> key_le (key x) (key m).
Proof.
  revert b. induction l as [|y l IH]; intros b; cbn [foldl].
  - intros [= ->]. split; [by left|]. intros x Hx. apply list_elem_of_singleton in Hx as ->. reflexivity.
  - destruct (key_compare (key b) (key y)) eqn:Hc; intros Hm; destruct (IH _ Hm) as [Hin Hmax].
    1,2: split; [by right|]; intros x [->|Hx]%elem_of_cons; [|by apply Hmax];
         etrans; [|apply Hmax; by left]; apply key_compare_le; by rewrite Hc.
    split; [set_solver|]. intros x [->|[->|Hx]%elem_of_cons]%elem_of_cons.
    + apply Hmax. by left.
    + etrans; [by apply key_compare_gt|]. apply Hmax. by left.
    + apply Hmax. by right.
Qed.

Lemma min_by_key_from l b m :
  foldl (fun best x => match best with
    | None => Some x
    | Some b => match key_compare (key b) (key x) with Gt => Some x | _ => Some b end end) (Some b) l = Some m ->
  m ∈ b :: l /\ forall x, x ∈ b :: l -> key_le (key m) (key x).
Proof.
  revert b. induction l as [|y l IH]; intros b; cbn [foldl].
  - intros [= ->]. split; [by left|]. intros x Hx. apply list_elem_of_singleton in Hx as ->. reflexivity.
  - destruct (key_compare (key b) (key y)) eqn:Hc; intros Hm; destruct (IH _ Hm) as [Hin Hmin].
    3: split; [by right|]; intros x [->|Hx]%elem_of_cons; [|by apply Hmin];
         etrans; [apply Hmin; by left|]; by apply key_compare_gt.
    all: split; [set_solver|]; intros x [->|[->|Hx]%elem_of_cons]%elem_of_cons;
      [by apply Hmin; left| |by apply Hmin; right];
      etrans; [by apply Hmin; left|]; apply key_compare_le; by rewrite Hc.
Qed.

Lemma max_by_key_spec l :
  match max_by_key key l with
  | Some m => m ∈ l /\ forall x, x ∈ l -> key_le (key x) (key m)
  | None => l = []
  end.
Proof.
  unfold max_by_key. destruct l as [|b l]; [done|]. cbn [foldl].
  destruct (foldl _ (Some b) l) as [m|] eqn:Hm; [by apply max_by_key_from|].
  exfalso. clear -Hm. revert b Hm. induction l as [|y l IH]; intros b; [done|].
  cbn [foldl]. destruct (key_compare _ _); apply IH.
Qed.

Lemma min_by_key_spec l :
  match min_by_key key l with
  | Some m => m ∈ l /\ forall x, x ∈ l -> key_le (key m) (key x)
  | None => l = []
  end.
Proof.
  unfold min_by_key. destruct l as [|b l]; [done|]. cbn [foldl].
  destruct (foldl _ (Some b) l) as [m|] eqn:Hm; [by apply min_by_key_from|].
  exfalso. clear -Hm. revert b Hm. induction l as [|y l IH]; intros b; [done|].
  cbn [foldl]. destruct (key_compare _ _); apply IH.
Qed.

End Select.

(** ** The rule the code implements *)

(** [c] is a child of [r] that reaches the threshold. *)
Definition eligible (blocks : BlockMap) (weight : Bytes32 -> N) (min_score : N) (r c : Bytes32) : Prop :=
  exists b, blocks !! c = Some b /\ b_parent_root b = r /\ min_score <= weight c.

(** [c] is the heaviest of them, the larger root on equal weights. *)
Definition heaviest_child (blocks : BlockMap) (weight : Bytes32 -> N) (min_score : N) (r c : Bytes32) : Prop :=
  eligible blocks weight min_score r c /\
  forall c', eligible blocks weight min_score r c' -> c' <> c -> key_lt (weight c', c') (weight c, c).

Inductive ghost_descent (blocks : BlockMap) (weight : Bytes32 -> N) (min_score : N) : Bytes32 -> Bytes32 -> Prop :=
| gd_stop r : (forall c, ~ eligible blocks weight min_score r c) -> ghost_descent blocks weight min_score r r
| gd_step r c h :
    heaviest_child blocks weight min_score r c -> ghost_descent blocks weight min_score c h ->
    ghost_descent blocks weight min_score r h.

(** The block the descent starts from: the requested one, or the lowest one. *)
Definition ghost_origin (blocks : BlockMap) (root origin : Bytes32) : Prop :=
  if bool_decide (root = bv_zero 32)
  then exists ob, blocks !! origin = Some ob /\
         forall r b, blocks !! r = Some b -> key_le (b_slot ob, origin) (b_slot b, r)
  else origin = root.

(** [weight] counts, for every block above [root_slot], the validators whose
    vote is for the block or for one of its descendants; other blocks weigh
    nothing. *)
Definition lmd_weight (blocks : BlockMap) (root_slot : Slot) (votes : gmap ValidatorIndex Checkpoint)
    (weight : Bytes32 -> N) : Prop :=
  forall r, exists voters : gset ValidatorIndex,
    weight r = N.of_nat (size voters) /\
    forall v, v ∈ voters <->
      exists cp b, votes !! v = Some cp /\ blocks !! r = Some b /\ root_slot < b_slot b /\
                   ancestor blocks r (cp_root cp).

Lemma heaviest_child_unique blocks weight min_score r c c' :
  heaviest_child blocks weight min_score r c -> heaviest_child blocks weight min_score r c' -> c = c'.
Proof.
  intros [He Hm] [He' Hm']. destruct (decide (c = c')) as [|Hne]; [done|]. exfalso.
  eapply (key_lt_not_le _ _ (Hm c' He' (not_eq_sym Hne))). destruct (Hm' c He Hne) as [|[? ?]]; [by left|right].
  split; [done|]. apply bv_le_lt_eq. by left.
Qed.

(** The descent is deterministic and ends in a descendant of its origin that is
    the origin itself or reaches the threshold. *)
Lemma ghost_descent_det blocks weight min_score r h h' :
  ghost_descent blocks weight min_score r h -> ghost_descent blocks weight min_score r h' -> h = h'.
Proof.
  intros Hd. revert h'. induction Hd as [r Hno|r c h Hc _ IH]; intros h' Hd'.
  - inversion Hd' as [|? c' ? [He' _]]; [done|]. by destruct (Hno c').
  - inversion Hd' as [? Hno|? c' ? Hc']; subst; [by destruct (Hno c); destruct Hc|].
    apply IH. by rewrite (heaviest_child_unique _ _ _ _ _ _ Hc Hc').
Qed.

Lemma ghost_descent_ancestor blocks weight min_score r h :
  is_Some (blocks !! r) -> ghost_descent blocks weight min_score r h ->
  ancestor blocks r h /\ (h = r \/ min_score <= weight h).
Proof.
  intros Hr Hd. induction Hd as [r|r c h [(b & Hb & Hp & Hw) _] _ IH]; [by split; [apply rtc_refl|left]|].
  destruct IH as [Ha Hh]; [by exists b|]. split.
  - unfold ancestor in *. eapply rtc_r; [exact Ha|]. by exists b.
  - right. by destruct Hh as [->|].
Qed.

(** ** The children map and the descent *)

Section Descent.
Context {o : HashOrder} {Ho : HashOrderLaws o}.

Lemma children_map_elem_of blocks weights min_score r c :
  c ∈ default [] (children_map blocks weights min_score !! r) <->
  eligible blocks (weight_of weights) min_score r c.
Proof.
  assert (Hfold : forall l (m : gmap Bytes32 (list Bytes32)), c ∈ default [] (foldl (fun children '(block_root, block) =>
      if min_score <=? weight_of weights block_root
      then <[b_parent_root block := default [] (children !! b_parent_root block) ++ [block_root]]> children
      else children) m l !! r) <->
    c ∈ default [] (m !! r) \/ exists b, (c, b) ∈ l /\ b_parent_root b = r /\ min_score <= weight_of weights c).
  { induction l as [|[c0 b0] l IH]; intros m; cbn [foldl]; [set_solver|]. rewrite IH. clear IH.
    setoid_rewrite elem_of_cons. destruct (N.leb_spec min_score (weight_of weights c0)).
    - destruct (decide (b_parent_root b0 = r)) as [<-|Hne].
      + rewrite lookup_insert_eq. simpl. rewrite elem_of_app, list_elem_of_singleton. naive_solver.
      + rewrite lookup_insert_ne by done. naive_solver.
    - split; [naive_solver|]. intros [|(b & [[= -> ->]|] & Hp & Hw)]; [by left|lia|right; eauto]. }
  unfold children_map. rewrite Hfold, lookup_empty. unfold eligible. setoid_rewrite elem_of_hash_iter. set_solver.
Qed.

Lemma best_child_spec blocks weights min_score r :
  match best_child (children_map blocks weights min_score) weights r with
  | Some c => heaviest_child blocks (weight_of weights) min_score r c
  | None => forall c, ~ eligible blocks (weight_of weights) min_score r c
  end.
Proof.
  unfold best_child. pose proof (children_map_elem_of blocks weights min_score r) as Hk.
  destruct (children_map _ _ _ !! r) as [kids|]; simpl in *.
  - pose proof (max_by_key_spec (fun child => (weight_of weights child, child)) kids) as Hm.
    destruct (max_by_key _ _) as [c|].
    + destruct Hm as [Hin Hmax]. split; [by apply Hk|]. intros c' Hc' Hne.
      apply Hk in Hc'. destruct (key_le_cases _ _ (Hmax c' Hc')); [done|]. by simpl in *.
    + intros c Hc%Hk. by rewrite Hm in Hc; apply elem_of_nil in Hc.
  - intros c Hc%Hk. by apply elem_of_nil in Hc.
Qed.

Lemma descend_sound fuel blocks weights min_score r h :
  descend fuel (children_map blocks weights min_score) weights r = Ok h ->
  ghost_descent blocks (weight_of weights) min_score r h.
Proof.
  revert r. induction fuel as [|fuel IH]; intros r; [done|]. cbn [descend].
  pose proof (best_child_spec blocks weights min_score r) as Hb.
  destruct (best_child _ _ r) as [c|]; [|by intros [= ->]; apply gd_stop].
  intros Hd. eapply gd_step; [done|by apply IH].
Qed.

(** Blocks not below [b]: what is left to descend into. *)
Definition blocks_from (blocks : BlockMap) (slot : Slot) : BlockMap :=
  filter (fun '(_, b) => slot <= b_slot b) blocks.

Lemma blocks_from_shrinks blocks slot r b :
  blocks !! r = Some b -> slot <= b_slot b ->
  (size (blocks_from blocks (b_slot b + 1)) < size (blocks_from blocks slot))%nat.
Proof.
  intros Hb Hs. apply map_subset_size. split.
  - apply map_filter_subseteq_ext. intros k x _. simpl. lia.
  - intros Hsub. assert (Hin : blocks_from blocks slot !! r = Some b) by (by apply map_lookup_filter_Some).
    eapply lookup_weaken in Hin; [|exact Hsub]. apply map_lookup_filter_Some in Hin as [_ Hlt]. lia.
Qed.

Lemma descend_total fuel blocks weights min_score r b :
  slots_decrease blocks -> blocks !! r = Some b ->
  (size (blocks_from blocks (b_slot b + 1)) < fuel)%nat ->
  exists h, descend fuel (children_map blocks weights min_score) weights r = Ok h.
Proof.
  intros Hd. revert r b. induction fuel as [|fuel IH]; intros r b Hb Hf; [lia|]. cbn [descend].
  pose proof (best_child_spec blocks weights min_score r) as Hc.
  destruct (best_child _ _ r) as [c|]; [|by exists r]. destruct Hc as [(cb & Hcb & Hp & _) _]. subst r.
  pose proof (Hd c cb b Hcb Hb). apply (IH c cb Hcb).
  pose proof (blocks_from_shrinks blocks (b_slot b + 1) c cb Hcb ltac:(lia)). lia.
Qed.

Lemma size_blocks_from blocks slot : (size (blocks_from blocks slot) <= size blocks)%nat.
Proof. apply map_size_filter. Qed.

(** One more step than there are blocks means that the descent never ends. *)
Lemma descend_fuel blocks weights min_score r :
  is_Some (blocks !! r) ->
  descend (S (size blocks)) (children_map blocks weights min_score) weights r = Diverge ->
  forall fuel, descend fuel (children_map blocks weights min_score) weights r = Diverge.
Proof.
  intros Hr.
  set (f := fun x => if decide (x ∈ dom blocks)
                     then best_child (children_map blocks weights min_score) weights x else None).
  assert (Htracked : forall x y, best_child (children_map blocks weights min_score) weights x = Some y -> y ∈ dom blocks).
  { intros x y Hy. pose proof (best_child_spec blocks weights min_score x) as Hc. rewrite Hy in Hc.
    destruct Hc as [(b & Hb & _) _]. by apply elem_of_dom_2 in Hb. }
  assert (Hsteps : forall fuel x, x ∈ dom blocks ->
    descend fuel (children_map blocks weights min_score) weights x = Diverge <-> is_Some (steps f fuel x)).
  { induction fuel as [|fuel IH]; intros x Hx; cbn [descend steps]; [split; [by eexists|done]|].
    unfold f at 1. rewrite decide_True by done. destruct (best_child _ _ x) as [y|] eqn:Hy.
    - apply IH. by eapply Htracked.
    - split; [done|]. by intros [? ?]. }
  apply elem_of_dom in Hr. rewrite Hsteps by done. rewrite <-size_dom. intros Hs fuel. apply Hsteps; [done|].
  eapply survives; [|exact Hs]. unfold f. intros x y. destruct (decide _) as [Hx|]; [|done].
  intros Hy. split; [done|]. by eapply Htracked.
Qed.

Lemma min_block_root_spec blocks :
  match min_block_root blocks with
  | Some origin => exists ob, blocks !! origin = Some ob /\
      forall r b, blocks !! r = Some b -> key_le (b_slot ob, origin) (b_slot b, r)
  | None => blocks = ∅
  end.
Proof.
  unfold min_block_root.
  pose proof (min_by_key_spec (fun '(root, block) => (b_slot block, root)) (hash_iter blocks)) as Hm.
  destruct (min_by_key _ _) as [[origin ob]|]; simpl.
  - destruct Hm as [Hin Hmin]. exists ob. split; [by apply elem_of_hash_iter|].
    intros r b Hb. apply (Hmin (r, b)). by apply elem_of_hash_iter.
  - apply map_empty. intros r. destruct (blocks !! r) as [b|] eqn:Hb; [|done].
    apply elem_of_hash_iter in Hb. rewrite Hm in Hb. by apply elem_of_nil in Hb.
Qed.

End Descent.

(** ** Weights

    A walk does not look at the weights it updates, so it is a path followed by
    one increment per block of the path, and the order of the votes is
    irrelevant. *)

Definition bump (weights : gmap Bytes32 N) (r : Bytes32) : gmap Bytes32 N := <[r := weight_of weights r + 1]> weights.

Fixpoint vote_path (fuel : nat) (blocks : BlockMap) (root_slot : Slot) (cursor : Bytes32) (block : Block)
    : Outcome ForkchoiceError (list Bytes32) :=
  match fuel with
  | O => Diverge
  | S fuel =>
      if root_slot <? b_slot block then
        let? parent := ok_or (blocks !! b_parent_root block) (ParentBlockNotFound (b_parent_root block)) in
        let? path := vote_path fuel blocks root_slot (b_parent_root block) parent in
        Ok (cursor :: path)
      else Ok []
  end.

Definition cp_path (blocks : BlockMap) (root_slot : Slot) (cp : Checkpoint) : Outcome ForkchoiceError (list Bytes32) :=
  match blocks !! cp_root cp with
  | None => Ok []
  | Some block => vote_path (S (size blocks)) blocks root_slot (cp_root cp) block
  end.

Lemma weigh_walk_path fuel blocks root_slot weights c b :
  weigh_walk fuel blocks root_slot weights c b =
  let? path := vote_path fuel blocks root_slot c b in Ok (foldl bump weights path).
Proof.
  revert weights c b. induction fuel as [|fuel IH]; intros weights c b; [done|]. cbn [weigh_walk vote_path].
  destruct (root_slot <? b_slot b); [|done]. destruct (blocks !! b_parent_root b) as [p|]; simpl; [|done].
  rewrite IH. by destruct (vote_path fuel _ _ _ p).
Qed.

Lemma weigh_vote_path blocks root_slot weights cp :
  weigh_vote blocks root_slot weights cp =
  let? path := cp_path blocks root_slot cp in Ok (foldl bump weights path).
Proof. unfold weigh_vote, cp_path. destruct (blocks !! cp_root cp); [apply weigh_walk_path|done]. Qed.

Lemma weigh_votes_paths blocks root_slot cps weights :
  ofold (weigh_vote blocks root_slot) cps weights =
  let? paths := omapM (cp_path blocks root_slot) cps in Ok (foldl bump weights (concat paths)).
Proof.
  revert weights. induction cps as [|cp cps IH]; intros weights; [done|]. cbn [ofold omapM].
  rewrite weigh_vote_path. destruct (cp_path _ _ cp) as [path| | |]; simpl; [|done..].
  rewrite IH. destruct (omapM _ cps); simpl; [|done..]. by rewrite foldl_app.
Qed.

Definition occurrences (r : Bytes32) (l : list Bytes32) : N := len (filter (fun x => x = r) l).

Lemma weight_of_bump weights l r : weight_of (foldl bump weights l) r = weight_of weights r + occurrences r l.
Proof.
  revert weights. induction l as [|x l IH]; intros weights; cbn [foldl]; [unfold occurrences; rewrite filter_nil, len_nil; lia|].
  rewrite IH. unfold occurrences. rewrite filter_cons. unfold weight_of, bump.
  destruct (decide (x = r)) as [->|Hne].
  - rewrite lookup_insert_eq, len_cons. simpl. unfold weight_of. lia.
  - by rewrite lookup_insert_ne by done.
Qed.

Lemma omapM_perm {E X Y} (f : X -> Outcome E Y) l k ys :
  l ≡ₚ k -> omapM f l = Ok ys -> exists zs, omapM f k = Ok zs /\ ys ≡ₚ zs.
Proof.
  intros Hp. revert ys. induction Hp as [|x l k _ IH|x y l|l k m _ IH1 _ IH2]; intros ys; cbn [omapM].
  - intros [= <-]. by exists [].
  - intros H. inv_ok. destruct (IH _ Ha0) as (zs & Hzs & Hp). rewrite Ha, Hzs. simpl. eexists. split; [done|].
    by constructor.
  - intros H. inv_ok. rewrite Ha, Ha1, Ha2. simpl. eexists. split; [done|]. constructor.
  - intros H. destruct (IH1 _ H) as (zs & Hzs & Hp1). destruct (IH2 _ Hzs) as (ws & Hws & Hp2).
    exists ws. split; [done|]. by etrans.
Qed.

Lemma occurrences_perm r l k : l ≡ₚ k -> occurrences r l = occurrences r k.
Proof. intros Hp. unfold occurrences, len. by rewrite Hp. Qed.

(** The walk only visits blocks above the origin's slot, and never ends only if
    it comes back to where it was. *)
Section Paths.
Context (blocks : BlockMap) (root_slot : Slot).

Definition vote_step (r : Bytes32) : option Bytes32 :=
  b ← blocks !! r;
  if root_slot <? b_slot b then (if decide (is_Some (blocks !! b_parent_root b)) then Some (b_parent_root b) else None)
  else None.

Lemma vote_path_steps fuel r b :
  blocks !! r = Some b -> vote_path fuel blocks root_slot r b = Diverge <-> is_Some (steps vote_step fuel r).
Proof.
  revert r b. induction fuel as [|fuel IH]; intros r b Hb; cbn [vote_path steps]; [split; [by eexists|done]|].
  unfold vote_step at 1. rewrite Hb. simpl. destruct (root_slot <? b_slot b); [|by split; [|intros [? ?]]].
  destruct (blocks !! b_parent_root b) as [p|] eqn:Hp; cbn [ok_or obind].
  - rewrite decide_True by (by exists p). rewrite <-(IH _ _ Hp). by destruct (vote_path fuel _ _ _ _).
  - rewrite decide_False by (by intros [? ?]). split; [done|]. by intros [? ?].
Qed.

(** More steps than blocks: the [while] loop of the walk never ends. *)
Lemma weigh_walk_fuel weights r b :
  blocks !! r = Some b -> weigh_walk (S (size blocks)) blocks root_slot weights r b = Diverge ->
  forall fuel, weigh_walk fuel blocks root_slot weights r b = Diverge.
Proof.
  intros Hb Hd fuel. rewrite weigh_walk_path in *.
  assert (Hv : vote_path (S (size blocks)) blocks root_slot r b = Diverge) by (by destruct (vote_path _ _ _ _ _)).
  assert (Hv' : vote_path fuel blocks root_slot r b = Diverge); [|by rewrite Hv'].
  apply (vote_path_steps _ _ _ Hb) in Hv. apply (vote_path_steps _ _ _ Hb). rewrite <-size_dom in Hv.
  eapply survives; [|exact Hv]. intros x y. unfold vote_step. destruct (blocks !! x) as [xb|] eqn:Hx; [|done].
  simpl. destruct (root_slot <? b_slot xb); [|done]. destruct (decide _) as [Hy|]; [|done]. intros [= <-].
  split; [by apply elem_of_dom_2 in Hx|by apply elem_of_dom].
Qed.

Hypothesis Hdec : slots_decrease blocks.

Lemma vote_path_slots fuel r b :
  blocks !! r = Some b -> (N.to_nat (b_slot b) < fuel)%nat -> vote_path fuel blocks root_slot r b <> Diverge.
Proof.
  revert r b. induction fuel as [|fuel IH]; intros r b Hb Hf; [lia|]. cbn [vote_path].
  destruct (root_slot <? b_slot b); [|done]. destruct (blocks !! b_parent_root b) as [p|] eqn:Hp; simpl; [|done].
  pose proof (Hdec r b p Hb Hp). pose proof (IH _ p Hp ltac:(lia)). by destruct (vote_path fuel _ _ _ p).
Qed.

Lemma vote_path_ends r b : blocks !! r = Some b -> vote_path (S (size blocks)) blocks root_slot r b <> Diverge.
Proof.
  intros Hb Hd. apply (vote_path_slots (S (N.to_nat (b_slot b))) r b Hb); [lia|].
  pose proof (weigh_walk_fuel ∅ r b Hb) as Hf. rewrite weigh_walk_path, Hd in Hf.
  specialize (Hf eq_refl (S (N.to_nat (b_slot b)))). rewrite weigh_walk_path in Hf.
  by destruct (vote_path (S (N.to_nat _)) _ _ _ _).
Qed.

Lemma vote_path_total r b :
  rooted_above blocks root_slot -> blocks !! r = Some b ->
  exists path, vote_path (S (size blocks)) blocks root_slot r b = Ok path.
Proof.
  intros Hr Hb. pose proof (vote_path_ends r b Hb) as Hterm.
  revert Hterm. generalize (S (size blocks)). intros fuel. revert r b Hb.
  induction fuel as [|fuel IH]; intros r b Hb; [done|]. cbn [vote_path].
  destruct (N.ltb_spec root_slot (b_slot b)) as [Hlt|]; [|by eexists].
  destruct (Hr r b Hb Hlt) as [p Hp]. rewrite Hp. simpl. intros Hterm.
  destruct (IH _ p Hp) as [path Hpath]; [by intros He; rewrite He in Hterm|]. rewrite Hpath. by eexists.
Qed.

Lemma vote_path_spec fuel r b path :
  blocks !! r = Some b -> vote_path fuel blocks root_slot r b = Ok path ->
  NoDup path /\ forall a, a ∈ path <-> exists ab, blocks !! a = Some ab /\ root_slot < b_slot ab /\ ancestor blocks a r.
Proof.
  revert r b path. induction fuel as [|fuel IH]; intros r b path Hb; [done|]. cbn [vote_path].
  destruct (N.ltb_spec root_slot (b_slot b)) as [Hlt|Hge]; intros Hv.
  - destruct (blocks !! b_parent_root b) as [p|] eqn:Hp; simpl in Hv; [|done]. inv_ok.
    destruct (IH _ _ _ Hp Ha) as [Hnd Hin]. split.
    + constructor; [|done]. rewrite Hin. intros (ab & Hab & _ & Hanc). pose proof (Hdec r b p Hb Hp). pose proof (ancestor_slot _ _ _ _ _ Hdec Hanc Hb Hp) as [? _]. lia.
    + intros x. rewrite elem_of_cons, Hin. split.
      * intros [->|(ab & Hab & Hs & Hanc)]; [exists b; split_and!; [done|done|apply rtc_refl]|].
        exists ab. split_and!; [done|done|]. eapply rtc_l; [|exact Hanc]. by exists b; split_and!; [| |exists p].
      * intros (ab & Hab & Hs & Hanc). inversion Hanc as [|? p0 ? (b0 & Hb0 & Hp0 & _) Hrest]; subst; [by left|right].
        simplify_eq. exists ab. by split_and!.
  - simplify_eq. split; [constructor|]. intros a. rewrite elem_of_nil. split; [done|].
    intros (ab & Hab & Hs & Hanc). pose proof (ancestor_slot _ _ _ _ _ Hdec Hanc Hab Hb) as [? _]. lia.
Qed.

Lemma cp_path_spec cp path :
  cp_path blocks root_slot cp = Ok path ->
  NoDup path /\
  forall a, a ∈ path <-> exists ab, blocks !! a = Some ab /\ root_slot < b_slot ab /\ ancestor blocks a (cp_root cp).
Proof.
  unfold cp_path. destruct (blocks !! cp_root cp) as [b|] eqn:Hb; [by apply vote_path_spec|].
  intros [= <-]. split; [constructor|]. intros a. rewrite elem_of_nil. split; [done|].
  intros (ab & Hab & _ & Hanc). inversion Hanc as [|? ? ? (? & ? & _)]; simplify_eq.
Qed.

End Paths.

Lemma occurrences_app r l k : occurrences r (l ++ k) = occurrences r l + occurrences r k.
Proof. unfold occurrences. by rewrite filter_app, len_app. Qed.

Lemma occurrences_NoDup r l : NoDup l -> occurrences r l = if decide (r ∈ l) then 1 else 0.
Proof.
  unfold occurrences. induction 1 as [|x l Hx _ IH]; [done|]. rewrite filter_cons.
  destruct (decide (x = r)) as [->|Hne].
  - rewrite decide_True by (by left). rewrite len_cons, IH. by rewrite decide_False.
  - rewrite IH. destruct (decide (r ∈ l)); [by rewrite decide_True by (by right)|].
    rewrite decide_False; [done|]. by intros [->|]%elem_of_cons.
Qed.

(** Counting occurrences over all paths counts the voters below a block. *)
Lemma count_voters blocks root_slot r entries paths :
  slots_decrease blocks -> NoDup entries.*1 ->
  omapM (cp_path blocks root_slot) entries.*2 = Ok paths ->
  exists voters : gset ValidatorIndex,
    occurrences r (concat paths) = N.of_nat (size voters) /\
    forall v, v ∈ voters <->
      exists cp b, (v, cp) ∈ entries /\ blocks !! r = Some b /\ root_slot < b_slot b /\ ancestor blocks r (cp_root cp).
Proof.
  intros Hd. revert paths. induction entries as [|[v cp] entries IH]; intros paths Hnd.
  - intros [= <-]. exists ∅. split; [by rewrite size_empty|]. set_solver.
  - rewrite !fmap_cons. cbn [omapM snd]. rewrite fmap_cons in Hnd. apply NoDup_cons in Hnd as [Hv Hnd]. intros H. inv_ok.
    destruct (IH _ Hnd Ha0) as (voters & Hocc & Hin). destruct (cp_path_spec _ _ Hd _ _ Ha) as [Hpn Hpath].
    assert (Hfresh : v ∉ voters).
    { rewrite Hin. intros (cp' & _ & Hcp & _). apply Hv. apply list_elem_of_fmap. by exists (v, cp'). }
    cbn [concat]. rewrite occurrences_app, Hocc, (occurrences_NoDup r a Hpn).
    destruct (decide (r ∈ a)) as [Hr|Hr]; rewrite Hpath in Hr.
    + exists ({[v]} ∪ voters). split; [rewrite size_union, size_singleton by set_solver; lia|].
      intros w. rewrite elem_of_union, elem_of_singleton, Hin. setoid_rewrite elem_of_cons. naive_solver.
    + exists voters. split; [lia|]. intros w. rewrite Hin. setoid_rewrite elem_of_cons. naive_solver.
Qed.

Section Head.
Context {o : HashOrder} {Ho : HashOrderLaws o}.

Lemma accumulate_weights_lmd blocks root_slot votes weights :
  slots_decrease blocks -> accumulate_weights blocks root_slot votes = Ok weights ->
  lmd_weight blocks root_slot votes (weight_of weights).
Proof.
  unfold accumulate_weights. rewrite weigh_votes_paths. intros Hd H r. inv_ok.
  destruct (count_voters blocks root_slot r (hash_iter votes) a Hd (NoDup_hash_keys votes) Ha) as (voters & Hocc & Hin).
  exists voters. rewrite weight_of_bump, Hocc. unfold weight_of at 1. rewrite lookup_empty. split; [done|].
  intros v. rewrite Hin. by setoid_rewrite elem_of_hash_iter.
Qed.

Lemma accumulate_weights_total blocks root_slot votes :
  slots_decrease blocks -> rooted_above blocks root_slot ->
  exists weights, accumulate_weights blocks root_slot votes = Ok weights.
Proof.
  intros Hd Hr. unfold accumulate_weights. rewrite weigh_votes_paths. generalize (hash_iter votes).*2. intros cps.
  assert (Hm : exists paths, omapM (cp_path blocks root_slot) cps = Ok paths); [|destruct Hm as [? ->]; by eexists].
  induction cps as [|cp cps [paths IH]]; [by eexists|]. cbn [omapM]. rewrite IH. unfold cp_path.
  destruct (blocks !! cp_root cp) as [b|] eqn:Hb; [|by eexists].
  destruct (vote_path_total blocks root_slot Hd _ b Hr Hb) as [path ->]. by eexists.
Qed.

(** The accumulation ends in weights or in the error of a missing parent. *)
Definition walk_outcome {A} (c : Outcome ForkchoiceError A) : Prop :=
  (exists a, c = Ok a) \/ exists r, c = Err (ParentBlockNotFound r).

Lemma accumulate_weights_outcome blocks root_slot votes :
  slots_decrease blocks -> walk_outcome (accumulate_weights blocks root_slot votes).
Proof.
  intros Hd. unfold accumulate_weights. rewrite weigh_votes_paths. generalize (hash_iter votes).*2. intros cps.
  assert (Hv : forall fuel r b, blocks !! r = Some b -> vote_path fuel blocks root_slot r b <> Diverge ->
                 walk_outcome (vote_path fuel blocks root_slot r b)).
  { induction fuel as [|fuel IH]; intros r b Hb; cbn [vote_path]; [done|].
    destruct (root_slot <? b_slot b); [|by left; eexists].
    destruct (blocks !! b_parent_root b) as [p|] eqn:Hp; simpl; [|by right; eexists]. intros Hn.
    destruct (IH _ p Hp) as [[path ->]|[x ->]]; [by intros He; rewrite He in Hn|by left; eexists|by right; eexists]. }
  assert (Hc : forall cp, walk_outcome (cp_path blocks root_slot cp)).
  { intros cp. unfold cp_path. destruct (blocks !! cp_root cp) as [b|] eqn:Hb; [|by left; eexists].
    apply Hv; [done|]. by apply vote_path_ends. }
  assert (Hm : walk_outcome (omapM (cp_path blocks root_slot) cps)).
  { induction cps as [|cp cps IH]; cbn [omapM]; [by left; eexists|].
    destruct (Hc cp) as [[path ->]|[x ->]]; simpl; [|by right; eexists].
    destruct IH as [[paths ->]|[x ->]]; [by left; eexists|by right; eexists]. }
  destruct Hm as [[paths ->]|[x ->]]; [by left; eexists|by right; eexists].
Qed.

Lemma get_head_origin blocks root :
  match (if bool_decide (root = bv_zero 32) then ok_or (min_block_root blocks) NoBlocksAvailable else Ok root) with
  | Ok origin => ghost_origin blocks root origin /\ (blocks !! origin = None -> origin = root /\ root <> bv_zero 32)
  | Err e => e = NoBlocksAvailable /\ root = bv_zero 32 /\ blocks = ∅
  | _ => False
  end.
Proof.
  unfold ghost_origin. case_bool_decide as Hz; [|done]. pose proof (min_block_root_spec blocks) as Hm.
  destruct (min_block_root blocks) as [origin|]; [|done]. split; [done|]. intros Hn.
  destruct Hm as (ob & Hob & _). congruence.
Qed.

(** Descending from a tracked origin with the weights of the votes. *)
Lemma descend_weights blocks root_slot weights votes min_score origin ob :
  slots_decrease blocks -> blocks !! origin = Some ob ->
  accumulate_weights blocks root_slot votes = Ok weights ->
  exists h, descend (S (size blocks)) (children_map blocks weights min_score) weights origin = Ok h /\
    lmd_weight blocks root_slot votes (weight_of weights) /\
    ghost_descent blocks (weight_of weights) min_score origin h.
Proof.
  intros Hd Hob Hw. destruct (descend_total (S (size blocks)) blocks weights min_score origin ob Hd Hob) as [h Hh].
  { pose proof (size_blocks_from blocks (b_slot ob + 1)). lia. }
  exists h. split_and!; [done|by apply accumulate_weights_lmd|by eapply descend_sound].
Qed.

(** What clients of the head selection rely on: from a tracked root, with no
    block detached above the lowest one, a head is found; it is tracked, it
    descends from the origin, and it is the origin or reaches the threshold. *)
Lemma get_head_tracked blocks root rb low votes min_score :
  slots_decrease blocks -> blocks !! root = Some rb ->
  rooted_above blocks low -> (forall r b, blocks !! r = Some b -> low <= b_slot b) ->
  exists h origin ob weight, get_fork_choice_head blocks root votes min_score = Ok h /\ is_Some (blocks !! h) /\
    ghost_origin blocks root origin /\ blocks !! origin = Some ob /\ lmd_weight blocks (b_slot ob) votes weight /\
    ghost_descent blocks weight min_score origin h.
Proof.
  intros Hd Hr Hlow Hmin. unfold get_fork_choice_head. pose proof (get_head_origin blocks root) as Horigin.
  destruct (if bool_decide (root = bv_zero 32) then _ else _) as [origin|e| |]; cbn [obind]; [|exfalso|done..].
  2:{ destruct Horigin as (_ & _ & ->). by rewrite lookup_empty in Hr. }
  destruct Horigin as [Ho1 Ho2]. destruct (blocks !! origin) as [ob|] eqn:Hob; cbn [ok_or obind].
  2:{ destruct (Ho2 eq_refl) as [-> _]. congruence. }
  destruct (accumulate_weights_total blocks (b_slot ob) votes Hd) as [w Hw].
  { intros r b Hb Hlt. apply (Hlow r b Hb). pose proof (Hmin _ _ Hob). lia. }
  rewrite Hw. cbn [obind].
  destruct (descend_weights blocks (b_slot ob) w votes min_score origin ob Hd Hob Hw) as (h & -> & Hl & Hg).
  exists h, origin, ob, (weight_of w). split_and!; [done| |done|done|done|done].
  clear -Hg Hob. induction Hg as [|? c ? [(b & Hb & _) _] _ IH] in ob, Hob |- *; [by eexists|by eapply IH].
Qed.

(** C9. On a block map whose slots decrease along parent links,
    [get_fork_choice_head] returns the LMD-GHOST head: the end of the descent, by
    heaviest child and larger root on a tie, from the requested block (from the
    lowest one for the zero root), where a block weighs the validators whose vote
    is for it or for a descendant and children below [min_score] are ignored.  The
    walk fails only if the origin is unknown, if there is no block, or if a block
    above the origin has no tracked parent; it never panics and it always ends. *)
Theorem ghost_head_correct blocks root votes min_score :
  slots_decrease blocks ->
  match get_fork_choice_head blocks root votes min_score with
  | Ok h => exists origin ob weight, ghost_origin blocks root origin /\ blocks !! origin = Some ob /\
              lmd_weight blocks (b_slot ob) votes weight /\ ghost_descent blocks weight min_score origin h
  | Err NoBlocksAvailable => root = bv_zero 32 /\ blocks = ∅
  | Err (UnknownRootBlock r) => r = root /\ r <> bv_zero 32 /\ blocks !! r = None
  | Err (ParentBlockNotFound _) =>
      exists origin ob, ghost_origin blocks root origin /\ blocks !! origin = Some ob /\ ~ rooted_above blocks (b_slot ob)
  | _ => False
  end.
Proof.
  intros Hd. unfold get_fork_choice_head. pose proof (get_head_origin blocks root) as Horigin.
  destruct (if bool_decide (root = bv_zero 32) then _ else _) as [origin|e| |]; cbn [obind];
    [|by destruct Horigin as [-> ?]|done..].
  destruct Horigin as [Ho1 Ho2]. destruct (blocks !! origin) as [ob|] eqn:Hob; cbn [ok_or obind].
  2:{ destruct (Ho2 eq_refl) as [-> ?]. done. }
  destruct (accumulate_weights_outcome blocks (b_slot ob) votes Hd) as [[weights Hw]|[r Hw]]; rewrite Hw; cbn [obind].
  - destruct (descend_weights blocks (b_slot ob) weights votes min_score origin ob Hd Hob Hw) as (h & -> & ? & ?).
    by exists origin, ob, (weight_of weights).
  - exists origin, ob. split_and!; [done|done|]. intros Hr.
    destruct (accumulate_weights_total blocks (b_slot ob) votes Hd Hr) as [w Hw']. congruence.
Qed.

End Head.

(** ** Independence of the hash-map order *)

Section Orders.
Context (o1 o2 : HashOrder) {Ho1 : HashOrderLaws o1} {Ho2 : HashOrderLaws o2}.

Lemma accumulate_weights_order blocks root_slot votes w1 :
  accumulate_weights (o:=o1) blocks root_slot votes = Ok w1 ->
  exists w2, accumulate_weights (o:=o2) blocks root_slot votes = Ok w2 /\ forall r, weight_of w1 r = weight_of w2 r.
Proof.
  unfold accumulate_weights. rewrite !weigh_votes_paths. intros H. inv_ok.
  assert (Hp : (hash_iter (HashOrder:=o1) votes).*2 ≡ₚ (hash_iter (HashOrder:=o2) votes).*2).
  { apply fmap_Permutation. by rewrite !hash_iter_perm. }
  destruct (omapM_perm _ _ _ _ Hp Ha) as (paths & -> & Hpp). eexists. split; [done|].
  intros r. rewrite !weight_of_bump. f_equal. apply occurrences_perm. by rewrite Hpp.
Qed.

Lemma eligible_ext blocks weight weight' min_score r c :
  (forall r, weight r = weight' r) ->
  eligible blocks weight min_score r c <-> eligible blocks weight' min_score r c.
Proof. intros Hw. unfold eligible. by rewrite Hw. Qed.

Lemma heaviest_child_ext blocks weight weight' min_score r c :
  (forall r, weight r = weight' r) ->
  heaviest_child blocks weight min_score r c -> heaviest_child blocks weight' min_score r c.
Proof.
  intros Hw [He Hm]. split; [by eapply eligible_ext; [|exact He]|].
  intros c' Hc'. rewrite <-!Hw. apply Hm. by eapply eligible_ext; [|exact Hc'].
Qed.

Lemma best_child_order blocks w1 w2 min_score r :
  (forall r, weight_of w1 r = weight_of w2 r) ->
  best_child (children_map (o:=o1) blocks w1 min_score) w1 r = best_child (children_map (o:=o2) blocks w2 min_score) w2 r.
Proof.
  intros Hw. pose proof (best_child_spec (o:=o1) blocks w1 min_score r) as H1.
  pose proof (best_child_spec (o:=o2) blocks w2 min_score r) as H2.
  destruct (best_child _ w1 r) as [c1|], (best_child _ w2 r) as [c2|]; [| | |done].
  - f_equal. eapply heaviest_child_unique; [|exact H2]. by eapply heaviest_child_ext.
  - destruct H1 as [He _]. destruct (H2 c1). by eapply eligible_ext; [|exact He].
  - destruct H2 as [He _]. destruct (H1 c2). by eapply eligible_ext; [|exact He].
Qed.

(** The head does not depend on the order in which the hash maps of votes
    and blocks are iterated, which differs from node to node and from run to
    run: whatever the block tree, two orders that visit every entry once give the
    same head. *)
Theorem ghost_head_order_independent blocks root votes min_score h :
  get_fork_choice_head (o:=o1) blocks root votes min_score = Ok h ->
  get_fork_choice_head (o:=o2) blocks root votes min_score = Ok h.
Proof.
  unfold get_fork_choice_head. intros H. apply obind_Ok_inv in H as (origin & Hor & H).
  assert (Hor2 : (if bool_decide (root = bv_zero 32) then ok_or (min_block_root (o:=o2) blocks) NoBlocksAvailable
                  else Ok root) = Ok origin).
  { case_bool_decide; [|done]. pose proof (min_block_root_spec (o:=o1) blocks) as H1.
    pose proof (min_block_root_spec (o:=o2) blocks) as H2.
    destruct (min_block_root (o:=o1) blocks) as [r1|]; simplify_eq/=. destruct H1 as (b1 & Hb1 & Hm1).
    destruct (min_block_root (o:=o2) blocks) as [r2|]; simpl; [|by subst blocks; rewrite lookup_empty in Hb1].
    destruct H2 as (b2 & Hb2 & Hm2). f_equal.
    destruct (key_le_cases _ _ (Hm2 _ _ Hb1)) as [Hlt|]; [|done]. by destruct (key_lt_not_le _ _ Hlt (Hm1 _ _ Hb2)). }
  rewrite Hor2. cbn [obind]. apply obind_Ok_inv in H as (ob & -> & H). cbn [obind].
  apply obind_Ok_inv in H as (w1 & Hw1 & Hd). destruct (accumulate_weights_order _ _ _ _ Hw1) as (w2 & -> & Hw).
  cbn [obind]. rewrite <-Hd. generalize (S (size blocks)) as fuel. clear -Ho1 Ho2 Hw. intros fuel. revert origin.
  induction fuel as [|fuel IH]; intros r; [done|]. cbn [descend]. rewrite (best_child_order _ w1 w2) by done.
  by destruct (best_child _ w2 r).
Qed.

End Orders.

(** ** A fork with three votes *)

Definition tree_root_at (k : N) : Bytes32 := scalar_chunk (k + 1).
Definition tree_block (slot : Slot) (parent : Bytes32) : Block := mkBlock slot 0 parent (bv_zero 32) BlockBody_default.

(** Two children of the block of slot 0, the second of them with a child. *)
Definition example_tree : BlockMap :=
  list_to_map [(tree_root_at 0, tree_block 0 (bv_zero 32)); (tree_root_at 1, tree_block 1 (tree_root_at 0));
               (tree_root_at 2, tree_block 2 (tree_root_at 0)); (tree_root_at 3, tree_block 3 (tree_root_at 2))].

Definition example_heads : gmap ValidatorIndex Checkpoint :=
  list_to_map [(0, mkCheckpoint (tree_root_at 1) 1); (1, mkCheckpoint (tree_root_at 2) 2);
               (2, mkCheckpoint (tree_root_at 3) 3)].

Lemma example_tree_cases r b :
  example_tree !! r = Some b ->
  r = tree_root_at 0 /\ b = tree_block 0 (bv_zero 32) \/ r = tree_root_at 1 /\ b = tree_block 1 (tree_root_at 0) \/
  r = tree_root_at 2 /\ b = tree_block 2 (tree_root_at 0) \/ r = tree_root_at 3 /\ b = tree_block 3 (tree_root_at 2).
Proof.
  intros Hb. apply elem_of_list_to_map in Hb; [set_solver|].
  apply (bool_decide_unpack _). vm_compute. exact I.
Qed.

Lemma example_tree_decreases : slots_decrease example_tree.
Proof.
  intros r b p Hb Hp.
  destruct (example_tree_cases r b Hb) as [[-> ->]|[[-> ->]|[[-> ->]|[-> ->]]]]; vm_compute in Hp; try discriminate Hp;
    injection Hp as <-; reflexivity.
Qed.

Lemma ok_bytes {E} (c : Outcome E Bytes32) (r : Bytes32) :
  match c with Ok v => Some (as_slice v) | _ => None end = Some (as_slice r) -> c = Ok r.
Proof. destruct c; intros H; simplify_eq. f_equal. by apply bytevector_eq. Qed.

Lemma ghost_head_correct_witness :
  exists origin ob weight, ghost_origin example_tree (tree_root_at 0) origin /\ example_tree !! origin = Some ob /\
    lmd_weight example_tree (b_slot ob) example_heads weight /\
    ghost_descent example_tree weight 0 origin (tree_root_at 3).
Proof.
  pose proof (ghost_head_correct (o:=order_forward) (Ho:=order_forward_laws) example_tree (tree_root_at 0)
                example_heads 0 example_tree_decreases) as H.
  assert (Hh : get_fork_choice_head (o:=order_forward) example_tree (tree_root_at 0) example_heads 0 = Ok (tree_root_at 3))
    by (apply ok_bytes; vm_compute; reflexivity).
  rewrite Hh in H. exact H.
Defined.

Lemma ghost_head_order_independent_witness :
  get_fork_choice_head (o:=order_backward) example_tree (bv_zero 32) example_heads 2 = Ok (tree_root_at 2).
Proof.
  apply (ghost_head_order_independent order_forward order_backward
           (Ho1:=order_forward_laws) (Ho2:=order_backward_laws)).
  apply ok_bytes. vm_compute. reflexivity.
Defined.
