(* ===== verification/Store.v ===== *)
(** * The fork-choice store

    Models [Store] of [crates/forkchoice/src/store.rs]: the two anchors, the
    4-phase clock, attestation validation and the two vote pools, the head and
    safe-target hooks, block tracking with checkpoint adoption, and the choice of
    the attestation target.  A method on [&mut self] is a computation on the
    store; [Arc<State>] is the state it points to, which is never mutated.
    Definitions only: the invariant and the theorems are in [StoreInv]. *)

From stdpp Require Import base numbers list gmap strings sorting.
From Stdlib Require Import Strings.Byte ZArith Lia.
From S2P Require Import Prelude Config Types Merkle Codec Slot Containers State Stf Ancestry Ghost.

Abbreviation VotePool := (gmap ValidatorIndex SignedAttestation).

Record Store := mkStore {
  s_time : Time;
  s_config : ProtocolConfig;
  s_head : Bytes32;
  s_safe_target : Bytes32;
  s_latest_justified : Checkpoint;
  s_latest_finalized : Checkpoint;
  s_blocks : BlockMap;
  s_states : gmap Bytes32 State;
  s_block_order : list Bytes32;
  s_latest_known_votes : VotePool;
  s_latest_new_votes : VotePool;
}.

Definition Store_default : Store :=
  mkStore 0 ProtocolConfig_default (bv_zero 32) (bv_zero 32) Checkpoint_default Checkpoint_default ∅ ∅ [] ∅ ∅.

(** Assignments to one field. *)
Definition set_time (v : Time) (s : Store) : Store :=
  mkStore v (s_config s) (s_head s) (s_safe_target s) (s_latest_justified s) (s_latest_finalized s)
    (s_blocks s) (s_states s) (s_block_order s) (s_latest_known_votes s) (s_latest_new_votes s).
Definition set_head (v : Bytes32) (s : Store) : Store :=
  mkStore (s_time s) (s_config s) v (s_safe_target s) (s_latest_justified s) (s_latest_finalized s)
    (s_blocks s) (s_states s) (s_block_order s) (s_latest_known_votes s) (s_latest_new_votes s).
Definition set_safe_target (v : Bytes32) (s : Store) : Store :=
  mkStore (s_time s) (s_config s) (s_head s) v (s_latest_justified s) (s_latest_finalized s)
    (s_blocks s) (s_states s) (s_block_order s) (s_latest_known_votes s) (s_latest_new_votes s).
Definition set_checkpoints (j f : Checkpoint) (s : Store) : Store :=
  mkStore (s_time s) (s_config s) (s_head s) (s_safe_target s) j f
    (s_blocks s) (s_states s) (s_block_order s) (s_latest_known_votes s) (s_latest_new_votes s).
Definition set_blocks (blocks : BlockMap) (states : gmap Bytes32 State) (order : list Bytes32) (s : Store) : Store :=
  mkStore (s_time s) (s_config s) (s_head s) (s_safe_target s) (s_latest_justified s) (s_latest_finalized s)
    blocks states order (s_latest_known_votes s) (s_latest_new_votes s).
Definition set_votes (known new : VotePool) (s : Store) : Store :=
  mkStore (s_time s) (s_config s) (s_head s) (s_safe_target s) (s_latest_justified s) (s_latest_finalized s)
    (s_blocks s) (s_states s) (s_block_order s) known new.

Abbreviation FCM := (M Store ForkchoiceError).

(** ** Vote pools *)

Definition vote_slot (sv : SignedAttestation) : Slot := ad_slot (att_data (sa_message sv)).

Definition insert_if_newer (map : VotePool) (validator : ValidatorIndex) (vote : SignedAttestation) : bool * VotePool :=
  match map !! validator with
  | Some existing => if vote_slot vote <=? vote_slot existing then (false, map) else (true, <[validator := vote]> map)
  | None => (true, <[validator := vote]> map)
  end.

Definition evict_if_older (map : VotePool) (validator : ValidatorIndex) (newer_than : Slot) : bool * VotePool :=
  match map !! validator with
  | Some e => if vote_slot e <? newer_than then (true, delete validator map) else (false, map)
  | None => (false, map)
  end.

Definition vote_head_checkpoints (votes : VotePool) : gmap ValidatorIndex Checkpoint :=
  (fun sv => ad_head (att_data (sa_message sv))) <$> votes.

Definition normalize_genesis_checkpoint (checkpoint : Checkpoint) (anchor_slot : Slot) (anchor_root : Bytes32)
    : Checkpoint :=
  if slot_is_zero anchor_slot && bool_decide (checkpoint = Checkpoint_default)
  then mkCheckpoint anchor_root 0 else checkpoint.

(** ** Blocks *)

(** [blocks.insert] overwrites; the state and the order are written only for a
    new root. *)
Definition insert_block (root : Bytes32) (block : Block) (state : State) (self : Store) : Store :=
  match s_blocks self !! root with
  | None => set_blocks (<[root := block]> (s_blocks self)) (<[root := state]> (s_states self))
              (s_block_order self ++ [root]) self
  | Some _ => set_blocks (<[root := block]> (s_blocks self)) (s_states self) (s_block_order self) self
  end.

Definition lookup_block (self : Store) (root : Bytes32) (err : Bytes32 -> ForkchoiceError)
    : Outcome ForkchoiceError Block :=
  ok_or (s_blocks self !! root) (err root).

Definition has_block (self : Store) (root : Bytes32) : bool := bool_decide (is_Some (s_blocks self !! root)).

Definition head_validator_count (self : Store) : Outcome ForkchoiceError N :=
  let? state := ok_or (s_states self !! s_head self) (HeadStateNotFound (s_head self)) in
  Ok (num_validators state).

Definition should_adopt_checkpoint (self : Store) (candidate current : Checkpoint) : bool :=
  (cp_slot current <? cp_slot candidate) && has_block self (cp_root candidate).

Definition adopt_post_state_checkpoints (latest_justified latest_finalized : Checkpoint) (self : Store) : Store :=
  set_checkpoints
    (if should_adopt_checkpoint self latest_justified (s_latest_justified self)
     then latest_justified else s_latest_justified self)
    (if should_adopt_checkpoint self latest_finalized (s_latest_finalized self)
     then latest_finalized else s_latest_finalized self) self.

Section Store.
Context {sha : Sha256} {o : HashOrder}.

Definition seed_anchor (state : State) (anchor_block : Block)
    (checkpoints : Bytes32 -> Slot -> Checkpoint * Checkpoint) : Outcome ForkchoiceError Store :=
  let want_state_root := hash_tree_root state in
  if negb (bool_decide (b_state_root anchor_block = want_state_root))
  then Err (AnchorStateRootMismatch (b_state_root anchor_block) want_state_root)
  else
    let anchor_root := hash_tree_root anchor_block in
    let? time := ok_or (checked_mul (b_slot anchor_block) INTERVALS_PER_SLOT)
                   (AnchorTimeOverflow (b_slot anchor_block) INTERVALS_PER_SLOT) in
    let '(latest_justified, latest_finalized) := checkpoints anchor_root (b_slot anchor_block) in
    Ok (insert_block anchor_root anchor_block state
          (mkStore time (st_config state) anchor_root anchor_root latest_justified latest_finalized ∅ ∅ [] ∅ ∅)).

Definition from_anchor (state : State) (anchor_block : Block) : Outcome ForkchoiceError Store :=
  seed_anchor state anchor_block (fun anchor_root anchor_slot =>
    (normalize_genesis_checkpoint (st_latest_justified state) anchor_slot anchor_root,
     normalize_genesis_checkpoint (st_latest_finalized state) anchor_slot anchor_root)).

Definition from_trusted_head (state : State) (anchor_block : Block) : Outcome ForkchoiceError Store :=
  seed_anchor state anchor_block (fun anchor_root anchor_slot =>
    let cp := mkCheckpoint anchor_root anchor_slot in (cp, cp)).

Definition track_block (block : Block) (post_state : State) : FCM bool :=
  let want_state_root := hash_tree_root post_state in
  if negb (bool_decide (b_state_root block = want_state_root))
  then mthrow (BlockStateRootMismatch (b_state_root block) want_state_root)
  else
    let root := hash_tree_root block in
    let! self := mget in
    if has_block self root then mret false
    else if negb (bool_decide (b_parent_root block = bv_zero 32)) && negb (has_block self (b_parent_root block))
    then mthrow (ParentBlockNotFound (b_parent_root block))
    else
      let! _ := mmodify (insert_block root block post_state) in
      let! _ := mmodify (adopt_post_state_checkpoints (st_latest_justified post_state) (st_latest_finalized post_state)) in
      mret true.

(** ** Head and safe target *)

Definition update_head : FCM unit :=
  let! self := mget in
  let checkpoints := vote_head_checkpoints (s_latest_known_votes self) in
  let! head := mlift (get_fork_choice_head (s_blocks self) (cp_root (s_latest_justified self)) checkpoints 0) in
  mmodify (set_head head).

(** [mem::take] and [extend]: the pending entries win. *)
Definition accept_new_votes : FCM unit :=
  let! _ := mmodify (fun self => set_votes (s_latest_new_votes self ∪ s_latest_known_votes self) ∅ self) in
  update_head.

Definition update_safe_target : FCM unit :=
  let! self := mget in
  let! count := mlift (head_validator_count self) in
  let min_target_score := div_ceil (saturating_mul count 2) 3 in
  let checkpoints := vote_head_checkpoints (s_latest_new_votes self) in
  let! target := mlift (get_fork_choice_head (s_blocks self) (cp_root (s_latest_justified self)) checkpoints
                          min_target_score) in
  mmodify (set_safe_target target).

Definition get_proposal_head : FCM Bytes32 :=
  let! _ := accept_new_votes in
  let! self := mget in
  mret (s_head self).

(** ** Clock *)

Definition tick_interval (has_proposal : bool) : FCM unit :=
  let! self := mget in
  let! next := mlift (ok_or (checked_advance (s_time self)) (TimeOverflow (s_time self))) in
  let! _ := mmodify (set_time next) in
  match time_phase next with
  | Proposal => if has_proposal then accept_new_votes else mret tt
  | Idle => mret tt
  | UpdateSafeTarget => update_safe_target
  | AcceptNewVotes => accept_new_votes
  end.

(** ** Attestations *)

Definition current_vote_slot (self : Store) : Slot := time_slot (s_time self).

Definition resolved_source_root (self : Store) (vote : AttestationData) : Bytes32 :=
  let is_genesis_placeholder :=
    bool_decide (ad_source vote = Checkpoint_default)
    && slot_is_zero (ad_slot vote)
    && slot_is_zero (cp_slot (ad_target vote))
    && bool_decide (cp_root (ad_target vote) = cp_root (s_latest_justified self))
    && slot_is_zero (cp_slot (s_latest_justified self))
    && match s_blocks self !! cp_root (s_latest_justified self) with
       | Some block => slot_is_zero (b_slot block)
       | None => false
       end in
  if is_genesis_placeholder then cp_root (s_latest_justified self) else cp_root (ad_source vote).

Definition check_slot (entry : Slot * Slot * ForkchoiceError) : Outcome ForkchoiceError unit :=
  let '(block_slot, declared_slot, mismatch) := entry in
  if negb (block_slot =? declared_slot) then Err mismatch else Ok tt.

Definition validate_attestation (self : Store) (vote : AttestationData) : Outcome ForkchoiceError unit :=
  let? source_block := lookup_block self (resolved_source_root self vote) UnknownSourceBlock in
  let? target_block := lookup_block self (cp_root (ad_target vote)) UnknownTargetBlock in
  let? head_block := lookup_block self (cp_root (ad_head vote)) UnknownAttestationHeadBlock in
  if (b_slot target_block <? b_slot source_block) || (cp_slot (ad_target vote) <? cp_slot (ad_source vote))
  then Err SourceSlotExceedsTarget
  else if cp_slot (ad_head vote) <? cp_slot (ad_target vote)
  then Err (HeadSlotBelowTarget (cp_slot (ad_head vote)) (cp_slot (ad_target vote)))
  else
    let? _ := ofold (fun _ entry => check_slot entry)
                [(b_slot source_block, cp_slot (ad_source vote), SourceCheckpointSlotMismatch);
                 (b_slot target_block, cp_slot (ad_target vote), TargetCheckpointSlotMismatch);
                 (b_slot head_block, cp_slot (ad_head vote), HeadCheckpointSlotMismatch)] tt in
    let current := current_vote_slot self in
    let? limit := ok_or (advance current) (AttestationFutureLimitOverflow current) in
    if limit <? ad_slot vote then Err (AttestationTooFarInFuture (ad_slot vote) limit) else Ok tt.

Definition validate_validator_index (self : Store) (validator_id : ValidatorIndex) : Outcome ForkchoiceError unit :=
  let? num_validators := head_validator_count self in
  if num_validators <=? validator_id then Err (ValidatorIndexOutOfRange validator_id num_validators) else Ok tt.

Definition process_attestation (signed_vote : SignedAttestation) (is_from_block : bool) : FCM bool :=
  let! self := mget in
  let validator := att_validator_id (sa_message signed_vote) in
  let! _ := mlift (validate_validator_index self validator) in
  let! _ := mlift (validate_attestation self (att_data (sa_message signed_vote))) in
  if is_from_block then
    let '(promoted, known) := insert_if_newer (s_latest_known_votes self) validator signed_vote in
    let '(evicted, new) := evict_if_older (s_latest_new_votes self) validator (vote_slot signed_vote) in
    let! _ := mmodify (set_votes known new) in
    mret (promoted || evicted)
  else
    let '(inserted, new) := insert_if_newer (s_latest_new_votes self) validator signed_vote in
    let! _ := mmodify (set_votes (s_latest_known_votes self) new) in
    mret inserted.

(** ** The attestation target *)

Definition parent_of (self : Store) (block : Block) : Outcome ForkchoiceError (Bytes32 * Block) :=
  let? parent_block := lookup_block self (b_parent_root block) ParentBlockNotFound in
  Ok (b_parent_root block, parent_block).

(** [for _ in 0..n { if cursor_block.slot <= floor_slot { break; } .. }]. *)
Fixpoint walk_to_floor (n : nat) (self : Store) (floor_slot : Slot) (at_ : Bytes32 * Block)
    : Outcome ForkchoiceError (Bytes32 * Block) :=
  match n with
  | O => Ok at_
  | S n =>
      if b_slot at_.2 <=? floor_slot then Ok at_
      else let? next := parent_of self at_.2 in walk_to_floor n self floor_slot next
  end.

(** The second walk, on fuel. *)
Fixpoint walk_to_justifiable (fuel : nat) (self : Store) (finalized_slot : Slot) (at_ : Bytes32 * Block)
    : Outcome ForkchoiceError (Bytes32 * Block) :=
  match fuel with
  | O => Diverge
  | S fuel =>
      if (finalized_slot <? b_slot at_.2) && negb (is_justifiable_after (b_slot at_.2) finalized_slot)
      then let? next := parent_of self at_.2 in walk_to_justifiable fuel self finalized_slot next
      else Ok at_
  end.

Definition get_vote_target (self : Store) : Outcome ForkchoiceError Checkpoint :=
  let? head_block := lookup_block self (s_head self) UnknownHeadBlock in
  let? safe_block := lookup_block self (s_safe_target self) UnknownSafeTarget in
  let finalized_slot := cp_slot (s_latest_finalized self) in
  let floor_slot := N.max (b_slot safe_block) finalized_slot in
  let? at_ := walk_to_floor (N.to_nat JUSTIFICATION_LOOKBACK_SLOTS) self floor_slot (s_head self, head_block) in
  let? (cursor, cursor_block) := walk_to_justifiable (S (size (s_blocks self))) self finalized_slot at_ in
  Ok (mkCheckpoint cursor (b_slot cursor_block)).

End Store.
