(* ===== verification/StoreInv.v ===== *)
(** * The invariant of the fork-choice store

    Every operation of [Store] keeps the block tree connected to its anchor with
    slots growing away from it, a valid post-state for every block, and head,
    safe target and justified checkpoint among the tracked blocks.  Hence the
    clock hooks never fail, and the head and safe target are the LMD-GHOST ones. *)

From stdpp Require Import base numbers list gmap strings sorting.
From Stdlib Require Import Strings.Byte ZArith Lia.
From S2P Require Import Prelude Config Types Bitfields Merkle Codec Slot Containers State Stf Justif StfInv Ancestry Ghost Store.

Definition vote_head_root (sv : SignedAttestation) : Bytes32 := cp_root (ad_head (att_data (sa_message sv))).

(** The votes of a pool: keyed by their validator, who is registered, for a
    tracked head. *)
Definition pool_ok (vs : list Validator) (blocks : BlockMap) (pool : VotePool) : Prop :=
  forall v sv, pool !! v = Some sv ->
    att_validator_id (sa_message sv) = v /\ v < len vs /\ is_Some (blocks !! vote_head_root sv) /\ ssz_wf sv.

(** The post-state of a block at [slot]. *)
Record post_state_of (vs : list Validator) (slot : Slot) (st : State) : Prop := {
  ps_inv : state_inv st;
  ps_slot : st_slot st = slot;
  ps_header : bh_slot (st_latest_block_header st) = slot;
  ps_validators : st_validators st = vs;
}.

Section Inv.
Context {sha : Sha256}.

Record store_inv (anchor : Bytes32) (vs : list Validator) (s : Store) : Prop := {
  si_keys : forall r b, s_blocks s !! r = Some b -> hash_tree_root b = r;
  si_anchor : exists ab, s_blocks s !! anchor = Some ab /\ s_blocks s !! b_parent_root ab = None /\
    forall r b, s_blocks s !! r = Some b -> b_slot ab <= b_slot b;
  si_tree : forall r b, s_blocks s !! r = Some b ->
    r = anchor \/ exists pb, s_blocks s !! b_parent_root b = Some pb /\ b_slot pb < b_slot b;
  si_states : forall r b, s_blocks s !! r = Some b ->
    exists st, s_states s !! r = Some st /\ post_state_of vs (b_slot b) st;
  si_states_dom : forall r, is_Some (s_states s !! r) -> is_Some (s_blocks s !! r);
  si_order : NoDup (s_block_order s);
  si_order_dom : forall r, r ∈ s_block_order s <-> is_Some (s_blocks s !! r);
  si_head : is_Some (s_blocks s !! s_head s);
  si_safe_target : is_Some (s_blocks s !! s_safe_target s);
  si_justified : is_Some (s_blocks s !! cp_root (s_latest_justified s));
  si_finalized : forall ab, s_blocks s !! anchor = Some ab -> b_slot ab <= cp_slot (s_latest_finalized s);
  si_known : pool_ok vs (s_blocks s) (s_latest_known_votes s);
  si_new : pool_ok vs (s_blocks s) (s_latest_new_votes s);
  si_time : u64_ok (s_time s);
  si_state_roots : forall r b st, s_blocks s !! r = Some b -> s_states s !! r = Some st -> b_state_root b = hash_tree_root st;
  si_checkpoints : u64_ok (cp_slot (s_latest_justified s)) /\ u64_ok (cp_slot (s_latest_finalized s));
}.

Lemma store_slots_decrease anchor vs s : store_inv anchor vs s -> slots_decrease (s_blocks s).
Proof.
  intros Hi r b p Hb Hp. destruct (si_tree _ _ _ Hi r b Hb) as [->|(pb & Hpb & Hlt)].
  - destruct (si_anchor _ _ _ Hi) as (ab & Hab & Hn & _). congruence.
  - congruence.
Qed.

Lemma store_rooted anchor vs s :
  store_inv anchor vs s ->
  exists low, rooted_above (s_blocks s) low /\ forall r b, s_blocks s !! r = Some b -> low <= b_slot b.
Proof.
  intros Hi. destruct (si_anchor _ _ _ Hi) as (ab & Hab & _ & Hmin). exists (b_slot ab). split; [|done].
  intros r b Hb Hlt. destruct (si_tree _ _ _ Hi r b Hb) as [->|(pb & Hpb & _)]; [|by exists pb].
  simplify_eq. lia.
Qed.

Lemma post_state_num_validators vs slot st : post_state_of vs slot st -> num_validators st = len vs.
Proof. intros [Hi _ _ <-]. by apply num_validators_eq, Hi. Qed.

Lemma head_count anchor vs s : store_inv anchor vs s -> head_validator_count s = Ok (len vs).
Proof.
  intros Hi. destruct (si_head _ _ _ Hi) as [b Hb]. destruct (si_states _ _ _ Hi _ _ Hb) as (st & Hst & Hps).
  unfold head_validator_count. rewrite Hst. simpl. by rewrite (post_state_num_validators _ _ _ Hps).
Qed.

Section Heads.
Context {o : HashOrder} {Ho : HashOrderLaws o}.

(** The head selection on the store's blocks succeeds. *)
Lemma store_head anchor vs s votes min_score :
  store_inv anchor vs s ->
  exists h origin ob weight,
    get_fork_choice_head (s_blocks s) (cp_root (s_latest_justified s)) votes min_score = Ok h /\
    is_Some (s_blocks s !! h) /\ ghost_origin (s_blocks s) (cp_root (s_latest_justified s)) origin /\
    s_blocks s !! origin = Some ob /\ lmd_weight (s_blocks s) (b_slot ob) votes weight /\
    ghost_descent (s_blocks s) weight min_score origin h.
Proof.
  intros Hi. destruct (si_justified _ _ _ Hi) as [jb Hjb]. destruct (store_rooted _ _ _ Hi) as (low & Hlow & Hmin).
  eapply get_head_tracked; [by eapply store_slots_decrease|done|done|done].
Qed.

(** Assignments that keep the invariant. *)
Lemma set_time_inv anchor vs s t : store_inv anchor vs s -> u64_ok t -> store_inv anchor vs (set_time t s).
Proof. by intros []. Qed.

Lemma set_head_inv anchor vs s h : store_inv anchor vs s -> is_Some (s_blocks s !! h) -> store_inv anchor vs (set_head h s).
Proof. by intros []. Qed.

Lemma set_safe_target_inv anchor vs s h :
  store_inv anchor vs s -> is_Some (s_blocks s !! h) -> store_inv anchor vs (set_safe_target h s).
Proof. by intros []. Qed.

Lemma set_votes_inv anchor vs s known new :
  store_inv anchor vs s -> pool_ok vs (s_blocks s) known -> pool_ok vs (s_blocks s) new ->
  store_inv anchor vs (set_votes known new s).
Proof. by intros []. Qed.

Lemma pool_ok_union vs blocks p q : pool_ok vs blocks p -> pool_ok vs blocks q -> pool_ok vs blocks (p ∪ q).
Proof. intros Hp Hq v sv [H|[_ H]]%lookup_union_Some_raw; [by apply Hp|by apply Hq]. Qed.

Lemma pool_ok_empty vs blocks : pool_ok vs blocks ∅.
Proof. intros v sv. by rewrite lookup_empty. Qed.

(** The pending votes become known, and the head is the LMD-GHOST head of the
    known votes. *)
Lemma accept_new_votes_Ok anchor vs s :
  store_inv anchor vs s ->
  let known := s_latest_new_votes s ∪ s_latest_known_votes s in
  exists h origin ob weight,
    accept_new_votes s = (Ok tt, set_head h (set_votes known ∅ s)) /\
    store_inv anchor vs (set_head h (set_votes known ∅ s)) /\
    ghost_origin (s_blocks s) (cp_root (s_latest_justified s)) origin /\ s_blocks s !! origin = Some ob /\
    lmd_weight (s_blocks s) (b_slot ob) (vote_head_checkpoints known) weight /\
    ghost_descent (s_blocks s) weight 0 origin h.
Proof.
  intros Hi known. pose proof (pool_ok_union _ _ _ _ (si_new _ _ _ Hi) (si_known _ _ _ Hi)) as Hk.
  assert (Hi1 : store_inv anchor vs (set_votes known ∅ s)) by (apply set_votes_inv; [done|done|apply pool_ok_empty]).
  destruct (store_head anchor vs _ (vote_head_checkpoints known) 0 Hi1) as (h & origin & ob & weight & Hh & Hs & ? & ? & ? & ?).
  exists h, origin, ob, weight. split_and!; try done; [|by apply set_head_inv].
  unfold accept_new_votes, update_head. mstep. fold known. simpl in Hh |- *. rewrite Hh. by mstep.
Qed.

Lemma update_safe_target_Ok anchor vs s :
  store_inv anchor vs s ->
  exists h origin ob weight,
    update_safe_target s = (Ok tt, set_safe_target h s) /\ store_inv anchor vs (set_safe_target h s) /\
    ghost_origin (s_blocks s) (cp_root (s_latest_justified s)) origin /\ s_blocks s !! origin = Some ob /\
    lmd_weight (s_blocks s) (b_slot ob) (vote_head_checkpoints (s_latest_new_votes s)) weight /\
    ghost_descent (s_blocks s) weight (div_ceil (saturating_mul (len vs) 2) 3) origin h.
Proof.
  intros Hi.
  destruct (store_head anchor vs _ (vote_head_checkpoints (s_latest_new_votes s))
              (div_ceil (saturating_mul (len vs) 2) 3) Hi) as (h & origin & ob & weight & Hh & Hs & ? & ? & ? & ?).
  exists h, origin, ob, weight. split_and!; try done; [|by apply set_safe_target_inv].
  unfold update_safe_target. mstep. rewrite (head_count _ _ _ Hi). mstep. rewrite Hh. by mstep.
Qed.

End Heads.

(** ** Attestations *)

(** The vote a pool keeps for a validator: the newer one, the old one on a tie. *)
Definition newer_of (old : option SignedAttestation) (vote : SignedAttestation) : SignedAttestation :=
  match old with Some e => if vote_slot vote <=? vote_slot e then e else vote | None => vote end.

(** The pending vote that survives an on-chain vote at [slot]. *)
Definition not_older (slot : Slot) (old : option SignedAttestation) : option SignedAttestation :=
  e ← old; if vote_slot e <? slot then None else Some e.

Lemma insert_if_newer_pool pool v vote : (insert_if_newer pool v vote).2 = <[v := newer_of (pool !! v) vote]> pool.
Proof.
  unfold insert_if_newer, newer_of. destruct (pool !! v) as [e|] eqn:He; [|done].
  destruct (vote_slot vote <=? vote_slot e); [|done]. simpl. by rewrite insert_id.
Qed.

Lemma insert_if_newer_changed pool v vote :
  (insert_if_newer pool v vote).1 = true <-> (insert_if_newer pool v vote).2 <> pool.
Proof.
  unfold insert_if_newer. destruct (pool !! v) as [e|] eqn:He.
  - destruct (N.leb_spec (vote_slot vote) (vote_slot e)); simpl; [naive_solver|].
    split; [|done]. intros _ Heq. apply (f_equal (.!! v)) in Heq. rewrite lookup_insert_eq, He in Heq. simplify_eq. lia.
  - simpl. split; [|done]. intros _ Heq. apply (f_equal (.!! v)) in Heq. rewrite lookup_insert_eq in Heq. congruence.
Qed.

Lemma evict_if_older_lookup pool v slot w :
  (evict_if_older pool v slot).2 !! w = if decide (w = v) then not_older slot (pool !! v) else pool !! w.
Proof.
  unfold evict_if_older, not_older. destruct (decide (w = v)) as [->|Hne].
  - destruct (pool !! v) as [e|] eqn:He; simpl; [|done].
    destruct (vote_slot e <? slot); simpl; [by rewrite lookup_delete_eq|done].
  - destruct (pool !! v) as [e|]; [|done]. destruct (vote_slot e <? slot); [|done]. simpl. by rewrite lookup_delete_ne.
Qed.

Lemma evict_if_older_changed pool v slot :
  (evict_if_older pool v slot).1 = true <-> (evict_if_older pool v slot).2 <> pool.
Proof.
  unfold evict_if_older. destruct (pool !! v) as [e|] eqn:He; [|naive_solver].
  destruct (vote_slot e <? slot); simpl; [|naive_solver].
  split; [|done]. intros _ Heq. apply (f_equal (.!! v)) in Heq. rewrite lookup_delete_eq in Heq. congruence.
Qed.

(** The conditions of [validate_attestation]. *)
Record vote_valid (s : Store) (vote : AttestationData) : Prop := {
  vv_source : exists b, s_blocks s !! resolved_source_root s vote = Some b /\ b_slot b = cp_slot (ad_source vote);
  vv_target : exists b, s_blocks s !! cp_root (ad_target vote) = Some b /\ b_slot b = cp_slot (ad_target vote);
  vv_head : exists b, s_blocks s !! cp_root (ad_head vote) = Some b /\ b_slot b = cp_slot (ad_head vote);
  vv_source_target : cp_slot (ad_source vote) <= cp_slot (ad_target vote);
  vv_target_head : cp_slot (ad_target vote) <= cp_slot (ad_head vote);
  vv_time : ad_slot vote <= current_vote_slot s + 1;
}.

Lemma validate_attestation_cases s vote :
  u64_ok (s_time s) ->
  (validate_attestation s vote = Ok tt /\ vote_valid s vote) \/
  ((exists e, validate_attestation s vote = Err e) /\ ~ vote_valid s vote).
Proof.
  intros Ht. assert (Hc : current_vote_slot s + 1 < u64_bound).
  { unfold current_vote_slot, time_slot, INTERVALS_PER_SLOT, u64_ok in *.
    change u64_bound with 18446744073709551616 in *. dlia. }
  unfold validate_attestation, lookup_block.
  destruct (s_blocks s !! resolved_source_root s vote) as [sb|] eqn:Hs; simpl;
    [|right; split; [by eexists|]; intros [(? & ? & _)]; congruence].
  destruct (s_blocks s !! cp_root (ad_target vote)) as [tb|] eqn:Htg; simpl;
    [|right; split; [by eexists|]; intros [_ (? & ? & _)]; congruence].
  destruct (s_blocks s !! cp_root (ad_head vote)) as [hb|] eqn:Hh; simpl;
    [|right; split; [by eexists|]; intros [_ _ (? & ? & _)]; congruence].
  assert (Hvv : vote_valid s vote -> b_slot sb = cp_slot (ad_source vote) /\ b_slot tb = cp_slot (ad_target vote) /\
    b_slot hb = cp_slot (ad_head vote)) by (intros [(? & ? & ?) (? & ? & ?) (? & ? & ?) _ _ _]; simplify_eq; done).
  destruct (N.ltb_spec (b_slot tb) (b_slot sb)); simpl;
    [right; split; [by eexists|]; intros Hv; pose proof (Hvv Hv); destruct Hv; lia|].
  destruct (N.ltb_spec (cp_slot (ad_target vote)) (cp_slot (ad_source vote)));
    [right; split; [by eexists|]; intros Hv; destruct Hv; lia|].
  destruct (N.ltb_spec (cp_slot (ad_head vote)) (cp_slot (ad_target vote)));
    [right; split; [by eexists|]; intros Hv; destruct Hv; lia|].
  destruct (N.eqb_spec (b_slot sb) (cp_slot (ad_source vote))); simpl;
    [|right; split; [by eexists|]; intros Hv; by destruct (Hvv Hv) as (? & ? & ?)].
  destruct (N.eqb_spec (b_slot tb) (cp_slot (ad_target vote))); simpl;
    [|right; split; [by eexists|]; intros Hv; by destruct (Hvv Hv) as (? & ? & ?)].
  destruct (N.eqb_spec (b_slot hb) (cp_slot (ad_head vote))); simpl;
    [|right; split; [by eexists|]; intros Hv; by destruct (Hvv Hv) as (? & ? & ?)].
  unfold advance, checked_add. rewrite (proj2 (N.ltb_lt _ _) Hc). simpl.
  destruct (N.ltb_spec (current_vote_slot s + 1) (ad_slot vote));
    [right; split; [by eexists|]; intros Hv; destruct Hv; lia|].
  left. split; [done|]. split; eauto.
Qed.

Lemma validate_validator_index_cases anchor vs s v :
  store_inv anchor vs s ->
  (validate_validator_index s v = Ok tt /\ v < len vs) \/
  (validate_validator_index s v = Err (ValidatorIndexOutOfRange v (len vs)) /\ len vs <= v).
Proof.
  intros Hi. unfold validate_validator_index. rewrite (head_count _ _ _ Hi). simpl.
  destruct (N.leb_spec (len vs) v); [by right|by left].
Qed.

Definition pools_after (s : Store) (sv : SignedAttestation) (is_from_block : bool) : VotePool * VotePool :=
  let v := att_validator_id (sa_message sv) in
  if is_from_block
  then ((insert_if_newer (s_latest_known_votes s) v sv).2, (evict_if_older (s_latest_new_votes s) v (vote_slot sv)).2)
  else (s_latest_known_votes s, (insert_if_newer (s_latest_new_votes s) v sv).2).

Lemma process_attestation_cases anchor vs s sv fb :
  store_inv anchor vs s ->
  (exists e, process_attestation sv fb s = (Err e, s) /\
     ~ (vote_valid s (att_data (sa_message sv)) /\ att_validator_id (sa_message sv) < len vs)) \/
  (exists changed, process_attestation sv fb s = (Ok changed, set_votes (pools_after s sv fb).1 (pools_after s sv fb).2 s) /\
     (changed = true <-> pools_after s sv fb <> (s_latest_known_votes s, s_latest_new_votes s)) /\
     vote_valid s (att_data (sa_message sv)) /\ att_validator_id (sa_message sv) < len vs).
Proof.
  intros Hi. pose proof (si_time _ _ _ Hi) as Ht. unfold process_attestation. mstep. set (v := att_validator_id (sa_message sv)).
  destruct (validate_validator_index_cases anchor vs s v Hi) as [[-> Hv]|[-> Hv]]; mstep.
  2:{ left. eexists. split; [done|]. intros [_ ?]. lia. }
  destruct (validate_attestation_cases s (att_data (sa_message sv)) Ht) as [[-> Hvv]|[[e ->] Hnv]]; mstep.
  2:{ left. eexists. split; [done|]. by intros [? _]. }
  right. unfold pools_after. fold v.
  pose proof (insert_if_newer_changed (s_latest_known_votes s) v sv) as Hk.
  pose proof (insert_if_newer_changed (s_latest_new_votes s) v sv) as Hn.
  pose proof (evict_if_older_changed (s_latest_new_votes s) v (vote_slot sv)) as He.
  destruct fb.
  - destruct (insert_if_newer (s_latest_known_votes s) v sv) as [promoted known],
      (evict_if_older (s_latest_new_votes s) v (vote_slot sv)) as [evicted new]; simpl in *. mstep.
    eexists. split_and!; [done| |done|done]. rewrite orb_true_iff, Hk, He.
    destruct (decide (known = s_latest_known_votes s)), (decide (new = s_latest_new_votes s)); naive_solver congruence.
  - destruct (insert_if_newer (s_latest_new_votes s) v sv) as [inserted new]; simpl in *. mstep.
    eexists. split_and!; [done| |done|done]. rewrite Hn. naive_solver congruence.
Qed.

Lemma pools_after_ok anchor vs s sv fb :
  store_inv anchor vs s -> vote_valid s (att_data (sa_message sv)) -> att_validator_id (sa_message sv) < len vs ->
  ssz_wf sv -> pool_ok vs (s_blocks s) (pools_after s sv fb).1 /\ pool_ok vs (s_blocks s) (pools_after s sv fb).2.
Proof.
  intros Hi Hvv Hv Hwf. set (v := att_validator_id (sa_message sv)) in *.
  assert (Hins : forall pool, pool_ok vs (s_blocks s) pool -> pool_ok vs (s_blocks s) (insert_if_newer pool v sv).2).
  { intros pool Hp w sw. rewrite insert_if_newer_pool. destruct (decide (w = v)) as [->|Hne].
    - rewrite lookup_insert_eq. intros [= <-]. unfold newer_of.
      assert (Hnew : att_validator_id (sa_message sv) = v /\ v < len vs /\ is_Some (s_blocks s !! vote_head_root sv) /\ ssz_wf sv).
      { split_and!; [done|done| |done]. destruct (vv_head _ _ Hvv) as (b & Hb & _). by exists b. }
      destruct (pool !! v) as [e|] eqn:He; [|done]. destruct (vote_slot sv <=? vote_slot e); [by apply Hp|done].
    - rewrite lookup_insert_ne by done. apply Hp. }
  unfold pools_after. fold v. destruct fb; simpl.
  - split; [by apply Hins, Hi|]. intros w sw. rewrite evict_if_older_lookup. destruct (decide (w = v)) as [->|]; [|by apply (si_new _ _ _ Hi)].
    unfold not_older. destruct (s_latest_new_votes s !! v) as [e|] eqn:He; simpl; [|done].
    destruct (vote_slot e <? vote_slot sv); [done|]. intros [= <-]. by apply (si_new _ _ _ Hi).
  - split; [apply Hi|by apply Hins, Hi].
Qed.

(** ** Tracking a block *)

Lemma pool_ok_insert vs blocks r b pool :
  pool_ok vs blocks pool -> pool_ok vs (<[r := b]> blocks) pool.
Proof.
  intros Hp v sv Hsv. destruct (Hp v sv Hsv) as (? & ? & ? & ?). split_and!; [done|done| |done].
  by apply lookup_insert_is_Some'; right.
Qed.

(** A new block on a tracked parent, with its post-state. *)
Record extends (anchor : Bytes32) (vs : list Validator) (s : Store) (block : Block) (post : State) : Prop := {
  ext_new : s_blocks s !! hash_tree_root block = None;
  ext_parent : exists pb, s_blocks s !! b_parent_root block = Some pb /\ b_slot pb < b_slot block;
  ext_post : post_state_of vs (b_slot block) post;
  ext_root : forall ab, s_blocks s !! anchor = Some ab -> b_parent_root ab <> hash_tree_root block;
}.

Definition tracked (s : Store) (block : Block) (post : State) : Store :=
  adopt_post_state_checkpoints (st_latest_justified post) (st_latest_finalized post)
    (insert_block (hash_tree_root block) block post s).

Lemma insert_block_inv anchor vs s block post :
  store_inv anchor vs s -> b_state_root block = hash_tree_root post -> extends anchor vs s block post ->
  store_inv anchor vs (insert_block (hash_tree_root block) block post s).
Proof.
  intros Hi Hsr [Hnew (pb & Hpb & Hlt) Hpost Hroot]. set (root := hash_tree_root block) in *.
  unfold insert_block. rewrite Hnew.
  assert (Hmono : forall r, is_Some (s_blocks s !! r) -> is_Some (<[root := block]> (s_blocks s) !! r)).
  { intros r Hr. apply lookup_insert_is_Some'. by right. }
  destruct Hi as [Hk (ab & Hab & Hn & Hmin) Ht Hst Hsd Ho Hod Hh Hs Hj Hf Hkn Hnw Htm Hroots Hcps].
  pose proof (Hmin _ _ Hpb). split; simpl; auto using pool_ok_insert.
  - intros r b. rewrite lookup_insert_Some. intros [[<- <-]|[_ Hb]]; [done|by apply Hk].
  - exists ab. rewrite lookup_insert_ne by (intros He; rewrite <-He in Hab; congruence).
    rewrite lookup_insert_ne by (apply not_eq_sym; by apply Hroot). split_and!; [done|done|].
    intros r b. rewrite lookup_insert_Some. intros [[<- <-]|[_ Hb]]; [lia|by eapply Hmin].
  - intros r b. rewrite lookup_insert_Some. intros [[<- <-]|[Hne Hb]].
    + right. exists pb. split; [|done]. rewrite lookup_insert_ne; [done|]. intros He. rewrite <-He in Hpb. congruence.
    + destruct (Ht r b Hb) as [|(pb' & Hpb' & Hlt')]; [by left|right]. exists pb'. split; [|done].
      rewrite lookup_insert_ne; [done|]. intros He. rewrite <-He in Hpb'. congruence.
  - intros r b. rewrite lookup_insert_Some. intros [[<- <-]|[Hne Hb]]; [exists post; by rewrite lookup_insert_eq|].
    destruct (Hst r b Hb) as (st & Hr & Hps). exists st. by rewrite lookup_insert_ne.
  - intros r. rewrite !lookup_insert_is_Some'. intros [|]; [by left|right; by apply Hsd].
  - apply NoDup_app. split_and!; [done| |apply NoDup_singleton]. intros r. rewrite list_elem_of_singleton, Hod.
    intros [? Hr] ->. congruence.
  - intros r. rewrite elem_of_app, list_elem_of_singleton, Hod, lookup_insert_is_Some'. naive_solver.
  - rewrite lookup_insert_ne; [done|]. intros He. rewrite <-He in Hab. congruence.
  - intros r b st. rewrite !lookup_insert_Some. intros [[<- <-]|[Hne Hb]] [[? <-]|[? Hs']]; [done|done|done|by eapply Hroots].
Qed.

Lemma adopt_inv anchor vs s j f :
  store_inv anchor vs s -> u64_ok (cp_slot j) -> u64_ok (cp_slot f) -> store_inv anchor vs (adopt_post_state_checkpoints j f s).
Proof.
  intros [] Hwj Hwf. split; try done; simpl; unfold should_adopt_checkpoint, has_block.
  - case_bool_decide; [|by rewrite andb_false_r]. by destruct (_ <? _).
  - intros ab Hab. pose proof (si_finalized0 ab Hab).
    destruct (N.ltb_spec (cp_slot (s_latest_finalized s)) (cp_slot f)); simpl; [|done]. case_match; lia.
  - destruct si_checkpoints0. split; by destruct (_ && _).
Qed.

Lemma post_state_checkpoints vs slot st :
  post_state_of vs slot st -> u64_ok (cp_slot (st_latest_justified st)) /\ u64_ok (cp_slot (st_latest_finalized st)).
Proof. intros [[[]]]. by split. Qed.

Lemma track_block_Ok anchor vs s block post :
  store_inv anchor vs s -> b_state_root block = hash_tree_root post -> extends anchor vs s block post ->
  track_block block post s = (Ok true, tracked s block post) /\ store_inv anchor vs (tracked s block post).
Proof.
  intros Hi Hsr Hext. destruct (post_state_checkpoints _ _ _ (ext_post _ _ _ _ _ Hext)).
  split; [|apply adopt_inv; [by apply insert_block_inv|done..]].
  destruct Hext as [Hnew (pb & Hpb & _) _ _]. unfold track_block. rewrite bool_decide_eq_true_2 by done. cbn [negb].
  mstep. unfold has_block. rewrite bool_decide_eq_false_2 by (rewrite Hnew; by intros [? ?]).
  rewrite (bool_decide_eq_true_2 (is_Some (s_blocks s !! b_parent_root block))) by (by exists pb).
  rewrite andb_false_r. by mstep.
Qed.

(** What every operation keeps: blocks stay tracked, in the order they came, and
    the clock and the checkpoints do not move back. *)
Record grows (s s' : Store) : Prop := {
  gr_blocks : s_blocks s ⊆ s_blocks s';
  gr_states : s_states s ⊆ s_states s';
  gr_order : s_block_order s `prefix_of` s_block_order s';
  gr_justified : cp_slot (s_latest_justified s) <= cp_slot (s_latest_justified s');
  gr_finalized : cp_slot (s_latest_finalized s) <= cp_slot (s_latest_finalized s');
  gr_time : s_time s <= s_time s';
}.

#[export] Instance grows_refl : Reflexive grows.
Proof. by intros s; split. Qed.

#[export] Instance grows_trans : Transitive grows.
Proof. intros a b c [] []. split; try (by etrans); lia. Qed.

Lemma set_votes_grows known new s : grows s (set_votes known new s).
Proof. by split. Qed.

Lemma set_head_grows h s : grows s (set_head h s).
Proof. by split. Qed.

Lemma set_safe_target_grows h s : grows s (set_safe_target h s).
Proof. by split. Qed.

Lemma tracked_grows anchor vs s block post :
  store_inv anchor vs s -> s_blocks s !! hash_tree_root block = None -> grows s (tracked s block post).
Proof.
  intros Hi Hn. assert (Hns : s_states s !! hash_tree_root block = None).
  { apply eq_None_not_Some. intros [? ?]%(si_states_dom _ _ _ Hi). congruence. }
  unfold tracked, adopt_post_state_checkpoints, should_adopt_checkpoint, insert_block. rewrite Hn.
  split; simpl; [by apply insert_subseteq|by apply insert_subseteq|by apply prefix_app_r| | |done].
  - destruct (N.ltb_spec (cp_slot (s_latest_justified s)) (cp_slot (st_latest_justified post))); simpl; [|done].
    case_match; lia.
  - destruct (N.ltb_spec (cp_slot (s_latest_finalized s)) (cp_slot (st_latest_finalized post))); simpl; [|done].
    case_match; lia.
Qed.

(** ** Anchors *)

Lemma seed_anchor_inv vs state block checkpoints s :
  post_state_of vs (b_slot block) state -> b_parent_root block <> hash_tree_root block ->
  seed_anchor state block checkpoints = Ok s ->
  cp_root (checkpoints (hash_tree_root block) (b_slot block)).1 = hash_tree_root block ->
  b_slot block <= cp_slot (checkpoints (hash_tree_root block) (b_slot block)).2 ->
  u64_ok (cp_slot (checkpoints (hash_tree_root block) (b_slot block)).1) ->
  u64_ok (cp_slot (checkpoints (hash_tree_root block) (b_slot block)).2) ->
  store_inv (hash_tree_root block) vs s.
Proof.
  intros Hps Hroot. unfold seed_anchor. case_bool_decide as Hsr; cbn [negb]; [|done].
  unfold checked_mul. destruct (N.ltb_spec (b_slot block * INTERVALS_PER_SLOT) u64_bound) as [Ht|]; simpl; [|done].
  destruct (checkpoints _ _) as [j f]. intros [= <-] Hj Hf Hwj Hwf. simpl in Hj, Hf, Hwj, Hwf. unfold insert_block.
  cbn [s_blocks]. rewrite lookup_empty.
  split; simpl; try (rewrite ?Hj, lookup_insert_eq; by eexists).
  - intros r b. rewrite lookup_insert_Some, lookup_empty. by intros [[<- <-]|[_ ?]].
  - exists block. rewrite lookup_insert_eq, lookup_insert_ne, lookup_empty by done. split_and!; [done|done|].
    intros r b. rewrite lookup_insert_Some, lookup_empty. by intros [[<- <-]|[_ ?]].
  - intros r b. rewrite lookup_insert_Some, lookup_empty. intros [[<- <-]|[_ ?]]; [by left|done].
  - intros r b. rewrite lookup_insert_Some, lookup_empty. intros [[<- <-]|[_ ?]]; [|done].
    exists state. by rewrite lookup_insert_eq.
  - intros r. rewrite !lookup_insert_is_Some', !lookup_empty. intros [|[? ?]]; [by left|done].
  - apply NoDup_singleton.
  - intros r. rewrite list_elem_of_singleton, lookup_insert_is_Some', lookup_empty. split; [by left|].
    intros [|[? ?]]; done.
  - intros ab. rewrite lookup_insert_eq. by intros [= <-].
  - apply pool_ok_empty.
  - apply pool_ok_empty.
  - done.
  - intros r b st. rewrite !lookup_insert_Some, !lookup_empty. by intros [[<- <-]|[_ ?]] [[_ <-]|[_ ?]].
  - done.
Qed.

(** ** The attestation target *)

Section Target.
Context (anchor : Bytes32) (vs : list Validator) (s : Store).
Hypothesis Hi : store_inv anchor vs s.

(** A cursor of the walks: a tracked ancestor of the head. *)
Definition cursor_ok (h : Bytes32) (at_ : Bytes32 * Block) : Prop :=
  s_blocks s !! at_.1 = Some at_.2 /\ ancestor (s_blocks s) at_.1 h.

Lemma parent_of_Ok h at_ :
  cursor_ok h at_ -> cp_slot (s_latest_finalized s) < b_slot at_.2 ->
  exists next, parent_of s at_.2 = Ok next /\ cursor_ok h next /\ b_slot next.2 < b_slot at_.2 /\
    parent_step (s_blocks s) at_.1 next.1.
Proof.
  intros [Hc Ha] Hf. destruct (si_anchor _ _ _ Hi) as (ab & Hab & _).
  destruct (si_tree _ _ _ Hi _ _ Hc) as [He|(pb & Hpb & Hlt)].
  - rewrite He in Hc. simplify_eq. pose proof (si_finalized _ _ _ Hi _ Hc). lia.
  - exists (b_parent_root at_.2, pb). unfold parent_of, lookup_block. rewrite Hpb.
    assert (Hstep : parent_step (s_blocks s) at_.1 (b_parent_root at_.2)) by (exists at_.2; split_and!; [done|done|by exists pb]).
    split_and!; [done| |done|done]. split; [done|]. eapply rtc_r; [exact Ha|exact Hstep].
Qed.

(** An ancestor at or below the finalized slot stays an ancestor. *)
Lemma ancestor_step f fb r rb p :
  ancestor (s_blocks s) f r -> s_blocks s !! f = Some fb -> s_blocks s !! r = Some rb -> b_slot fb < b_slot rb ->
  parent_step (s_blocks s) r p -> ancestor (s_blocks s) f p.
Proof.
  intros Ha Hf Hr Hlt (b & Hb & Hp & _). inversion Ha as [|? p' ? (b' & Hb' & Hp' & _) Hrest]; simplify_eq; [lia|done].
Qed.

Definition keeps_finalized (fb : option (Bytes32 * Block)) (r : Bytes32) : Prop :=
  match fb with Some (f, b) => ancestor (s_blocks s) f r | None => True end.

Definition finalized_block (fb : option (Bytes32 * Block)) : Prop :=
  match fb with
  | Some (f, b) => s_blocks s !! f = Some b /\ b_slot b = cp_slot (s_latest_finalized s)
  | None => True
  end.

Lemma keeps_finalized_step fb at_ next h :
  finalized_block fb -> cursor_ok h at_ -> cp_slot (s_latest_finalized s) < b_slot at_.2 ->
  parent_step (s_blocks s) at_.1 next -> keeps_finalized fb at_.1 -> keeps_finalized fb next.
Proof.
  destruct fb as [[f b]|]; [|done]. intros [Hf Hs] [Hc _] Hlt Hstep Ha. simpl in *.
  eapply ancestor_step; [exact Ha|done|done|lia|done].
Qed.

Lemma walk_to_floor_Ok n floor fb h at_ :
  cp_slot (s_latest_finalized s) <= floor -> finalized_block fb -> cursor_ok h at_ -> keeps_finalized fb at_.1 ->
  exists at', walk_to_floor n s floor at_ = Ok at' /\ cursor_ok h at' /\ keeps_finalized fb at'.1.
Proof.
  intros Hfl Hfb. revert at_. induction n as [|n IH]; intros at_ Hc Hk; cbn [walk_to_floor]; [by eexists|].
  destruct (N.leb_spec (b_slot at_.2) floor) as [|Hlt]; [by eexists|].
  destruct (parent_of_Ok h at_ Hc) as (next & -> & Hn & _ & Hstep); [lia|]. cbn [obind].
  apply IH; [done|]. apply (keeps_finalized_step fb at_ _ h Hfb Hc); [lia|done|done].
Qed.

(** Enough fuel for the second walk: slots strictly decrease. *)
Lemma walk_to_justifiable_Ok fuel fb h at_ :
  finalized_block fb -> cursor_ok h at_ -> keeps_finalized fb at_.1 ->
  (size (filter (fun '(_, b) => (b_slot b < b_slot at_.2)%N) (s_blocks s)) < fuel)%nat ->
  exists at', walk_to_justifiable fuel s (cp_slot (s_latest_finalized s)) at_ = Ok at' /\ cursor_ok h at' /\
    keeps_finalized fb at'.1 /\
    (b_slot at'.2 <= cp_slot (s_latest_finalized s) \/
     is_justifiable_after (b_slot at'.2) (cp_slot (s_latest_finalized s)) = true).
Proof.
  intros Hfb. revert at_. induction fuel as [|fuel IH]; intros at_ Hc Hk Hf; [lia|]. cbn [walk_to_justifiable].
  destruct (N.ltb_spec (cp_slot (s_latest_finalized s)) (b_slot at_.2)) as [Hlt|]; cbn [andb];
    [|exists at_; split_and!; [done|done|done|by left]].
  destruct (is_justifiable_after (b_slot at_.2) _) eqn:Hj; cbn [negb];
    [exists at_; split_and!; [done|done|done|by right]|].
  destruct (parent_of_Ok h at_ Hc Hlt) as (next & -> & Hn & Hdec & Hstep). cbn [obind]. apply IH; [done| |].
  - by apply (keeps_finalized_step fb at_ _ h Hfb Hc).
  - eapply Nat.lt_le_trans; [|apply Nat.lt_succ_r, Hf]. apply map_subset_size. split.
    + apply map_filter_subseteq_ext. intros k x _. simpl. lia.
    + intros Hsub. destruct Hn as [Hn _].
      assert (Hin : filter (fun '(_, b) => (b_slot b < b_slot at_.2)%N) (s_blocks s) !! next.1 = Some next.2)
        by (by apply map_lookup_filter_Some).
      eapply lookup_weaken in Hin; [|exact Hsub]. apply map_lookup_filter_Some in Hin as [_ ?]. lia.
Qed.

Lemma get_vote_target_Ok fb :
  finalized_block fb -> keeps_finalized fb (s_head s) ->
  exists cp b, get_vote_target s = Ok cp /\ s_blocks s !! cp_root cp = Some b /\ b_slot b = cp_slot cp /\
    ancestor (s_blocks s) (cp_root cp) (s_head s) /\ keeps_finalized fb (cp_root cp) /\
    (cp_slot cp <= cp_slot (s_latest_finalized s) \/
     is_justifiable_after (cp_slot cp) (cp_slot (s_latest_finalized s)) = true).
Proof.
  intros Hfb Hk. destruct (si_head _ _ _ Hi) as [hb Hhb]. destruct (si_safe_target _ _ _ Hi) as [sb Hsb].
  unfold get_vote_target, lookup_block. rewrite Hhb, Hsb. cbn [ok_or obind].
  destruct (walk_to_floor_Ok (N.to_nat JUSTIFICATION_LOOKBACK_SLOTS)
              (N.max (b_slot sb) (cp_slot (s_latest_finalized s))) fb (s_head s) (s_head s, hb))
    as (at1 & -> & Hc1 & Hk1); [lia|done|split; [done|apply rtc_refl]|done|]. cbn [obind].
  destruct (walk_to_justifiable_Ok (S (size (s_blocks s))) fb (s_head s) at1 Hfb Hc1 Hk1) as ([c cb] & -> & [Hc2 Ha] & Hk2 & Hend).
  { apply Nat.lt_succ_r, map_size_filter. }
  cbn [obind]. exists (mkCheckpoint c (b_slot cb)), cb. by split_and!.
Qed.

End Target.

(** ** Blocks that passed the state transition *)

(** The hash links cannot close a cycle: no block after the anchor has the root
    of the anchor's parent. *)
Definition anchor_parent_fresh (s : Store) (anchor : Bytes32) : Prop :=
  forall ab b, s_blocks s !! anchor = Some ab -> b_slot ab < b_slot b -> hash_tree_root b <> b_parent_root ab.

Lemma transition_post_state vs slot hs sb v post :
  post_state_of vs slot hs -> ssz_wf (bwa_block (sb_message sb)) -> state_transition sb v hs = (Ok tt, post) ->
  slot < b_slot (bwa_block (sb_message sb)) /\ post_state_of vs (b_slot (bwa_block (sb_message sb))) post /\
  (v = true -> hash_tree_root post = b_state_root (bwa_block (sb_message sb))).
Proof.
  intros [Hs Hsl Hh Hvs] Hwf Hst.
  destruct (state_transition_cases hs sb v Hs Hwf) as [[e He]|(root & bl & j & w & flat & Hlt & Hv & _ & _ & _ & _ & Hs3 & Hr & He)];
    rewrite He in Hst; simplify_eq. split_and!; [done| |done]. split; [done|done|done|done].
Qed.

Lemma transition_extends anchor vs s hs sb v post :
  store_inv anchor vs s -> anchor_parent_fresh s anchor ->
  let block := bwa_block (sb_message sb) in
  ssz_wf block -> s_states s !! b_parent_root block = Some hs -> s_blocks s !! hash_tree_root block = None ->
  state_transition sb v hs = (Ok tt, post) -> extends anchor vs s block post.
Proof.
  intros Hi Hfr block Hwf Hhs Hnew Hst. destruct (si_states_dom _ _ _ Hi (b_parent_root block)) as [pb Hpb]; [by exists hs|].
  destruct (si_states _ _ _ Hi _ _ Hpb) as (hs' & Hhs' & Hps). simplify_eq.
  destruct (transition_post_state vs _ _ sb v post Hps Hwf Hst) as (Hlt & Hpost & _).
  split; [done|by exists pb|done|]. intros ab Hab. apply not_eq_sym, (Hfr ab block Hab).
  destruct (si_anchor _ _ _ Hi) as (ab' & Hab' & _ & Hmin). simplify_eq. pose proof (Hmin _ _ Hpb). fold block in Hlt. lia.
Qed.

(** ** Theorems *)

Section Theorems.
Context {o : HashOrder} {Ho : HashOrderLaws o}.

(** [h] is the LMD-GHOST block of [votes] from the justified block, with the
    threshold [min_score]. *)
Definition lmd_head (s : Store) (votes : VotePool) (min_score : N) (h : Bytes32) : Prop :=
  exists origin ob weight,
    ghost_origin (s_blocks s) (cp_root (s_latest_justified s)) origin /\ s_blocks s !! origin = Some ob /\
    lmd_weight (s_blocks s) (b_slot ob) (vote_head_checkpoints votes) weight /\
    ghost_descent (s_blocks s) weight min_score origin h.

(** One tick of the clock on a store that satisfies the invariant: the time
    grows by one interval, the invariant is kept, and the hook of the new phase
    has run.  In the proposal phase with a proposal, and at the end of the slot,
    the pending votes are promoted over the known ones and the head is the
    LMD-GHOST head of the result; in the safe-target phase the safe target is the
    LMD-GHOST block of the pending votes at two thirds of the registry; otherwise
    nothing else changes.  The tick fails only when the clock would overflow, and
    then it changes nothing. *)
Theorem tick_interval_spec anchor vs s has_proposal :
  store_inv anchor vs s ->
  if s_time s + 1 <? u64_bound then
    exists s', tick_interval has_proposal s = (Ok tt, s') /\ store_inv anchor vs s' /\
      let s1 := set_time (s_time s + 1) s in
      let promoted := exists h, s' = set_head h (set_votes (s_latest_new_votes s ∪ s_latest_known_votes s) ∅ s1) /\
                                lmd_head s (s_latest_new_votes s ∪ s_latest_known_votes s) 0 h in
      match (s_time s + 1) mod 4 with
      | 0 => if has_proposal then promoted else s' = s1
      | 1 => s' = s1
      | 2 => exists h, s' = set_safe_target h s1 /\
                       lmd_head s (s_latest_new_votes s) (div_ceil (saturating_mul (len vs) 2) 3) h
      | _ => promoted
      end
  else tick_interval has_proposal s = (Err (TimeOverflow (s_time s)), s).
Proof.
  intros Hi. unfold tick_interval. mstep. unfold checked_advance, checked_add.
  destruct (N.ltb_spec (s_time s + 1) u64_bound) as [Ht|Ht]; cbn [ok_or]; mstep; [|done].
  unfold time_phase, time_interval, INTERVALS_PER_SLOT. set (s1 := set_time (s_time s + 1) s).
  pose proof (set_time_inv anchor vs s (s_time s + 1) Hi Ht) as Hi1. fold s1 in Hi1.
  assert (Hprom : exists s', accept_new_votes s1 = (Ok tt, s') /\ store_inv anchor vs s' /\
    exists h, s' = set_head h (set_votes (s_latest_new_votes s ∪ s_latest_known_votes s) ∅ s1) /\
      lmd_head s (s_latest_new_votes s ∪ s_latest_known_votes s) 0 h).
  { destruct (accept_new_votes_Ok anchor vs s1 Hi1) as (h & origin & ob & weight & Ha & Hi' & ? & ? & ? & ?).
    eexists. split_and!; [exact Ha|done|]. exists h. split; [done|]. by exists origin, ob, weight. }
  destruct ((s_time s + 1) mod 4) as [|[[|?|]|[|?|]|]]; try exact Hprom.
  - destruct has_proposal; [exact Hprom|by eexists].
  - destruct (update_safe_target_Ok anchor vs s1 Hi1) as (h & origin & ob & weight & Ha & Hi' & ? & ? & ? & ?).
    eexists. split_and!; [exact Ha|done|]. exists h. split; [done|]. by exists origin, ob, weight.
  - by eexists.
Qed.

Lemma two_thirds n : n <= VALIDATOR_REGISTRY_LIMIT -> 2 * n <= 3 * div_ceil (saturating_mul n 2) 3.
Proof.
  intros Hn. change VALIDATOR_REGISTRY_LIMIT with 4096 in Hn. unfold saturating_mul, div_ceil.
  rewrite N.min_l by (change u64_max with 18446744073709551615; lia). case_match; reflect_bools; dlia.
Qed.

(** C34. After [update_safe_target] the safe target descends from the origin of
    the descent, and unless it is that origin, validators holding at least two
    thirds of the registry have a pending vote whose head is the safe target or
    one of its descendants. *)
Theorem safe_target_supermajority anchor vs s :
  store_inv anchor vs s ->
  exists s' origin, update_safe_target s = (Ok tt, s') /\ s' = set_safe_target (s_safe_target s') s /\
    store_inv anchor vs s' /\ ghost_origin (s_blocks s) (cp_root (s_latest_justified s)) origin /\
    ancestor (s_blocks s) origin (s_safe_target s') /\
    (s_safe_target s' = origin \/
     exists voters : gset ValidatorIndex, 2 * len vs <= 3 * N.of_nat (size voters) /\
       forall v, v ∈ voters -> exists sv, s_latest_new_votes s !! v = Some sv /\
         ancestor (s_blocks s) (s_safe_target s') (vote_head_root sv)).
Proof.
  intros Hi. destruct (update_safe_target_Ok anchor vs s Hi) as (h & origin & ob & weight & Hu & Hi' & Hor & Hob & Hw & Hg).
  destruct (ghost_descent_ancestor _ _ _ _ _ ltac:(by exists ob) Hg) as [Ha Hm].
  exists (set_safe_target h s), origin. split_and!; [done|done|done|done|done|]. simpl.
  destruct Hm as [|Hm]; [by left|right]. destruct (Hw h) as (voters & Hsz & Hin). exists voters. split.
  - etrans; [apply two_thirds|lia].
    destruct (si_head _ _ _ Hi) as [b Hb]. destruct (si_states _ _ _ Hi _ _ Hb) as (st & _ & [Hst _ _ <-]).
    apply (inv_wf _ Hst).
  - intros v Hv. apply Hin in Hv as (cp & b & Hcp & _ & _ & Hanc). unfold vote_head_checkpoints in Hcp.
    apply lookup_fmap_Some in Hcp as (sv & <- & Hsv). by exists sv.
Qed.

(** [process_attestation] on a store that satisfies the invariant: it accepts
    exactly the votes of registered validators whose three checkpoints are tracked
    blocks at their declared slots, ordered source, target, head, and at most one
    slot ahead of the clock; then each pool keeps the newer vote of the validator
    (a vote from a block also evicts an older pending one), every other vote and
    every other field stays, and the result says whether a pool changed.  A
    rejected vote changes nothing. *)
Theorem process_attestation_spec anchor vs s sv is_from_block :
  store_inv anchor vs s -> ssz_wf sv ->
  let v := att_validator_id (sa_message sv) in
  match process_attestation sv is_from_block s with
  | (Ok changed, s') =>
      vote_valid s (att_data (sa_message sv)) /\ v < len vs /\ store_inv anchor vs s' /\
      s' = set_votes (s_latest_known_votes s') (s_latest_new_votes s') s /\
      (changed = true <-> s_latest_known_votes s' <> s_latest_known_votes s \/
                          s_latest_new_votes s' <> s_latest_new_votes s) /\
      (forall w, w <> v -> s_latest_known_votes s' !! w = s_latest_known_votes s !! w /\
                           s_latest_new_votes s' !! w = s_latest_new_votes s !! w) /\
      if is_from_block then
        s_latest_known_votes s' !! v = Some (newer_of (s_latest_known_votes s !! v) sv) /\
        s_latest_new_votes s' !! v = not_older (vote_slot sv) (s_latest_new_votes s !! v)
      else
        s_latest_known_votes s' = s_latest_known_votes s /\
        s_latest_new_votes s' !! v = Some (newer_of (s_latest_new_votes s !! v) sv)
  | (Err _, s') => s' = s /\ ~ (vote_valid s (att_data (sa_message sv)) /\ v < len vs)
  | _ => False
  end.
Proof.
  intros Hi Hwf v.
  destruct (process_attestation_cases anchor vs s sv is_from_block Hi) as [(e & -> & Hn)|(c & -> & Hc & Hvv & Hv)]; [done|].
  destruct (pools_after_ok anchor vs s sv is_from_block Hi Hvv Hv Hwf) as [Hk Hnw]. split_and!; [done|done| |done| | |].
  - by apply set_votes_inv.
  - rewrite Hc. destruct (pools_after s sv is_from_block) as [k n]. simpl.
    destruct (decide (k = s_latest_known_votes s)), (decide (n = s_latest_new_votes s)); naive_solver congruence.
  - intros w Hw. unfold pools_after. fold v. destruct is_from_block; simpl; rewrite insert_if_newer_pool, lookup_insert_ne by done;
      [|done]. split; [done|]. rewrite evict_if_older_lookup. by rewrite decide_False.
  - unfold pools_after. fold v. destruct is_from_block; simpl; rewrite insert_if_newer_pool, lookup_insert_eq; [|done].
    split; [done|]. rewrite evict_if_older_lookup. by rewrite decide_True.
Qed.

(** On a store that satisfies the invariant [get_vote_target] always returns
    a target: a tracked block on the chain of the head, with its slot, that is
    justifiable after the finalized slot or not above it.  If the finalized block
    is on the chain of the head, so that the two have not diverged, the target
    descends from it and is justifiable. *)
Theorem get_vote_target_spec anchor vs s :
  store_inv anchor vs s ->
  exists cp b, get_vote_target s = Ok cp /\ s_blocks s !! cp_root cp = Some b /\ b_slot b = cp_slot cp /\
    ancestor (s_blocks s) (cp_root cp) (s_head s) /\
    (cp_slot cp <= cp_slot (s_latest_finalized s) \/
     is_justifiable_after (cp_slot cp) (cp_slot (s_latest_finalized s)) = true) /\
    (forall fb, s_blocks s !! cp_root (s_latest_finalized s) = Some fb -> b_slot fb = cp_slot (s_latest_finalized s) ->
       ancestor (s_blocks s) (cp_root (s_latest_finalized s)) (s_head s) ->
       ancestor (s_blocks s) (cp_root (s_latest_finalized s)) (cp_root cp) /\
       is_justifiable_after (cp_slot cp) (cp_slot (s_latest_finalized s)) = true).
Proof.
  intros Hi. destruct (get_vote_target_Ok anchor vs s Hi None I I) as (cp & b & Hg & Hb & Hs & Ha & _ & Hj).
  exists cp, b. split_and!; [done|done|done|done|done|]. intros fb Hfb Hfs Hfa.
  destruct (get_vote_target_Ok anchor vs s Hi (Some (cp_root (s_latest_finalized s), fb))) as (cp' & b' & Hg' & _ & _ & _ & Hk & _);
    [done|done|]. rewrite Hg in Hg'. simplify_eq. simpl in Hk. split; [done|].
  destruct Hj as [Hle|]; [|done].
  destruct (ancestor_slot _ _ _ _ _ (store_slots_decrease _ _ _ Hi) Hk Hfb Hb) as [Hge _].
  replace (cp_slot cp') with (cp_slot (s_latest_finalized s)) by lia. apply is_justifiable_after_refl.
Qed.

End Theorems.

End Inv.
