(* ===== verification/Production.v ===== *)
(** * Local block and attestation production

    Models [crates/forkchoice/src/production.rs].  The [loop] of
    [converge_attestations] runs on fuel [S (size latest_known_votes)]: every
    iteration but the last adds a vote of the pool that was not included, so the
    fuel is never used up ([converge_loop_cases] in [ProductionInv]). *)

From stdpp Require Import base numbers list gmap strings sorting.
From Stdlib Require Import Strings.Byte ZArith Lia.
From S2P Require Import Prelude Config Types Merkle Codec Slot Containers State Stf Ancestry Ghost Store.

Record ProducedBlock := mkProducedBlock {
  pb_block : Block;
  pb_root : Bytes32;
  pb_parent_root : Bytes32;
  pb_post_state : State;
  pb_post_state_root : Bytes32;
}.

Record ProducedVote := mkProducedVote {
  pv_vote : AttestationData;
  pv_head_root : Bytes32;
  pv_target : Checkpoint;
  pv_source : Checkpoint;
  pv_safe_target : Bytes32;
}.

Definition body_from (votes : list SignedAttestation) : BlockBody := mkBlockBody (sa_message <$> votes).

Section Production.
Context {sha : Sha256} {o : HashOrder}.

(** [process_slots] and its callers on an owned state: the value after an [Ok],
    the error after an [Err]. *)
Definition run_stf (c : STM unit) (state : State) : Outcome ForkchoiceError State :=
  match c state with
  | (Ok _, state') => Ok state'
  | (Err e, _) => Err (FcStateTransition e)
  | (Panic, _) => Panic
  | (Diverge, _) => Diverge
  end.

Definition advance_state_to_slot (state : State) (target : Slot) : Outcome ForkchoiceError State :=
  match st_slot state ?= target with
  | Eq => Ok state
  | Lt => run_stf (process_slots target) state
  | Gt => Err (StateSlotAheadOfTarget (st_slot state) target)
  end.

Definition build_candidate_block (head_root : Bytes32) (slot : Slot) (validator : ValidatorIndex)
    (head_state : State) (votes : list SignedAttestation) : Outcome ForkchoiceError (Block * State) :=
  let candidate := mkBlock slot validator head_root (bv_zero 32) (body_from votes) in
  let? next := advance_state_to_slot head_state slot in
  let? next := run_stf (process_block_header candidate) next in
  let? next := run_stf (process_attestations (bb_attestations (b_body candidate))) next in
  Ok (candidate, next).

Definition collect_includable_votes (self : Store) (post_state : State) (already_included : list SignedAttestation)
    : list SignedAttestation :=
  let cap := saturating_sub MAX_ATTESTATIONS (len already_included) in
  if cap =? 0 then []
  else take (N.to_nat cap)
    (filter (fun sv => sv ∉ already_included)
      (filter (fun sv => ad_source (att_data (sa_message sv)) = st_latest_justified post_state)
        (filter (fun sv => has_block self (cp_root (ad_target (att_data (sa_message sv)))) = true)
          (hash_iter (s_latest_known_votes self)).*2))).

Fixpoint converge_loop (fuel : nat) (self : Store) (head_root : Bytes32) (slot : Slot) (validator : ValidatorIndex)
    (head_state : State) (attestations : list SignedAttestation)
    : Outcome ForkchoiceError (list SignedAttestation * State) :=
  match fuel with
  | O => Diverge
  | S fuel =>
      let? (_, post_state) := build_candidate_block head_root slot validator head_state attestations in
      match collect_includable_votes self post_state attestations with
      | [] => Ok (attestations, post_state)
      | additions => converge_loop fuel self head_root slot validator head_state (attestations ++ additions)
      end
  end.

Definition converge_attestations (self : Store) (head_root : Bytes32) (slot : Slot) (validator : ValidatorIndex)
    (head_state : State) : Outcome ForkchoiceError (list SignedAttestation * State) :=
  converge_loop (S (size (s_latest_known_votes self))) self head_root slot validator head_state [].

Definition finalize_produced_block (head_root : Bytes32) (slot : Slot) (validator : ValidatorIndex)
    (attestations : list SignedAttestation) (post_state : State) : FCM ProducedBlock :=
  let post_state_root := hash_tree_root post_state in
  let block := mkBlock slot validator head_root post_state_root (body_from attestations) in
  let root := hash_tree_root block in
  let! _ := track_block block post_state in
  let! _ := accept_new_votes in
  mret (mkProducedBlock block root head_root post_state post_state_root).

Definition produce_block (slot : Slot) (validator : ValidatorIndex) : FCM ProducedBlock :=
  let! head_root := get_proposal_head in
  let! self := mget in
  let! head_state := mlift (ok_or (s_states self !! head_root) (HeadStateNotFound head_root)) in
  let! authorized := mlift (omap_err (fun '(context, reason) => FcProtocol context reason)
                              (is_proposer validator slot (num_validators head_state))) in
  if negb authorized then mthrow (UnauthorizedProposer validator slot)
  else
    let! (attestations, post_state) := mlift (converge_attestations self head_root slot validator head_state) in
    finalize_produced_block head_root slot validator attestations post_state.

Definition produce_attestation_vote (slot : Slot) : FCM ProducedVote :=
  let! head_root := get_proposal_head in
  let! self := mget in
  let! head_block := mlift (ok_or (s_blocks self !! head_root) (UnknownHeadBlock head_root)) in
  let! target := mlift (get_vote_target self) in
  let source := s_latest_justified self in
  let vote := mkAttestationData slot (mkCheckpoint head_root (b_slot head_block)) target source in
  mret (mkProducedVote vote head_root target source (s_safe_target self)).

End Production.
