(* ===== verification/ProductionInv.v ===== *)
(** * Theorems on block and attestation production

    A produced block extends the LMD-GHOST head, carries a maximal set of
    includable votes, and passes the very state transition an importer runs on it;
    production always ends. *)

From stdpp Require Import base numbers list gmap strings sorting.
From Stdlib Require Import Strings.Byte ZArith Lia.
From S2P Require Import Prelude Config Types Bitfields Merkle Codec Slot Containers State Stf Justif StfInv Ancestry Ghost Store StoreInv Production.

Section ProductionInv.
Context {sha : Sha256} {o : HashOrder} {Ho : HashOrderLaws o}.

(** ** The candidate is what an importer computes *)

Lemma run_stf_Ok c st u st' : c st = (Ok u, st') -> run_stf c st = Ok st'.
Proof. intros H. unfold run_stf. by rewrite H. Qed.

Lemma run_stf_Err c st e st' : c st = (Err e, st') -> run_stf c st = Err (FcStateTransition e).
Proof. intros H. unfold run_stf. by rewrite H. Qed.

(** The header of a block does not depend on the state root it declares. *)
Lemma process_block_header_state_root slot v parent r r' body :
  process_block_header (mkBlock slot v parent r body) = process_block_header (mkBlock slot v parent r' body).
Proof. reflexivity. Qed.

Lemma build_candidate_cases hs head_root slot v votes :
  state_inv hs -> bh_slot (st_latest_block_header hs) = st_slot hs ->
  ssz_wf (mkBlock slot v head_root (bv_zero 32) (body_from votes)) ->
  (exists e, build_candidate_block head_root slot v hs votes = Err e) \/
  (exists cand post, build_candidate_block head_root slot v hs votes = Ok (cand, post) /\
     forall sb, bwa_block (sb_message sb) = mkBlock slot v head_root (hash_tree_root post) (body_from votes) ->
       state_transition sb true hs = (Ok tt, post)).
Proof.
  intros Hs Hh Hwf. unfold build_candidate_block, advance_state_to_slot. set (cand := mkBlock _ _ _ _ _) in *.
  destruct (N.compare_spec (st_slot hs) slot) as [Heq|Hlt|]; cbn [obind]; [| |left; by eexists].
  { destruct (process_block_header_Err hs cand Hs) as [e He]; [intros [? Hn]; simpl in *; lia|].
    rewrite (run_stf_Err _ _ _ _ He). left. by eexists. }
  destruct (process_slots_general hs slot) as [Hfut _]; [apply Hwf|]. destruct (Hfut Hlt) as [root Hslots].
  rewrite (run_stf_Ok _ _ _ _ Hslots). cbn [obind].
  pose proof (at_slot_inv hs slot root Hs (proj1 Hwf) (N.lt_le_incl _ _ Hlt)) as Hs1. set (s1 := at_slot hs slot root) in *.
  destruct (decide (header_valid s1 cand)) as [Hv|Hnv].
  2:{ destruct (process_block_header_Err s1 cand Hs1 Hnv) as [e He]. rewrite (run_stf_Err _ _ _ _ He). left. by eexists. }
  destruct (process_block_header_Ok s1 cand Hs1 Hv) as (bl & Hhd & Hwfb & Hbits). rewrite (run_stf_Ok _ _ _ _ Hhd). cbn [obind].
  pose proof (header_post_inv s1 cand bl Hs1 Hv Hwf Hwfb Hbits) as Hs2.
  destruct (process_attestations_cases _ (bb_attestations (b_body cand)) Hs2)
    as [[e He]|(j & w & flat & _ & _ & _ & He & _ & Hs3)].
  - rewrite (run_stf_Err _ _ _ _ He). left. by eexists.
  - rewrite (run_stf_Ok _ _ _ _ He). cbn [obind]. right. eexists _, _. split; [done|]. intros sb Hsb.
    unfold state_transition. rewrite Hsb. cbn [b_slot b_body b_state_root]. erewrite mbind_Ok by exact Hslots.
    rewrite (process_block_header_state_root _ _ _ _ (bv_zero 32)). erewrite mbind_Ok by exact Hhd.
    change (bb_attestations (body_from votes)) with (bb_attestations (b_body cand)). rewrite He. by rewrite bool_decide_eq_true_2.
Qed.

(** ** Convergence *)

(** The votes of the pool the block may carry. *)
Definition includable (s : Store) (post : State) (sv : SignedAttestation) : Prop :=
  (exists v, s_latest_known_votes s !! v = Some sv) /\
  has_block s (cp_root (ad_target (att_data (sa_message sv)))) = true /\
  ad_source (att_data (sa_message sv)) = st_latest_justified post.

Lemma elem_of_hash_values (m : VotePool) sv : sv ∈ (hash_iter m).*2 <-> exists v, m !! v = Some sv.
Proof.
  rewrite list_elem_of_fmap. split.
  - intros ([v x] & -> & Hin). exists v. by apply elem_of_hash_iter.
  - intros [v Hv]. exists (v, sv). split; [done|]. by apply elem_of_hash_iter.
Qed.

(** The votes gathered so far. *)
Record gathered (s : Store) (votes : list SignedAttestation) : Prop := {
  ga_nodup : NoDup votes;
  ga_pool : forall sv, sv ∈ votes -> exists v, s_latest_known_votes s !! v = Some sv;
  ga_cap : len votes <= MAX_ATTESTATIONS;
}.

(** Different keys hold different votes. *)
Lemma pool_values_nodup anchor vs s : store_inv anchor vs s -> NoDup (hash_iter (s_latest_known_votes s)).*2.
Proof.
  intros Hi. apply (NoDup_fmap_1 (fun sv => att_validator_id (sa_message sv))). rewrite <-list_fmap_compose.
  rewrite (list_fmap_ext _ fst); [apply NoDup_hash_keys|].
  intros i [v sv] Hin. simpl. apply list_elem_of_lookup_2, elem_of_hash_iter in Hin.
  by apply (si_known _ _ _ Hi).
Qed.

Lemma collect_includable_spec s post votes :
  NoDup (hash_iter (s_latest_known_votes s)).*2 -> gathered s votes ->
  let additions := collect_includable_votes s post votes in
  gathered s (votes ++ additions) /\
  (additions = [] -> len votes = MAX_ATTESTATIONS \/ forall sv, includable s post sv -> sv ∈ votes).
Proof.
  intros Hnd [Hv Hp Hc] additions. unfold additions, collect_includable_votes, saturating_sub.
  set (cap := MAX_ATTESTATIONS - len votes). set (l := filter _ (filter _ (filter _ _))).
  assert (Hl : forall sv, sv ∈ l <-> includable s post sv /\ sv ∉ votes).
  { intros sv. unfold l, includable. rewrite !list_elem_of_filter, elem_of_hash_values. naive_solver. }
  destruct (N.eqb_spec cap 0) as [Hz|Hz].
  - rewrite app_nil_r. split; [done|]. intros _. left. unfold cap in Hz. lia.
  - assert (Htake : forall sv, sv ∈ take (N.to_nat cap) l -> sv ∈ l).
    { intros sv. apply subseteq_take. }
    split; [split|].
    + apply NoDup_app. split_and!; [done| |].
      * intros sv Hin Hin'. apply Htake, Hl in Hin' as [_ ?]. done.
      * apply (sublist_NoDup _ l); [|apply sublist_take]. unfold l. by do 3 apply NoDup_filter.
    + intros sv [Hin|Hin]%elem_of_app; [by apply Hp|]. apply Htake, Hl in Hin as [[? _] _]. done.
    + rewrite len_app. assert (len (take (N.to_nat cap) l) <= cap) by (unfold len; rewrite length_take; lia). unfold cap in *. lia.
    + intros Hnil. right. intros sv Hin. destruct (decide (sv ∈ votes)) as [|Hn]; [done|].
      assert (Hsv : sv ∈ l) by (by apply Hl). destruct l as [|x l']; [by apply elem_of_nil in Hsv|].
      destruct (N.to_nat cap) eqn:He; [lia|done].
Qed.

Lemma gathered_size s votes :
  NoDup (hash_iter (s_latest_known_votes s)).*2 -> gathered s votes -> (length votes <= size (s_latest_known_votes s))%nat.
Proof.
  intros Hnd [Hv Hp _]. rewrite <-length_map_to_list, <-(hash_iter_perm _ _ _ _ (s_latest_known_votes s)), <-(length_fmap snd).
  apply NoDup_incl_length_list; [done|]. intros sv Hin. apply elem_of_hash_values. by apply Hp.
Qed.

Lemma body_wf anchor vs s slot v root votes :
  store_inv anchor vs s -> u64_ok slot -> u64_ok v -> gathered s votes ->
  ssz_wf (mkBlock slot v root (bv_zero 32) (body_from votes)).
Proof.
  intros Hi Hs Hv [_ Hp Hc]. split_and!; [done|done|]. split; [|by simpl; rewrite len_fmap].
  simpl. apply Forall_fmap, Forall_forall. intros sv Hin. destruct (Hp sv Hin) as [w Hw].
  by apply (si_known _ _ _ Hi) in Hw as (_ & _ & _ & ?).
Qed.

(** The loop ends: each round adds a vote of the pool. *)
Lemma converge_loop_cases fuel anchor vs s head_root slot v hs votes :
  store_inv anchor vs s -> u64_ok slot -> u64_ok v ->
  state_inv hs -> bh_slot (st_latest_block_header hs) = st_slot hs -> gathered s votes ->
  (size (s_latest_known_votes s) - length votes < fuel)%nat ->
  (exists e, converge_loop fuel s head_root slot v hs votes = Err e) \/
  (exists votes' post, converge_loop fuel s head_root slot v hs votes = Ok (votes', post) /\ gathered s votes' /\
     (len votes' = MAX_ATTESTATIONS \/ forall sv, includable s post sv -> sv ∈ votes') /\
     forall sb, bwa_block (sb_message sb) = mkBlock slot v head_root (hash_tree_root post) (body_from votes') ->
       state_transition sb true hs = (Ok tt, post)).
Proof.
  intros Hi Hsl Hv Hs Hh. pose proof (pool_values_nodup _ _ _ Hi) as Hnd. revert votes.
  induction fuel as [|fuel IH]; intros votes Hg Hf; [lia|]. cbn [converge_loop].
  destruct (build_candidate_cases hs head_root slot v votes Hs Hh) as [[e ->]|(cand & post & -> & Hst)];
    [by eapply body_wf|left; by eexists|]. cbn [obind].
  destruct (collect_includable_spec s post votes Hnd Hg) as [Hg' Hfix].
  destruct (collect_includable_votes s post votes) as [|x l] eqn:Hc.
  - right. exists votes, post. split_and!; [done|done|by apply Hfix|done].
  - apply IH; [done|]. pose proof (gathered_size s _ Hnd Hg') as Hsz. rewrite length_app in *. simpl in *. lia.
Qed.

(** At most the block [root] is new, and it is tracked. *)
Definition only_added (s s' : Store) (root : Bytes32) : Prop :=
  is_Some (s_blocks s' !! root) /\ forall r, is_Some (s_blocks s' !! r) -> is_Some (s_blocks s !! r) \/ r = root.

(** Tracking the finished block. *)
Lemma finalize_produced_block_Ok anchor vs s hs head_root slot v votes post :
  store_inv anchor vs s -> anchor_parent_fresh s anchor -> u64_ok slot -> u64_ok v ->
  s_states s !! head_root = Some hs -> gathered s votes ->
  let block := mkBlock slot v head_root (hash_tree_root post) (body_from votes) in
  (forall sb, bwa_block (sb_message sb) = block -> state_transition sb true hs = (Ok tt, post)) ->
  exists s', finalize_produced_block head_root slot v votes post s =
      (Ok (mkProducedBlock block (hash_tree_root block) head_root post (hash_tree_root post)), s') /\
    store_inv anchor vs s' /\ grows s s' /\ only_added s s' (hash_tree_root block).
Proof.
  intros Hi Hfr Hsl Hv Hhs Hg block Hst.
  assert (Htr : exists b s1, track_block block post s = (Ok b, s1) /\ store_inv anchor vs s1 /\ grows s s1 /\
                  only_added s s1 (hash_tree_root block)).
  { destruct (s_blocks s !! hash_tree_root block) as [ob|] eqn:Hb.
    - exists false, s. split_and!; [|done|done|by split; [exists ob|auto]]. unfold track_block. rewrite bool_decide_eq_true_2 by done.
      cbn [negb]. mstep. unfold has_block. by rewrite bool_decide_eq_true_2 by (by exists ob).
    - set (sb := mkSignedBlockWithAttestation (mkBlockWithAttestation block
                   (mkAttestation 0 (mkAttestationData 0 Checkpoint_default Checkpoint_default Checkpoint_default)))
                   (mkBlockSignatures [])).
      assert (Hext : extends anchor vs s block post).
      { apply (transition_extends anchor vs s hs sb true post Hi Hfr); [by apply (body_wf anchor vs s slot v head_root votes)|done|done|by apply Hst]. }
      destruct (track_block_Ok anchor vs s block post Hi eq_refl Hext) as [Ht Hi']. exists true, (tracked s block post).
      split_and!; [done|done|by eapply tracked_grows|]. unfold tracked, adopt_post_state_checkpoints, insert_block. rewrite Hb. simpl.
      split; simpl; [rewrite lookup_insert_eq; by eexists|]. intros r [<-|]%lookup_insert_is_Some'; auto. }
  destruct Htr as (b & s1 & Ht & Hi1 & Hgr & Hin).
  destruct (accept_new_votes_Ok anchor vs s1 Hi1) as (h & _ & _ & _ & Ha & Hi2 & _).
  eexists. split_and!; [|exact Hi2|by etrans; [exact Hgr|split]|exact Hin]. unfold finalize_produced_block. fold block.
  erewrite mbind_Ok by exact Ht. by erewrite mbind_Ok by exact Ha.
Qed.

(** The two ways a production ends. *)
Lemma produce_block_cases anchor vs s slot v :
  store_inv anchor vs s -> anchor_parent_fresh s anchor -> u64_ok slot -> u64_ok v ->
  let known := s_latest_new_votes s ∪ s_latest_known_votes s in
  exists h, let s1 := set_head h (set_votes known ∅ s) in
    lmd_head s known 0 h /\ store_inv anchor vs s1 /\
    ((exists e, produce_block slot v s = (Err e, s1)) \/
     (exists hs votes post s',
        let block := mkBlock slot v h (hash_tree_root post) (body_from votes) in
        produce_block slot v s = (Ok (mkProducedBlock block (hash_tree_root block) h post (hash_tree_root post)), s') /\
        v = slot mod len vs /\ vs <> [] /\ s_states s !! h = Some hs /\ gathered s1 votes /\
        (len votes = MAX_ATTESTATIONS \/ forall sv, includable s1 post sv -> sv ∈ votes) /\
        (forall sb, bwa_block (sb_message sb) = block -> state_transition sb true hs = (Ok tt, post)) /\
        store_inv anchor vs s' /\ grows s1 s' /\ only_added s s' (hash_tree_root block))).
Proof.
  intros Hi Hfr Hsl Hv known.
  destruct (accept_new_votes_Ok anchor vs s Hi) as (h & origin & ob & weight & Ha & Hi1 & Hor & Hob & Hw & Hg).
  fold known in Ha, Hi1, Hw. set (s1 := set_head h (set_votes known ∅ s)) in *. exists h. cbn zeta. fold s1.
  split_and!; [by exists origin, ob, weight|done|].
  destruct (si_head _ _ _ Hi1) as [hb Hhb]. destruct (si_states _ _ _ Hi1 _ _ Hhb) as (hs & Hhs & Hps).
  unfold produce_block. erewrite mbind_Ok by (unfold get_proposal_head; erewrite mbind_Ok by exact Ha; by mstep).
  mstep. rewrite Hhs. cbn [ok_or]. mstep. rewrite (post_state_num_validators _ _ _ Hps). unfold is_proposer.
  destruct (N.eqb_spec (len vs) 0) as [|Hn]; cbn [omap_err]; mstep; [left; by eexists|].
  destruct (N.eqb_spec (slot mod len vs) v) as [Hprop|]; cbn [negb]; [|left; by eexists].
  destruct (converge_loop_cases (S (size (s_latest_known_votes s1))) anchor vs s1 (s_head s1) slot v hs []) as
    [[e He]|(votes & post & He & Hgat & Hmax & Hst)]; [done|done|done|apply Hps| |by split; [constructor|intros ? ?%elem_of_nil|]|simpl; lia| |].
  { destruct Hps as [_ -> -> _]. done. }
  { unfold converge_attestations. rewrite He. left. by eexists. }
  unfold converge_attestations. rewrite He. mstep. right.
  destruct (finalize_produced_block_Ok anchor vs s1 hs (s_head s1) slot v votes post) as (s' & Hf & Hi' & Hgr & Hin);
    [done|done|done|done|done|done|done|]. rewrite Hf.
  exists hs, votes, post, s'. split_and!; try done. by rewrite <-len_zero_nil.
Qed.

(** C31. [produce_block] on a store that satisfies the invariant.  Production ends
    and never panics.  If it succeeds, the block extends the LMD-GHOST head of the
    promoted votes, its proposer is the one the registry assigns to the slot, its
    body is made of distinct votes of the pool within the SSZ bound, and either
    the bound is reached or every includable vote is in it.  Any importer that has
    the parent's state accepts it: whatever the signatures, the state transition
    with the state-root check yields exactly the returned post-state.  The block
    is tracked and the invariant is kept.  If it fails, only the pending votes
    were promoted and the head refreshed. *)
Theorem produce_block_spec anchor vs s slot v :
  store_inv anchor vs s -> anchor_parent_fresh s anchor -> u64_ok slot -> u64_ok v ->
  let known := s_latest_new_votes s ∪ s_latest_known_votes s in
  match produce_block slot v s with
  | (Ok pb, s') =>
      store_inv anchor vs s' /\ is_Some (s_blocks s' !! pb_root pb) /\
      lmd_head s known 0 (pb_parent_root pb) /\ v = slot mod len vs /\ vs <> [] /\
      exists hs votes, s_states s !! pb_parent_root pb = Some hs /\
        pb_block pb = mkBlock slot v (pb_parent_root pb) (hash_tree_root (pb_post_state pb)) (body_from votes) /\
        pb_root pb = hash_tree_root (pb_block pb) /\
        (forall sb, bwa_block (sb_message sb) = pb_block pb -> state_transition sb true hs = (Ok tt, pb_post_state pb)) /\
        NoDup votes /\ (forall sv, sv ∈ votes -> exists w, known !! w = Some sv) /\ len votes <= MAX_ATTESTATIONS /\
        (len votes = MAX_ATTESTATIONS \/
         forall w sv, known !! w = Some sv -> is_Some (s_blocks s !! cp_root (ad_target (att_data (sa_message sv)))) ->
           ad_source (att_data (sa_message sv)) = st_latest_justified (pb_post_state pb) -> sv ∈ votes)
  | (Err _, s') => store_inv anchor vs s' /\ exists h, s' = set_head h (set_votes known ∅ s) /\ lmd_head s known 0 h
  | _ => False
  end.
Proof.
  intros Hi Hfr Hsl Hv known.
  destruct (produce_block_cases anchor vs s slot v Hi Hfr Hsl Hv)
    as (h & Hl & Hi1 & [[e ->]|(hs & votes & post & s' & -> & Hp & Hn & Hhs & [Hnd Hpool Hcap] & Hmax & Hst & Hi' & Hgr & Hin)]).
  - split; [done|]. by exists h.
  - destruct Hin as [Hin _]. split_and!; [done|done|done|done|done|]. exists hs, votes. split_and!; [done|done|done|done|done|done|done|].
    destruct Hmax as [|Hmax]; [by left|right]. intros w sv Hsv Ht Hsrc. apply Hmax. split_and!; [by exists w| |done].
    by apply bool_decide_eq_true.
Qed.

Lemma produce_attestation_vote_Ok anchor vs s slot :
  store_inv anchor vs s ->
  let known := s_latest_new_votes s ∪ s_latest_known_votes s in
  exists h hb target b, let s1 := set_head h (set_votes known ∅ s) in
    let source := s_latest_justified s in
    produce_attestation_vote slot s =
      (Ok (mkProducedVote (mkAttestationData slot (mkCheckpoint h (b_slot hb)) target source) h target source (s_safe_target s)), s1) /\
    store_inv anchor vs s1 /\ lmd_head s known 0 h /\ s_blocks s !! h = Some hb /\
    s_blocks s !! cp_root target = Some b /\ b_slot b = cp_slot target /\ ancestor (s_blocks s) (cp_root target) h.
Proof.
  intros Hi known.
  destruct (accept_new_votes_Ok anchor vs s Hi) as (h & origin & ob & weight & Ha & Hi1 & Hor & Hob & Hw & Hg).
  fold known in Ha, Hi1, Hw. set (s1 := set_head h (set_votes known ∅ s)) in *.
  destruct (si_head _ _ _ Hi1) as [hb Hhb].
  destruct (get_vote_target_Ok anchor vs s1 Hi1 None I I) as (cp & b & Ht & Hb & Hbs & Hanc & _).
  exists h, hb, cp, b. cbn zeta. fold s1. split_and!; [|done|by exists origin, ob, weight|done|done|done|done].
  unfold produce_attestation_vote. erewrite mbind_Ok by (unfold get_proposal_head; erewrite mbind_Ok by exact Ha; by mstep).
  mstep. rewrite Hhb. cbn [ok_or]. mstep. rewrite Ht. by mstep.
Qed.

(** [produce_attestation_vote] always succeeds on a store that satisfies the
    invariant.  The vote is for the LMD-GHOST head of the promoted votes with its
    slot, its source is the justified checkpoint of the store, and its target is a
    tracked block on the chain of the head at its own slot. *)
Theorem produce_attestation_vote_spec anchor vs s slot :
  store_inv anchor vs s ->
  let known := s_latest_new_votes s ∪ s_latest_known_votes s in
  exists pv s', produce_attestation_vote slot s = (Ok pv, s') /\ store_inv anchor vs s' /\
    let vote := pv_vote pv in
    ad_slot vote = slot /\ ad_source vote = s_latest_justified s /\ lmd_head s known 0 (cp_root (ad_head vote)) /\
    s' = set_head (cp_root (ad_head vote)) (set_votes known ∅ s) /\
    (exists b, s_blocks s !! cp_root (ad_head vote) = Some b /\ b_slot b = cp_slot (ad_head vote)) /\
    (exists b, s_blocks s !! cp_root (ad_target vote) = Some b /\ b_slot b = cp_slot (ad_target vote)) /\
    ancestor (s_blocks s) (cp_root (ad_target vote)) (cp_root (ad_head vote)) /\
    cp_slot (ad_target vote) <= cp_slot (ad_head vote).
Proof.
  intros Hi known. destruct (produce_attestation_vote_Ok anchor vs s slot Hi) as (h & hb & cp & b & Hp & Hi1 & Hl & Hh & Hb & Hbs & Ha).
  eexists _, _. split; [exact Hp|]. split; [exact Hi1|]. cbn [pv_vote ad_slot ad_source ad_head ad_target cp_root cp_slot].
  split_and!; [done|done|done|done|by exists hb|by exists b|done|].
  destruct (ancestor_slot _ _ _ _ _ (store_slots_decrease _ _ _ Hi) Ha Hb Hh) as [? _]. lia.
Qed.

End ProductionInv.
