(* ===== verification/Engine.v ===== *)
(** * The consensus engine: import, production, clock

    Models [crates/runtime/src/chain/engine] ([handle.rs], [importer.rs],
    [verify.rs], [results.rs], [error.rs]) and [signing_domain.rs].  The engine is
    a store behind a mutex; every entry point takes the lock once and holds it to
    the end, so an entry point is one computation on the store and concurrent
    callers interleave entry points as wholes.  Metrics and log lines have no
    effect on the store and are not modelled.

    The signature verifier (leanSig behind the [Verifier] trait) is a parameter. *)

From stdpp Require Import base numbers list gmap strings sorting.
From Stdlib Require Import Strings.Byte ZArith Lia.
From S2P Require Import Prelude Config Types Merkle Codec Slot Containers State Stf Ancestry Ghost Store Production.

(** ** The signing domain ([signing_domain.rs]) *)

Section SigningDomain.
Context {sha : Sha256}.

(** The error carries the slot that does not fit the epoch domain. *)
Definition attestation_signing_inputs (att : Attestation) : Outcome Slot (N * Bytes32) :=
  let slot := ad_slot (att_data att) in
  let? epoch := ok_or (u32_try_from slot) slot in
  Ok (epoch, hash_tree_root att).

End SigningDomain.

Section Engine.
Context {sha : Sha256} {o : HashOrder} {CryptoError : Type}.

(** ** Errors and results *)

Inductive VerifyError :=
| LengthMismatch (expected got : N)
| ValidatorOutOfRange (validator_id len : N)
| VerifyEpochOverflow (slot : N)
| VerifyCrypto (e : CryptoError)
| OverCap (len cap : N).

Inductive EngineError :=
| EngineForkchoice (e : ForkchoiceError)
| EngineStateTransition (e : StateTransitionError)
| EngineVerify (e : VerifyError).

Inductive BlockImportResult :=
| BlockAccepted (block_root parent_root post_state_root head_root : Bytes32)
| DuplicateBlock (block_root : Bytes32)
| MissingParent (block_root parent_root : Bytes32)
| BlockRejected (block_root parent_root : Bytes32) (error : EngineError).

Inductive AttestationImportResult :=
| AttestationAccepted (validator_id : ValidatorIndex) (head_root safe_target_root : Bytes32)
| AttestationIgnored (validator_id : ValidatorIndex) (head_root safe_target_root : Bytes32)
| AttestationRejected (validator_id : ValidatorIndex) (error : EngineError).

Inductive VerifyPolicy := Enforce | Skip.
Definition enforces (p : VerifyPolicy) : bool := match p with Enforce => true | Skip => false end.

(** [Verifier::verify]: public key, epoch, message, signature. *)
Definition Verifier : Type := PublicKey -> N -> Bytes32 -> Signature -> unit + CryptoError.

Record PersistInputs := mkPersistInputs {
  pi_head : Checkpoint;
  pi_finalized : Checkpoint;
  pi_post_state : State;
}.

Record PersistPlan := mkPersistPlan {
  pp_block_root : Bytes32;
  pp_head : Checkpoint;
  pp_finalized : Checkpoint;
  pp_state : State;
  pp_block : SignedBlockWithAttestation;
}.

Record UnsignedProduction := mkUnsignedProduction {
  up_block : Block;
  up_proposer_vote : ProducedVote;
  up_block_root : Bytes32;
  up_persist : option PersistInputs;
}.

(** ** The verify gate ([verify.rs]) *)

Definition pre_check_over_cap (signatures : list Signature) (body_attestations : list Attestation)
    : Outcome VerifyError unit :=
  ofold (fun _ n => if MAX_ATTESTATIONS <? n then Err (OverCap n MAX_ATTESTATIONS) else Ok tt)
    [len signatures; len body_attestations] tt.

Definition verify_one (att : Attestation) (sig : Signature) (validators : list Validator) (verifier : Verifier)
    : Outcome VerifyError unit :=
  let validator_id := att_validator_id att in
  let idx := default u64_max (usize_try_from validator_id) in
  let? validator := ok_or (validators !! N.to_nat idx) (ValidatorOutOfRange validator_id (len validators)) in
  let? (epoch, message) := omap_err VerifyEpochOverflow (attestation_signing_inputs att) in
  match verifier (v_pubkey validator) epoch message sig with
  | inl _ => Ok tt
  | inr e => Err (VerifyCrypto e)
  end.

Definition verify_positional (body_attestations : list Attestation) (proposer_attestation : Attestation)
    (signatures : list Signature) (validators : list Validator) (verifier : Verifier) : Outcome VerifyError unit :=
  let expected := len body_attestations + 1 in
  if negb (len signatures =? expected) then Err (LengthMismatch expected (len signatures))
  else ofold (fun _ '(att, sig) => verify_one att sig validators verifier)
         (zip (body_attestations ++ [proposer_attestation]) signatures) tt.

Definition run_verify_gate (verifier : option Verifier) (signed_block : SignedBlockWithAttestation)
    (validators : list Validator) : Outcome VerifyError unit :=
  match verifier with
  | None => Ok tt
  | Some verifier =>
      verify_positional (bb_attestations (b_body (bwa_block (sb_message signed_block))))
        (bwa_proposer_attestation (sb_message signed_block)) (bs_signatures (sb_signature signed_block))
        validators verifier
  end.

(** ** Import ([importer.rs]) *)

(** Body attestations paired with their signatures by position, the default
    signature where the list is short. *)
Definition block_carried_votes (body : list Attestation) (signatures : list Signature) : list SignedAttestation :=
  (fun '(i, att) => mkSignedAttestation att (default (bv_zero 3116) (signatures !! N.to_nat i))) <$> enumerate body.

(** Errors of single votes are dropped. *)
Fixpoint fold_block_attestations (votes : list SignedAttestation) : M Store EngineError unit :=
  match votes with
  | [] => mret tt
  | vote :: votes => fun store =>
      match process_attestation vote true store with
      | (Ok _, store') | (Err _, store') => fold_block_attestations votes store'
      | (Panic, store') => (Panic, store')
      | (Diverge, store') => (Diverge, store')
      end
  end.

(** [?] on a fork-choice result. *)
Definition lift_fc {A} (c : FCM A) : M Store EngineError A :=
  fun store => let '(r, store') := c store in (omap_err EngineForkchoice r, store').

Definition transition_and_track (signed_block : SignedBlockWithAttestation) (parent_state : State)
    : M Store EngineError Bytes32 :=
  match state_transition signed_block true parent_state with
  | (Err e, _) => mthrow (EngineStateTransition e)
  | (Panic, _) => mlift Panic
  | (Diverge, _) => mlift Diverge
  | (Ok _, post_state) =>
      let post_state_root := hash_tree_root post_state in
      let block := bwa_block (sb_message signed_block) in
      let! _ := lift_fc (track_block block post_state) in
      let! _ := fold_block_attestations
                  (block_carried_votes (bb_attestations (b_body block)) (bs_signatures (sb_signature signed_block))) in
      let! _ := lift_fc accept_new_votes in
      mret post_state_root
  end.

Definition capture_persist_inputs (store : Store) (block_root head_root : Bytes32) : option PersistInputs :=
  post_state ← s_states store !! block_root;
  head_block ← s_blocks store !! head_root;
  Some (mkPersistInputs (mkCheckpoint head_root (b_slot head_block)) (s_latest_finalized store) post_state).

Definition capture_persist_plan (store : Store) (block_root head_root : Bytes32) (block : SignedBlockWithAttestation)
    : option PersistPlan :=
  inputs ← capture_persist_inputs store block_root head_root;
  Some (mkPersistPlan block_root (pi_head inputs) (pi_finalized inputs) (pi_post_state inputs) block).

(** [import_block_capturing_inner]; [import_block_capturing] and
    [import_block_synced_capturing] are its two policies.  It has no error of its
    own: a failure is the [Rejected] variant of the result. *)
Definition import_block_capturing_inner (verifier : option Verifier) (signed_block : SignedBlockWithAttestation)
    (policy : VerifyPolicy) : M Store Empty_set (BlockImportResult * option PersistPlan) :=
  let block := bwa_block (sb_message signed_block) in
  let block_root := hash_tree_root block in
  let parent_root := b_parent_root block in
  let reject e := mret (BlockRejected block_root parent_root e, None) in
  let! store := mget in
  if has_block store block_root then mret (DuplicateBlock block_root, None)
  else
    match pre_check_over_cap (bs_signatures (sb_signature signed_block)) (bb_attestations (b_body block)) with
    | Err e => reject (EngineVerify e)
    | Panic => mlift Panic
    | Diverge => mlift Diverge
    | Ok _ =>
      match s_states store !! parent_root with
      | None => mret (MissingParent block_root parent_root, None)
      | Some parent_state =>
        match (if enforces policy then run_verify_gate verifier signed_block (st_validators parent_state) else Ok tt) with
        | Err e => reject (EngineVerify e)
        | Panic => mlift Panic
        | Diverge => mlift Diverge
        | Ok _ => fun store =>
          match transition_and_track signed_block parent_state store with
          | (Ok post_state_root, store') =>
              let head_root := s_head store' in
              (Ok (BlockAccepted block_root parent_root post_state_root head_root,
                   capture_persist_plan store' block_root head_root signed_block), store')
          | (Err error, store') => (Ok (BlockRejected block_root parent_root error, None), store')
          | (Panic, store') => (Panic, store')
          | (Diverge, store') => (Diverge, store')
          end
        end
      end
    end.

Definition import_block_capturing (verifier : option Verifier) (signed_block : SignedBlockWithAttestation) :=
  import_block_capturing_inner verifier signed_block Enforce.
Definition import_block_synced_capturing (verifier : option Verifier) (signed_block : SignedBlockWithAttestation) :=
  import_block_capturing_inner verifier signed_block Skip.
Definition import_block (verifier : option Verifier) (signed_block : SignedBlockWithAttestation) : M Store Empty_set BlockImportResult :=
  let! (result, _) := import_block_capturing verifier signed_block in mret result.

Definition import_attestation (signed_vote : SignedAttestation) : M Store Empty_set AttestationImportResult :=
  let validator_id := att_validator_id (sa_message signed_vote) in
  fun store =>
    match process_attestation signed_vote false store with
    | (Err e, store') => (Ok (AttestationRejected validator_id (EngineForkchoice e)), store')
    | (Ok true, store') => (Ok (AttestationAccepted validator_id (s_head store') (s_safe_target store')), store')
    | (Ok false, store') => (Ok (AttestationIgnored validator_id (s_head store') (s_safe_target store')), store')
    | (Panic, store') => (Panic, store')
    | (Diverge, store') => (Diverge, store')
    end.

(** ** Production and clock ([handle.rs]) *)

Definition engine_produce_block (slot : Slot) (validator : ValidatorIndex) : M Store EngineError ProducedBlock :=
  lift_fc (produce_block slot validator).

Definition produce_block_unsigned (slot : Slot) (validator : ValidatorIndex) : M Store EngineError UnsignedProduction :=
  let! produced := lift_fc (produce_block slot validator) in
  let! proposer_vote := lift_fc (produce_attestation_vote slot) in
  let! store := mget in
  let persist := capture_persist_inputs store (pb_root produced) (s_head store) in
  mret (mkUnsignedProduction (pb_block produced) proposer_vote (pb_root produced) persist).

Definition engine_produce_attestation_vote (slot : Slot) : M Store EngineError ProducedVote :=
  lift_fc (produce_attestation_vote slot).

Definition engine_tick_interval (has_proposal : bool) : M Store EngineError unit :=
  lift_fc (tick_interval has_proposal).

End Engine.

Arguments VerifyError : clear implicits.
Arguments EngineError : clear implicits.
Arguments BlockImportResult : clear implicits.
Arguments AttestationImportResult : clear implicits.
Arguments Verifier : clear implicits.
