(* ===== verification/EngineInv.v ===== *)
(** * Theorems on the consensus engine

    What an import does to the store on each of its outcomes, what the verify gate
    guarantees, that peers accept what a node produces, and the invariant of every
    store an engine can reach. *)

From stdpp Require Import base numbers list gmap strings sorting.
From Stdlib Require Import Strings.Byte ZArith Lia.
From S2P Require Import Prelude Config Types Bitfields Merkle Codec Slot Containers State Stf Justif StfInv Ancestry Ghost Store StoreInv Production ProductionInv Engine.

Section EngineInv.
Context {sha : Sha256} {o : HashOrder} {Ho : HashOrderLaws o} {CryptoError : Type}.

(** ** The verify gate *)

(** The signature of [att] is valid under the key the registry has for it. *)
Definition signature_valid (verifier : Verifier CryptoError) (validators : list Validator)
    (att : Attestation) (sig : Signature) : Prop :=
  exists val, validators !! N.to_nat (att_validator_id att) = Some val /\ ad_slot (att_data att) <= u32_max /\
    verifier (v_pubkey val) (ad_slot (att_data att)) (hash_tree_root att) sig = inl tt.

Lemma verify_one_cases verifier validators att sig :
  u64_ok (att_validator_id att) ->
  (verify_one att sig validators verifier = Ok tt /\ signature_valid verifier validators att sig) \/
  ((exists e, verify_one att sig validators verifier = Err e) /\ ~ signature_valid verifier validators att sig).
Proof.
  intros Hu. unfold verify_one, usize_try_from, signature_valid. rewrite (proj2 (N.ltb_lt _ _) Hu). simpl.
  destruct (validators !! N.to_nat (att_validator_id att)) as [val|]; simpl.
  2:{ right. split; [by eexists|]. by intros (? & ? & _). }
  unfold attestation_signing_inputs, u32_try_from.
  destruct (N.leb_spec (ad_slot (att_data att)) u32_max) as [Hle|Hgt]; simpl.
  2:{ right. split; [by eexists|]. intros (? & _ & ? & _). lia. }
  destruct (verifier _ _ _ _) as [[]|e] eqn:Hv.
  - left. split; [done|]. by exists val.
  - right. split; [by eexists|]. intros (? & [= <-] & _ & ?). congruence.
Qed.

Lemma verify_all_cases verifier validators pairs :
  Forall (fun '(att, _) => u64_ok (att_validator_id att)) pairs ->
  (ofold (fun _ '(att, sig) => verify_one att sig validators verifier) pairs tt = Ok tt /\
     Forall (fun '(att, sig) => signature_valid verifier validators att sig) pairs) \/
  ((exists e, ofold (fun _ '(att, sig) => verify_one att sig validators verifier) pairs tt = Err e) /\
     Exists (fun '(att, sig) => ~ signature_valid verifier validators att sig) pairs).
Proof.
  induction 1 as [|[att sig] pairs Hu _ IH]; [by left|]. cbn [ofold].
  destruct (verify_one_cases verifier validators att sig Hu) as [[-> Hs]|[[e ->] Hn]]; cbn [obind].
  - destruct IH as [[-> Hall]|[[e ->] Hn]]; [left; by split; [|constructor]|right; split; [by eexists|by right]].
  - right. split; [by eexists|by left].
Qed.

(** The verify gate passes exactly when the envelope has one signature per
    body attestation plus one for the proposer's, and each is valid, by position,
    for the attestation's hash tree root and its slot as the epoch, under the key
    the registry holds for its validator.  The gate never panics. *)
Theorem verify_positional_spec body proposer signatures validators (verifier : Verifier CryptoError) :
  Forall ssz_wf (body ++ [proposer]) ->
  match verify_positional body proposer signatures validators verifier with
  | Ok _ => len signatures = len body + 1 /\
      forall i att sig, (body ++ [proposer]) !! i = Some att -> signatures !! i = Some sig ->
        signature_valid verifier validators att sig
  | Err _ => len signatures <> len body + 1 \/
      exists i att sig, (body ++ [proposer]) !! i = Some att /\ signatures !! i = Some sig /\
        ~ signature_valid verifier validators att sig
  | _ => False
  end.
Proof.
  intros Hwf. unfold verify_positional. destruct (N.eqb_spec (len signatures) (len body + 1)) as [Hl|Hl]; cbn [negb]; [|by left].
  assert (Hz : forall i att sig, zip (body ++ [proposer]) signatures !! i = Some (att, sig) <->
                 (body ++ [proposer]) !! i = Some att /\ signatures !! i = Some sig).
  { intros i att sig. rewrite lookup_zip_with_Some. naive_solver. }
  destruct (verify_all_cases verifier validators (zip (body ++ [proposer]) signatures)) as [[-> Hall]|[[e ->] Hex]].
  - apply Forall_lookup_2. intros i [att sig] [Hatt _]%Hz. eapply Forall_lookup_1 in Hwf; [|exact Hatt]. by destruct Hwf.
  - split; [done|]. intros i att sig Hatt Hsig. by eapply (Forall_lookup_1 _ _ i (att, sig) Hall), Hz.
  - right. apply Exists_exists in Hex as ([att sig] & [i Hin%Hz]%list_elem_of_lookup_1 & Hn). destruct Hin.
    by exists i, att, sig.
Qed.

(** ** Folding the attestations of a block *)

Lemma fold_block_attestations_Ok anchor vs votes s :
  store_inv anchor vs s -> Forall ssz_wf votes ->
  exists known new, fold_block_attestations (CryptoError:=CryptoError) votes s = (Ok tt, set_votes known new s) /\
    store_inv anchor vs (set_votes known new s).
Proof.
  intros Hi Hwf. revert s Hi. induction Hwf as [|sv votes Hsv _ IH]; intros s Hi.
  - exists (s_latest_known_votes s), (s_latest_new_votes s). by destruct s.
  - cbn [fold_block_attestations].
    destruct (process_attestation_cases anchor vs s sv true Hi) as [(e & -> & _)|(c & -> & _ & Hvv & Hv)]; [by apply IH|].
    destruct (pools_after_ok anchor vs s sv true Hi Hvv Hv Hsv) as [Hk Hn].
    destruct (IH _ (set_votes_inv _ _ _ _ _ Hi Hk Hn)) as (known & new & -> & Hi'). by exists known, new.
Qed.

Lemma block_carried_votes_wf body sigs : Forall ssz_wf body -> Forall ssz_wf (block_carried_votes body sigs).
Proof.
  intros Hb. unfold block_carried_votes, enumerate. apply Forall_fmap, Forall_lookup_2. intros i [k att] Hk.
  apply lookup_zip_with_Some in Hk as (? & ? & [= -> ->] & _ & Hatt). by eapply Forall_lookup_1 in Hatt; [|exact Hb].
Qed.

(** ** Import *)

(** The store after an accepted block: the block and its post-state added, their
    checkpoints adopted, the votes of the body folded in and promoted. *)
Definition import_post (s : Store) (block : Block) (post : State) (known : VotePool) (h : Bytes32) : Store :=
  set_head h (set_votes known ∅ (tracked s block post)).

Lemma transition_and_track_cases anchor vs s sb hs :
  store_inv anchor vs s -> anchor_parent_fresh s anchor ->
  let block := bwa_block (sb_message sb) in
  ssz_wf block -> s_states s !! b_parent_root block = Some hs -> s_blocks s !! hash_tree_root block = None ->
  (exists e, transition_and_track (CryptoError:=CryptoError) sb hs s = (Err e, s) /\
     exists e', state_transition sb true hs = (Err e', hs)) \/
  (exists post known h, state_transition sb true hs = (Ok tt, post) /\
     transition_and_track (CryptoError:=CryptoError) sb hs s = (Ok (hash_tree_root post), import_post s block post known h) /\
     store_inv anchor vs (import_post s block post known h) /\ extends anchor vs s block post /\
     lmd_head (tracked s block post) known 0 h).
Proof.
  intros Hi Hfr block Hwf Hhs Hnew. unfold transition_and_track.
  destruct (si_states_dom _ _ _ Hi (b_parent_root block)) as [pb Hpb]; [by exists hs|].
  destruct (si_states _ _ _ Hi _ _ Hpb) as (hs' & Hhs' & Hps). rewrite Hhs in Hhs'. injection Hhs' as <-.
  destruct (state_transition sb true hs) as [r post] eqn:Hst.
  destruct (state_transition_cases hs sb true (ps_inv _ _ _ Hps) Hwf) as [[e He]|(? & ? & ? & ? & ? & _ & _ & _ & _ & _ & _ & _ & Hr & He)];
    rewrite Hst in He; injection He as -> ->.
  { left. exists (EngineStateTransition e). split; [done|by exists e]. }
  clear Hr. right. match goal with |- context [attestations_post ?a ?b ?c ?d] => set (post := attestations_post a b c d) in * end.
  destruct (transition_post_state vs _ hs sb true post Hps Hwf Hst) as (_ & _ & Hroot).
  pose proof (transition_extends anchor vs s hs sb true post Hi Hfr Hwf Hhs Hnew Hst) as Hext.
  destruct (track_block_Ok anchor vs s block post Hi (eq_sym (Hroot eq_refl)) Hext) as [Htr Hi1].
  destruct (fold_block_attestations_Ok anchor vs (block_carried_votes (bb_attestations (b_body block)) (bs_signatures (sb_signature sb)))
              (tracked s block post) Hi1) as (known & new & Hf & Hi2); [apply block_carried_votes_wf, Hwf|].
  destruct (accept_new_votes_Ok anchor vs _ Hi2) as (h & origin & ob & weight & Ha & Hi3 & Hl).
  exists post, (new ∪ known), h. split_and!; [done| |done|done|].
  - fold block. erewrite mbind_Ok by (unfold lift_fc; by rewrite Htr). erewrite mbind_Ok by exact Hf.
    by erewrite mbind_Ok by (unfold lift_fc; by rewrite Ha).
  - by exists origin, ob, weight.
Qed.

Lemma pre_check_over_cap_cases sigs body :
  (pre_check_over_cap (CryptoError:=CryptoError) sigs body = Ok tt /\ len sigs <= MAX_ATTESTATIONS /\ len body <= MAX_ATTESTATIONS) \/
  ((exists e, pre_check_over_cap (CryptoError:=CryptoError) sigs body = Err e) /\
   (MAX_ATTESTATIONS < len sigs \/ MAX_ATTESTATIONS < len body)).
Proof.
  unfold pre_check_over_cap. cbn [ofold].
  destruct (N.ltb_spec MAX_ATTESTATIONS (len sigs)); cbn [obind]; [right; split; [by eexists|by left]|].
  destruct (N.ltb_spec MAX_ATTESTATIONS (len body)); cbn [obind]; [right; split; [by eexists|by right]|by left].
Qed.

Lemma verify_positional_returned body proposer sigs validators (verifier : Verifier CryptoError) :
  Forall ssz_wf (body ++ [proposer]) -> returned (verify_positional body proposer sigs validators verifier).
Proof.
  intros Hwf. unfold verify_positional. destruct (len sigs =? len body + 1); cbn [negb]; [|done].
  destruct (verify_all_cases verifier validators (zip (body ++ [proposer]) sigs)) as [[-> _]|[[e ->] _]]; [|done|done].
  apply Forall_lookup_2. intros i [att sig] (a & b & [= -> ->] & Hatt & _)%lookup_zip_with_Some.
  eapply Forall_lookup_1 in Hwf; [|exact Hatt]. by destruct Hwf.
Qed.

(** The block passed the gate its policy asks for. *)
Definition gate_passed (verifier : option (Verifier CryptoError)) (policy : VerifyPolicy)
    (sb : SignedBlockWithAttestation) (validators : list Validator) : Prop :=
  match policy, verifier with
  | Enforce, Some v =>
      verify_positional (bb_attestations (b_body (bwa_block (sb_message sb)))) (bwa_proposer_attestation (sb_message sb))
        (bs_signatures (sb_signature sb)) validators v = Ok tt
  | _, _ => True
  end.

(** One import, as a case distinction on its guards. *)
Lemma import_block_cases anchor vs s verifier sb policy :
  store_inv anchor vs s -> anchor_parent_fresh s anchor -> ssz_wf sb ->
  let block := bwa_block (sb_message sb) in
  let root := hash_tree_root block in
  let run := import_block_capturing_inner verifier sb policy s in
  (exists b, s_blocks s !! root = Some b /\ run = (Ok (DuplicateBlock root, None), s)) \/
  (s_states s !! b_parent_root block = None /\ run = (Ok (MissingParent root (b_parent_root block), None), s)) \/
  (exists e, run = (Ok (BlockRejected root (b_parent_root block) e, None), s) /\
     forall hs, s_states s !! b_parent_root block = Some hs -> gate_passed verifier policy sb (st_validators hs) -> exists e', state_transition sb true hs = (Err e', hs)) \/
  (exists hs post known h,
     s_states s !! b_parent_root block = Some hs /\ s_blocks s !! root = None /\
     gate_passed verifier policy sb (st_validators hs) /\ state_transition sb true hs = (Ok tt, post) /\
     run = (Ok (BlockAccepted root (b_parent_root block) (hash_tree_root post) h,
                capture_persist_plan (import_post s block post known h) root h sb), import_post s block post known h) /\
     store_inv anchor vs (import_post s block post known h) /\ extends anchor vs s block post /\
     lmd_head (tracked s block post) known 0 h).
Proof.
  intros Hi Hfr Hwf block root run. destruct Hwf as ((Hbwf & Hpwf) & Hsigs).
  unfold run, import_block_capturing_inner. fold block root. mstep. unfold has_block.
  destruct (s_blocks s !! root) as [b|] eqn:Hb.
  { rewrite bool_decide_eq_true_2 by (by exists b). left. by exists b. }
  rewrite bool_decide_eq_false_2 by (by intros [? ?]). right.
  destruct (pre_check_over_cap_cases (bs_signatures (sb_signature sb)) (bb_attestations (b_body block)))
    as [(-> & Hc1 & Hc2)|[[e ->] Hc]].
  2:{ destruct Hbwf as (_ & _ & _ & Hlen). fold block in Hlen. unfold ssz_wf, BlockSignatures_SszWf in Hsigs. lia. }
  destruct (s_states s !! b_parent_root block) as [hs|] eqn:Hhs; [|by left]. right.
  assert (Hgate : exists r, (if enforces policy then run_verify_gate verifier sb (st_validators hs) else Ok tt) = r /\
    match r with Ok _ => gate_passed verifier policy sb (st_validators hs) | Err _ => ~ gate_passed verifier policy sb (st_validators hs)
    | _ => False end).
  { eexists. split; [done|]. unfold gate_passed, run_verify_gate. destruct policy; simpl; [|done]. destruct verifier as [v|]; [|done].
    pose proof (verify_positional_returned (bb_attestations (b_body block)) (bwa_proposer_attestation (sb_message sb))
                  (bs_signatures (sb_signature sb)) (st_validators hs) v) as Hret.
    fold block. destruct (verify_positional _ _ _ _ _) as [[]| | |]; [done|done|..]; apply Hret; apply Forall_app;
      (split; [apply Hbwf|by apply Forall_singleton]). }
  destruct Hgate as (r & -> & Hr). destruct r as [u|e| |]; [|left; eexists; split; [done|]; naive_solver|done|done].
  destruct (transition_and_track_cases anchor vs s sb hs Hi Hfr Hbwf Hhs Hb)
    as [(e & -> & e' & He)|(post & known & h & Hst & -> & Hi' & Hext & Hl)].
  - left. eexists. split; [done|]. intros hs' [= <-] _. by exists e'.
  - right. exists hs, post, known, h. by split_and!.
Qed.

(** One import, by its outcome. *)
Lemma import_block_outcome anchor vs s verifier sb policy :
  store_inv anchor vs s -> anchor_parent_fresh s anchor -> ssz_wf sb ->
  let block := bwa_block (sb_message sb) in
  let root := hash_tree_root block in
  match import_block_capturing_inner verifier sb policy s with
  | (Ok (BlockAccepted r parent post_root head, plan), s') =>
      r = root /\ parent = b_parent_root block /\ head = s_head s' /\
      exists hs post hb, s_states s !! parent = Some hs /\ s_blocks s !! root = None /\
        gate_passed verifier policy sb (st_validators hs) /\
        state_transition sb true hs = (Ok tt, post) /\ post_root = hash_tree_root post /\
        s_blocks s' = <[root := block]> (s_blocks s) /\ s_states s' = <[root := post]> (s_states s) /\
        s_latest_new_votes s' = ∅ /\ lmd_head s' (s_latest_known_votes s') 0 head /\
        s_blocks s' !! head = Some hb /\
        plan = Some (mkPersistPlan root (mkCheckpoint head (b_slot hb)) (s_latest_finalized s') post sb) /\
        store_inv anchor vs s' /\ grows s s'
  | (Ok (DuplicateBlock r, plan), s') => r = root /\ is_Some (s_blocks s !! root) /\ plan = None /\ s' = s
  | (Ok (MissingParent r parent, plan), s') =>
      r = root /\ parent = b_parent_root block /\ s_states s !! parent = None /\ plan = None /\ s' = s
  | (Ok (BlockRejected r parent _, plan), s') => r = root /\ parent = b_parent_root block /\ plan = None /\ s' = s /\
      forall hs, s_states s !! parent = Some hs -> gate_passed verifier policy sb (st_validators hs) ->
        exists e, state_transition sb true hs = (Err e, hs)
  | _ => False
  end.
Proof.
  intros Hi Hfr Hwf block root.
  destruct (import_block_cases anchor vs s verifier sb policy Hi Hfr Hwf) as
    [(b & Hb & ->)|[[Hp ->]|[(e & -> & Hrej)|(hs & post & known & h & Hhs & Hnew & Hg & Hst & -> & Hi' & Hext & Hl)]]];
    [by split_and!; [|exists b| |]|done|done|].
  fold block root in Hhs, Hnew, Hi', Hl |- *. destruct (si_head _ _ _ Hi') as [hb Hhb].
  set (s' := import_post s block post known h) in *.
  assert (Hbl : s_blocks s' = <[root := block]> (s_blocks s) /\ s_states s' = <[root := post]> (s_states s)).
  { unfold s', import_post, tracked, insert_block. fold root. by rewrite Hnew. }
  destruct Hbl as [Hbl Hst'].
  split_and!; [done|done|done|]. exists hs, post, hb. split_and!; try done.
  - unfold capture_persist_plan, capture_persist_inputs. rewrite Hst', lookup_insert_eq.
    by rewrite (Hhb : s_blocks s' !! h = Some hb).
  - etrans; [by apply (tracked_grows anchor vs s block post)|by split].
Qed.

(** C10. What an import does, by outcome.  [Accepted]: the block was not tracked,
    its parent's state was, the gate of the policy passed and the state transition
    with the state-root check succeeded on that state; the store gained exactly
    this block with this post-state, the head is the LMD-GHOST head over the new
    tree, nothing is pending, and the plan to persist carries the post-state, the
    head and the finalized checkpoint.  [DuplicateBlock], [MissingParent] and
    [Rejected] leave the store as it was, and a block is only [Rejected] when the
    gate fails or the transition does.  No import panics or fails to return. *)
Theorem import_block_spec anchor vs s verifier sb policy :
  store_inv anchor vs s -> anchor_parent_fresh s anchor -> ssz_wf sb ->
  let block := bwa_block (sb_message sb) in
  let root := hash_tree_root block in
  match import_block_capturing_inner verifier sb policy s with
  | (Ok (BlockAccepted r parent post_root head, plan), s') =>
      r = root /\ parent = b_parent_root block /\ head = s_head s' /\
      exists hs post hb, s_states s !! parent = Some hs /\ s_blocks s !! root = None /\
        gate_passed verifier policy sb (st_validators hs) /\
        state_transition sb true hs = (Ok tt, post) /\ post_root = hash_tree_root post /\
        s_blocks s' = <[root := block]> (s_blocks s) /\ s_states s' = <[root := post]> (s_states s) /\
        s_latest_new_votes s' = ∅ /\ lmd_head s' (s_latest_known_votes s') 0 head /\
        s_blocks s' !! head = Some hb /\
        plan = Some (mkPersistPlan root (mkCheckpoint head (b_slot hb)) (s_latest_finalized s') post sb) /\
        store_inv anchor vs s' /\ grows s s'
  | (Ok (DuplicateBlock r, plan), s') => r = root /\ is_Some (s_blocks s !! root) /\ plan = None /\ s' = s
  | (Ok (MissingParent r parent, plan), s') =>
      r = root /\ parent = b_parent_root block /\ s_states s !! parent = None /\ plan = None /\ s' = s
  | (Ok (BlockRejected r parent _, plan), s') => r = root /\ parent = b_parent_root block /\ plan = None /\ s' = s /\
      forall hs, s_states s !! parent = Some hs -> gate_passed verifier policy sb (st_validators hs) ->
        exists e, state_transition sb true hs = (Err e, hs)
  | _ => False
  end.
Proof. apply import_block_outcome. Qed.


(** ** Every history of calls *)

(** One call of an entry point under the lock. *)
Inductive entry :=
| CallImportBlock (sb : SignedBlockWithAttestation)
| CallImportCapturing (sb : SignedBlockWithAttestation)
| CallImportSynced (sb : SignedBlockWithAttestation)
| CallImportAttestation (sv : SignedAttestation)
| CallTick (has_proposal : bool)
| CallProduceBlock (slot : Slot) (validator : ValidatorIndex)
| CallProduceUnsigned (slot : Slot) (validator : ValidatorIndex)
| CallProduceVote (slot : Slot).

(** Its arguments are values of the Rust types. *)
Definition entry_wf (e : entry) : Prop :=
  match e with
  | CallImportBlock sb | CallImportCapturing sb | CallImportSynced sb => ssz_wf sb
  | CallImportAttestation sv => ssz_wf sv
  | CallTick _ => True
  | CallProduceBlock slot v | CallProduceUnsigned slot v => u64_ok slot /\ u64_ok v
  | CallProduceVote slot => u64_ok slot
  end.

Definition returns {E A} (c : Outcome E A) : bool := match c with Ok _ | Err _ => true | Panic | Diverge => false end.

(** Whether the call returned, and the store after it. *)
Definition run_entry (verifier : option (Verifier CryptoError)) (e : entry) (s : Store) : bool * Store :=
  match e with
  | CallImportBlock sb => let '(r, s') := import_block verifier sb s in (returns r, s')
  | CallImportCapturing sb => let '(r, s') := import_block_capturing verifier sb s in (returns r, s')
  | CallImportSynced sb => let '(r, s') := import_block_synced_capturing verifier sb s in (returns r, s')
  | CallImportAttestation sv => let '(r, s') := import_attestation (CryptoError:=CryptoError) sv s in (returns r, s')
  | CallTick hp => let '(r, s') := engine_tick_interval (CryptoError:=CryptoError) hp s in (returns r, s')
  | CallProduceBlock slot v => let '(r, s') := engine_produce_block (CryptoError:=CryptoError) slot v s in (returns r, s')
  | CallProduceUnsigned slot v => let '(r, s') := produce_block_unsigned (CryptoError:=CryptoError) slot v s in (returns r, s')
  | CallProduceVote slot => let '(r, s') := engine_produce_attestation_vote (CryptoError:=CryptoError) slot s in (returns r, s')
  end.

Fixpoint run_entries (verifier : option (Verifier CryptoError)) (es : list entry) (s : Store) : bool * Store :=
  match es with
  | [] => (true, s)
  | e :: es => let '(r, s1) := run_entry verifier e s in let '(rs, s2) := run_entries verifier es s1 in (r && rs, s2)
  end.

(** What a call keeps. *)
Definition entry_ok (anchor : Bytes32) (vs : list Validator) (s : Store) (run : bool * Store) : Prop :=
  run.1 = true /\ store_inv anchor vs run.2 /\ grows s run.2.

Lemma entry_ok_step {E A} anchor vs s (c : M Store E A) :
  (exists r s', c s = (r, s') /\ returned r /\ store_inv anchor vs s' /\ grows s s') ->
  entry_ok anchor vs s (let '(r, s') := c s in (returns r, s')).
Proof. intros (r & s' & -> & ? & ? & ?). split_and!; [by destruct r|done|done]. Qed.

Lemma import_block_returned anchor vs s (verifier : option (Verifier CryptoError)) sb policy :
  store_inv anchor vs s -> anchor_parent_fresh s anchor -> ssz_wf sb ->
  exists res s', import_block_capturing_inner verifier sb policy s = (Ok res, s') /\ store_inv anchor vs s' /\ grows s s'.
Proof.
  intros Hi Hfr Hwf.
  destruct (import_block_cases anchor vs s verifier sb policy Hi Hfr Hwf) as
    [(b & Hb & ->)|[[Hp ->]|[(e & -> & _)|(hs & post & known & h & Hhs & Hnew & Hg & Hst & -> & Hi' & Hext & Hl)]]];
    eexists _, _; (split; [reflexivity|split; try done]).
  etrans; [by apply (tracked_grows anchor vs s (bwa_block (sb_message sb)) post)|by split].
Qed.

Lemma import_block_entries anchor vs s verifier sb :
  store_inv anchor vs s -> anchor_parent_fresh s anchor -> ssz_wf sb ->
  entry_ok anchor vs s (run_entry verifier (CallImportBlock sb) s) /\
  entry_ok anchor vs s (run_entry verifier (CallImportCapturing sb) s) /\
  entry_ok anchor vs s (run_entry verifier (CallImportSynced sb) s).
Proof.
  intros Hi Hfr Hwf.
  destruct (import_block_returned anchor vs s verifier sb Enforce Hi Hfr Hwf) as ([res plan] & s' & He & Hi' & Hg).
  destruct (import_block_returned anchor vs s verifier sb Skip Hi Hfr Hwf) as ([res2 plan2] & s2 & He2 & Hi2 & Hg2).
  split_and!; apply entry_ok_step.
  - exists (Ok res), s'. split; [|by split_and!]. unfold import_block, import_block_capturing, mbind. by rewrite He.
  - by exists (Ok (res, plan)), s'.
  - by exists (Ok (res2, plan2)), s2.
Qed.

(** Calls that track no block. *)
Definition keeps_blocks {E A} (anchor : Bytes32) (vs : list Validator) (s : Store) (c : M Store E A) : Prop :=
  exists r s', c s = (r, s') /\ returned r /\ store_inv anchor vs s' /\ grows s s' /\ s_blocks s' = s_blocks s.

Lemma keeps_blocks_entry {E A} anchor vs s (c : M Store E A) :
  keeps_blocks anchor vs s c -> entry_ok anchor vs s (let '(r, s') := c s in (returns r, s')).
Proof. intros (r & s' & He & Hr & Hi & Hg & _). apply entry_ok_step. by exists r, s'. Qed.

Lemma import_attestation_keeps anchor vs s sv :
  store_inv anchor vs s -> ssz_wf sv -> keeps_blocks anchor vs s (import_attestation (CryptoError:=CryptoError) sv).
Proof.
  intros Hi Hwf. unfold keeps_blocks, import_attestation.
  destruct (process_attestation_cases anchor vs s sv false Hi) as [(e & -> & _)|(c & -> & _ & Hvv & Hv)].
  - eexists _, s. split; [reflexivity|by split_and!].
  - destruct (pools_after_ok anchor vs s sv false Hi Hvv Hv Hwf) as [Hk Hn].
    destruct c; (eexists _, _; split; [reflexivity|split_and!; [done|by apply set_votes_inv|by split|done]]).
Qed.

Lemma tick_keeps anchor vs s hp :
  store_inv anchor vs s -> keeps_blocks anchor vs s (engine_tick_interval (CryptoError:=CryptoError) hp).
Proof.
  intros Hi. unfold keeps_blocks, engine_tick_interval, lift_fc, tick_interval. mstep.
  unfold checked_advance, checked_add. destruct (N.ltb_spec (s_time s + 1) u64_bound) as [Ht1|]; cbn [ok_or]; mstep.
  2:{ eexists _, s. split; [reflexivity|by split_and!]. }
  set (s1 := set_time (s_time s + 1) s). pose proof (set_time_inv anchor vs s (s_time s + 1) Hi Ht1) as Hi1. fold s1 in Hi1.
  assert (Hg : grows s s1) by (split; simpl; done || lia).
  destruct (accept_new_votes_Ok anchor vs s1 Hi1) as (h & _ & _ & _ & Ha & Hi2 & _).
  destruct (update_safe_target_Ok anchor vs s1 Hi1) as (g & _ & _ & _ & Hu & Hi3 & _).
  assert (Hidle : exists r s', (let '(r, store') := mret tt s1 in (omap_err (EngineForkchoice (CryptoError:=CryptoError)) r, store')) = (r, s') /\
    returned r /\ store_inv anchor vs s' /\ grows s s' /\ s_blocks s' = s_blocks s) by (by eexists _, s1).
  destruct (time_phase _); [destruct hp; [rewrite Ha|exact Hidle]|exact Hidle|rewrite Hu|rewrite Ha];
    eexists _, _; (split; [reflexivity|split_and!; [done|done|by etrans; [exact Hg|split]|done]]).
Qed.

Lemma produce_vote_keeps anchor vs s slot :
  store_inv anchor vs s -> keeps_blocks anchor vs s (engine_produce_attestation_vote (CryptoError:=CryptoError) slot).
Proof.
  intros Hi. unfold keeps_blocks, engine_produce_attestation_vote, lift_fc.
  destruct (produce_attestation_vote_Ok anchor vs s slot Hi) as (h & hb & cp & b & -> & Hi1 & _).
  eexists _, _. split; [reflexivity|split_and!; [done|done|by split|done]].
Qed.

Lemma produce_block_entries anchor vs s verifier slot v :
  store_inv anchor vs s -> anchor_parent_fresh s anchor -> u64_ok slot -> u64_ok v ->
  entry_ok anchor vs s (run_entry verifier (CallProduceBlock slot v) s) /\
  entry_ok anchor vs s (run_entry verifier (CallProduceUnsigned slot v) s).
Proof.
  intros Hi Hfr Hsl Hv. split; apply entry_ok_step; unfold engine_produce_block, produce_block_unsigned, lift_fc, mbind;
  destruct (produce_block_cases anchor vs s slot v Hi Hfr Hsl Hv)
    as (h & _ & Hi1 & [[e ->]|(hs & votes & post & s' & -> & _ & _ & _ & _ & _ & _ & Hi' & Hgr & _)]); cbn [omap_err].
  1,3: eexists _, _; split; [reflexivity|split_and!; [done|done|by split]].
  - eexists _, _. split; [reflexivity|split_and!; [done|done|]]. etrans; [|exact Hgr]. by split.
  - destruct (produce_attestation_vote_Ok anchor vs s' slot Hi') as (h2 & hb & cp & b & -> & Hi2 & _). cbn [omap_err].
    eexists _, _. split; [reflexivity|split_and!; [done|done|]].
    transitivity s'; [etrans; [|exact Hgr]; by split|by split].
Qed.

Lemma run_entry_ok anchor vs s verifier e :
  store_inv anchor vs s -> anchor_parent_fresh s anchor -> entry_wf e ->
  entry_ok anchor vs s (run_entry verifier e s).
Proof.
  intros Hi Hfr Hwf. destruct e; simpl in Hwf.
  1-3: by apply import_block_entries.
  1: by apply keeps_blocks_entry, import_attestation_keeps.
  1: by apply keeps_blocks_entry, tick_keeps.
  1-2: destruct Hwf; by apply produce_block_entries.
  by apply keeps_blocks_entry, produce_vote_keeps.
Qed.

Lemma fresh_grows anchor vs s s' :
  store_inv anchor vs s -> grows s s' -> anchor_parent_fresh s anchor -> anchor_parent_fresh s' anchor.
Proof.
  intros Hi Hg Hfr ab b Hab Hlt. destruct (si_anchor _ _ _ Hi) as (ab' & Hab' & _).
  pose proof (lookup_weaken _ _ _ _ Hab' (gr_blocks _ _ Hg)) as Hab2. rewrite Hab in Hab2. injection Hab2 as ->.
  by apply (Hfr ab').
Qed.

(** The stores an engine starts from: the genesis anchor, or the node's own
    persisted head with its post-state. *)
Inductive started : Bytes32 -> list Validator -> Store -> Prop :=
| started_genesis t vs s :
    u64_ok t -> Forall ssz_wf vs -> len vs <= VALIDATOR_REGISTRY_LIMIT ->
    let state := genesis_state t vs in
    from_anchor state (genesis_anchor_block state) = Ok s -> started (hash_tree_root (genesis_anchor_block state)) vs s
| started_resumed state block s :
    post_state_of (st_validators state) (b_slot block) state ->
    from_trusted_head state block = Ok s -> started (hash_tree_root block) (st_validators state) s.

Lemma run_entries_ok anchor vs s verifier es :
  store_inv anchor vs s -> anchor_parent_fresh s anchor -> Forall entry_wf es ->
  entry_ok anchor vs s (run_entries verifier es s).
Proof.
  intros Hi Hfr Hwf. revert s Hi Hfr. induction Hwf as [|e es He _ IH]; intros s Hi Hfr; cbn [run_entries]; [by split_and!|].
  destruct (run_entry_ok anchor vs s verifier e Hi Hfr He) as (Hr & Hi1 & Hg1).
  destruct (run_entry verifier e s) as [r s1]. simpl in Hr, Hi1, Hg1.
  destruct (IH s1 Hi1 (fresh_grows _ _ _ _ Hi Hg1 Hfr)) as (Hrs & Hi2 & Hg2).
  destruct (run_entries verifier es s1) as [rs s2]. simpl in Hrs, Hi2, Hg2. subst r rs. split_and!; [done|done|by etrans].
Qed.

Lemma seed_anchor_block state block checkpoints s :
  seed_anchor state block checkpoints = Ok s -> s_blocks s !! hash_tree_root block = Some block.
Proof.
  unfold seed_anchor. case_bool_decide; cbn [negb]; [|done].
  destruct (checked_mul _ _); simpl; [|done]. destruct (checkpoints _ _). intros [= <-]. unfold insert_block.
  cbn [s_blocks]. rewrite lookup_empty. simpl. by rewrite lookup_insert_eq.
Qed.

Lemma from_anchor_block state block s : from_anchor state block = Ok s -> s_blocks s !! hash_tree_root block = Some block.
Proof. apply seed_anchor_block. Qed.

Lemma started_inv anchor vs s0 :
  started anchor vs s0 -> (forall ab, s_blocks s0 !! anchor = Some ab -> b_parent_root ab <> anchor) ->
  store_inv anchor vs s0.
Proof.
  destruct 1 as [t vs s Ht Hvs Hn state Hs|state block s Hps Hs]; intros Hne.
  - eapply seed_anchor_inv; [|by eapply Hne, seed_anchor_block|exact Hs|done..].
    split; [by apply genesis_state_inv|done|done|done].
  - assert (u64_ok (b_slot block)) by (destruct Hps as [[[]] <- _ _]; done).
    eapply seed_anchor_inv; [done|by eapply Hne, seed_anchor_block|exact Hs|done..].
Qed.

(** C1. For every history of calls to the engine, in whatever order the lock
    serves them, from genesis or from a trusted head: every call returns, the
    store's invariant holds at the end, and no call ever removes or reorders a
    tracked block or moves the clock, the justified or the finalized checkpoint
    back.  The only assumption is on the hash: it has no cycle through the anchor,
    that is, the anchor is not its own parent and no later block has the root of
    the anchor's parent. *)
Theorem engine_histories_safe anchor vs s0 verifier es :
  started anchor vs s0 -> anchor_parent_fresh s0 anchor ->
  (forall ab, s_blocks s0 !! anchor = Some ab -> b_parent_root ab <> anchor) ->
  Forall entry_wf es ->
  let '(all_returned, s) := run_entries verifier es s0 in
  all_returned = true /\ store_inv anchor vs s /\ grows s0 s.
Proof.
  intros Hst Hfr Hne Hwf. pose proof (run_entries_ok anchor vs s0 verifier es (started_inv _ _ _ Hst Hne) Hfr Hwf) as Hok.
  by destruct (run_entries verifier es s0).
Qed.

End EngineInv.
