(* ===== verification/Ots.v ===== *)
(** * One-time-signature keys: records, watermark, wire form

    Models the crypto-free records of [crates/types/src] ([ots_record_codec.rs],
    [ots_key_state.rs], [ots_watermark.rs]) and the crate [crates/crypto/src]:
    [error.rs], [scheme.rs], [key_state.rs], [record.rs], [sign.rs], [verify.rs].

    The signature scheme is the external leanSig: the class [LeanSig] has the
    operations the crate calls, with [Panic] for its internal assertions, and
    [LeanSigLaws] states what it documents of them.  An interval [start..end] is
    the pair of its bounds. *)

From stdpp Require Import base numbers list gmap strings.
From Stdlib Require Import Strings.Byte ZArith Lia.
From S2P Require Import Prelude Types Merkle Codec.

(** ** The shared record layout ([ots_record_codec.rs]) *)

Definition OTS_RECORD_SSZ_LEN : N := 32 + 8 + 8 + 8.

Definition ots_encode (head : Bytes32) (a b c : N) : list u8 :=
  as_slice head ++ to_le_bytes 8 a ++ to_le_bytes 8 b ++ to_le_bytes 8 c.

(** [Result::ok]. *)
Definition result_ok {E F A} (c : Outcome E A) : Outcome F (option A) :=
  match c with Ok a => Ok (Some a) | Err _ => Ok None | Panic => Panic | Diverge => Diverge end.

Definition ots_decode {E} (bytes : list u8) : Outcome E (option (Bytes32 * N * N * N)) :=
  if negb (len bytes =? OTS_RECORD_SSZ_LEN) then Ok None
  else
    let? head_bytes := slice bytes 0 32 in
    let? head := copy_array 32 head_bytes in
    let field offset := let? s := slice bytes offset (offset + 8) in result_ok (decode_u64_le s) in
    let? a := field 32 in
    let? b := field 40 in
    let? c := field 48 in
    Ok (match a, b, c with Some a, Some b, Some c => Some (head, a, b, c) | _, _, _ => None end).

(** ** The two records ([ots_key_state.rs], [ots_watermark.rs]) *)

Record OtsKeyState := mkOtsKeyState {
  ks_seed : Bytes32;
  ks_activation_epoch : N;
  ks_num_active_epochs : N;
  ks_next_index : N;
}.

Record OtsWatermark := mkOtsWatermark {
  wm_key_commitment : Bytes32;
  wm_activation_epoch : N;
  wm_num_active_epochs : N;
  wm_next_index : N;
}.

(** Both decode errors are a length mismatch. *)
Inductive OtsDecodeError := OtsLength (expected actual : N).

Definition key_state_to_ssz_bytes (ks : OtsKeyState) : list u8 :=
  ots_encode (ks_seed ks) (ks_activation_epoch ks) (ks_num_active_epochs ks) (ks_next_index ks).

Definition key_state_from_ssz_bytes (bytes : list u8) : Outcome OtsDecodeError OtsKeyState :=
  let? fields := ots_decode bytes in
  let? (seed, activation_epoch, num_active_epochs, next_index) :=
    ok_or fields (OtsLength OTS_RECORD_SSZ_LEN (len bytes)) in
  Ok (mkOtsKeyState seed activation_epoch num_active_epochs next_index).

Definition watermark_to_ssz_bytes (wm : OtsWatermark) : list u8 :=
  ots_encode (wm_key_commitment wm) (wm_activation_epoch wm) (wm_num_active_epochs wm) (wm_next_index wm).

Definition watermark_from_ssz_bytes (bytes : list u8) : Outcome OtsDecodeError OtsWatermark :=
  let? fields := ots_decode bytes in
  let? (key_commitment, activation_epoch, num_active_epochs, next_index) :=
    ok_or fields (OtsLength OTS_RECORD_SSZ_LEN (len bytes)) in
  Ok (mkOtsWatermark key_commitment activation_epoch num_active_epochs next_index).

Definition identifies (wm : OtsWatermark) (key_commitment : Bytes32) (activation_epoch num_active_epochs : N) : bool :=
  bool_decide (wm_key_commitment wm = key_commitment) && (wm_activation_epoch wm =? activation_epoch)
  && (wm_num_active_epochs wm =? num_active_epochs).

(** The integers are [u64]. *)
Definition key_state_ok (ks : OtsKeyState) : Prop :=
  u64_ok (ks_activation_epoch ks) /\ u64_ok (ks_num_active_epochs ks) /\ u64_ok (ks_next_index ks).
Definition watermark_ok (wm : OtsWatermark) : Prop :=
  u64_ok (wm_activation_epoch wm) /\ u64_ok (wm_num_active_epochs wm) /\ u64_ok (wm_next_index wm).

Lemma len_ots_encode head a b c : len (ots_encode head a b c) = OTS_RECORD_SSZ_LEN.
Proof. unfold ots_encode. autorewrite with len. by rewrite bv_len. Qed.

Lemma decode_u64_le_8 v : u64_ok v -> decode_u64_le (to_le_bytes 8 v) = Ok v.
Proof.
  intros Hv. unfold decode_u64_le, decode_uint_le. rewrite len_to_le_bytes. simpl.
  rewrite from_to_le_bytes. f_equal. by apply N.mod_small.
Qed.

Lemma ots_decode_encode {E} head a b c :
  u64_ok a -> u64_ok b -> u64_ok c -> @ots_decode E (ots_encode head a b c) = Ok (Some (head, a, b, c)).
Proof.
  intros Ha Hb Hc. unfold ots_decode. rewrite len_ots_encode. simpl negb. cbv iota. unfold ots_encode.
  pose proof (bv_len head) as Hh. pose proof (len_to_le_bytes 8 a) as La. pose proof (len_to_le_bytes 8 b) as Lb.
  pose proof (len_to_le_bytes 8 c) as Lc.
  set (rest := to_le_bytes 8 a ++ _). rewrite (slice_app [] (as_slice head) rest 0 32 eq_refl ltac:(by rewrite Hh) : slice (as_slice head ++ rest) 0 32 = _).
  subst rest. cbn [obind]. rewrite copy_array_as_slice. cbn [obind].
  rewrite (slice_app (as_slice head) (to_le_bytes 8 a)) by (rewrite Hh, ?La; done). cbn [obind].
  rewrite (app_assoc (as_slice head)), (slice_app (as_slice head ++ to_le_bytes 8 a) (to_le_bytes 8 b))
    by (rewrite len_app, Hh, La, ?Lb; done). cbn [obind].
  rewrite (app_assoc (as_slice head ++ to_le_bytes 8 a)), <-(app_nil_r (to_le_bytes 8 c)).
  rewrite (slice_app ((as_slice head ++ to_le_bytes 8 a) ++ to_le_bytes 8 b) (to_le_bytes 8 c))
    by (rewrite !len_app, Hh, La, Lb, ?Lc; done). cbn [obind].
  by rewrite !decode_u64_le_8.
Qed.

(** Every string of the right length is the encoding of one record. *)
Lemma ots_encode_surj bytes :
  len bytes = OTS_RECORD_SSZ_LEN -> exists head a b c, u64_ok a /\ u64_ok b /\ u64_ok c /\ bytes = ots_encode head a b c.
Proof.
  intros Hl. destruct (bv_of_list_is_Some 32 (take 32 bytes)) as (head & _ & Hh).
  { unfold len in *. rewrite length_take. change OTS_RECORD_SSZ_LEN with 56 in Hl. lia. }
  assert (Hw : forall bs, len bs = 8 -> u64_ok (from_le_bytes bs) /\ to_le_bytes 8 (from_le_bytes bs) = bs).
  { intros bs Hb. split; [pose proof (from_le_bytes_bound bs) as H; by rewrite Hb in H|].
    rewrite <-(to_from_le_bytes bs) at 2. f_equal. unfold len in Hb. lia. }
  assert (Hlen : forall k, (k <= 48)%nat -> len (take 8 (drop k bytes)) = 8).
  { intros k Hk. unfold len in *. rewrite length_take, length_drop. change OTS_RECORD_SSZ_LEN with 56 in Hl. lia. }
  destruct (Hw _ (Hlen 32%nat ltac:(lia))) as [H1 E1], (Hw _ (Hlen 40%nat ltac:(lia))) as [H2 E2],
    (Hw _ (Hlen 48%nat ltac:(lia))) as [H3 E3].
  eexists head, _, _, _. split_and!; [exact H1|exact H2|exact H3|]. unfold ots_encode. rewrite E1, E2, E3, Hh.
  rewrite <-(take_drop 32 bytes) at 1. f_equal. rewrite <-(take_drop 8 (drop 32 bytes)) at 1. f_equal.
  rewrite drop_drop. rewrite <-(take_drop 8 (drop (32 + 8) bytes)) at 1. f_equal.
  rewrite drop_drop. simpl plus. symmetry. apply take_ge. unfold len in Hl. rewrite length_drop.
  change OTS_RECORD_SSZ_LEN with 56 in Hl. lia.
Qed.

(** ** The signature scheme (leanSig) *)

Class LeanSig := {
  SecretKey : Type;
  LsPublicKey : Type;
  LsSignature : Type;
  SigningError : Type;
  LIFETIME : N;
  (** [key_gen] on the ChaCha20 stream of a seed; it asserts that the window
      fits the lifetime. *)
  key_gen : Bytes32 -> N -> N -> Outcome Empty_set (LsPublicKey * SecretKey);
  get_activation_interval : SecretKey -> N * N;
  get_prepared_interval : SecretKey -> N * N;
  advance_preparation : SecretKey -> SecretKey;
  (** Asserts that the epoch is in the prepared interval. *)
  ls_sign : SecretKey -> N -> Bytes32 -> Outcome SigningError LsSignature;
  (** Asserts that the epoch is below the lifetime, and indexes the lists of the
      signature. *)
  ls_verify : LsPublicKey -> N -> Bytes32 -> LsSignature -> Outcome Empty_set bool;
  pk_to_bytes : LsPublicKey -> list u8;
  (** Decoders fail with the text of their error. *)
  pk_from_bytes : list u8 -> LsPublicKey + string;
  sig_to_bytes : LsSignature -> list u8;
  sig_from_bytes : list u8 -> LsSignature + string;
}.

(** [SchemeWire]: what the crate knows of the scheme's signature payload. *)
Class SchemeWire := {
  PAYLOAD_LEN : N;
  OFFSET_PATH : N;
  OFFSET_HASHES : N;
}.

Definition ProdScheme_wire : SchemeWire := {| PAYLOAD_LEN := 3112; OFFSET_PATH := 36; OFFSET_HASHES := 1064 |}.

Inductive CryptoError {ls : LeanSig} :=
| EpochReused (epoch last_signed : N)
| EpochNotPrepared (epoch start stop : N)
| EpochNotActive (epoch start stop : N)
| InvalidSignature
| Signing (e : SigningError)
| PayloadLength (got expected : N)
| PayloadTooLong (got capacity : N)
| SchemeMisconfigured (payload_len capacity : N)
| NonZeroPadding
| MalformedLayout (field : string) (got expected : N)
| ActivationOutOfRange (activation_epoch num_active_epochs lifetime : N)
| PublicKeyLength (got expected : N)
| SignatureDecode (detail : string)
| PublicKeyDecode (detail : string).

(** [Range::contains]. *)
Definition interval_contains (i : N * N) (x : N) : bool := (fst i <=? x) && (x <? snd i).

Section Crypto.
Context {sha : Sha256} {ls : LeanSig} {sw : SchemeWire}.

(** ** Wire conversions ([scheme.rs]) *)

Definition read_u32_le (bytes : list u8) (offset : N) : option N :=
  if offset + 4 <=? len bytes
  then Some (from_le_bytes (take 4 (drop (N.to_nat offset) bytes)))
  else None.

Definition public_key_to_wire (pk : LsPublicKey) : Outcome CryptoError PublicKey :=
  let bytes := pk_to_bytes pk in
  ok_or (bv_of_list 52 bytes) (PublicKeyLength (len bytes) 52).

Definition public_key_from_wire (pk : PublicKey) : Outcome CryptoError LsPublicKey :=
  match pk_from_bytes (as_slice pk) with inl k => Ok k | inr detail => Err (PublicKeyDecode detail) end.

Definition signature_to_wire (sig : LsSignature) : Outcome CryptoError Signature :=
  let bytes := sig_to_bytes sig in
  if negb (len bytes =? PAYLOAD_LEN) then Err (PayloadLength (len bytes) PAYLOAD_LEN)
  else if 3116 <? len bytes then Err (PayloadTooLong (len bytes) 3116)
  else copy_array 3116 (bytes ++ replicate (N.to_nat (3116 - len bytes)) x00).

Definition signature_from_wire (sig : Signature) : Outcome CryptoError LsSignature :=
  let bytes := as_slice sig in
  let? payload := ok_or (if PAYLOAD_LEN <=? len bytes then Some (take (N.to_nat PAYLOAD_LEN) bytes) else None)
                    (SchemeMisconfigured PAYLOAD_LEN 3116) in
  let? padding := slice bytes PAYLOAD_LEN (len bytes) in
  if negb (forallb (fun b => bool_decide (b = x00)) padding) then Err NonZeroPadding
  else
    let? offset_path := ok_or (read_u32_le payload 0) (MalformedLayout "offset_path" 0 OFFSET_PATH) in
    if negb (offset_path =? OFFSET_PATH) then Err (MalformedLayout "offset_path" offset_path OFFSET_PATH)
    else
      let? offset_hashes := ok_or (read_u32_le payload 32) (MalformedLayout "offset_hashes" 0 OFFSET_HASHES) in
      if negb (offset_hashes =? OFFSET_HASHES) then Err (MalformedLayout "offset_hashes" offset_hashes OFFSET_HASHES)
      else match sig_from_bytes payload with inl s => Ok s | inr detail => Err (SignatureDecode detail) end.

(** A call of leanSig that can only panic. *)
Definition no_err {E A} (c : Outcome Empty_set A) : Outcome E A := omap_err (Empty_set_rect _) c.

(** ** Verification ([verify.rs]) *)

Definition verify (public_key : PublicKey) (epoch : N) (message : Bytes32) (signature : Signature)
    : Outcome CryptoError unit :=
  if LIFETIME <=? epoch then Err InvalidSignature
  else
    let? pk := public_key_from_wire public_key in
    let? sig := signature_from_wire signature in
    let? ok := no_err (ls_verify pk epoch message sig) in
    if (ok : bool) then Ok tt else Err InvalidSignature.

(** ** Key state ([key_state.rs], [sign.rs]) *)

Record SigningKey := mkSigningKey {
  sk_secret : SecretKey;
  sk_last_signed : option N;
  sk_seed : Bytes32;
}.

Definition SigningKey_new (secret : SecretKey) (seed : Bytes32) : SigningKey := mkSigningKey secret None seed.
Definition set_last_signed (epoch : N) (k : SigningKey) : SigningKey := mkSigningKey (sk_secret k) (Some epoch) (sk_seed k).
Definition activation_interval (k : SigningKey) : N * N := get_activation_interval (sk_secret k).
Definition prepared_interval (k : SigningKey) : N * N := get_prepared_interval (sk_secret k).
Definition key_advance (k : SigningKey) : SigningKey :=
  mkSigningKey (advance_preparation (sk_secret k)) (sk_last_signed k) (sk_seed k).

(** The [while] loop of [prepare]. *)
Fixpoint prepare_loop (fuel : nat) (epoch : N) (k : SigningKey) : Outcome CryptoError unit * SigningKey :=
  match fuel with
  | O => (Diverge, k)
  | S fuel =>
      if interval_contains (prepared_interval k) epoch then (Ok tt, k)
      else
        let before := prepared_interval k in
        let k' := key_advance k in
        if bool_decide (prepared_interval k' = before) then (Err (EpochNotPrepared epoch (fst before) (snd before)), k')
        else prepare_loop fuel epoch k'
  end.

Definition prepare (epoch : N) : M SigningKey CryptoError unit := fun k =>
  let activation := activation_interval k in
  if negb (interval_contains activation epoch) then (Err (EpochNotActive epoch (fst activation) (snd activation)), k)
  else
    let prepared := prepared_interval k in
    if epoch <? fst prepared then (Err (EpochNotPrepared epoch (fst prepared) (snd prepared)), k)
    else prepare_loop (S (N.to_nat (snd activation - fst prepared))) epoch k.

Definition sign_raw (epoch : N) (message : Bytes32) : M SigningKey CryptoError LsSignature :=
  let! k := mget in
  let! _ := mlift (match sk_last_signed k with
                   | Some last => if epoch <=? last then Err (EpochReused epoch last) else Ok tt
                   | None => Ok tt
                   end) in
  let prepared := prepared_interval k in
  let! _ := mlift (if negb (interval_contains prepared epoch)
                   then Err (EpochNotPrepared epoch (fst prepared) (snd prepared)) else Ok tt) in
  let! signature := mlift (omap_err Signing (ls_sign (sk_secret k) epoch message)) in
  let! _ := mmodify (set_last_signed epoch) in
  mret signature.

Definition sign (epoch : N) (message : Bytes32) : M SigningKey CryptoError Signature :=
  let! signature := sign_raw epoch message in
  mlift (signature_to_wire signature).

Definition generate_from_seed (seed : Bytes32) (activation_epoch num_active_epochs : N)
    : Outcome CryptoError (PublicKey * SigningKey) :=
  let out_of_range := ActivationOutOfRange activation_epoch num_active_epochs LIFETIME in
  let? stop := ok_or (checked_add activation_epoch num_active_epochs) out_of_range in
  if LIFETIME <? stop then Err out_of_range
  else
    let? (pk, sk) := no_err (key_gen seed activation_epoch num_active_epochs) in
    let? wire_pk := public_key_to_wire pk in
    Ok (wire_pk, SigningKey_new sk seed).

(** ** Records of a key ([record.rs]) *)

Definition COMMITMENT_DOMAIN : list u8 := String.list_byte_of_string "lean-ots-key-commitment-v1".

Definition seed_commitment (seed : Bytes32) : Bytes32 := sha256 (COMMITMENT_DOMAIN ++ as_slice seed).

(** [last_signed.map_or(0, |epoch| epoch + 1)]. *)
Definition next_index (k : SigningKey) : N := match sk_last_signed k with Some epoch => epoch + 1 | None => 0 end.

Definition to_watermark (k : SigningKey) : OtsWatermark :=
  let activation := activation_interval k in
  mkOtsWatermark (seed_commitment (sk_seed k)) (fst activation) (snd activation - fst activation) (next_index k).

Definition to_record (k : SigningKey) : OtsKeyState :=
  let activation := activation_interval k in
  mkOtsKeyState (sk_seed k) (fst activation) (snd activation - fst activation) (next_index k).

Definition from_record (record : OtsKeyState) : Outcome CryptoError SigningKey :=
  let? activation_epoch := ok_or (usize_try_from (ks_activation_epoch record)) (ActivationOutOfRange u64_max 0 LIFETIME) in
  let? num_active_epochs := ok_or (usize_try_from (ks_num_active_epochs record))
                              (ActivationOutOfRange activation_epoch u64_max LIFETIME) in
  let? (_, signing_key) := generate_from_seed (ks_seed record) activation_epoch num_active_epochs in
  if 0 <? ks_next_index record then
    let activation_end := ks_activation_epoch record + ks_num_active_epochs record in
    if (ks_next_index record <=? ks_activation_epoch record) || (activation_end <? ks_next_index record) then
      Err (EpochNotActive (default u32_max (u32_try_from (ks_next_index record))) (ks_activation_epoch record) activation_end)
    else
      let? last_signed := ok_or (u32_try_from (ks_next_index record - 1))
                            (EpochNotActive u32_max (ks_activation_epoch record) activation_end) in
      Ok (set_last_signed last_signed signing_key)
  else Ok signing_key.

(** ** What leanSig documents *)

Class LeanSigLaws : Prop := {
  lifetime_u32 : LIFETIME <= 2 ^ 32;
  (** Key generation returns for a window within the lifetime, and the key's
      interval is the requested window aligned outwards; it is a function of the
      seed, and alignment is idempotent. *)
  key_gen_returns seed a n : a + n <= LIFETIME -> exists k, key_gen seed a n = Ok k;
  key_gen_window seed a n pk sk : key_gen seed a n = Ok (pk, sk) ->
    fst (get_activation_interval sk) <= a /\ a + n <= snd (get_activation_interval sk) <= LIFETIME;
  key_gen_aligned seed a n pk sk : key_gen seed a n = Ok (pk, sk) ->
    let '(start, stop) := get_activation_interval sk in key_gen seed start (stop - start) = Ok (pk, sk);
  key_gen_prepared seed a n pk sk : key_gen seed a n = Ok (pk, sk) ->
    fst (get_prepared_interval sk) = fst (get_activation_interval sk);
  (** Advancing moves the prepared window to the right inside the activation
      interval, without a gap, or leaves it at the end of the interval. *)
  advance_activation sk : get_activation_interval (advance_preparation sk) = get_activation_interval sk;
  advance_prepared sk :
    get_prepared_interval (advance_preparation sk) = get_prepared_interval sk /\
      snd (get_prepared_interval sk) = snd (get_activation_interval sk) \/
    fst (get_prepared_interval sk) < fst (get_prepared_interval (advance_preparation sk))
      <= snd (get_activation_interval sk) /\
    fst (get_prepared_interval (advance_preparation sk)) <= snd (get_prepared_interval sk);
  prepared_within sk : fst (get_activation_interval sk) <= fst (get_prepared_interval sk) /\
    snd (get_prepared_interval sk) <= snd (get_activation_interval sk);
  (** The assertions of [sign] and [verify]. *)
  ls_sign_returned sk epoch message :
    interval_contains (get_prepared_interval sk) epoch = true -> returned (ls_sign sk epoch message);
  ls_verify_returned pk epoch message payload sig :
    epoch < LIFETIME -> len payload = PAYLOAD_LEN -> read_u32_le payload 0 = Some OFFSET_PATH ->
    read_u32_le payload 32 = Some OFFSET_HASHES -> sig_from_bytes payload = inl sig ->
    returned (ls_verify pk epoch message sig);
  (** A signature verifies under the public key generated with the secret key. *)
  sign_verifies seed a n pk sk j epoch message sig : key_gen seed a n = Ok (pk, sk) ->
    ls_sign (Nat.iter j advance_preparation sk) epoch message = Ok sig -> ls_verify pk epoch message sig = Ok true;
  (** Signatures and public keys serialize to what the scheme declares. *)
  sig_round_trip sig : sig_from_bytes (sig_to_bytes sig) = inl sig;
  sig_layout sig : len (sig_to_bytes sig) = PAYLOAD_LEN /\ read_u32_le (sig_to_bytes sig) 0 = Some OFFSET_PATH /\
    read_u32_le (sig_to_bytes sig) 32 = Some OFFSET_HASHES;
  payload_fits : PAYLOAD_LEN <= 3116;
  pk_round_trip pk : pk_from_bytes (pk_to_bytes pk) = inl pk;
  pk_len pk : len (pk_to_bytes pk) = 52;
}.

(** ** Lemmas *)

(** Two states of one key: the prepared window may have moved. *)
Definition same_key (k k' : SigningKey) : Prop :=
  sk_seed k' = sk_seed k /\ activation_interval k' = activation_interval k.

#[export] Instance same_key_refl : Reflexive same_key.
Proof. by split. Qed.
#[export] Instance same_key_trans : Transitive same_key.
Proof. intros k1 k2 k3 [] []. split; congruence. Qed.

Context {laws : LeanSigLaws}.

(** A later state of a key: the prepared window has moved some steps. *)
Definition advanced (k k' : SigningKey) : Prop :=
  sk_seed k' = sk_seed k /\ exists j, sk_secret k' = Nat.iter j advance_preparation (sk_secret k).

Lemma advanced_same_key k k' : advanced k k' -> same_key k k'.
Proof.
  intros [Hs [j Hj]]. split; [done|]. unfold activation_interval. rewrite Hj. clear Hj.
  induction j as [|j IH]; [done|]. simpl. by rewrite advance_activation.
Qed.

#[export] Instance advanced_refl : Reflexive advanced.
Proof. split; [done|by exists 0%nat]. Qed.
#[export] Instance advanced_trans : Transitive advanced.
Proof.
  intros k1 k2 k3 [H1 [i Hi]] [H2 [j Hj]]. split; [congruence|]. exists (j + i)%nat.
  by rewrite Hj, Hi, Nat.iter_add.
Qed.

Lemma prepare_loop_cases fuel epoch k :
  (N.to_nat (snd (activation_interval k) - fst (prepared_interval k)) < fuel)%nat ->
  exists r k', prepare_loop fuel epoch k = (r, k') /\ advanced k k' /\ sk_last_signed k' = sk_last_signed k /\
    returned r /\ (r = Ok tt -> interval_contains (prepared_interval k') epoch = true) /\
    (fst (prepared_interval k) <= epoch < snd (activation_interval k) -> r = Ok tt).
Proof.
  revert k. induction fuel as [|fuel IH]; intros k Hf; [lia|]. cbn [prepare_loop].
  destruct (interval_contains _ epoch) eqn:Hc; [by eexists _, k|].
  assert (Hadv : advanced k (key_advance k)) by (split; [done|by exists 1%nat]).
  assert (Hact : activation_interval (key_advance k) = activation_interval k) by apply advanced_same_key, Hadv.
  unfold interval_contains in Hc. apply andb_false_iff in Hc. rewrite N.leb_gt, N.ltb_ge in Hc.
  pose proof (advance_prepared (sk_secret k)) as Hstep.
  change (get_prepared_interval (advance_preparation (sk_secret k))) with (prepared_interval (key_advance k)) in Hstep.
  change (get_prepared_interval (sk_secret k)) with (prepared_interval k) in Hstep.
  change (get_activation_interval (sk_secret k)) with (activation_interval k) in Hstep.
  destruct (bool_decide _) eqn:Hb.
  { apply bool_decide_eq_true in Hb. eexists _, (key_advance k). split_and!; try done. rewrite Hb in Hstep. lia. }
  apply bool_decide_eq_false in Hb. destruct Hstep as [[Hstep _]|Hstep]; [done|].
  destruct (IH (key_advance k)) as (r & k' & Hl & Hs & Hls & Hr & Hin & Hlive); [rewrite Hact; lia|].
  exists r, k'. split_and!; [done|by etrans|done|done|done|]. intros He. apply Hlive. rewrite Hact. lia.
Qed.

Lemma prepare_cases epoch k :
  exists r k', prepare epoch k = (r, k') /\ advanced k k' /\ sk_last_signed k' = sk_last_signed k /\ returned r /\
    (r = Ok tt -> interval_contains (activation_interval k) epoch = true /\
                  interval_contains (prepared_interval k') epoch = true) /\
    (fst (prepared_interval k) <= epoch < snd (activation_interval k) -> r = Ok tt).
Proof.
  unfold prepare. pose proof (prepared_within (sk_secret k)) as [Hin _].
  change (fst (activation_interval k) <= fst (prepared_interval k)) in Hin.
  destruct (interval_contains (activation_interval k) epoch) eqn:Ha; simpl negb; cbv iota.
  2:{ eexists _, k. split_and!; try done. intros He. unfold interval_contains in Ha. apply andb_false_iff in Ha.
      rewrite N.leb_gt, N.ltb_ge in Ha. lia. }
  destruct (N.ltb_spec epoch (fst (prepared_interval k))); [eexists _, k; split_and!; try done; lia|].
  destruct (prepare_loop_cases (S (N.to_nat (snd (activation_interval k) - fst (prepared_interval k)))) epoch k)
    as (r & k' & -> & ? & ? & ? & ? & ?); [lia|].
  exists r, k'. split_and!; auto.
Qed.

Lemma signature_to_wire_Ok sig :
  exists w, signature_to_wire sig = Ok w /\
    as_slice w = sig_to_bytes sig ++ replicate (N.to_nat (3116 - PAYLOAD_LEN)) x00.
Proof.
  destruct (sig_layout sig) as [Hl _]. pose proof payload_fits as Hf. unfold signature_to_wire. rewrite Hl, N.eqb_refl.
  simpl negb. cbv iota. rewrite (proj2 (N.ltb_ge 3116 PAYLOAD_LEN) Hf). unfold copy_array.
  destruct (bv_of_list_is_Some 3116 (sig_to_bytes sig ++ replicate (N.to_nat (3116 - PAYLOAD_LEN)) x00)) as (w & -> & Hw).
  { autorewrite with len. lia. }
  by exists w.
Qed.

Lemma sign_raw_cases epoch message k :
  (exists e, sign_raw epoch message k = (Err e, k) /\
     (interval_contains (prepared_interval k) epoch = true -> next_index k <= epoch -> exists e', e = Signing e')) \/
  (exists raw, ls_sign (sk_secret k) epoch message = Ok raw /\ interval_contains (prepared_interval k) epoch = true /\
     next_index k <= epoch /\ sign_raw epoch message k = (Ok raw, set_last_signed epoch k)).
Proof.
  unfold sign_raw. mstep.
  assert (Hlast : (exists last, sk_last_signed k = Some last /\ epoch <= last) \/ next_index k <= epoch).
  { unfold next_index. destruct (sk_last_signed k) as [last|]; [|right; lia].
    destruct (N.leb_spec epoch last); [left; eauto|right; lia]. }
  destruct Hlast as [(last & Hlast & Hle)|Hle].
  { rewrite Hlast. left. rewrite (proj2 (N.leb_le _ _) Hle). mstep. eexists. split; [done|]. intros _ Hn.
    unfold next_index in Hn. rewrite Hlast in Hn. lia. }
  replace (match sk_last_signed k with Some last => if epoch <=? last then Err (EpochReused epoch last) else Ok tt
           | None => Ok tt end) with (@Ok CryptoError unit tt).
  2:{ unfold next_index in Hle. destruct (sk_last_signed k) as [last|]; [|done].
      by rewrite (proj2 (N.leb_gt epoch last)) by lia. }
  mstep. destruct (interval_contains (prepared_interval k) epoch) eqn:Hp; simpl negb; cbv iota; mstep.
  2:{ left. by eexists. }
  pose proof (ls_sign_returned (sk_secret k) epoch message Hp) as Hr.
  destruct (ls_sign (sk_secret k) epoch message) as [raw|e| |]; [right|left; eexists; split; [done|eauto]|done|done].
  by exists raw.
Qed.

(** The outcomes of [sign]: a refusal leaves the key as it is; otherwise the
    epoch is above every signed one and is now recorded. *)
Lemma sign_cases epoch message k :
  (exists e, sign epoch message k = (Err e, k) /\
     (interval_contains (prepared_interval k) epoch = true -> next_index k <= epoch -> exists e', e = Signing e')) \/
  (exists raw w, ls_sign (sk_secret k) epoch message = Ok raw /\ signature_to_wire raw = Ok w /\
     interval_contains (prepared_interval k) epoch = true /\ next_index k <= epoch /\
     sign epoch message k = (Ok w, set_last_signed epoch k)).
Proof.
  destruct (sign_raw_cases epoch message k) as [(e & He & Hwhy)|(raw & Hs & Hp & Hn & He)]; unfold sign.
  - left. exists e. split; [|done]. by erewrite mbind_Err.
  - right. destruct (signature_to_wire_Ok raw) as (w & Hw & _). exists raw, w. split_and!; try done.
    erewrite mbind_Ok by exact He. unfold mlift. by rewrite Hw.
Qed.

Lemma to_watermark_same k k' :
  same_key k k' -> to_watermark k' = mkOtsWatermark (wm_key_commitment (to_watermark k))
    (wm_activation_epoch (to_watermark k)) (wm_num_active_epochs (to_watermark k)) (next_index k').
Proof. intros [Hs Ha]. unfold to_watermark. simpl. by rewrite Hs, Ha. Qed.

Lemma generate_from_seed_cases seed a n :
  (exists e, generate_from_seed seed a n = Err e) \/
  (exists pk sk wire, key_gen seed a n = Ok (pk, sk) /\ a + n <= LIFETIME /\ public_key_to_wire pk = Ok wire /\
     generate_from_seed seed a n = Ok (wire, SigningKey_new sk seed)).
Proof.
  unfold generate_from_seed, checked_add. destruct (_ <? u64_bound); [|left; by eexists]. cbn [ok_or obind].
  destruct (N.ltb_spec LIFETIME (a + n)); [left; by eexists|].
  destruct (key_gen_returns seed a n) as [[pk sk] Hk]; [done|]. rewrite Hk. cbn [no_err omap_err obind].
  destruct (public_key_to_wire pk) as [wire|e| |] eqn:Hw; cbn [obind]; [right; by eexists _, _, _|left; by eexists|..];
    unfold public_key_to_wire in Hw; destruct (bv_of_list _ _); discriminate.
Qed.

(** A key restored from a record has the record's seed, window and watermark. *)
Lemma from_record_cases record :
  (exists e, from_record record = Err e) \/
  (exists k, from_record record = Ok k /\ sk_seed k = ks_seed record /\ next_index k = ks_next_index record /\
     ks_next_index record <= LIFETIME /\
     exists pk, key_gen (ks_seed record) (ks_activation_epoch record) (ks_num_active_epochs record) = Ok (pk, sk_secret k)).
Proof.
  unfold from_record, usize_try_from. destruct (_ <? u64_bound); [|left; by eexists]. cbn [ok_or obind].
  destruct (_ <? u64_bound); [|left; by eexists]. cbn [ok_or obind].
  destruct (generate_from_seed_cases (ks_seed record) (ks_activation_epoch record) (ks_num_active_epochs record))
    as [[e ->]|(pk & sk & wire & Hk & Hfit & _ & ->)]; [left; by eexists|]. cbn [obind].
  destruct (N.ltb_spec 0 (ks_next_index record)) as [Hpos|Hz].
  2:{ right. eexists. split_and!; [done|done|unfold next_index; simpl; lia|lia|by exists pk]. }
  destruct (_ || _) eqn:Hb; [left; by eexists|]. apply orb_false_iff in Hb as [H1 H2]. apply N.leb_gt in H1. apply N.ltb_ge in H2.
  pose proof lifetime_u32. unfold u32_try_from. rewrite (proj2 (N.leb_le _ _)) by (unfold u32_max; lia). cbn [ok_or obind].
  right. eexists. split_and!; [done|done|unfold next_index; simpl; lia|lia|by exists pk].
Qed.

(** ** Keys in use *)

(** A key as the crate hands it out: generated from a seed, then prepared and
    signed with, whatever the results. *)
Inductive key_reachable : SigningKey -> Prop :=
| reach_generate seed a n pk k : generate_from_seed seed a n = Ok (pk, k) -> key_reachable k
| reach_prepare epoch k : key_reachable k -> key_reachable (prepare epoch k).2
| reach_sign epoch message k : key_reachable k -> key_reachable (sign epoch message k).2.

Lemma key_reachable_inv k :
  key_reachable k ->
  (exists a n pk wire sk, key_gen (sk_seed k) a n = Ok (pk, sk) /\ public_key_to_wire pk = Ok wire /\
     get_activation_interval sk = activation_interval k) /\
  (next_index k = 0 \/ fst (activation_interval k) < next_index k <= snd (activation_interval k)).
Proof.
  induction 1 as [seed a n pk k Hg|epoch k _ [Hgen Hn]|epoch message k _ [Hgen Hn]].
  - destruct (generate_from_seed_cases seed a n) as [[e He]|(pk' & sk & wire & Hk & _ & Hw & He)]; rewrite Hg in He;
      [done|injection He as -> ->]. split; [by exists a, n, pk', wire, sk|by left].
  - destruct (prepare_cases epoch k) as (r & k' & -> & [Hs Ha]%advanced_same_key & Hl & _). unfold next_index in *. simpl.
    by rewrite Hs, Ha, Hl.
  - destruct (sign_cases epoch message k) as [(e & -> & _)|(raw & w & _ & _ & Hp & _ & ->)]; [done|]. split; [done|]. right.
    apply andb_true_iff in Hp as [H1 H2]. apply N.leb_le in H1. apply N.ltb_lt in H2.
    destruct (prepared_within (sk_secret k)). unfold activation_interval, prepared_interval, next_index in *. simpl. lia.
Qed.

Lemma key_reachable_record_ok k : key_reachable k -> key_state_ok (to_record k).
Proof.
  intros [(a & n & pk & wire & sk & Hk & _ & Ha) Hn]%key_reachable_inv. pose proof lifetime_u32.
  destruct (key_gen_window _ _ _ _ _ Hk) as [H1 H2]. rewrite Ha in H1, H2. unfold key_state_ok, u64_ok, to_record. simpl.
  change u64_bound with 18446744073709551616. lia.
Qed.

(** A record with the seed and the interval of a key in use, and a watermark in
    the interval, can be restored. *)
Lemma from_record_window k n :
  key_reachable k -> (n = 0 \/ fst (activation_interval k) < n <= snd (activation_interval k)) ->
  exists k', from_record (mkOtsKeyState (sk_seed k) (fst (activation_interval k))
      (snd (activation_interval k) - fst (activation_interval k)) n) = Ok k' /\
    same_key k k' /\ sk_last_signed k' = (if 0 <? n then Some (n - 1) else None) /\
    fst (prepared_interval k') = fst (activation_interval k).
Proof.
  intros Hr Hn. destruct (key_reachable_inv k Hr) as [(a & m & pk & wire & sk & Hk & Hw & Ha) _].
  pose proof (key_gen_window _ _ _ _ _ Hk) as [Hw1 [Hw2 Hw3]]. pose proof (key_gen_prepared _ _ _ _ _ Hk) as Hprep.
  pose proof (key_gen_aligned _ _ _ _ _ Hk) as Hal. pose proof lifetime_u32.
  rewrite Ha in *. destruct (activation_interval k) as [start stop] eqn:Hact. simpl in *.
  unfold from_record, usize_try_from. simpl.
  rewrite (proj2 (N.ltb_lt start u64_bound)), (proj2 (N.ltb_lt (stop - start) u64_bound))
    by (change u64_bound with 18446744073709551616; lia). cbn [ok_or obind].
  unfold generate_from_seed, checked_add. replace (start + (stop - start)) with stop by lia.
  rewrite (proj2 (N.ltb_lt stop u64_bound)) by (change u64_bound with 18446744073709551616; lia). cbn [ok_or obind].
  rewrite (proj2 (N.ltb_ge LIFETIME stop)) by lia. rewrite Hal. cbn [no_err omap_err obind]. rewrite Hw. cbn [obind].
  destruct (N.ltb_spec 0 n) as [Hpos|Hz].
  - rewrite (proj2 (N.leb_gt n start)), (proj2 (N.ltb_ge stop n)) by lia. simpl orb. cbv iota.
    unfold u32_try_from. rewrite (proj2 (N.leb_le (n - 1) u32_max)) by (unfold u32_max; lia).
    cbn [ok_or obind]. eexists. split_and!; [done|split; [done|by rewrite Hact]|done|done].
  - eexists. split_and!; [done|split; [done|by rewrite Hact]|done|done].
Qed.

(** A key survives persistence: for every key in use, decoding the bytes of
    its record gives the record, and restoring it gives a key with the same seed,
    the same activation interval and the same watermark, so that exactly the same
    epochs are refused as already signed. *)
Theorem key_record_round_trip k :
  key_reachable k ->
  key_state_from_ssz_bytes (key_state_to_ssz_bytes (to_record k)) = Ok (to_record k) /\
  exists k', from_record (to_record k) = Ok k' /\ same_key k k' /\ sk_last_signed k' = sk_last_signed k.
Proof.
  intros Hr. pose proof (key_reachable_record_ok k Hr) as (H1 & H2 & H3). split.
  { unfold key_state_from_ssz_bytes, key_state_to_ssz_bytes. rewrite ots_decode_encode by done. done. }
  destruct (key_reachable_inv k Hr) as [_ Hn]. destruct (from_record_window k (next_index k) Hr Hn) as (k' & Hf & Hs & Hl & _).
  exists k'. split_and!; [done|done|]. rewrite Hl. unfold next_index. destruct (sk_last_signed k) as [e|]; [|done].
  rewrite (proj2 (N.ltb_lt 0 (e + 1))) by lia. f_equal. lia.
Qed.

(** A container the decoder accepts: the payload with its canonical offsets, then
    zeros up to the width of the container. *)
Definition canonical_container (w : Signature) (payload : list u8) : Prop :=
  as_slice w = payload ++ replicate (N.to_nat (3116 - PAYLOAD_LEN)) x00 /\ len payload = PAYLOAD_LEN /\
  read_u32_le payload 0 = Some OFFSET_PATH /\ read_u32_le payload 32 = Some OFFSET_HASHES.

Lemma forallb_zeros (l : list u8) :
  forallb (fun b => bool_decide (b = x00)) l = true <-> l = replicate (length l) x00.
Proof.
  induction l as [|b l IH]; simpl; [done|]. rewrite andb_true_iff, bool_decide_eq_true, IH. split; [by intros [-> <-]|].
  intros [= Hb Hl]. by rewrite <-Hl.
Qed.

(** The decoder looks at a container exactly through its payload. *)
Lemma signature_from_wire_cases w :
  (exists e, signature_from_wire w = Err e /\ forall payload, canonical_container w payload -> exists d, sig_from_bytes payload = inr d) \/
  (exists payload sig, signature_from_wire w = Ok sig /\ canonical_container w payload /\ sig_from_bytes payload = inl sig).
Proof.
  pose proof payload_fits as Hf. pose proof (bv_len w) as Hw. unfold signature_from_wire. rewrite Hw.
  rewrite (proj2 (N.leb_le _ _) Hf). cbn [ok_or obind]. rewrite slice_Ok by lia. cbn [obind].
  set (payload := take (N.to_nat PAYLOAD_LEN) (as_slice w)). set (padding := take _ _).
  assert (Hpad : padding = drop (N.to_nat PAYLOAD_LEN) (as_slice w)).
  { apply take_ge. rewrite length_drop. unfold len in Hw. lia. }
  assert (Hlp : len payload = PAYLOAD_LEN) by (unfold payload, len in *; rewrite length_take; lia).
  assert (Hlz : length padding = N.to_nat (3116 - PAYLOAD_LEN)) by (rewrite Hpad, length_drop; unfold len in Hw; lia).
  assert (Hcan : forall p, canonical_container w p -> p = payload /\ padding = replicate (length padding) x00).
  { intros p (Hs & Hlen & _). rewrite Hlz, Hpad. unfold payload. rewrite Hs.
    unfold len in Hlen. by rewrite take_app_length', drop_app_length' by lia. }
  assert (Hsplit : as_slice w = payload ++ padding) by (rewrite Hpad; symmetry; apply take_drop).
  destruct (forallb _ padding) eqn:Hz; simpl negb; cbv iota.
  2:{ left. eexists. split; [done|]. intros p [_ Hp]%Hcan. apply forallb_zeros in Hp. congruence. }
  apply forallb_zeros in Hz. rewrite Hlz in Hz.
  destruct (read_u32_le payload 0) as [op|] eqn:H0; cbn [ok_or obind].
  2:{ left. eexists. split; [done|]. intros p Hp. destruct (Hcan p Hp) as [-> _]. destruct Hp as (_ & _ & ? & _). congruence. }
  destruct (N.eqb_spec op OFFSET_PATH) as [->|Hne]; simpl negb; cbv iota.
  2:{ left. eexists. split; [done|]. intros p Hp. destruct (Hcan p Hp) as [-> _]. destruct Hp as (_ & _ & ? & _). congruence. }
  destruct (read_u32_le payload 32) as [oh|] eqn:H1; cbn [ok_or obind].
  2:{ left. eexists. split; [done|]. intros p Hp. destruct (Hcan p Hp) as [-> _]. destruct Hp as (_ & _ & _ & ?). congruence. }
  destruct (N.eqb_spec oh OFFSET_HASHES) as [->|Hne]; simpl negb; cbv iota.
  2:{ left. eexists. split; [done|]. intros p Hp. destruct (Hcan p Hp) as [-> _]. destruct Hp as (_ & _ & _ & ?). congruence. }
  destruct (sig_from_bytes payload) as [sig|d] eqn:Hd.
  - right. exists payload, sig. split_and!; try done. split_and!; try done. by rewrite Hsplit, Hz.
  - left. eexists. split; [done|]. intros p [-> _]%Hcan. by exists d.
Qed.

Lemma signature_wire_round_trip sig : exists w, signature_to_wire sig = Ok w /\ signature_from_wire w = Ok sig.
Proof.
  destruct (signature_to_wire_Ok sig) as (w & Hw & Hs). exists w. split; [done|].
  destruct (sig_layout sig) as (Hl & H0 & H1). assert (Hc : canonical_container w (sig_to_bytes sig)) by done.
  destruct (signature_from_wire_cases w) as [(e & _ & Hno)|(p & sig' & -> & Hc' & Hd)].
  - destruct (Hno _ Hc) as [d Hd]. by rewrite sig_round_trip in Hd.
  - destruct Hc as (E1 & E2 & _), Hc' as (E1' & E2' & _). rewrite E1 in E1'. apply app_inj_2 in E1' as [<- _]; [|done].
    rewrite sig_round_trip in Hd. congruence.
Qed.

Lemma public_key_wire_round_trip pk : exists w, public_key_to_wire pk = Ok w /\ public_key_from_wire w = Ok pk.
Proof.
  unfold public_key_to_wire, public_key_from_wire. destruct (bv_of_list_is_Some 52 (pk_to_bytes pk) (pk_len pk)) as (w & -> & Hw).
  exists w. split; [done|]. by rewrite Hw, pk_round_trip.
Qed.

(** A signature made with a key verifies under its public key. *)
Lemma verify_signed seed a n pk k0 k epoch message raw sig :
  generate_from_seed seed a n = Ok (pk, k0) -> advanced k0 k -> epoch < LIFETIME ->
  ls_sign (sk_secret k) epoch message = Ok raw -> signature_to_wire raw = Ok sig -> verify pk epoch message sig = Ok tt.
Proof.
  intros Hg [_ [j Hj]] He Hs Hw. destruct (generate_from_seed_cases seed a n) as [[e E]|(pk' & sk & wire & Hk & _ & Hpk & E)];
    rewrite Hg in E; [done|]. injection E as -> ->. simpl in Hj. rewrite Hj in Hs.
  unfold verify. rewrite (proj2 (N.leb_gt _ _) He). destruct (public_key_wire_round_trip pk') as (w & Hw1 & Hw2).
  rewrite Hpk in Hw1. injection Hw1 as <-. rewrite Hw2. cbn [obind].
  destruct (signature_wire_round_trip raw) as (w' & Hs1 & Hs2). rewrite Hw in Hs1. injection Hs1 as <-. rewrite Hs2. cbn [obind].
  by rewrite (sign_verifies _ _ _ _ _ _ _ _ _ Hk Hs).
Qed.

Lemma verify_returned pk epoch message w : returned (verify pk epoch message w).
Proof.
  unfold verify, public_key_from_wire. destruct (N.leb_spec LIFETIME epoch); [done|].
  destruct (pk_from_bytes _) as [k|]; cbn [obind]; [|done].
  destruct (signature_from_wire_cases w) as [(e & -> & _)|(p & sig & -> & (_ & Hl & H0 & H1) & Hd)]; cbn [obind]; [done|].
  pose proof (ls_verify_returned k epoch message p sig ltac:(done) Hl H0 H1 Hd) as Hr.
  destruct (ls_verify k epoch message sig) as [[]|[]| |]; cbn; done.
Qed.

(** The wire form of signatures is canonical.  A signature written to its
    container reads back as itself; a container is accepted only if it is its
    payload, with the two offsets the scheme prescribes, followed by zeros, so
    that two accepted containers with the same payload are the same bytes; and
    verification returns, whatever bytes and epoch a peer sends. *)
Theorem signature_wire_canonical :
  (forall sig, exists w, signature_to_wire sig = Ok w /\ signature_from_wire w = Ok sig) /\
  (forall w sig, signature_from_wire w = Ok sig ->
     exists payload, canonical_container w payload /\ sig_from_bytes payload = inl sig /\
       forall w', canonical_container w' payload -> w' = w) /\
  (forall pk epoch message w, returned (verify pk epoch message w)).
Proof.
  split_and!; [apply signature_wire_round_trip| |apply verify_returned].
  intros w sig Hw. destruct (signature_from_wire_cases w) as [(e & He & _)|(p & sig' & He & Hc & Hd)]; rewrite Hw in He; [done|].
  injection He as <-. exists p. split_and!; [done|done|]. intros w' (E & _). destruct Hc as (E' & _). apply bytevector_eq. congruence.
Qed.

End Crypto.

(** ** A stand-in scheme

    A scheme of 256 epochs that satisfies the laws, to run the definitions on:
    windows are aligned to multiples of four, four epochs are prepared at a time,
    and a "signature" is the epoch with the message. *)
Module ToyScheme.

Definition secret : Type := Bytes32 * (N * N) * N.

Definition window (sk : secret) : N * N :=
  let '(_, (start, stop), p) := sk in
  let p := N.max start (N.min p stop) in (p, N.min (p + 4) stop).

Definition step (sk : secret) : secret :=
  let '(seed, (start, stop), p) := sk in
  let p := N.max start (N.min p stop) in
  (seed, (start, stop), if p + 4 <? stop then p + 4 else p).

Definition sig_bytes (sig : ByteVector 28 * Bytes32) : list u8 :=
  to_le_bytes 4 36 ++ as_slice (fst sig) ++ to_le_bytes 4 40 ++ as_slice (snd sig).

Definition sig_of_bytes (bytes : list u8) : ByteVector 28 * Bytes32 + string :=
  match bv_of_list 28 (take 28 (drop 4 bytes)), bv_of_list 32 (drop 36 bytes) with
  | Some rho, Some message => inl (rho, message)
  | _, _ => inr "length"%string
  end.

Definition epoch_bytes (epoch : N) : ByteVector 28 := BV (to_le_bytes 28 epoch) (len_to_le_bytes 28 epoch).

#[export] Instance scheme : LeanSig := {|
  SecretKey := secret;
  LsPublicKey := Bytes32;
  LsSignature := ByteVector 28 * Bytes32;
  SigningError := unit;
  LIFETIME := 256;
  key_gen seed a n := if a + n <=? 256 then Ok (seed, (seed, (4 * (a / 4), 4 * ((a + n + 3) / 4)), 4 * (a / 4))) else Panic;
  get_activation_interval sk := snd (fst sk);
  get_prepared_interval := window;
  advance_preparation := step;
  ls_sign sk epoch message := if interval_contains (window sk) epoch then Ok (epoch_bytes epoch, message) else Panic;
  ls_verify pk epoch message sig := Ok (bool_decide (sig = (epoch_bytes epoch, message)));
  pk_to_bytes seed := as_slice seed ++ replicate 20 x00;
  pk_from_bytes bytes := match bv_of_list 32 (take 32 bytes) with Some seed => inl seed | None => inr "length"%string end;
  sig_to_bytes := sig_bytes;
  sig_from_bytes := sig_of_bytes;
|}.

#[export] Instance wire : SchemeWire := {| PAYLOAD_LEN := 68; OFFSET_PATH := 36; OFFSET_HASHES := 40 |}.

Lemma sig_bytes_read (sig : ByteVector 28 * Bytes32) :
  take 28 (drop 4 (sig_bytes sig)) = as_slice (fst sig) /\ drop 36 (sig_bytes sig) = as_slice (snd sig) /\
  take 4 (drop 32 (sig_bytes sig)) = to_le_bytes 4 40.
Proof.
  destruct sig as [rho m]. unfold sig_bytes. simpl. pose proof (bv_len rho) as Hr. unfold len in Hr.
  assert (Hl : length (as_slice rho) = 28%nat) by lia. split_and!.
  - change (take 28 (as_slice rho ++ to_le_bytes 4 40 ++ as_slice m) = as_slice rho). by rewrite take_app_length'.
  - change (drop 32 (as_slice rho ++ to_le_bytes 4 40 ++ as_slice m) = as_slice m).
    rewrite drop_app_ge by lia. by rewrite Hl.
  - change (take 4 (drop 28 (as_slice rho ++ to_le_bytes 4 40 ++ as_slice m)) = to_le_bytes 4 40).
    by rewrite drop_app_length' by done.
Qed.

#[export] Instance scheme_laws : LeanSigLaws (ls:=scheme) (sw:=wire).
Proof.
  split; simpl.
  - lia.
  - intros seed a n H. rewrite (proj2 (N.leb_le _ _) H). by eexists.
  - intros seed a n pk sk H. destruct (N.leb_spec (a + n) 256); [|done]. injection H as <- <-. simpl. dlia.
  - intros seed a n pk sk H. destruct (N.leb_spec (a + n) 256) as [Hle|]; [|done]. injection H as <- <-. simpl.
    rewrite (proj2 (N.leb_le _ _)) by dlia. do 2 f_equal. assert (4 * (a / 4) <= 4 * ((a + n + 3) / 4)) by dlia.
    replace (4 * (4 * (a / 4) / 4)) with (4 * (a / 4)) by dlia.
    by replace (4 * ((4 * (a / 4) + (4 * ((a + n + 3) / 4) - 4 * (a / 4)) + 3) / 4)) with (4 * ((a + n + 3) / 4)) by dlia.
  - intros seed a n pk sk H. destruct (N.leb_spec (a + n) 256); [|done]. injection H as <- <-. simpl. lia.
  - by intros [[seed [start stop]] p].
  - intros [[seed [start stop]] p]. simpl. destruct (N.ltb_spec (N.max start (N.min p stop) + 4) stop); [right|left]; simpl.
    + lia.
    + split; [f_equal; lia|lia].
  - intros [[seed [start stop]] p]. simpl. lia.
  - intros sk epoch message ->. done.
  - done.
  - intros _ _ _ _ sk j epoch message sig _. destruct (interval_contains _ epoch); [|done]. intros [= <-]. by rewrite bool_decide_true.
  - intros sig. unfold sig_of_bytes. destruct (sig_bytes_read sig) as (-> & -> & _). rewrite !bv_of_list_as_slice. by destruct sig.
  - intros sig. destruct (sig_bytes_read sig) as (_ & _ & Hr).
    assert (Hl : len (sig_bytes sig) = 68) by (unfold sig_bytes; autorewrite with len; by rewrite !bv_len).
    split_and!; [done|..]; unfold read_u32_le; rewrite Hl; [done|]. change (N.to_nat 32) with 32%nat. by rewrite Hr.
  - lia.
  - intros pk. pose proof (bv_len pk) as Hl. unfold len in Hl. rewrite take_app_length' by lia. by rewrite bv_of_list_as_slice.
  - intros pk. rewrite len_app, bv_len. done.
Qed.

End ToyScheme.

#[local] Existing Instances toy_sha256 ToyScheme.scheme ToyScheme.wire ToyScheme.scheme_laws.

Definition toy_seed : Bytes32 := bv_zero 32.
Definition toy_key : SigningKey := mkSigningKey (toy_seed, (4, 16), 4) None toy_seed.

(** The key is generated for epochs 5 to 14, prepared for epoch 9 and has signed it. *)
Definition toy_used_key : SigningKey := (sign 9 toy_seed (prepare 9 toy_key).2).2.

Lemma toy_used_key_reachable : key_reachable toy_used_key.
Proof. apply reach_sign, reach_prepare. by eapply (reach_generate toy_seed 5 10). Qed.

Lemma key_record_round_trip_witness :
  exists k', from_record (to_record toy_used_key) = Ok k' /\ sk_last_signed k' = Some 9.
Proof.
  destruct (key_record_round_trip toy_used_key toy_used_key_reachable) as (_ & k' & H & _ & Hl).
  exists k'. split; [exact H|]. rewrite Hl. reflexivity.
Defined.

Lemma signature_wire_canonical_witness :
  exists w, signature_to_wire (ToyScheme.epoch_bytes 9, toy_seed) = Ok w /\
    signature_from_wire w = Ok (ToyScheme.epoch_bytes 9, toy_seed).
Proof. exact (proj1 signature_wire_canonical (ToyScheme.epoch_bytes 9, toy_seed)). Defined.
