(* ===== verification/Storage.v ===== *)
(** * Storage ([crates/storage/src])

    The traits [WatermarkStore] and [Store] as classes of operations on a store,
    the in-memory adapter [MemoryStore] ([memory.rs]) and the durable adapter
    [RedbStore] ([redb_store.rs]).  The key-value engine [redb] is external: the
    class [Redb] has the operations the adapter calls, [RedbLaws] what it
    documents of its transactions.

    The abstract specification of a store is the record of maps [Inner], which is
    also the state of the in-memory adapter.  [StoreRefines] says that an adapter
    implements it: a successful call does what it does to the maps, a failed
    write has happened as a whole or not at all, and a successful read returns
    what the maps hold. *)

From stdpp Require Import base numbers list gmap strings pretty.
From Stdlib Require Import Strings.Byte ZArith Lia.
From S2P Require Import Prelude Config Types Merkle Codec Slot Containers State Ots.

(** ** Values and errors ([store.rs], [error.rs]) *)

Inductive StorageError := Backend (message : string).

Record HeadInfo := mkHeadInfo { hi_head : Checkpoint; hi_finalized : Checkpoint }.

Inductive HeadInfoError := FinalizedAheadOfHead (head finalized : N).

Definition HeadInfo_try_new (head finalized : Checkpoint) : Outcome HeadInfoError HeadInfo :=
  if cp_slot head <? cp_slot finalized then Err (FinalizedAheadOfHead (cp_slot head) (cp_slot finalized))
  else Ok (mkHeadInfo head finalized).

(** The texts of the errors that reach [StorageError::Backend]. *)
Definition HeadInfoError_display (e : HeadInfoError) : string :=
  match e with
  | FinalizedAheadOfHead head finalized =>
      ("finalized slot " +:+ pretty finalized +:+ " is ahead of head slot " +:+ pretty head)%string
  end.
Definition watermark_error_display (e : OtsDecodeError) : string :=
  match e with
  | OtsLength expected actual =>
      ("ots watermark: expected " +:+ pretty expected +:+ " bytes, got " +:+ pretty actual)%string
  end.

(** ** The traits *)

Class WatermarkStore (S : Type) := {
  save_ots_key_state : ValidatorIndex -> OtsWatermark -> M S StorageError unit;
  load_ots_key_state : ValidatorIndex -> M S StorageError (option OtsWatermark);
}.

Class ChainStore (S : Type) := {
  db_watermarks :: WatermarkStore S;
  db_save_block : Bytes32 -> SignedBlockWithAttestation -> M S StorageError unit;
  db_save_state : Bytes32 -> State -> M S StorageError unit;
  db_save_head : HeadInfo -> M S StorageError unit;
  db_save_accepted : Bytes32 -> SignedBlockWithAttestation -> State -> HeadInfo -> M S StorageError unit;
  db_has_block : Bytes32 -> M S StorageError bool;
  db_has_state : Bytes32 -> M S StorageError bool;
  db_load_block : Bytes32 -> M S StorageError (option SignedBlockWithAttestation);
  db_load_state : Bytes32 -> M S StorageError (option State);
  db_load_head : M S StorageError (option HeadInfo);
}.

(** The default [save_accepted] of the trait: three writes, head last. *)
Definition save_accepted_default {S} (save_block : Bytes32 -> SignedBlockWithAttestation -> M S StorageError unit)
    (save_state : Bytes32 -> State -> M S StorageError unit) (save_head : HeadInfo -> M S StorageError unit)
    (block_root : Bytes32) (block : SignedBlockWithAttestation) (state : State) (head : HeadInfo) : M S StorageError unit :=
  let! _ := save_block block_root block in
  let! _ := save_state block_root state in
  let! _ := save_head head in
  mret tt.

(** ** The in-memory adapter ([memory.rs]) *)

Record Inner := mkInner {
  in_blocks : gmap Bytes32 SignedBlockWithAttestation;
  in_states : gmap Bytes32 State;
  in_head : option HeadInfo;
  in_ots : gmap ValidatorIndex OtsWatermark;
}.

Definition Inner_default : Inner := mkInner ∅ ∅ None ∅.

Definition put_block (root : Bytes32) (block : SignedBlockWithAttestation) (c : Inner) : Inner :=
  mkInner (<[root := block]> (in_blocks c)) (in_states c) (in_head c) (in_ots c).
Definition put_state (root : Bytes32) (state : State) (c : Inner) : Inner :=
  mkInner (in_blocks c) (<[root := state]> (in_states c)) (in_head c) (in_ots c).
Definition put_head (head : HeadInfo) (c : Inner) : Inner :=
  mkInner (in_blocks c) (in_states c) (Some head) (in_ots c).
Definition put_ots (validator : ValidatorIndex) (wm : OtsWatermark) (c : Inner) : Inner :=
  mkInner (in_blocks c) (in_states c) (in_head c) (<[validator := wm]> (in_ots c)).
Definition put_accepted (root : Bytes32) (block : SignedBlockWithAttestation) (state : State) (head : HeadInfo) (c : Inner) : Inner :=
  put_head head (put_state root state (put_block root block c)).

#[export] Instance MemoryStore_WatermarkStore : WatermarkStore Inner := {
  save_ots_key_state validator wm := mmodify (put_ots validator wm);
  load_ots_key_state validator := let! c := mget in mret (in_ots c !! validator);
}.

#[export] Instance MemoryStore_ChainStore : ChainStore Inner := {
  db_save_block root block := mmodify (put_block root block);
  db_save_state root state := mmodify (put_state root state);
  db_save_head info := mmodify (put_head info);
  db_save_accepted root block state head := mmodify (put_accepted root block state head);
  db_has_block root := let! c := mget in mret (bool_decide (is_Some (in_blocks c !! root)));
  db_has_state root := let! c := mget in mret (bool_decide (is_Some (in_states c !! root)));
  db_load_block root := let! c := mget in mret (in_blocks c !! root);
  db_load_state root := let! c := mget in mret (in_states c !! root);
  db_load_head := let! c := mget in mret (in_head c);
}.

(** ** The durable adapter ([redb_store.rs]) *)

Inductive Table := BLOCKS | STATES | HEAD | OTS_KEY_STATE.
Inductive RedbKey := KBytes (key : list u8) | KU64 (key : N).

#[export] Instance Table_eq_dec : EqDecision Table.
Proof. solve_decision. Defined.
#[export] Instance RedbKey_eq_dec : EqDecision RedbKey.
Proof. solve_decision. Defined.

(** The calls of [redb]; errors are their texts.  A read transaction is one
    [redb_get]. *)
Class Redb := {
  Database : Type;
  WriteTxn : Type;
  redb_begin_write : M Database string WriteTxn;
  redb_open_table : Table -> WriteTxn -> Outcome string unit;
  redb_insert : Table -> RedbKey -> list u8 -> WriteTxn -> Outcome string WriteTxn;
  redb_commit : WriteTxn -> M Database string unit;
  redb_get : Table -> RedbKey -> M Database string (option (list u8));
}.

Definition HEAD_KEY : RedbKey := KBytes (String.list_byte_of_string "head").

Section RedbStore.
Context {redb : Redb} {eth : EthSsz} (ssz_display : SszError -> string).

(** [.map_err(backend)?] on the two kinds of calls. *)
Definition backend {A} (c : M Database string A) : M Database StorageError A :=
  fun d => let '(r, d') := c d in (omap_err Backend r, d').

Definition txn_insert (table : Table) (key : RedbKey) (value : list u8) (txn : WriteTxn) : Outcome StorageError WriteTxn :=
  let? _ := omap_err Backend (redb_open_table table txn) in
  omap_err Backend (redb_insert table key value txn).

Definition in_write_txn (f : WriteTxn -> Outcome StorageError WriteTxn) : M Database StorageError unit :=
  let! txn := backend redb_begin_write in
  let! txn := mlift (f txn) in
  backend (redb_commit txn).

(** The table-creating transaction of [RedbStore::new]. *)
Definition RedbStore_new : M Database StorageError unit :=
  in_write_txn (fun txn =>
    let? _ := omap_err Backend (redb_open_table BLOCKS txn) in
    let? _ := omap_err Backend (redb_open_table STATES txn) in
    let? _ := omap_err Backend (redb_open_table HEAD txn) in
    let? _ := omap_err Backend (redb_open_table OTS_KEY_STATE txn) in
    Ok txn).

Definition redb_put (table : Table) (key : RedbKey) (value : list u8) : M Database StorageError unit :=
  in_write_txn (txn_insert table key value).

Definition redb_contains (table : Table) (key : RedbKey) : M Database StorageError bool :=
  let! value := backend (redb_get table key) in mret (bool_decide (is_Some value)).

Definition encode_head (info : HeadInfo) : list u8 := encode (hi_head info) ++ encode (hi_finalized info).

Definition checkpoint_len : N := len (encode Checkpoint_default).

Definition decode_head (bytes : list u8) : Outcome StorageError HeadInfo :=
  if negb (len bytes =? checkpoint_len * 2)
  then Err (Backend ("head record has " +:+ pretty (len bytes) +:+ " bytes, expected " +:+ pretty (checkpoint_len * 2)))
  else
    let? head_bytes := slice bytes 0 checkpoint_len in
    let? head := omap_err (fun e => Backend (ssz_display e)) (ssz_decode head_bytes) in
    let? finalized_bytes := slice bytes checkpoint_len (len bytes) in
    let? finalized := omap_err (fun e => Backend (ssz_display e)) (ssz_decode finalized_bytes) in
    omap_err (fun e => Backend (HeadInfoError_display e)) (HeadInfo_try_new head finalized).

(** [match self.get(..)? { Some(bytes) => Ok(Some(decode(&bytes)?)), None => Ok(None) }]. *)
Definition redb_load {A} (table : Table) (key : RedbKey) (decode : list u8 -> Outcome StorageError A)
    : M Database StorageError (option A) :=
  let! value := backend (redb_get table key) in
  match value with
  | Some bytes => let! a := mlift (decode bytes) in mret (Some a)
  | None => mret None
  end.

Definition decode_stored {A} `{Decode A} (bytes : list u8) : Outcome StorageError A :=
  omap_err (fun e => Backend (ssz_display e)) (ssz_decode bytes).

Definition decode_watermark (bytes : list u8) : Outcome StorageError OtsWatermark :=
  omap_err (fun e => Backend (watermark_error_display e)) (watermark_from_ssz_bytes bytes).

Definition redb_save_accepted (block_root : Bytes32) (block : SignedBlockWithAttestation) (state : State) (head : HeadInfo)
    : M Database StorageError unit :=
  let block_bytes := encode block in
  let state_bytes := encode state in
  let head_bytes := encode_head head in
  let key := KBytes (as_slice block_root) in
  in_write_txn (fun txn =>
    let? txn := txn_insert BLOCKS key block_bytes txn in
    let? txn := txn_insert STATES key state_bytes txn in
    txn_insert HEAD HEAD_KEY head_bytes txn).

Definition RedbStore_WatermarkStore : WatermarkStore Database := {|
  save_ots_key_state validator wm := redb_put OTS_KEY_STATE (KU64 validator) (watermark_to_ssz_bytes wm);
  load_ots_key_state validator := redb_load OTS_KEY_STATE (KU64 validator) decode_watermark;
|}.

Definition RedbStore_ChainStore : ChainStore Database := {|
  db_watermarks := RedbStore_WatermarkStore;
  db_save_block root block := redb_put BLOCKS (KBytes (as_slice root)) (encode block);
  db_save_state root state := redb_put STATES (KBytes (as_slice root)) (encode state);
  db_save_head info := redb_put HEAD HEAD_KEY (encode_head info);
  db_save_accepted := redb_save_accepted;
  db_has_block root := redb_contains BLOCKS (KBytes (as_slice root));
  db_has_state root := redb_contains STATES (KBytes (as_slice root));
  db_load_block root := redb_load BLOCKS (KBytes (as_slice root)) decode_stored;
  db_load_state root := redb_load STATES (KBytes (as_slice root)) decode_stored;
  db_load_head := redb_load HEAD HEAD_KEY decode_head;
|}.

End RedbStore.

(** ** What [redb] documents

    A write transaction sees its own writes on top of the committed tables; a
    commit that succeeds makes them the committed tables, one that fails has made
    all of them durable or none; reads see the committed tables. *)

Definition tables : Type := Table -> RedbKey -> option (list u8).

Definition table_insert (table : Table) (key : RedbKey) (value : list u8) (t : tables) : tables :=
  fun table' key' => if decide (table' = table /\ key' = key) then Some value else t table' key'.

Definition same_tables (t t' : tables) : Prop := forall table key, t table key = t' table key.

#[export] Instance same_tables_equiv : Equivalence same_tables.
Proof.
  split; [by intros ? ? ?|by intros t t' H ? ?; rewrite H|by intros t1 t2 t3 H1 H2 ? ?; rewrite H1, H2].
Qed.
#[export] Instance table_insert_proper table key value : Proper (same_tables ==> same_tables) (table_insert table key value).
Proof. intros t t' H table' key'. unfold table_insert. destruct (decide _); [done|apply H]. Qed.

Class RedbLaws (redb : Redb) := {
  committed : Database -> tables;
  pending : WriteTxn -> tables;
  begin_write_law d : match redb_begin_write d with
    | (Ok txn, d') => same_tables (pending txn) (committed d) /\ same_tables (committed d') (committed d)
    | (Err _, d') => same_tables (committed d') (committed d)
    | _ => False
    end;
  open_table_law table txn : returned (redb_open_table table txn);
  insert_law table key value txn : match redb_insert table key value txn with
    | Ok txn' => same_tables (pending txn') (table_insert table key value (pending txn))
    | Err _ => True
    | _ => False
    end;
  commit_law txn d : match redb_commit txn d with
    | (Ok _, d') => same_tables (committed d') (pending txn)
    | (Err _, d') => same_tables (committed d') (committed d) \/ same_tables (committed d') (pending txn)
    | _ => False
    end;
  get_law table key d : match redb_get table key d with
    | (Ok value, d') => value = committed d table key /\ same_tables (committed d') (committed d)
    | (Err _, d') => same_tables (committed d') (committed d)
    | _ => False
    end;
}.

(** ** The contract of an adapter *)

Definition head_wf (info : HeadInfo) : Prop := ssz_wf (hi_head info) /\ ssz_wf (hi_finalized info).

(** A head whose finalized block is not ahead of it, as [try_new] demands. *)
Definition head_ordered (info : HeadInfo) : Prop := cp_slot (hi_finalized info) <= cp_slot (hi_head info).

(** A write has happened as a whole, or, if it failed, not at all; it fails only
    if [fails]. *)
Definition written {S} (rep : S -> Inner -> Prop) (fails : Prop) (c c' : Inner) (run : Outcome StorageError unit * S) : Prop :=
  match run with
  | (Ok _, s') => rep s' c'
  | (Err _, s') => fails /\ (rep s' c \/ rep s' c')
  | _ => False
  end.

(** A read changes nothing, and returns the value if it does not fail. *)
Definition answered {S A} (rep : S -> Inner -> Prop) (fails : Prop) (c : Inner) (value : A) (run : Outcome StorageError A * S) : Prop :=
  match run with
  | (Ok a, s') => a = value /\ rep s' c
  | (Err _, s') => fails /\ rep s' c
  | _ => False
  end.

(** [fails] is the condition under which calls may fail: [False] for a store that
    never fails.  Reading a head back validates it. *)
Class StoreRefines (S : Type) `{ChainStore S} (rep : S -> Inner -> Prop) (fails : Prop) : Prop := {
  save_block_law s c root block : rep s c -> ssz_wf block ->
    written rep fails c (put_block root block c) (db_save_block root block s);
  save_state_law s c root state : rep s c -> ssz_wf state ->
    written rep fails c (put_state root state c) (db_save_state root state s);
  save_head_law s c info : rep s c -> head_wf info -> written rep fails c (put_head info c) (db_save_head info s);
  save_accepted_law s c root block state info : rep s c -> ssz_wf block -> ssz_wf state -> head_wf info ->
    written rep fails c (put_accepted root block state info c) (db_save_accepted root block state info s);
  save_ots_law s c v wm : rep s c -> watermark_ok wm -> written rep fails c (put_ots v wm c) (save_ots_key_state v wm s);
  has_block_law s c root : rep s c ->
    answered rep fails c (bool_decide (is_Some (in_blocks c !! root))) (db_has_block root s);
  has_state_law s c root : rep s c ->
    answered rep fails c (bool_decide (is_Some (in_states c !! root))) (db_has_state root s);
  load_block_law s c root : rep s c -> answered rep fails c (in_blocks c !! root) (db_load_block root s);
  load_state_law s c root : rep s c -> answered rep fails c (in_states c !! root) (db_load_state root s);
  load_head_law s c : rep s c ->
    answered rep (fails \/ exists info, in_head c = Some info /\ ~ head_ordered info) c (in_head c) (db_load_head s);
  load_ots_law s c v : rep s c -> answered rep fails c (in_ots c !! v) (load_ots_key_state v s);
}.

(** The part of the contract the signing guard relies on: [rep] relates a store
    to the watermarks it holds. *)
Class WatermarkRefines (S : Type) `{WatermarkStore S} (rep : S -> gmap ValidatorIndex OtsWatermark -> Prop) : Prop := {
  save_watermark_law s m v wm : rep s m -> watermark_ok wm ->
    match save_ots_key_state v wm s with
    | (Ok _, s') => rep s' (<[v:=wm]> m)
    | (Err _, s') => rep s' m \/ rep s' (<[v:=wm]> m)
    | _ => False
    end;
  load_watermark_law s m v : rep s m ->
    match load_ots_key_state v s with
    | (Ok wm, s') => wm = m !! v /\ rep s' m
    | (Err _, s') => rep s' m
    | _ => False
    end;
}.

#[export] Instance store_refines_watermarks {S} `{StoreRefines S rep fails} :
  WatermarkRefines S (fun s m => exists c, rep s c /\ in_ots c = m).
Proof.
  split.
  - intros s m v wm (c & Hr & <-) Hw. pose proof (save_ots_law s c v wm Hr Hw) as Hs. unfold written in Hs.
    destruct (save_ots_key_state v wm s) as [[] s']; try done; [by exists (put_ots v wm c)|].
    destruct Hs as [_ [Hs|Hs]]; [left; by exists c|right; by exists (put_ots v wm c)].
  - intros s m v (c & Hr & <-). pose proof (load_ots_law s c v Hr) as Hs. unfold answered in Hs.
    destruct (load_ots_key_state v s) as [[] s']; try done; [split; [apply Hs|]|]; exists c; by destruct Hs.
Qed.

#[export] Instance memory_refines : StoreRefines Inner eq False.
Proof. split; intros; subst; done. Qed.

(** The tables hold the encodings of the maps. *)
Record tables_rep {eth : EthSsz} (t : tables) (c : Inner) : Prop := {
  rr_blocks root : t BLOCKS (KBytes (as_slice root)) = encode <$> in_blocks c !! root;
  rr_states root : t STATES (KBytes (as_slice root)) = encode <$> in_states c !! root;
  rr_head : t HEAD HEAD_KEY = encode_head <$> in_head c;
  rr_ots v : t OTS_KEY_STATE (KU64 v) = watermark_to_ssz_bytes <$> in_ots c !! v;
  rr_blocks_wf root b : in_blocks c !! root = Some b -> ssz_wf b;
  rr_states_wf root st : in_states c !! root = Some st -> ssz_wf st;
  rr_head_wf info : in_head c = Some info -> head_wf info;
  rr_ots_wf v wm : in_ots c !! v = Some wm -> watermark_ok wm;
}.
Definition redb_rep {redb : Redb} {laws : RedbLaws redb} {eth : EthSsz} (d : Database) (c : Inner) : Prop :=
  tables_rep (committed d) c.

#[export] Instance tables_rep_proper {eth : EthSsz} : Proper (same_tables ==> (=) ==> iff) tables_rep.
Proof.
  assert (H : forall t t' c, same_tables t t' -> tables_rep t c -> tables_rep t' c).
  { intros t t' c Ht []. split; try done; intros; rewrite <-Ht; auto. }
  intros t t' Ht c ? <-. by split; apply H.
Qed.

(** No call of the engine fails. *)
Definition is_err {E A} (r : Outcome E A) : Prop := exists e, r = Err e.
Definition redb_fails (redb : Redb) : Prop :=
  (exists d, is_err (redb_begin_write d).1) \/ (exists table txn, is_err (redb_open_table table txn)) \/
  (exists table key value txn, is_err (redb_insert table key value txn)) \/
  (exists txn d, is_err (redb_commit txn d).1) \/ (exists table key d, is_err (redb_get table key d).1).

Section RedbRefines.
Context {redb : Redb} {laws : RedbLaws redb} {eth : EthSsz} {eth_laws : EthSszLaws} (ssz_display : SszError -> string).

(** What a transaction body does to the tables. *)
Definition txn_updates (f : WriteTxn -> Outcome StorageError WriteTxn) (upd : tables -> tables) : Prop :=
  Proper (same_tables ==> same_tables) upd /\
  forall txn, match f txn with
    | Ok txn' => same_tables (pending txn') (upd (pending txn))
    | Err _ => redb_fails redb
    | _ => False
    end.

Lemma txn_insert_updates table key value : txn_updates (txn_insert table key value) (table_insert table key value).
Proof.
  split; [apply _|]. intros txn. unfold txn_insert. pose proof (open_table_law table txn) as Ho.
  destruct (redb_open_table table txn) eqn:Eo; simpl; try done.
  - pose proof (insert_law table key value txn) as Hi. destruct (redb_insert table key value txn) eqn:Ei; try done.
    right; right; left. repeat eexists. exact Ei.
  - right; left. repeat eexists. exact Eo.
Qed.

Lemma txn_updates_seq f g upd upd' :
  txn_updates f upd -> txn_updates g upd' -> txn_updates (fun txn => let? txn := f txn in g txn) (fun t => upd' (upd t)).
Proof.
  intros [Hp Hf] [Hp' Hg]. split; [intros t t' Ht; by apply Hp', Hp|]. intros txn. specialize (Hf txn).
  destruct (f txn) as [txn1| | |]; simpl; try done. specialize (Hg txn1).
  destruct (g txn1); try done. by rewrite Hg, Hf.
Qed.

(** A transaction is written as a whole or not at all: it is correct as soon as
    the updated tables represent the updated maps. *)
Lemma write_refines f upd d c c' :
  txn_updates f upd -> redb_rep d c -> tables_rep (upd (committed d)) c' ->
  written redb_rep (redb_fails redb) c c' (in_write_txn f d).
Proof.
  unfold redb_rep. intros [Hp Hf] Hr Hr'.
  unfold in_write_txn, backend, mbind, mlift. pose proof (begin_write_law d) as Hb.
  destruct (redb_begin_write d) as [[txn|e| |] d1] eqn:Eb; simpl; [|split; [left; exists d, e; by rewrite Eb|left; by rewrite Hb]|done|done].
  destruct Hb as [Hpend Hc]. pose proof (Hf txn) as Ht. destruct (f txn) as [txn'|e| |]; simpl; [|split; [done|left; by rewrite Hc]|done|done].
  pose proof (commit_law txn' d1) as Hm.
  destruct (redb_commit txn' d1) as [[[]|e| |] d2] eqn:Em; simpl; [| |done|done].
  - by rewrite Hm, Ht, Hpend.
  - split; [do 3 right; left; exists txn', d1, e; by rewrite Em|].
    destruct Hm as [Hm|Hm]; [left; by rewrite Hm, Hc|right; by rewrite Hm, Ht, Hpend].
Qed.

Lemma get_refines {A} table key d c (enc : A -> list u8) (value : option A) :
  redb_rep d c -> committed d table key = enc <$> value ->
  answered redb_rep (redb_fails redb) c (enc <$> value) (backend (redb_get table key) d).
Proof.
  unfold redb_rep. intros Hr Hv. unfold backend. pose proof (get_law table key d) as Hg.
  destruct (redb_get table key d) as [[bytes|e| |] d'] eqn:Eg; simpl; [| |done|done].
  - destruct Hg as [-> Hs]. by rewrite Hs.
  - split; [do 4 right; exists table, key, d, e; by rewrite Eg|by rewrite Hg].
Qed.

Lemma load_refines {A} table key (decode : list u8 -> Outcome StorageError A) (enc : A -> list u8) d c value (invalid : Prop) :
  redb_rep d c -> committed d table key = enc <$> value ->
  (forall a, value = Some a -> match decode (enc a) with Ok a' => a' = a | Err _ => invalid | _ => False end) ->
  answered redb_rep (redb_fails redb \/ invalid) c value (redb_load table key decode d).
Proof.
  intros Hr Hv Hd. pose proof (get_refines table key d c enc value Hr Hv) as Hg. unfold redb_load, mbind.
  destruct (backend (redb_get table key) d) as [[bytes|e| |] d']; [|by destruct Hg; split; [left|]|done|done].
  destruct Hg as [-> Hr']. destruct value as [a|]; simpl; [|done]. specialize (Hd a eq_refl). unfold mlift.
  destruct (decode (enc a)); simpl; [by subst|by auto|done|done].
Qed.

Lemma load_refines_exact {A} table key (decode : list u8 -> Outcome StorageError A) (enc : A -> list u8) d c value :
  redb_rep d c -> committed d table key = enc <$> value -> (forall a, value = Some a -> decode (enc a) = Ok a) ->
  answered redb_rep (redb_fails redb) c value (redb_load table key decode d).
Proof.
  intros Hr Hv Hd. assert (H : answered redb_rep (redb_fails redb \/ False) c value (redb_load table key decode d)).
  { apply (load_refines _ _ _ enc); [done..|]. intros a Ha. by rewrite (Hd a Ha). }
  unfold answered in *. destruct (redb_load table key decode d) as [[] ?]; try done. by destruct H as [[|[]] ?].
Qed.

Lemma contains_refines {A} table key d c (enc : A -> list u8) (value : option A) :
  redb_rep d c -> committed d table key = enc <$> value ->
  answered redb_rep (redb_fails redb) c (bool_decide (is_Some value)) (redb_contains table key d).
Proof.
  intros Hr Hv. pose proof (get_refines table key d c enc value Hr Hv) as Hg. unfold redb_contains, mbind.
  destruct (backend (redb_get table key) d) as [[bytes|e| |] d']; try done.
  destruct Hg as [-> Hr']. simpl. split; [|done]. by destruct value.
Qed.

Lemma decode_stored_encode {A} `{SszCodec A} (a : A) : ssz_wf a -> decode_stored ssz_display (encode a) = Ok a.
Proof. intros Ha. unfold decode_stored, ssz_decode. by rewrite sc_decode. Qed.

Lemma decode_watermark_encode wm : watermark_ok wm -> decode_watermark (watermark_to_ssz_bytes wm) = Ok wm.
Proof.
  intros (H1 & H2 & H3). unfold decode_watermark, watermark_from_ssz_bytes, watermark_to_ssz_bytes.
  rewrite ots_decode_encode by done. by destruct wm.
Qed.

Lemma checkpoint_len_encode (cp : Checkpoint) : len (encode cp) = checkpoint_len.
Proof. unfold checkpoint_len. by rewrite !fc_len. Qed.

Lemma decode_head_encode info :
  head_wf info -> match decode_head ssz_display (encode_head info) with
                  | Ok info' => info' = info
                  | Err _ => ~ head_ordered info
                  | _ => False
                  end.
Proof.
  intros [H1 H2]. pose proof (checkpoint_len_encode (hi_head info)) as L1.
  pose proof (checkpoint_len_encode (hi_finalized info)) as L2. unfold decode_head, encode_head.
  rewrite !len_app, L1, L2. replace (_ =? _) with true by (symmetry; apply N.eqb_eq; lia). cbn [negb].
  rewrite (slice_app [] _ (encode (hi_finalized info)) 0 checkpoint_len eq_refl
    ltac:(by rewrite L1) : slice (encode (hi_head info) ++ encode (hi_finalized info)) 0 checkpoint_len = _). cbn [obind].
  unfold ssz_decode. rewrite sc_decode by done. cbn [omap_err obind].
  rewrite <-(app_nil_r (encode (hi_finalized info))). rewrite slice_app by (rewrite ?L1, ?L2; lia). cbn [obind].
  rewrite sc_decode by done. cbn [omap_err obind]. unfold HeadInfo_try_new, head_ordered.
  destruct (N.ltb_spec (cp_slot (hi_head info)) (cp_slot (hi_finalized info))); simpl; [lia|by destruct info].
Qed.
End RedbRefines.

(** ** The redb adapter refines the maps *)

Section RedbInstance.
Context {redb : Redb} {laws : RedbLaws redb} {eth : EthSsz} {eth_laws : EthSszLaws} (ssz_display : SszError -> string).

#[local] Instance redb_store : ChainStore Database := RedbStore_ChainStore ssz_display.

(** An insert into one table is the update of one map. *)
Lemma table_insert_eq table key value t : table_insert table key value t table key = Some value.
Proof. unfold table_insert. by rewrite decide_True. Qed.
Lemma table_insert_other table table' key key' value t :
  table' <> table -> table_insert table key value t table' key' = t table' key'.
Proof. intros H. unfold table_insert. rewrite decide_False; [done|by intros [? _]]. Qed.

(** The lookups of a map updated at one key, in the table updated at its key. *)
Lemma table_insert_map {K A} `{Countable K} (table : Table) (mk : K -> RedbKey) (enc : A -> list u8) (m : gmap K A) t k a k' :
  Inj (=) (=) mk -> (forall k, t table (mk k) = enc <$> m !! k) ->
  table_insert table (mk k) (enc a) t table (mk k') = enc <$> <[k:=a]> m !! k'.
Proof.
  intros Hi Hm. destruct (decide (k = k')) as [<-|Hn]; [by rewrite table_insert_eq, lookup_insert_eq|].
  rewrite lookup_insert_ne by done. unfold table_insert. rewrite decide_False; [done|]. intros [_ E]. by apply Hn, (inj mk).
Qed.

Instance root_key_inj : Inj (=) (=) (fun root : Bytes32 => KBytes (as_slice root)).
Proof. intros r r' H. simplify_eq. by apply bytevector_eq. Qed.
Instance u64_key_inj : Inj (=) (=) KU64.
Proof. intros v v' H. by simplify_eq. Qed.

Lemma lookup_insert_wf {K A} `{Countable K} (P : A -> Prop) (m : gmap K A) k a :
  (forall k a, m !! k = Some a -> P a) -> P a -> forall k' a', <[k:=a]> m !! k' = Some a' -> P a'.
Proof. intros Hm Ha k' a' [[_ <-]|[_ H']]%lookup_insert_Some; eauto. Qed.

Ltac other_tables := split; try done; intros; rewrite ?table_insert_other by done; auto.

Lemma rep_put_block t c root block :
  tables_rep t c -> ssz_wf block ->
  tables_rep (table_insert BLOCKS (KBytes (as_slice root)) (encode block) t) (put_block root block c).
Proof.
  intros [] Hw. other_tables.
  - apply (table_insert_map BLOCKS (fun root : Bytes32 => KBytes (as_slice root)) encode (in_blocks c)); [apply _|done].
  - eapply (lookup_insert_wf ssz_wf (in_blocks c) root block); [exact rr_blocks_wf0|exact Hw|eassumption].
Qed.

Lemma rep_put_state t c root state :
  tables_rep t c -> ssz_wf state ->
  tables_rep (table_insert STATES (KBytes (as_slice root)) (encode state) t) (put_state root state c).
Proof.
  intros [] Hw. other_tables.
  - apply (table_insert_map STATES (fun root : Bytes32 => KBytes (as_slice root)) encode (in_states c)); [apply _|done].
  - eapply (lookup_insert_wf ssz_wf (in_states c) root state); [exact rr_states_wf0|exact Hw|eassumption].
Qed.

Lemma rep_put_head t c info :
  tables_rep t c -> head_wf info -> tables_rep (table_insert HEAD HEAD_KEY (encode_head info) t) (put_head info c).
Proof.
  intros [] Hw. other_tables.
  cbn [put_head in_head] in *. by simplify_eq.
Qed.

Lemma rep_put_ots t c v wm :
  tables_rep t c -> watermark_ok wm ->
  tables_rep (table_insert OTS_KEY_STATE (KU64 v) (watermark_to_ssz_bytes wm) t) (put_ots v wm c).
Proof.
  intros [] Hw. other_tables.
  - apply (table_insert_map OTS_KEY_STATE KU64 watermark_to_ssz_bytes (in_ots c)); [apply _|done].
  - eapply (lookup_insert_wf watermark_ok (in_ots c) v wm); [exact rr_ots_wf0|exact Hw|eassumption].
Qed.

Lemma redb_refines : StoreRefines Database redb_rep (redb_fails redb).
Proof.
  split; intros s c; intros.
  - apply (write_refines _ _ _ _ _ (txn_insert_updates _ _ _)); [done|by apply rep_put_block].
  - apply (write_refines _ _ _ _ _ (txn_insert_updates _ _ _)); [done|by apply rep_put_state].
  - apply (write_refines _ _ _ _ _ (txn_insert_updates _ _ _)); [done|by apply rep_put_head].
  - eapply write_refines; [eapply txn_updates_seq; [apply txn_insert_updates|eapply txn_updates_seq; apply txn_insert_updates]|done|].
    apply (rep_put_head _ (put_state root state (put_block root block c))); [apply rep_put_state; [by apply rep_put_block|done]|done].
  - apply (write_refines _ _ _ _ _ (txn_insert_updates _ _ _)); [done|by apply rep_put_ots].
  - apply (contains_refines _ _ _ _ encode); [done|by apply rr_blocks].
  - apply (contains_refines _ _ _ _ encode); [done|by apply rr_states].
  - apply (load_refines_exact _ _ _ encode); [done|by apply rr_blocks|].
    intros b Hb. exact (decode_stored_encode ssz_display b (rr_blocks_wf _ _ H _ _ Hb)).
  - apply (load_refines_exact _ _ _ encode); [done|by apply rr_states|].
    intros b Hb. exact (decode_stored_encode ssz_display b (rr_states_wf _ _ H _ _ Hb)).
  - apply (load_refines _ _ _ encode_head); [done|by apply rr_head|]. intros info Hi.
    pose proof (decode_head_encode ssz_display info ltac:(by eapply rr_head_wf)) as Hd.
    destruct (decode_head ssz_display (encode_head info)); eauto.
  - apply (load_refines_exact _ _ _ watermark_to_ssz_bytes); [done|by apply rr_ots|].
    intros wm Hw. apply decode_watermark_encode. by eapply rr_ots_wf.
Qed.

(** The table-creating transaction keeps what a database holds; a new database
    has nothing, so it represents the empty maps. *)
Lemma RedbStore_new_refines d c : redb_rep d c -> written redb_rep (redb_fails redb) c c (RedbStore_new d).
Proof.
  intros Hr. apply (write_refines _ (fun t => t)); [|done|done]. split; [by intros t t' Ht|]. intros txn.
  assert (Ho : forall table, match omap_err Backend (redb_open_table table txn) with
    | Ok _ => True | Err _ => redb_fails redb | _ => False end).
  { intros table. pose proof (open_table_law table txn) as Hl. destruct (redb_open_table table txn) eqn:E; try done.
    right; left. repeat eexists. exact E. }
  repeat match goal with |- context [omap_err Backend (redb_open_table ?table txn)] =>
    specialize (Ho table) as H; destruct (omap_err Backend (redb_open_table table txn)); simpl; try done; clear H end.
Qed.

Lemma empty_rep : tables_rep (fun _ _ => None) Inner_default.
Proof. by split; intros; rewrite ?lookup_empty. Qed.
End RedbInstance.

(** ** Sequences of calls *)

Inductive StoreCall :=
| SaveBlock (root : Bytes32) (block : SignedBlockWithAttestation)
| SaveState (root : Bytes32) (state : State)
| SaveHead (info : HeadInfo)
| SaveAccepted (root : Bytes32) (block : SignedBlockWithAttestation) (state : State) (info : HeadInfo)
| SaveOts (validator : ValidatorIndex) (wm : OtsWatermark)
| HasBlock (root : Bytes32)
| HasState (root : Bytes32)
| LoadBlock (root : Bytes32)
| LoadState (root : Bytes32)
| LoadHead
| LoadOts (validator : ValidatorIndex).

Inductive StoreReply :=
| Saved
| Has (present : bool)
| GotBlock (block : option SignedBlockWithAttestation)
| GotState (state : option State)
| GotHead (info : option HeadInfo)
| GotOts (wm : option OtsWatermark).

Definition store_call {S} `{ChainStore S} (call : StoreCall) : M S StorageError StoreReply :=
  match call with
  | SaveBlock root block => let! _ := db_save_block root block in mret Saved
  | SaveState root state => let! _ := db_save_state root state in mret Saved
  | SaveHead info => let! _ := db_save_head info in mret Saved
  | SaveAccepted root block state info => let! _ := db_save_accepted root block state info in mret Saved
  | SaveOts validator wm => let! _ := save_ots_key_state validator wm in mret Saved
  | HasBlock root => let! present := db_has_block root in mret (Has present)
  | HasState root => let! present := db_has_state root in mret (Has present)
  | LoadBlock root => let! block := db_load_block root in mret (GotBlock block)
  | LoadState root => let! state := db_load_state root in mret (GotState state)
  | LoadHead => let! info := db_load_head in mret (GotHead info)
  | LoadOts validator => let! wm := load_ots_key_state validator in mret (GotOts wm)
  end.

Fixpoint store_calls {S} `{ChainStore S} (calls : list StoreCall) (s : S) : list (Outcome StorageError StoreReply) * S :=
  match calls with
  | [] => ([], s)
  | call :: calls =>
      let '(reply, s) := store_call call s in
      let '(replies, s) := store_calls calls s in
      (reply :: replies, s)
  end.

(** The arguments are values the Rust types have. *)
Definition call_wf (call : StoreCall) : Prop :=
  match call with
  | SaveBlock _ block => ssz_wf block
  | SaveState _ state => ssz_wf state
  | SaveHead info => head_wf info
  | SaveAccepted _ block state info => ssz_wf block /\ ssz_wf state /\ head_wf info
  | SaveOts _ wm => watermark_ok wm
  | _ => True
  end.

(** The replies to [calls] are those of the maps, where a failed call was
    answered with an error and took effect as a whole or not at all. *)
Inductive follows : list StoreCall -> list (Outcome StorageError StoreReply) -> Inner -> Inner -> Prop :=
| follows_nil c : follows [] [] c c
| follows_ok call calls reply replies c c1 c2 :
    store_call call c = (Ok reply, c1) -> follows calls replies c1 c2 ->
    follows (call :: calls) (Ok reply :: replies) c c2
| follows_lost call calls e replies c c2 :
    follows calls replies c c2 -> follows (call :: calls) (Err e :: replies) c c2
| follows_done call calls e reply replies c c1 c2 :
    store_call call c = (Ok reply, c1) -> follows calls replies c1 c2 ->
    follows (call :: calls) (Err e :: replies) c c2.

Section Calls.
Context {S : Type} {store : ChainStore S} {rep : S -> Inner -> Prop} {fails : Prop} {refines : StoreRefines S rep fails}.

Lemma store_call_cases call s c :
  rep s c -> call_wf call ->
  exists reply c1, store_call call c = (Ok reply, c1) /\
    match store_call call s with
    | (Ok reply', s') => reply' = reply /\ rep s' c1
    | (Err _, s') => (fails \/ exists info, in_head c = Some info /\ ~ head_ordered info) /\ (rep s' c \/ rep s' c1)
    | _ => False
    end.
Proof.
  intros Hr Hw.
  assert (Hwr : forall c1 (m : M S StorageError unit), written rep fails c c1 (m s) ->
    match mbind m (fun _ => mret Saved) s with
    | (Ok reply', s') => reply' = Saved /\ rep s' c1
    | (Err _, s') => (fails \/ exists info, in_head c = Some info /\ ~ head_ordered info) /\ (rep s' c \/ rep s' c1)
    | _ => False
    end).
  { intros c1 m Hm. unfold mbind, written in *. destruct (m s) as [[] ?]; naive_solver. }
  assert (Hrd : forall A (mk : A -> StoreReply) value (m : M S StorageError A) (fails' : Prop),
    (fails' -> fails \/ exists info, in_head c = Some info /\ ~ head_ordered info) -> answered rep fails' c value (m s) ->
    match mbind m (fun a => mret (mk a)) s with
    | (Ok reply', s') => reply' = mk value /\ rep s' c
    | (Err _, s') => (fails \/ exists info, in_head c = Some info /\ ~ head_ordered info) /\ (rep s' c \/ rep s' c)
    | _ => False
    end).
  { intros A mk value m fails' Hf Hm. unfold mbind, answered in *. destruct (m s) as [[] ?]; naive_solver. }
  destruct call; simpl in Hw; eexists _, _; (split; [reflexivity|]).
  - by apply Hwr, save_block_law.
  - by apply Hwr, save_state_law.
  - by apply Hwr, save_head_law.
  - destruct Hw as (? & ? & ?). by apply Hwr, save_accepted_law.
  - by apply Hwr, save_ots_law.
  - apply (Hrd _ _ _ _ fails); [by left|]. by apply has_block_law.
  - apply (Hrd _ _ _ _ fails); [by left|]. by apply has_state_law.
  - apply (Hrd _ _ _ _ fails); [by left|]. by apply load_block_law.
  - apply (Hrd _ _ _ _ fails); [by left|]. by apply load_state_law.
  - eapply Hrd; [|by apply load_head_law]. done.
  - apply (Hrd _ _ _ _ fails); [by left|]. by apply load_ots_law.
Qed.

Lemma store_calls_follow calls : forall s c,
  rep s c -> Forall call_wf calls ->
  exists c', follows calls (store_calls calls s).1 c c' /\ rep (store_calls calls s).2 c'.
Proof.
  induction calls as [|call calls IH]; intros s c Hr Hw; [exists c; by repeat constructor|].
  apply Forall_cons in Hw as [Hw Hws]. destruct (store_call_cases call s c Hr Hw) as (reply & c1 & Hc & Hs). simpl.
  destruct (store_call call s) as [[reply'|e| |] s1]; try done.
  - destruct Hs as [-> Hr1]. destruct (IH s1 c1 Hr1 Hws) as (c' & Hf & Hr'). exists c'.
    destruct (store_calls calls s1). split; [by eapply follows_ok|done].
  - destruct Hs as [_ [Hr1|Hr1]].
    + destruct (IH s1 c Hr1 Hws) as (c' & Hf & Hr'). exists c'. destruct (store_calls calls s1). split; [by apply follows_lost|done].
    + destruct (IH s1 c1 Hr1 Hws) as (c' & Hf & Hr'). exists c'. destruct (store_calls calls s1). split; [by eapply follows_done|done].
Qed.

(** Heads written in order stay readable. *)
Definition call_ordered (call : StoreCall) : Prop :=
  match call with SaveHead info | SaveAccepted _ _ _ info => head_ordered info | _ => True end.

Lemma store_calls_reliable calls : forall s c,
  ~ fails -> rep s c -> Forall call_wf calls -> Forall call_ordered calls ->
  (forall info, in_head c = Some info -> head_ordered info) ->
  (store_calls calls s).1 = (store_calls calls c).1 /\ rep (store_calls calls s).2 (store_calls calls c).2.
Proof.
  induction calls as [|call calls IH]; intros s c Hnf Hr Hw Ho Hh; [done|].
  apply Forall_cons in Hw as [Hw Hws]. apply Forall_cons in Ho as [Ho Hos].
  destruct (store_call_cases call s c Hr Hw) as (reply & c1 & Hc & Hs). simpl. rewrite Hc.
  assert (Hh1 : forall info, in_head c1 = Some info -> head_ordered info).
  { intros info. replace c1 with (store_call call c).2 by (by rewrite Hc).
    destruct call; cbn in Ho |- *; intros; simplify_eq; auto. }
  destruct (store_call call s) as [[reply'|e| |] s1]; [|exfalso; destruct Hs as [[?|(? & ? & Hn)] _]; [done|by apply Hn, Hh]|done..].
  destruct Hs as [-> Hr1]. destruct (IH s1 c1 Hnf Hr1 Hws Hos Hh1) as [E Hr'].
  destruct (store_calls calls s1), (store_calls calls c1). simpl in *. by rewrite E.
Qed.
End Calls.


(** An engine that keeps its tables as a list of entries, latest first. *)
Module ListRedb.

Definition entries : Type := list (Table * RedbKey * list u8).

Fixpoint find (table : Table) (key : RedbKey) (es : entries) : option (list u8) :=
  match es with
  | [] => None
  | (table', key', value) :: es => if decide (table = table' /\ key = key') then Some value else find table key es
  end.

Definition engine : Redb := {|
  Database := entries;
  WriteTxn := entries;
  redb_begin_write d := (Ok d, d);
  redb_open_table _ _ := Ok tt;
  redb_insert table key value txn := Ok ((table, key, value) :: txn);
  redb_commit txn _ := (Ok tt, txn);
  redb_get table key d := (Ok (find table key d), d);
|}.

Definition engine_laws : RedbLaws engine.
Proof. by refine {| committed (d : @Database engine) t k := find t k d; pending (d : @WriteTxn engine) t k := find t k d |}. Defined.

Lemma engine_reliable : ~ redb_fails engine.
Proof. unfold redb_fails, is_err. naive_solver. Qed.

Definition sample_block : SignedBlockWithAttestation :=
  mkSignedBlockWithAttestation
    (mkBlockWithAttestation (mkBlock 3 1 (bv_zero 32) (bv_zero 32) (mkBlockBody []))
       (mkAttestation 1 (mkAttestationData 3 Checkpoint_default Checkpoint_default Checkpoint_default)))
    (mkBlockSignatures []).

Lemma sample_block_wf : ssz_wf sample_block.
Proof. repeat split; try constructor; by vm_compute. Qed.

Definition sample_head : HeadInfo := mkHeadInfo (mkCheckpoint (bv_zero 32) 3) (mkCheckpoint (bv_zero 32) 1).
End ListRedb.

