(* ===== verification/Wire.v ===== *)
(** * Wire messages, frames and gossip payloads ([crates/networking])

    The messages of the request protocols with their SSZ codecs
    ([messages.rs]), the framing of a message on a stream ([frames.rs]), the
    one-shot transforms for requests and for gossip ([codecs.rs]) and the gossip
    message id ([gossipsub.rs]).  Snappy and CRC32C are the parameter [Snap].

    Shown: frames written one after another are read back one by one, except a
    frame of a single byte, which the reader refuses; on any input the reader
    returns, hands out exactly the declared number of bytes within the limit, and
    consumes only the bytes of the frame. *)

From stdpp Require Import base numbers list strings.
From Stdlib Require Import Strings.Byte ZArith Lia.
From S2P Require Import Prelude Config Types Merkle Codec Slot Containers.

(** ** Constants *)

Definition MAX_REQUEST_BLOCKS : N := N.shiftl 1 10.
Definition STATUS_SSZ_LEN : N := 2 * CHECKPOINT_LEN.

Definition BLOCK_TOPIC_V1 : string := "/leanconsensus/devnet0/block/ssz_snappy".
Definition VOTE_TOPIC_V1 : string := "/leanconsensus/devnet0/vote/ssz_snappy".
Definition STATUS_PROTOCOL_V1 : string := "/leanconsensus/req/status/1/ssz_snappy".
Definition BLOCKS_BY_ROOT_PROTOCOL_V1 : string := "/leanconsensus/req/lean_blocks_by_root/1/ssz_snappy".

(** ** External code: [snap] and [crc32c] *)

Inductive IoError := UnexpectedEof.

Class Snap := {
  SnapError : Type;
  crc32c : list u8 -> N;
  (** [raw::Encoder::compress_vec], [raw::Decoder::decompress_vec], [raw::decompress_len] *)
  compress_vec : list u8 -> list u8 + SnapError;
  decompress_vec : list u8 -> list u8 + SnapError;
  decompress_len : list u8 -> N + SnapError;
  (** what [write::FrameEncoder] has written to its sink when it is taken apart *)
  frame_encode : list u8 -> list u8;
  (** [read::FrameDecoder::new(wire).take(n).read_to_end] *)
  frame_decode : list u8 -> N -> list u8 + (SnapError + IoError);
}.

Inductive NetworkingError {snap : Snap} :=
| ListTooLarge (kind : string) (len max : N)
| NetSsz (e : SszError)
| NetIo (e : IoError)
| NetSnappy (e : SnapError)
| MalformedFrame (reason : string)
| FrameTooLarge (length max : N)
| UvarintOverflow.

Definition of_sum {A B E} (wrap : B -> E) (r : A + B) : Outcome E A :=
  match r with inl a => Ok a | inr e => Err (wrap e) end.

(** ** Messages *)

Record Status := mkStatus { status_finalized : Checkpoint; status_head : Checkpoint }.
Definition Status_default : Status := mkStatus Checkpoint_default Checkpoint_default.

Record BlocksByRootRequest := mkBlocksByRootRequest { br_roots : list Bytes32 }.
Record BlocksByRootResponse := mkBlocksByRootResponse { br_blocks : list SignedBlockWithAttestation }.

Section Messages.
Context {snap : Snap} `{EthSsz}.

Definition enforce_list_cap {T} (items : list T) (kind : string) : Outcome NetworkingError (list T) :=
  if MAX_REQUEST_BLOCKS <? len items then Err (ListTooLarge kind (len items) MAX_REQUEST_BLOCKS) else Ok items.

Definition BlocksByRootRequest_new (roots : list Bytes32) : Outcome NetworkingError BlocksByRootRequest :=
  let? roots := enforce_list_cap roots "blocks_by_root request" in Ok (mkBlocksByRootRequest roots).

Definition BlocksByRootResponse_new (blocks : list SignedBlockWithAttestation)
    : Outcome NetworkingError BlocksByRootResponse :=
  let? blocks := enforce_list_cap blocks "blocks_by_root response" in Ok (mkBlocksByRootResponse blocks).

#[export] Instance Status_Encode : Encode Status := {
  ssz_bytes_len _ := STATUS_SSZ_LEN;
  ssz_append self buf := ssz_append (status_head self) (ssz_append (status_finalized self) buf);
}.

Definition Status_from_ssz_bytes (bytes : list u8) : Outcome DecodeError Status :=
  if negb (len bytes =? STATUS_SSZ_LEN) then Err (DecodeInvalidByteLength (len bytes) STATUS_SSZ_LEN)
  else
    let? s := slice bytes 0 CHECKPOINT_LEN in
    let? finalized := from_ssz_bytes s in
    let? s := slice bytes CHECKPOINT_LEN (len bytes) in
    let? head := from_ssz_bytes s in
    Ok (mkStatus finalized head).

#[export] Instance Status_Decode : Decode Status := {
  ssz_fixed_len := STATUS_SSZ_LEN;
  from_ssz_bytes := Status_from_ssz_bytes;
}.

(** A variable-size type has the length of an offset as its [ssz_fixed_len]. *)
#[export] Instance BlocksByRootRequest_Encode : Encode BlocksByRootRequest := {
  ssz_bytes_len self := len (br_roots self) * 32;
  ssz_append self buf := encode_bytes32_list (br_roots self) buf;
}.
#[export] Instance BlocksByRootRequest_Decode : Decode BlocksByRootRequest := {
  ssz_fixed_len := BYTES_PER_LENGTH_OFFSET;
  from_ssz_bytes bytes :=
    let? roots := decode_bytes32_list bytes MAX_REQUEST_BLOCKS in Ok (mkBlocksByRootRequest roots);
}.

Definition response_ssz_append (self : BlocksByRootResponse) (buf : list u8) : Outcome Empty_set (list u8) :=
  encode_variable_element_list (br_blocks self) buf.
Definition response_from_ssz_bytes (bytes : list u8) : Outcome DecodeError BlocksByRootResponse :=
  let? blocks := decode_variable_element_list bytes MAX_REQUEST_BLOCKS in Ok (mkBlocksByRootResponse blocks).

End Messages.

#[export] Instance Status_HashTreeRoot {sha : Sha256} : HashTreeRoot Status := fun self =>
  hash_pair (hash_tree_root (status_finalized self)) (hash_tree_root (status_head self)).

(** ** Frames

    A reader is the bytes it has not read yet; a writer is the bytes written. *)

Definition SNAPPY_STREAM_IDENTIFIER : u8 := xff.
Definition SNAPPY_CHUNK_COMPRESSED : u8 := x00.
Definition SNAPPY_CHUNK_UNCOMPRESSED : u8 := x01.
Definition SNAPPY_STREAM_MAGIC : list u8 := String.list_byte_of_string "sNaPpY".
Definition SNAPPY_CHECKSUM_LEN : N := 4.
Definition SNAPPY_CHUNK_HEADER_LEN : N := 4.
Definition UVARINT_MAX_LEN : N := 10.
Definition MAX_SNAPPY_CHUNK_ITERATIONS : N := 4096.

Section Frames.
Context {snap : Snap}.

Definition read_one_byte : M (list u8) NetworkingError (option u8) := fun r =>
  match r with [] => (Ok None, []) | b :: r => (Ok (Some b), r) end.

(** [Read::read_exact]: a short read is an error and uses up the reader. *)
Definition read_exact (n : N) : M (list u8) NetworkingError (list u8) := fun r =>
  if len r <? n then (Err (NetIo UnexpectedEof), []) else (Ok (take (N.to_nat n) r), drop (N.to_nat n) r).

(** [while value >= 0x80]: a u64 has at most nine such digits, and the buffer is
    indexed at [i]. *)
Fixpoint write_uvarint_loop (fuel : nat) (buf : list u8) (i value : N) : Outcome NetworkingError (list u8) :=
  match fuel with
  | O => Diverge
  | S fuel =>
      if 128 <=? value then
        let? buf := index_set buf i (u8_or (u8_of_N value) x80) in
        write_uvarint_loop fuel buf (i + 1) (N.shiftr value 7)
      else
        let? buf := index_set buf i (u8_of_N value) in
        slice buf 0 (i + 1)
  end.

Definition write_uvarint (value : N) : M (list u8) NetworkingError unit :=
  let! bytes := mlift (write_uvarint_loop 10 (replicate (N.to_nat UVARINT_MAX_LEN) x00) 0 value) in
  mmodify (fun w => w ++ bytes).

(** [for i in 0..UVARINT_MAX_LEN]; a shift of a [u64] drops the bits above its width. *)
Fixpoint read_uvarint_loop (todo : list N) (acc shift : N) : M (list u8) NetworkingError (option N) :=
  match todo with
  | [] => mthrow UvarintOverflow
  | i :: todo =>
      let! byte := read_one_byte in
      match byte with
      | None => if i =? 0 then mret None else mthrow (NetIo UnexpectedEof)
      | Some byte =>
          if Byte.to_N byte <? 128 then
            if (i =? UVARINT_MAX_LEN - 1) && (1 <? Byte.to_N byte) then mthrow UvarintOverflow
            else mret (Some (N.lor acc (N.shiftl (Byte.to_N byte) shift mod u64_bound)))
          else
            read_uvarint_loop todo
              (N.lor acc (N.shiftl (Byte.to_N (u8_and byte x7f)) shift mod u64_bound)) (shift + 7)
      end
  end.

Definition read_uvarint_or_eof : M (list u8) NetworkingError (option N) :=
  read_uvarint_loop (range 0 UVARINT_MAX_LEN) 0 0.

Definition rotate_right_32 (x k : N) : N := N.lor (N.shiftr x k) (N.shiftl x (32 - k) mod 2 ^ 32).

Definition snappy_masked_crc (bytes : list u8) : N :=
  (rotate_right_32 (crc32c bytes) 15 + 0xa282ead8) mod 2 ^ 32.

Definition split_checksum (payload : list u8) : Outcome NetworkingError (N * list u8) :=
  if len payload <? SNAPPY_CHECKSUM_LEN then Err (MalformedFrame "snappy chunk missing checksum")
  else Ok (from_le_bytes (take 4 payload), drop 4 payload).

Definition decode_compressed_chunk (payload : list u8) : Outcome NetworkingError (list u8) :=
  let? (checksum, body) := split_checksum payload in
  let? decoded := of_sum NetSnappy (decompress_vec body) in
  if negb (snappy_masked_crc decoded =? checksum) then Err (MalformedFrame "snappy chunk crc mismatch")
  else Ok decoded.

Definition decode_uncompressed_chunk (payload : list u8) : Outcome NetworkingError (list u8) :=
  let? (checksum, data) := split_checksum payload in
  if negb (snappy_masked_crc data =? checksum) then Err (MalformedFrame "snappy chunk crc mismatch")
  else Ok data.

Definition read_snappy_chunk (max_payload_len : N) : M (list u8) NetworkingError (u8 * list u8) :=
  let! header := read_exact SNAPPY_CHUNK_HEADER_LEN in
  let! chunk_type := mlift (index header 0) in
  let! h1 := mlift (index header 1) in
  let! h2 := mlift (index header 2) in
  let! h3 := mlift (index header 3) in
  let len := N.lor (N.lor (Byte.to_N h1) (N.shiftl (Byte.to_N h2) 8)) (N.shiftl (Byte.to_N h3) 16) in
  if max_payload_len <? len then mthrow (MalformedFrame "snappy chunk payload length exceeds caller budget")
  else
    let! payload := read_exact len in
    mret (chunk_type, payload).

(** [while remaining > 0]: the fuel is the code's own bound on the iterations. *)
Fixpoint read_chunks (iterations : nat) (remaining : N) (seen_identifier : bool) (decoded : list u8)
    : M (list u8) NetworkingError (list u8) :=
  if remaining =? 0 then mret decoded
  else
    match iterations with
    | O => mthrow (MalformedFrame "snappy chunk iteration cap exceeded")
    | S iterations =>
        let read_budget := N.min (remaining + SNAPPY_CHECKSUM_LEN) u64_max in
        let! (chunk_type, payload) := read_snappy_chunk read_budget in
        if bool_decide (chunk_type = SNAPPY_STREAM_IDENTIFIER) then
          if seen_identifier then mthrow (MalformedFrame "duplicate snappy stream identifier")
          else if negb (bool_decide (payload = SNAPPY_STREAM_MAGIC))
          then mthrow (MalformedFrame "invalid snappy stream identifier")
          else read_chunks iterations remaining true decoded
        else if bool_decide (chunk_type = SNAPPY_CHUNK_COMPRESSED) || bool_decide (chunk_type = SNAPPY_CHUNK_UNCOMPRESSED) then
          if negb seen_identifier then mthrow (MalformedFrame "snappy data chunk before stream identifier")
          else
            let! data := mlift (if bool_decide (chunk_type = SNAPPY_CHUNK_COMPRESSED)
                                then decode_compressed_chunk payload else decode_uncompressed_chunk payload) in
            if remaining <? len data
            then mthrow (MalformedFrame "snappy chunk decoded length exceeds remaining")
            else read_chunks iterations (remaining - len data) seen_identifier (decoded ++ data)
        else if (2 <=? Byte.to_N chunk_type) && (Byte.to_N chunk_type <=? 127)
        then mthrow (MalformedFrame "unsupported snappy chunk type")
        else read_chunks iterations remaining seen_identifier decoded
    end.

Definition read_snappy_frame_exact (length : N) : M (list u8) NetworkingError (list u8) :=
  if length =? 0 then mret []
  else
    let! _ := mlift (ok_or (usize_try_from length) (MalformedFrame "uncompressed length exceeds usize")) in
    read_chunks (N.to_nat MAX_SNAPPY_CHUNK_ITERATIONS) length false [].

Definition write_req_resp_frame (ssz : list u8) : M (list u8) NetworkingError unit :=
  let! length := mlift (ok_or (usize_try_from (len ssz)) (MalformedFrame "ssz length exceeds u64")) in
  let! _ := write_uvarint length in
  mmodify (fun w => w ++ frame_encode ssz).

Definition read_req_resp_frame (max_uncompressed : option N) : M (list u8) NetworkingError (option (list u8)) :=
  let! length := read_uvarint_or_eof in
  match length with
  | None => mret None
  | Some length =>
      let! _ := mlift (match max_uncompressed with
                       | Some max => if max <? length then Err (FrameTooLarge length max) else Ok tt
                       | None => Ok tt
                       end) in
      let! ssz := read_snappy_frame_exact length in
      mret (Some ssz)
  end.

End Frames.

(** ** One-shot transforms ([codecs.rs]) *)

Definition MAX_DECODED_PAYLOAD_BYTES : N := 16 * 1024 * 1024.

Section Codecs.
Context {snap : Snap}.

Definition snap_or_io (err : SnapError + IoError) : NetworkingError :=
  match err with inl e => NetSnappy e | inr e => NetIo e end.

Definition encode_req_resp_wire (ssz_bytes : list u8) : list u8 := frame_encode ssz_bytes.

Definition decode_req_resp_wire (wire : list u8) : Outcome NetworkingError (list u8) :=
  let cap := MAX_DECODED_PAYLOAD_BYTES in
  let? out := of_sum snap_or_io (frame_decode wire (cap + 1)) in
  if cap <? len out then Err (MalformedFrame "snappy framed decode exceeded MAX_DECODED_PAYLOAD_BYTES") else Ok out.

Definition encode_req_resp {T} `{Encode T} (value : T) : list u8 := encode_req_resp_wire (encode value).
Definition decode_req_resp {T} `{Decode T} (wire : list u8) : Outcome NetworkingError T :=
  let? ssz_bytes := decode_req_resp_wire wire in
  omap_err NetSsz (ssz_decode ssz_bytes).

(** [expect]: an error of the encoder is a panic. *)
Definition encode_gossip_data (ssz_bytes : list u8) : Outcome Empty_set (list u8) :=
  match compress_vec ssz_bytes with inl data => Ok data | inr _ => Panic end.

Definition decode_gossip_data (data : list u8) : Outcome NetworkingError (list u8) :=
  let? declared := of_sum NetSnappy (decompress_len data) in
  if MAX_DECODED_PAYLOAD_BYTES <? declared
  then Err (MalformedFrame "snappy block decoded length exceeds MAX_DECODED_PAYLOAD_BYTES")
  else of_sum NetSnappy (decompress_vec data).

Definition encode_gossip {T} `{Encode T} (value : T) : Outcome Empty_set (list u8) := encode_gossip_data (encode value).
Definition decode_gossip {T} `{Decode T} (data : list u8) : Outcome NetworkingError T :=
  let? ssz_bytes := decode_gossip_data data in
  omap_err NetSsz (ssz_decode ssz_bytes).

End Codecs.

(** ** Gossip message ids ([gossipsub.rs]) *)

Definition MESSAGE_ID_LEN : N := 20.
Definition MESSAGE_DOMAIN_INVALID_SNAPPY : list u8 := [x00; x00; x00; x00].
Definition MESSAGE_DOMAIN_VALID_SNAPPY : list u8 := [x01; x00; x00; x00].

Definition topic_len_le_bytes (topic : list u8) : list u8 := to_le_bytes 8 (N.min (len topic) u64_max).

(** What is hashed. *)
Definition message_id_preimage (domain topic payload : list u8) : list u8 :=
  domain ++ topic_len_le_bytes topic ++ topic ++ payload.

Definition compute_gossipsub_message_id {sha : Sha256} (domain topic payload : list u8) : list u8 :=
  take (N.to_nat MESSAGE_ID_LEN) (as_slice (sha256 (message_id_preimage domain topic payload))).

(** ** Request streams ([host/behaviour/codec.rs]) *)

Definition MAX_RPC_STREAM_BYTES : N := 16 * 1024 * 1024.

Inductive RpcRequest := RequestStatus (s : Status) | RequestBlocksByRoot (r : BlocksByRootRequest).
Inductive RpcResponse := ResponseStatus (s : Status) | ResponseBlocksByRoot (r : BlocksByRootResponse).

(** The [io::Error]s the codec returns. *)
Inductive CodecError {snap : Snap} :=
| StreamTooLong
| FrameError (e : NetworkingError)
| SszFrameError (e : SszError)
| FrameCount (got : N)
| UnknownProtocol (name : string)
| ProtocolMismatch (name : string) (kind : string).

Section RpcCodec.
Context {snap : Snap} `{EthSsz}.

(** The substream is the bytes up to its end. *)
Definition read_to_end (io : list u8) : Outcome CodecError (list u8) :=
  let buf := take (N.to_nat (MAX_RPC_STREAM_BYTES + 1)) io in
  if MAX_RPC_STREAM_BYTES <? len buf then Err StreamTooLong else Ok buf.

Definition encode_frame {T} `{Encode T} (value : T) : Outcome CodecError (list u8) :=
  match write_req_resp_frame (encode value) [] with
  | (Ok _, wire) => Ok wire
  | (Err e, _) => Err (FrameError e)
  | (Panic, _) => Panic
  | (Diverge, _) => Diverge
  end.

Fixpoint encode_blocks_loop (blocks : list SignedBlockWithAttestation) : M (list u8) NetworkingError unit :=
  match blocks with
  | [] => mret tt
  | block :: blocks => let! _ := write_req_resp_frame (encode block) in encode_blocks_loop blocks
  end.

Definition encode_blocks_by_root_response (response : BlocksByRootResponse) : Outcome CodecError (list u8) :=
  match encode_blocks_loop (br_blocks response) [] with
  | (Ok _, wire) => Ok wire
  | (Err e, _) => Err (FrameError e)
  | (Panic, _) => Panic
  | (Diverge, _) => Diverge
  end.

(** [while let Some(..) = read_req_resp_frame(..)]: each frame takes a byte at least. *)
Fixpoint decode_frames_loop {T} `{Decode T} (fuel : nat) (cursor : list u8) (frames : list T) : Outcome CodecError (list T) :=
  match fuel with
  | O => Diverge
  | S fuel =>
      match read_req_resp_frame (Some MAX_RPC_STREAM_BYTES) cursor with
      | (Ok None, _) => Ok frames
      | (Ok (Some ssz_bytes), cursor) =>
          let? frame := omap_err SszFrameError (ssz_decode ssz_bytes) in
          decode_frames_loop fuel cursor (frames ++ [frame])
      | (Err e, _) => Err (FrameError e)
      | (Panic, _) => Panic
      | (Diverge, _) => Diverge
      end
  end.

Definition decode_frames {T} `{Decode T} (buf : list u8) : Outcome CodecError (list T) :=
  decode_frames_loop (S (length buf)) buf [].

Definition decode_single_frame {T} `{Decode T} (buf : list u8) : Outcome CodecError T :=
  let? frames := decode_frames buf in
  match frames with [frame] => Ok frame | _ => Err (FrameCount (len frames)) end.

Definition decode_blocks_by_root_response (buf : list u8) : Outcome CodecError BlocksByRootResponse :=
  let? blocks := decode_frames buf in
  omap_err FrameError (BlocksByRootResponse_new blocks).

Definition read_request (protocol : string) (io : list u8) : Outcome CodecError RpcRequest :=
  let? buf := read_to_end io in
  if bool_decide (protocol = STATUS_PROTOCOL_V1) then let? s := decode_single_frame buf in Ok (RequestStatus s)
  else if bool_decide (protocol = BLOCKS_BY_ROOT_PROTOCOL_V1)
  then let? r := decode_single_frame buf in Ok (RequestBlocksByRoot r)
  else Err (UnknownProtocol protocol).

Definition read_response (protocol : string) (io : list u8) : Outcome CodecError RpcResponse :=
  let? buf := read_to_end io in
  if bool_decide (protocol = STATUS_PROTOCOL_V1) then let? s := decode_single_frame buf in Ok (ResponseStatus s)
  else if bool_decide (protocol = BLOCKS_BY_ROOT_PROTOCOL_V1)
  then let? r := decode_blocks_by_root_response buf in Ok (ResponseBlocksByRoot r)
  else Err (UnknownProtocol protocol).

(** The bytes written to the substream. *)
Definition write_request (protocol : string) (req : RpcRequest) : Outcome CodecError (list u8) :=
  match req with
  | RequestStatus s =>
      if bool_decide (protocol = STATUS_PROTOCOL_V1) then encode_frame s else Err (ProtocolMismatch protocol "request")
  | RequestBlocksByRoot r =>
      if bool_decide (protocol = BLOCKS_BY_ROOT_PROTOCOL_V1) then encode_frame r
      else Err (ProtocolMismatch protocol "request")
  end.

Definition write_response (protocol : string) (res : RpcResponse) : Outcome CodecError (list u8) :=
  match res with
  | ResponseStatus s =>
      if bool_decide (protocol = STATUS_PROTOCOL_V1) then encode_frame s else Err (ProtocolMismatch protocol "response")
  | ResponseBlocksByRoot r =>
      if bool_decide (protocol = BLOCKS_BY_ROOT_PROTOCOL_V1) then encode_blocks_by_root_response r
      else Err (ProtocolMismatch protocol "response")
  end.

End RpcCodec.

(** ** Laws of the external code *)

(** A data chunk of the Snappy framing format for a piece of data: the type, the
    length in three bytes, the masked checksum, and the piece or its compressed
    form, which is not longer. *)
Definition framing_checksum {snap : Snap} (piece : list u8) : N :=
  (N.lor (N.shiftr (crc32c piece) 15) (N.shiftl (crc32c piece) 17 mod 2 ^ 32) + 0xa282ead8) mod 2 ^ 32.

Inductive data_chunk {snap : Snap} (piece : list u8) : list u8 -> Prop :=
| stored_chunk :
    data_chunk piece (x01 :: to_le_bytes 3 (4 + len piece) ++ to_le_bytes 4 (framing_checksum piece) ++ piece)
| compressed_chunk body :
    decompress_vec body = inl piece -> len body <= len piece ->
    data_chunk piece (x00 :: to_le_bytes 3 (4 + len body) ++ to_le_bytes 4 (framing_checksum piece) ++ body).

Definition stream_identifier : list u8 := xff :: to_le_bytes 3 6 ++ String.list_byte_of_string "sNaPpY".

Class SnapLaws (snap : Snap) : Prop := {
  compress_law bs : len bs <= u32_max ->
    exists data, compress_vec bs = inl data /\ decompress_vec data = inl bs /\ decompress_len data = inl (len bs);
  (** the encoder cuts the data into blocks of 65536 bytes, and writes nothing for
      no data *)
  frame_encode_nil : frame_encode [] = [];
  frame_encode_law bs : bs <> [] ->
    exists pieces chunks, concat pieces = bs /\ Forall (fun piece => 0 < len piece <= 65536) pieces /\
      len pieces * 65536 < len bs + 65536 /\ Forall2 data_chunk pieces chunks /\
      frame_encode bs = stream_identifier ++ concat chunks;
  frame_decode_law bs n : frame_decode (frame_encode bs) n = inl (take (N.to_nat n) bs);
}.

(** ** Length prefixes *)

(** The base-128 digits of a number, least significant first. *)
Fixpoint uvarint (n : nat) (v : N) : list u8 :=
  match n with
  | O => []
  | S n => if 128 <=? v then u8_or (u8_of_N v) x80 :: uvarint n (N.shiftr v 7) else [u8_of_N v]
  end.

Lemma uvarint_S n v :
  uvarint (S n) v = if 128 <=? v then u8_or (u8_of_N v) x80 :: uvarint n (N.shiftr v 7) else [u8_of_N v].
Proof. done. Qed.

Lemma continuation_byte (b : u8) :
  128 <= Byte.to_N (u8_or b x80) /\ Byte.to_N (u8_and (u8_or b x80) x7f) = Byte.to_N b mod 128.
Proof. destruct b; vm_compute; split; congruence. Qed.

Lemma lor_shifted a w k : a < 2 ^ k -> N.lor a (N.shiftl w k) = a + w * 2 ^ k.
Proof.
  intros Ha. rewrite N.shiftl_mul_pow2.
  assert (Hl : N.land a (w * 2 ^ k) = 0).
  { apply N.bits_inj. intros i. rewrite N.land_spec, N.bits_0. destruct (N.lt_ge_cases i k) as [Hi|Hi].
    - by rewrite N.mul_pow2_bits_low, andb_false_r.
    - assert (Hb : N.testbit a i = false); [|by rewrite Hb].
      destruct (N.eq_dec a 0) as [->|]; [apply N.bits_0|]. apply N.bits_above_log2.
      apply N.log2_lt_pow2; [lia|]. apply (N.lt_le_trans _ (2 ^ k)); [done|]. by apply N.pow_le_mono_r. }
  rewrite <-N.lxor_lor by done. symmetry. by apply N.add_nocarry_lxor.
Qed.

Lemma lor_lt_pow2 a b k : a < 2 ^ k -> b < 2 ^ k -> N.lor a b < 2 ^ k.
Proof.
  intros Ha Hb. destruct (N.eq_dec (N.lor a b) 0) as [->|Hn]; [by apply (N.le_lt_trans _ a); [lia|]|].
  assert (Hlt : forall x, x < 2 ^ k -> x <> 0 -> N.log2 x < k) by (intros x Hx Hx0; apply N.log2_lt_pow2; [lia|done]).
  apply N.log2_lt_pow2; [lia|]. rewrite N.log2_lor.
  destruct (N.eq_dec a 0) as [->|Ha0], (N.eq_dec b 0) as [->|Hb0]; [done| | |].
  - rewrite N.max_r by apply N.le_0_l. by apply Hlt.
  - rewrite N.max_l by apply N.le_0_l. by apply Hlt.
  - apply N.max_lub_lt; by apply Hlt.
Qed.

Lemma lor_digit acc b shift bound :
  acc < 2 ^ shift -> acc + b * 2 ^ shift < bound ->
  N.lor acc (N.shiftl b shift mod bound) = acc + b * 2 ^ shift.
Proof. intros Ha Hb. rewrite N.mod_small; [by apply lor_shifted|]. rewrite N.shiftl_mul_pow2. lia. Qed.

Lemma index_set_at {E A} (l : list A) i x : i < len l -> @index_set E A l i x = Ok (<[N.to_nat i := x]> l).
Proof. intros Hi. unfold index_set. by rewrite (proj2 (N.ltb_lt _ _)) by done. Qed.

Lemma take_insert_snoc {A} (l : list A) i x :
  (i < length l)%nat -> take (S i) (<[i := x]> l) = take i l ++ [x].
Proof.
  intros Hi. rewrite (take_S_r _ _ x) by by apply list_lookup_insert_eq. by rewrite take_insert_ge by lia.
Qed.

Lemma shiftr_7_bound v n : v < 128 ^ N.of_nat (S n) -> N.shiftr v 7 < 128 ^ N.of_nat n.
Proof.
  intros Hv. rewrite Nat2N.inj_succ, N.pow_succ_r' in Hv. rewrite N.shiftr_div_pow2.
  change (2 ^ 7) with 128. apply N.Div0.div_lt_upper_bound. lia.
Qed.

Section FrameLemmas.
Context {snap : Snap}.

Lemma write_uvarint_loop_spec n : forall buf i v,
  (0 < n)%nat -> len buf = i + N.of_nat n -> v < 128 ^ N.of_nat n ->
  write_uvarint_loop n buf i v = Ok (take (N.to_nat i) buf ++ uvarint n v).
Proof.
  induction n as [|n IH]; intros buf i v Hn Hlen Hv; [lia|]. cbn [write_uvarint_loop uvarint].
  assert (Hi : (N.to_nat i < length buf)%nat) by (unfold len in Hlen; lia).
  rewrite !index_set_at by lia. cbn [obind]. destruct (N.leb_spec 128 v) as [Hge|Hlt].
  - destruct n as [|n]; [simpl in Hv; lia|].
    rewrite IH; [|lia|rewrite len_insert; lia|by apply shiftr_7_bound].
    rewrite N2Nat.inj_add, Nat.add_1_r, take_insert_snoc, <-app_assoc by done. done.
  - rewrite slice_Ok by (rewrite ?len_insert; lia). rewrite N.sub_0_r.
    change (N.to_nat 0) with 0%nat. rewrite drop_0. replace (N.to_nat (i + 1)) with (S (N.to_nat i)) by lia.
    by rewrite take_insert_snoc.
Qed.

Lemma write_uvarint_spec v w : u64_ok v -> write_uvarint v w = (Ok tt, w ++ uvarint 10 v).
Proof.
  intros Hv. unfold write_uvarint. rewrite (write_uvarint_loop_spec 10); [by mstep|lia|done|].
  apply (N.lt_trans _ u64_bound); [done|]. by vm_compute.
Qed.

Lemma uvarint_cons n v : exists b digits, uvarint (S n) v = b :: digits.
Proof. cbn [uvarint]. destruct (128 <=? v); eauto. Qed.

Lemma range_cons lo hi : lo < hi -> range lo hi = lo :: range (lo + 1) hi.
Proof. intros Hlt. rewrite (range_app lo (lo + 1) hi) by lia. f_equal. unfold range. rewrite N.add_comm, N.add_sub. simpl. f_equal. lia. Qed.

(** The reader decodes the digits from position [i] on. *)
Lemma read_uvarint_loop_spec n : forall i acc v rest,
  i + N.of_nat (S n) = 10 -> acc < 2 ^ (7 * i) -> acc + v * 2 ^ (7 * i) < u64_bound ->
  read_uvarint_loop (range i 10) acc (7 * i) (uvarint (S n) v ++ rest) = (Ok (Some (acc + v * 2 ^ (7 * i))), rest).
Proof.
  induction n as [|n IH]; intros i acc v rest Hi Ha Hv.
  - assert (i = 9) as -> by lia. assert (Hv2 : v < 2) by (revert Hv; unfold u64_bound; change (2 ^ (7 * 9)) with (2 ^ 63); lia).
    cbn [uvarint]. rewrite (proj2 (N.leb_gt 128 v)) by lia. rewrite range_cons by lia. cbn [read_uvarint_loop app].
    unfold mbind, read_one_byte. rewrite to_N_u8_of_N, N.mod_small by lia.
    rewrite (proj2 (N.ltb_lt v 128)), (proj2 (N.ltb_ge 1 v)) by lia. cbn [andb N.eqb]. rewrite andb_false_r.
    by rewrite lor_digit.
  - assert (Hrest : read_uvarint_loop (range i 10) = read_uvarint_loop (i :: range (i + 1) 10)) by by rewrite range_cons by lia.
    rewrite Hrest, uvarint_S. destruct (N.leb_spec 128 v) as [Hge|Hlt].
    + pose proof (continuation_byte (u8_of_N v)) as [Hc1 Hc2]. rewrite to_N_u8_of_N in Hc2.
      assert (Hmod : (v mod 256) mod 128 = v mod 128) by dlia. rewrite Hmod in Hc2.
      cbn [read_uvarint_loop app]. unfold mbind at 1, read_one_byte. rewrite (proj2 (N.ltb_ge _ 128)) by done. rewrite Hc2.
      assert (Hvd : v = v mod 128 + 128 * N.shiftr v 7) by (rewrite N.shiftr_div_pow2; change (2 ^ 7) with 128; dlia).
      assert (Hp : 2 ^ (7 * (i + 1)) = 128 * 2 ^ (7 * i)).
      { rewrite N.mul_add_distr_l, N.pow_add_r. change (2 ^ (7 * 1)) with 128. lia. }
      rewrite lor_digit by (try done; nia). replace (7 * i + 7) with (7 * (i + 1)) by lia.
      assert (v mod 128 < 128) by (apply N.mod_lt; lia).
      rewrite IH; [|lia|rewrite Hp; nia|].
      * do 3 f_equal. rewrite Hp. rewrite Hvd at 3. lia.
      * rewrite Hp. nia.
    + cbn [read_uvarint_loop app]. unfold mbind, read_one_byte. rewrite to_N_u8_of_N, N.mod_small by lia.
      rewrite (proj2 (N.ltb_lt v 128)) by lia. rewrite (proj2 (N.eqb_neq i (UVARINT_MAX_LEN - 1))) by (unfold UVARINT_MAX_LEN; lia).
      cbn [andb]. by rewrite lor_digit.
Qed.

Lemma read_uvarint_spec v rest : u64_ok v -> read_uvarint_or_eof (uvarint 10 v ++ rest) = (Ok (Some v), rest).
Proof.
  intros Hv. pose proof (read_uvarint_loop_spec 9 0 0 v rest) as Hs. change (7 * 0) with 0 in Hs. change (2 ^ 0) with 1 in Hs.
  rewrite N.mul_1_r in Hs. unfold u64_ok in Hv. by apply Hs.
Qed.

End FrameLemmas.

(** ** Chunks *)

Section ChunkLemmas.
Context {snap : Snap}.

Lemma read_exact_app n bs rest : len bs = n -> read_exact n (bs ++ rest) = (Ok bs, rest).
Proof.
  intros <-. unfold read_exact. rewrite (proj2 (N.ltb_ge _ _)) by (rewrite len_app; lia).
  unfold len. by rewrite Nat2N.id, take_app_length, drop_app_length.
Qed.

Lemma read_exact_cases n bs :
  (exists data rest, bs = data ++ rest /\ len data = n /\ read_exact n bs = (Ok data, rest)) \/
  read_exact n bs = (Err (NetIo UnexpectedEof), []).
Proof.
  unfold read_exact. destruct (N.ltb_spec (len bs) n); [by right|left].
  exists (take (N.to_nat n) bs), (drop (N.to_nat n) bs). split_and!; [by rewrite take_drop| |done].
  unfold len in *. rewrite length_take. lia.
Qed.

(** The header of a chunk holds the length of the payload. *)
Lemma header_len v : v < 2 ^ 24 -> exists b1 b2 b3, to_le_bytes 3 v = [b1; b2; b3] /\
  N.lor (N.lor (Byte.to_N b1) (N.shiftl (Byte.to_N b2) 8)) (N.shiftl (Byte.to_N b3) 16) = v.
Proof.
  intros Hv. pose proof (length_to_le_bytes 3 v) as Hl. pose proof (from_to_le_bytes 3 v) as Hf.
  destruct (to_le_bytes 3 v) as [|b1 [|b2 [|b3 [|]]]]; try done. exists b1, b2, b3. split; [done|]. clear Hl.
  pose proof (byte_to_N_bound b1). pose proof (byte_to_N_bound b2). pose proof (byte_to_N_bound b3).
  rewrite (lor_shifted (Byte.to_N b1) (Byte.to_N b2) 8) by lia. rewrite lor_shifted by lia.
  change (256 ^ N.of_nat 3) with (2 ^ 24) in Hf. rewrite N.mod_small in Hf by done. unfold from_le_bytes in Hf. lia.
Qed.

Lemma read_snappy_chunk_at ty payload rest max :
  len payload < 2 ^ 24 -> len payload <= max ->
  read_snappy_chunk max (ty :: to_le_bytes 3 (len payload) ++ payload ++ rest) = (Ok (ty, payload), rest).
Proof.
  intros H24 Hmax. destruct (header_len _ H24) as (b1 & b2 & b3 & -> & Hl). unfold read_snappy_chunk.
  rewrite (mbind_Ok _ _ _ _ _ (read_exact_app _ [ty; b1; b2; b3] (payload ++ rest) eq_refl)).
  change (index [ty; b1; b2; b3] 0) with (@Ok NetworkingError _ ty). change (index [ty; b1; b2; b3] 1) with (@Ok NetworkingError _ b1).
  change (index [ty; b1; b2; b3] 2) with (@Ok NetworkingError _ b2). change (index [ty; b1; b2; b3] 3) with (@Ok NetworkingError _ b3).
  mstep. cbv zeta. rewrite Hl.
  rewrite (proj2 (N.ltb_ge _ _)) by done. by rewrite (mbind_Ok _ _ _ _ _ (read_exact_app _ payload rest eq_refl)).
Qed.

Lemma checksum_payload piece body :
  split_checksum (to_le_bytes 4 (framing_checksum piece) ++ body) = Ok (framing_checksum piece, body).
Proof.
  unfold split_checksum. rewrite (proj2 (N.ltb_ge _ _)) by (rewrite len_app, len_to_le_bytes; unfold SNAPPY_CHECKSUM_LEN; lia).
  rewrite take_app_length' by by rewrite length_to_le_bytes. rewrite drop_app_length' by by rewrite length_to_le_bytes.
  rewrite from_to_le_bytes_u32; [done|]. unfold framing_checksum, u32_max.
  pose proof (N.mod_lt (N.lor (N.shiftr (crc32c piece) 15) (N.shiftl (crc32c piece) 17 mod 2 ^ 32) + 0xa282ead8) (2 ^ 32)). lia.
Qed.

(** One data chunk. *)
Lemma read_data_chunk iterations remaining decoded piece chunk rest :
  data_chunk piece chunk -> 0 < len piece <= 65536 -> len piece <= remaining <= u32_max ->
  read_chunks (S iterations) remaining true decoded (chunk ++ rest)
  = read_chunks iterations (remaining - len piece) true (decoded ++ piece) rest.
Proof.
  intros Hc Hp Hr. cbn [read_chunks]. rewrite (proj2 (N.eqb_neq _ _)) by lia.
  assert (Hb : N.min (remaining + SNAPPY_CHECKSUM_LEN) u64_max = remaining + 4).
  { unfold SNAPPY_CHECKSUM_LEN, u64_max, u32_max in *. lia. }
  rewrite Hb. destruct Hc as [|body Hd Hbl].
  - assert (Hl : 4 + len piece = len (to_le_bytes 4 (framing_checksum piece) ++ piece)) by by rewrite len_app, len_to_le_bytes.
    rewrite Hl. rewrite <-app_comm_cons, <-app_assoc.
    erewrite mbind_Ok by (apply read_snappy_chunk_at; rewrite <-Hl; lia). cbv beta iota.
    rewrite (bool_decide_eq_false_2 (x01 = SNAPPY_STREAM_IDENTIFIER)), (bool_decide_eq_false_2 (x01 = SNAPPY_CHUNK_COMPRESSED)),
      (bool_decide_eq_true_2 (x01 = SNAPPY_CHUNK_UNCOMPRESSED)) by done. cbn [orb negb]. unfold decode_uncompressed_chunk.
    rewrite checksum_payload. cbn [obind]. change (snappy_masked_crc piece) with (framing_checksum piece).
    rewrite N.eqb_refl. cbn [negb]. mstep. by rewrite (proj2 (N.ltb_ge _ _)) by lia.
  - assert (Hl : 4 + len body = len (to_le_bytes 4 (framing_checksum piece) ++ body)) by by rewrite len_app, len_to_le_bytes.
    rewrite Hl. rewrite <-app_comm_cons, <-app_assoc.
    erewrite mbind_Ok by (apply read_snappy_chunk_at; rewrite <-Hl; lia). cbv beta iota.
    rewrite (bool_decide_eq_false_2 (x00 = SNAPPY_STREAM_IDENTIFIER)), (bool_decide_eq_true_2 (x00 = SNAPPY_CHUNK_COMPRESSED)) by done.
    cbn [orb negb]. unfold decode_compressed_chunk. rewrite checksum_payload. cbn [obind]. rewrite Hd. cbn [of_sum obind].
    change (snappy_masked_crc piece) with (framing_checksum piece).
    rewrite N.eqb_refl. cbn [negb]. mstep. by rewrite (proj2 (N.ltb_ge _ _)) by lia.
Qed.

Lemma read_data_chunks pieces chunks : Forall2 data_chunk pieces chunks -> forall iterations decoded rest,
  Forall (fun piece => 0 < len piece <= 65536) pieces -> (length pieces <= iterations)%nat -> len (concat pieces) <= u32_max ->
  read_chunks iterations (len (concat pieces)) true decoded (concat chunks ++ rest) = (Ok (decoded ++ concat pieces), rest).
Proof.
  induction 1 as [|piece chunk pieces chunks Hc _ IH]; intros iterations decoded rest Hall Hit Hmax.
  - destruct iterations; simpl; by rewrite app_nil_r.
  - inversion_clear Hall as [|? ? Hp Hps]. destruct iterations as [|iterations]; simpl in Hit; [lia|].
    cbn [concat] in *. rewrite len_app in *. rewrite <-app_assoc.
    rewrite (read_data_chunk _ _ _ piece) by (try done; lia). rewrite N.add_comm, N.add_sub.
    rewrite IH by (try done; lia). by rewrite app_assoc.
Qed.

End ChunkLemmas.

(** ** Round trips *)

(** What a frame can carry: the reader stops after 4096 chunks, the identifier
    included, and refuses the identifier if a single byte is declared. *)
Definition frame_fits (ssz : list u8) : Prop := len ssz <> 1 /\ len ssz <= 4095 * 65536.

Section FrameRoundTrip.
Context {snap : Snap} {laws : SnapLaws snap}.

Lemma read_identifier iterations remaining rest :
  2 <= remaining <= u32_max ->
  read_chunks (S iterations) remaining false [] (stream_identifier ++ rest) = read_chunks iterations remaining true [] rest.
Proof.
  intros Hr. cbn [read_chunks]. rewrite (proj2 (N.eqb_neq _ _)) by lia.
  unfold stream_identifier. rewrite <-app_comm_cons, <-app_assoc. change 6 with (len SNAPPY_STREAM_MAGIC) at 1.
  assert (Hb : 6 <= N.min (remaining + SNAPPY_CHECKSUM_LEN) u64_max) by (unfold SNAPPY_CHECKSUM_LEN, u64_max, u32_max in *; lia).
  erewrite mbind_Ok by (apply read_snappy_chunk_at; [done|exact Hb]). cbv beta iota.
  rewrite (bool_decide_eq_true_2 (xff = SNAPPY_STREAM_IDENTIFIER)) by done.
  by rewrite (bool_decide_eq_true_2 (_ = SNAPPY_STREAM_MAGIC)) by done.
Qed.

Lemma read_snappy_frame_encoded ssz rest :
  frame_fits ssz -> read_snappy_frame_exact (len ssz) (frame_encode ssz ++ rest) = (Ok ssz, rest).
Proof.
  intros [H1 Hmax]. unfold read_snappy_frame_exact. destruct (N.eqb_spec (len ssz) 0) as [H0|H0].
  { destruct ssz; [by rewrite frame_encode_nil|]. rewrite len_cons in H0. lia. }
  destruct (frame_encode_law ssz) as (pieces & chunks & <- & Hall & Hn & Hc & ->); [by intros ->|].
  unfold usize_try_from. rewrite (proj2 (N.ltb_lt _ _)) by (unfold u64_bound; lia). cbn [ok_or]. mstep.
  replace (N.to_nat MAX_SNAPPY_CHUNK_ITERATIONS) with (S (N.to_nat 4095)) by (unfold MAX_SNAPPY_CHUNK_ITERATIONS; lia).
  rewrite <-app_assoc, read_identifier by (unfold u32_max; lia).
  rewrite (read_data_chunks pieces chunks Hc); [done|done|unfold len in *; lia|unfold u32_max; lia].
Qed.

(** A frame, and the bytes it takes. *)
Definition frame_bytes (ssz : list u8) : list u8 := uvarint 10 (len ssz) ++ frame_encode ssz.

Lemma write_frame ssz w : len ssz <= u64_max -> write_req_resp_frame ssz w = (Ok tt, w ++ frame_bytes ssz).
Proof.
  intros Hl. unfold write_req_resp_frame, usize_try_from. rewrite (proj2 (N.ltb_lt _ _)) by (unfold u64_bound, u64_max in *; lia). cbn [ok_or]. mstep.
  rewrite (mbind_Ok _ _ _ _ _ (write_uvarint_spec (len ssz) w ltac:(unfold u64_ok, u64_bound, u64_max in *; lia))).
  unfold mmodify, frame_bytes. by rewrite app_assoc.
Qed.

Lemma read_frame ssz rest max :
  frame_fits ssz -> len ssz <= max -> read_req_resp_frame (Some max) (frame_bytes ssz ++ rest) = (Ok (Some ssz), rest).
Proof.
  intros Hf Hmax. unfold read_req_resp_frame, frame_bytes. rewrite <-app_assoc.
  rewrite (mbind_Ok _ _ _ _ _ (read_uvarint_spec (len ssz) _ ltac:(destruct Hf; unfold u64_ok, u64_bound; lia))).
  rewrite (proj2 (N.ltb_ge _ _)) by done. mstep.
  by rewrite (mbind_Ok _ _ _ _ _ (read_snappy_frame_encoded ssz rest Hf)).
Qed.

Lemma frame_bytes_cons ssz : exists b bs, frame_bytes ssz = b :: bs.
Proof. unfold frame_bytes. destruct (uvarint_cons 9 (len ssz)) as (b & bs & ->). by eexists b, _. Qed.

Lemma read_frame_eof max : read_req_resp_frame max [] = (Ok None, []).
Proof. done. Qed.

End FrameRoundTrip.

(** ** Any input *)

(** A read that returns, leaves a suffix of the input if it succeeds, and whose
    result satisfies [P], which also gets the bytes it used. *)
Definition read_sound {E A} (P : list u8 -> A -> Prop) (bytes : list u8) (run : Outcome E A * list u8) : Prop :=
  match run with
  | (Ok a, rest) => exists used, bytes = used ++ rest /\ P used a
  | (Err _, _) => True
  | (Panic, _) | (Diverge, _) => False
  end.

Section AnyInput.
Context {snap : Snap}.

Lemma read_sound_bind {E A B} (P : list u8 -> A -> Prop) (Q : list u8 -> B -> Prop) (c : M (list u8) E A) k bytes :
  read_sound P bytes (c bytes) ->
  (forall used a rest, P used a -> read_sound (fun used' => Q (used ++ used')) rest (k a rest)) ->
  read_sound Q bytes (mbind c k bytes).
Proof.
  intros Hc Hk. unfold mbind. destruct (c bytes) as [[a|e| |] rest]; try done. destruct Hc as (used & -> & HP).
  specialize (Hk used a rest HP). destruct (k a rest) as [[b|e| |] rest']; try done.
  destruct Hk as (used' & -> & HQ). exists (used ++ used'). by rewrite app_assoc.
Qed.

Lemma read_sound_lift {E A B} (Q : list u8 -> B -> Prop) (c : Outcome E A) (k : A -> M (list u8) E B) bytes :
  returned c -> (forall a, c = Ok a -> read_sound Q bytes (k a bytes)) -> read_sound Q bytes (mbind (mlift c) k bytes).
Proof. destruct c; try done. intros _ Hk. unfold mbind, mlift. by apply Hk. Qed.

Lemma read_sound_ret {E A} (P : list u8 -> A -> Prop) bytes (a : A) : P [] a -> read_sound P bytes (mret (E:=E) a bytes).
Proof. intros HP. by exists []. Qed.

Lemma read_exact_sound n bytes : read_sound (fun used data => used = data /\ len data = n) bytes (read_exact n bytes).
Proof. destruct (read_exact_cases n bytes) as [(data & rest & -> & Hl & ->)| ->]; [by exists data|done]. Qed.

Lemma read_snappy_chunk_sound max bytes :
  read_sound (fun _ '(_, payload) => len payload <= max) bytes (read_snappy_chunk max bytes).
Proof.
  unfold read_snappy_chunk. eapply read_sound_bind; [apply read_exact_sound|]. intros used header rest [_ Hl].
  destruct header as [|h0 [|h1 [|h2 [|h3 [|]]]]]; try done; [|rewrite !len_cons in Hl; unfold SNAPPY_CHUNK_HEADER_LEN in Hl; lia].
  do 4 (apply read_sound_lift; [done|intros ? [= <-]]). cbv zeta. destruct (N.ltb_spec max (N.lor (N.lor (Byte.to_N h1)
    (N.shiftl (Byte.to_N h2) 8)) (N.shiftl (Byte.to_N h3) 16))); [done|].
  eapply read_sound_bind; [apply read_exact_sound|]. intros used' payload rest' [-> Hp]. apply read_sound_ret. lia.
Qed.

Lemma split_checksum_returned payload : returned (split_checksum payload).
Proof. unfold split_checksum. by destruct (len payload <? SNAPPY_CHECKSUM_LEN). Qed.

Lemma decode_chunk_returned (compressed : bool) payload :
  returned (if compressed then decode_compressed_chunk payload else decode_uncompressed_chunk payload).
Proof.
  unfold decode_compressed_chunk, decode_uncompressed_chunk.
  destruct compressed; (apply obind_returned; [apply split_checksum_returned|intros [c body]]).
  - apply obind_returned; [by destruct (decompress_vec body)|]. intros d. by destruct (negb _).
  - by destruct (negb _).
Qed.

(** The loop hands out exactly the declared number of bytes. *)
Lemma read_chunks_sound iterations : forall remaining seen decoded bytes,
  read_sound (fun _ data => len data = len decoded + remaining) bytes (read_chunks iterations remaining seen decoded bytes).
Proof.
  induction iterations as [|iterations IH]; intros remaining seen decoded bytes; cbn [read_chunks];
    (destruct (N.eqb_spec remaining 0) as [->|]; [apply read_sound_ret; lia|]); [done|].
  cbv zeta. eapply read_sound_bind; [apply read_snappy_chunk_sound|]. intros used [ty payload] rest _.
  destruct (bool_decide (ty = SNAPPY_STREAM_IDENTIFIER)).
  { destruct seen; [done|]. destruct (negb _); [done|]. apply IH. }
  destruct (_ || _).
  - destruct (negb seen); [done|]. apply read_sound_lift; [apply decode_chunk_returned|]. intros data _.
    destruct (N.ltb_spec remaining (len data)); [done|]. specialize (IH (remaining - len data) seen (decoded ++ data) rest).
    rewrite len_app in IH. replace (len decoded + len data + (remaining - len data)) with (len decoded + remaining) in IH by lia.
    exact IH.
  - destruct (_ && _); [done|]. apply IH.
Qed.

Lemma read_uvarint_loop_sound todo : forall acc shift bytes,
  acc < u64_bound -> Forall (fun i => i <> 0) (tail todo) ->
  read_sound (fun used r => match r with Some v => used <> [] /\ v < u64_bound | None => used = [] /\ head todo = Some 0 end) bytes
    (read_uvarint_loop todo acc shift bytes).
Proof.
  assert (Hlor : forall a b, a < u64_bound -> N.lor a (b mod u64_bound) < u64_bound).
  { intros a b Ha. apply lor_lt_pow2; [done|]. by apply N.mod_lt. }
  induction todo as [|i todo IH]; intros acc shift bytes Ha Hi; [done|]. cbn [read_uvarint_loop tail] in *.
  unfold mbind at 1, read_one_byte. destruct bytes as [|b rest]; cbv beta iota.
  - destruct (N.eqb_spec i 0) as [->|]; [by exists []|done].
  - destruct (Byte.to_N b <? 128).
    + destruct (_ && _); [done|]. exists [b]. split_and!; [done|done|]. by apply Hlor.
    + specialize (IH (N.lor acc (N.shiftl (Byte.to_N (u8_and b x7f)) shift mod u64_bound)) (shift + 7) rest (Hlor _ _ Ha)
                   ltac:(by destruct Hi)).
      destruct (read_uvarint_loop _ _ _ rest) as [[r|e| |] rest']; try done. destruct IH as (used & -> & Hr).
      exists (b :: used). split; [done|]. destruct r; [by destruct Hr|]. destruct Hr as [_ Hh].
      destruct todo; [done|]. injection Hh as ->. by inversion Hi.
Qed.
Lemma read_snappy_frame_sound length bytes :
  read_sound (fun _ data => len data = length) bytes (read_snappy_frame_exact length bytes).
Proof.
  unfold read_snappy_frame_exact. destruct (N.eqb_spec length 0) as [->|]; [by apply read_sound_ret|].
  apply read_sound_lift; [by destruct (usize_try_from length)|]. intros _ _. apply read_chunks_sound.
Qed.

Lemma read_frame_sound max bytes :
  read_sound (fun used r => match r with Some ssz => used <> [] /\ len ssz <= max | None => used = [] end) bytes
    (read_req_resp_frame (Some max) bytes).
Proof.
  unfold read_req_resp_frame. eapply read_sound_bind.
  { apply read_uvarint_loop_sound; [done|]. apply Forall_forall. intros i Hi.
    change (i ∈ range 1 10) in Hi. apply elem_of_range in Hi. lia. }
  intros used [length|] rest Hu; [|apply read_sound_ret; by rewrite app_nil_r; destruct Hu]. destruct Hu as [Hu _].
  apply read_sound_lift; [by destruct (max <? length)|]. intros a. destruct (N.ltb_spec max length) as [|Hle]; [done|]. intros _.
  eapply read_sound_bind; [apply read_snappy_frame_sound|]. intros used' ssz rest' <-. apply read_sound_ret.
  split; [|done]. by intros [? _]%app_nil.
Qed.

(** The fuel of [decode_frames] is enough, and each frame it hands out decodes. *)
Lemma decode_frames_loop_sound {T} `{SszCodec T} fuel : forall bytes (frames : list T),
  (length bytes < fuel)%nat -> Forall ssz_wf frames ->
  returned (decode_frames_loop fuel bytes frames) /\
  forall out, decode_frames_loop fuel bytes frames = Ok out -> Forall ssz_wf out.
Proof.
  induction fuel as [|fuel IH]; intros bytes frames Hf Hall; [lia|]. cbn [decode_frames_loop].
  pose proof (read_frame_sound MAX_RPC_STREAM_BYTES bytes) as Hs. unfold read_sound in Hs.
  destruct (read_req_resp_frame (Some MAX_RPC_STREAM_BYTES) bytes) as [[[ssz|]|e| |] rest]; try done.
  - destruct Hs as (used & -> & Hu & _). unfold ssz_decode. pose proof (sc_cases (T:=T) ssz) as Hc. unfold canonical_at in Hc.
    destruct (from_ssz_bytes ssz) as [x|e| |]; try done. cbn [omap_err obind]. apply IH.
    + rewrite length_app in Hf. destruct used; [done|]. simpl in Hf. lia.
    + apply Forall_app. split; [done|]. constructor; [apply Hc|done].
  - split; [done|]. by intros out [= <-].
Qed.

Lemma decode_frames_sound {T} `{SszCodec T} bytes :
  returned (decode_frames (T:=T) bytes) /\ forall out : list T, decode_frames bytes = Ok out -> Forall ssz_wf out.
Proof. apply decode_frames_loop_sound; [lia|done]. Qed.

End AnyInput.

(** ** Codecs of the messages *)

#[export] Instance Status_SszWf : SszWf Status := fun s => ssz_wf (status_finalized s) /\ ssz_wf (status_head s).
#[export] Instance BlocksByRootRequest_SszWf : SszWf BlocksByRootRequest := fun r => len (br_roots r) <= MAX_REQUEST_BLOCKS.

(** A response: the blocks are well formed and within the limit. *)
Definition response_wf (r : BlocksByRootResponse) : Prop :=
  len (br_blocks r) <= MAX_REQUEST_BLOCKS /\ Forall ssz_wf (br_blocks r).

Section MessageCodecs.
Context `{EthSszLaws}.

Lemma encode_Status s : encode s = encode (status_finalized s) ++ encode (status_head s).
Proof. unfold encode at 1. cbn [ssz_append Status_Encode]. by rewrite !fc_append. Qed.

#[export] Instance Status_FixedCodec : FixedCodec Status.
Proof.
  assert (Hlen : forall s : Status, len (encode s) = STATUS_SSZ_LEN).
  { intros s. rewrite encode_Status, len_app, !fc_len. done. }
  split.
  - intros s buf. rewrite encode_Status. cbn [ssz_append Status_Encode]. by rewrite !fc_append, <-app_assoc.
  - done.
  - done.
  - intros s [Hf Hh]. cbn [from_ssz_bytes Status_Decode]. unfold Status_from_ssz_bytes.
    rewrite Hlen, N.eqb_refl. cbn [negb]. rewrite encode_Status.
    rewrite <-(app_nil_l (_ ++ _)) at 1. rewrite slice_app by (rewrite ?fc_len; done).
    cbn [obind]. rewrite fc_decode by done. cbn [obind].
    rewrite <-(app_nil_r (encode (status_head s))), slice_app by (rewrite ?len_app, ?fc_len; done).
    cbn [obind]. rewrite fc_decode by done. by destruct s.
  - intros bs Hl. cbn [ssz_fixed_len Status_Decode] in Hl. unfold STATUS_SSZ_LEN in Hl. cut_bytes CHECKPOINT_LEN bs p q.
    destruct (fc_onto (T:=Checkpoint) p) as (f & Hf & <-); [size_lia|].
    destruct (fc_onto (T:=Checkpoint) q) as (h & Hh & <-); [size_lia|].
    exists (mkStatus f h). split; [by split|]. apply encode_Status.
  - intros bs Hl. cbn in *. unfold Status_from_ssz_bytes. by rewrite (proj2 (N.eqb_neq _ _)).
Qed.

Lemma encode_request r : encode r = concat (as_slice <$> br_roots r).
Proof. unfold encode. cbn [ssz_append BlocksByRootRequest_Encode]. unfold encode_bytes32_list. by rewrite encode_byte_vector_list_concat. Qed.

#[export] Instance BlocksByRootRequest_SszCodec : SszCodec BlocksByRootRequest.
Proof.
  apply mk_SszCodec.
  - intros r buf. rewrite encode_request. cbn [ssz_append BlocksByRootRequest_Encode]. unfold encode_bytes32_list.
    by rewrite encode_byte_vector_list_concat.
  - intros r _. rewrite encode_request, len_concat_as_slice. done.
  - intros r Hwf. rewrite encode_request. cbn [from_ssz_bytes BlocksByRootRequest_Decode]. unfold decode_bytes32_list.
    rewrite decode_byte_vector_list_encode by (done || apply Hwf). by destruct r.
  - intros bs. unfold canonical_at. cbn [from_ssz_bytes BlocksByRootRequest_Decode]. unfold decode_bytes32_list.
    destruct (decode_byte_vector_list_cases (n:=32) bs MAX_REQUEST_BLOCKS) as [(roots & -> & Hl & <-)|[m ->]]; [done| |done].
    cbn [obind]. split; [done|]. apply encode_request.
Qed.

End MessageCodecs.

(** ** Streams of messages *)

(** A value that one frame carries within the limit of a stream. *)
Definition frame_value {T} `{Encode T} `{SszWf T} (x : T) : Prop :=
  ssz_wf x /\ len (encode x) <> 1 /\ len (encode x) <= MAX_RPC_STREAM_BYTES.

Section Streams.
Context {snap : Snap} {snap_laws : SnapLaws snap} {eth : EthSsz} {eth_laws : EthSszLaws}.

Lemma frame_value_fits {T} `{SszCodec T} (x : T) : frame_value x -> frame_fits (encode x).
Proof. intros (_ & Hne & Hle). split; [done|]. unfold MAX_RPC_STREAM_BYTES in Hle. lia. Qed.

Lemma decode_frames_loop_encoded {T} `{SszCodec T} (xs : list T) : forall fuel acc,
  (length xs < fuel)%nat -> Forall frame_value xs ->
  decode_frames_loop fuel (concat ((fun x => frame_bytes (encode x)) <$> xs)) acc = Ok (acc ++ xs).
Proof.
  induction xs as [|x xs IH]; intros fuel acc Hf Hall; (destruct fuel as [|fuel]; [simpl in Hf; lia|]); cbn [decode_frames_loop].
  - by rewrite app_nil_r.
  - inversion_clear Hall as [|? ? Hx Hxs]. csimpl.
    rewrite read_frame; [|by apply frame_value_fits|apply Hx].
    unfold ssz_decode. rewrite sc_decode by apply Hx. cbn [omap_err obind].
    rewrite IH by (simpl in Hf; lia || done). by rewrite <-app_assoc.
Qed.

Lemma length_le_frames {A} (f : A -> list u8) xs : (length xs <= length (concat ((fun x => frame_bytes (f x)) <$> xs)))%nat.
Proof.
  induction xs as [|x xs IH]; csimpl; [lia|]. rewrite length_app. destruct (frame_bytes_cons (f x)) as (b & bs & ->). simpl. lia.
Qed.

Lemma decode_frames_encoded {T} `{SszCodec T} (xs : list T) :
  Forall frame_value xs -> decode_frames (concat ((fun x => frame_bytes (encode x)) <$> xs)) = Ok xs.
Proof. intros Hall. unfold decode_frames. rewrite decode_frames_loop_encoded; [done| |done]. pose proof (length_le_frames encode xs). lia. Qed.

Lemma encode_frame_Ok {T} `{SszCodec T} (x : T) : frame_value x -> encode_frame x = Ok (frame_bytes (encode x)).
Proof.
  intros (_ & _ & Hl). unfold encode_frame. rewrite write_frame by (unfold MAX_RPC_STREAM_BYTES, u64_max in *; lia). done.
Qed.

Lemma encode_blocks_loop_Ok blocks : forall w, Forall frame_value blocks ->
  encode_blocks_loop blocks w = (Ok tt, w ++ concat ((fun b => frame_bytes (encode b)) <$> blocks)).
Proof.
  induction blocks as [|b blocks IH]; intros w Hall; csimpl; [by rewrite app_nil_r|].
  inversion_clear Hall as [|? ? (_ & _ & Hl) Hbs]. cbn [encode_blocks_loop].
  rewrite (mbind_Ok _ _ _ _ _ (write_frame (encode b) w ltac:(unfold MAX_RPC_STREAM_BYTES, u64_max in *; lia))).
  by rewrite IH, app_assoc.
Qed.

Lemma decode_single_frame_encoded {T} `{SszCodec T} (x : T) : frame_value x -> decode_single_frame (frame_bytes (encode x)) = Ok x.
Proof.
  intros Hx. unfold decode_single_frame. pose proof (decode_frames_encoded [x]) as Hd. csimpl in Hd. rewrite app_nil_r in Hd.
  by rewrite Hd by by constructor.
Qed.

Lemma read_to_end_Ok io : len io <= MAX_RPC_STREAM_BYTES -> read_to_end io = Ok io.
Proof.
  intros Hl. unfold read_to_end. rewrite take_ge by (unfold len in Hl; lia). by rewrite (proj2 (N.ltb_ge _ _)).
Qed.

Lemma read_to_end_long io : MAX_RPC_STREAM_BYTES < len io -> read_to_end io = Err StreamTooLong.
Proof.
  intros Hl. unfold read_to_end. rewrite (proj2 (N.ltb_lt _ _)); [done|]. unfold len in *. rewrite length_take. lia.
Qed.

(** The overhead of a frame: its prefix, the identifier, and eight bytes a block. *)
Lemma data_chunk_len piece chunk : data_chunk piece chunk -> len chunk <= len piece + 8.
Proof. destruct 1; autorewrite with len; lia. Qed.

Lemma uvarint_len n v : len (uvarint n v) <= N.of_nat n.
Proof. revert v. induction n as [|n IH]; intros v; [done|]. cbn [uvarint]. destruct (128 <=? v); [|change (1 <= N.of_nat (S n)); lia].
  rewrite len_cons. specialize (IH (N.shiftr v 7)). lia. Qed.

Lemma frame_bytes_len ssz : len (frame_bytes ssz) <= 28 + len ssz + len ssz / 8192.
Proof.
  unfold frame_bytes. rewrite len_app. pose proof (uvarint_len 10 (len ssz)).
  destruct (decide (ssz = [])) as [->|Hne]; [rewrite frame_encode_nil; rewrite len_nil in *; dlia|].
  destruct (frame_encode_law ssz Hne) as (pieces & chunks & <- & _ & Hn & Hc & ->).
  rewrite len_app. change (len stream_identifier) with 10.
  assert (Hsum : len (concat chunks) <= len (concat pieces) + 8 * len pieces).
  { clear -Hc. induction Hc as [|p c ps cs Hpc _ IH]; [done|]. cbn [concat]. rewrite !len_app, len_cons.
    apply data_chunk_len in Hpc. lia. }
  dlia.
Qed.

End Streams.

(** The protocol a message travels on, and the messages the codec is made for. *)
Definition request_protocol (req : RpcRequest) : string :=
  match req with RequestStatus _ => STATUS_PROTOCOL_V1 | RequestBlocksByRoot _ => BLOCKS_BY_ROOT_PROTOCOL_V1 end.
Definition response_protocol (res : RpcResponse) : string :=
  match res with ResponseStatus _ => STATUS_PROTOCOL_V1 | ResponseBlocksByRoot _ => BLOCKS_BY_ROOT_PROTOCOL_V1 end.
Definition request_wf (req : RpcRequest) : Prop :=
  match req with RequestStatus s => ssz_wf s | RequestBlocksByRoot r => ssz_wf r end.
Definition rpc_response_wf (res : RpcResponse) : Prop :=
  match res with ResponseStatus s => ssz_wf s | ResponseBlocksByRoot r => response_wf r end.

Section StreamClaims.
Context {snap : Snap} {snap_laws : SnapLaws snap} {eth : EthSsz} {eth_laws : EthSszLaws}.

Lemma status_frame_value (s : Status) : ssz_wf s -> frame_value s.
Proof. intros Hs. split; [done|]. rewrite fc_len. by vm_compute. Qed.

Lemma request_frame_value (r : BlocksByRootRequest) : ssz_wf r -> frame_value r.
Proof.
  intros Hr. split; [done|]. rewrite encode_request, len_concat_as_slice.
  unfold ssz_wf, BlocksByRootRequest_SszWf, MAX_REQUEST_BLOCKS in Hr. change (N.shiftl 1 10) with 1024 in Hr.
  unfold MAX_RPC_STREAM_BYTES. lia.
Qed.

Lemma block_frame_value (b : SignedBlockWithAttestation) :
  ssz_wf b -> len (encode b) <= MAX_RPC_STREAM_BYTES -> frame_value b.
Proof.
  intros Hb Hl. split_and!; [done| |done]. rewrite encode_SignedBlockWithAttestation by done.
  rewrite !len_app, !len_to_le_bytes. lia.
Qed.

Lemma single_frame_short {T} `{SszCodec T} (x : T) : len (encode x) <= 2 ^ 20 -> len (frame_bytes (encode x)) <= MAX_RPC_STREAM_BYTES.
Proof. intros Hl. pose proof (frame_bytes_len (encode x)). unfold MAX_RPC_STREAM_BYTES. dlia. Qed.

Lemma status_stream (s : Status) : ssz_wf s ->
  len (frame_bytes (encode s)) <= MAX_RPC_STREAM_BYTES /\ encode_frame s = Ok (frame_bytes (encode s)) /\
  decode_single_frame (frame_bytes (encode s)) = Ok s.
Proof.
  intros Hwf. pose proof (status_frame_value s Hwf) as Hv.
  split_and!; [apply single_frame_short; by rewrite fc_len|by apply encode_frame_Ok|by apply decode_single_frame_encoded].
Qed.

Lemma request_stream (r : BlocksByRootRequest) : ssz_wf r ->
  len (frame_bytes (encode r)) <= MAX_RPC_STREAM_BYTES /\ encode_frame r = Ok (frame_bytes (encode r)) /\
  decode_single_frame (frame_bytes (encode r)) = Ok r.
Proof.
  intros Hwf. pose proof (request_frame_value r Hwf) as Hv.
  split_and!; [|by apply encode_frame_Ok|by apply decode_single_frame_encoded].
  apply single_frame_short. rewrite encode_request, len_concat_as_slice.
  unfold ssz_wf, BlocksByRootRequest_SszWf, MAX_REQUEST_BLOCKS in Hwf. change (N.shiftl 1 10) with 1024 in Hwf. lia.
Qed.

Lemma response_stream (r : BlocksByRootResponse) :
  response_wf r -> Forall (fun b => len (encode b) <= MAX_RPC_STREAM_BYTES) (br_blocks r) ->
  let wire := concat ((fun b => frame_bytes (encode b)) <$> br_blocks r) in
  encode_blocks_by_root_response r = Ok wire /\ decode_blocks_by_root_response wire = Ok r.
Proof.
  intros [Hn Hbs] Hmax wire. assert (Hv : Forall frame_value (br_blocks r)).
  { apply Forall_forall. intros b Hb. rewrite Forall_forall in Hbs, Hmax. apply block_frame_value; auto. }
  split; [unfold encode_blocks_by_root_response; by rewrite encode_blocks_loop_Ok|].
  unfold decode_blocks_by_root_response, wire. rewrite decode_frames_encoded by done. cbn [obind].
  unfold BlocksByRootResponse_new, enforce_list_cap. rewrite (proj2 (N.ltb_ge _ _)) by done. by destruct r.
Qed.

(** C25. The request codec is faithful.  A request written to its substream is read
    back by the peer as the same request.  So is a response, block by block, if
    no block is encoded in more than 16 MiB and the stream is not longer than
    that; a longer stream is refused as such.  Compression is any that the
    Snappy format allows. *)
Theorem rpc_stream_round_trip :
  (forall req, request_wf req ->
     exists wire, write_request (request_protocol req) req = Ok wire /\ read_request (request_protocol req) wire = Ok req) /\
  (forall res, rpc_response_wf res ->
     (forall r, res = ResponseBlocksByRoot r -> Forall (fun b => len (encode b) <= MAX_RPC_STREAM_BYTES) (br_blocks r)) ->
     exists wire, write_response (response_protocol res) res = Ok wire /\
       read_response (response_protocol res) wire
       = if MAX_RPC_STREAM_BYTES <? len wire then Err StreamTooLong else Ok res).
Proof.
  split.
  - intros [s|r] Hwf; [destruct (status_stream s Hwf) as (Hl & He & Hd)|destruct (request_stream r Hwf) as (Hl & He & Hd)];
      (eexists; split; [exact He|]); unfold read_request; by rewrite read_to_end_Ok by done; cbn [obind]; rewrite Hd.
  - intros [s|r] Hwf Hmax.
    + destruct (status_stream s Hwf) as (Hl & He & Hd). eexists. split; [exact He|]. unfold read_response.
      rewrite read_to_end_Ok, (proj2 (N.ltb_ge _ _)) by done. cbn [obind]. by rewrite Hd.
    + destruct (response_stream r Hwf (Hmax r eq_refl)) as [He Hd]. eexists. split; [exact He|]. unfold read_response.
      set (wire := concat _) in *. destruct (N.ltb_spec MAX_RPC_STREAM_BYTES (len wire)) as [Hl|Hl].
      * by rewrite read_to_end_long.
      * rewrite read_to_end_Ok by done. cbn [obind]. by rewrite Hd.
Qed.

(** C20. What a peer can send.  On any bytes, on any protocol, the codec returns: it
    does not panic, overflow or loop.  What it accepts is a well-formed message
    within its limits. *)
Theorem rpc_input_safe protocol io :
  returned (read_request protocol io) /\ returned (read_response protocol io) /\
  (forall req, read_request protocol io = Ok req -> request_wf req) /\
  (forall res, read_response protocol io = Ok res -> rpc_response_wf res).
Proof.
  assert (Hend : returned (read_to_end io)) by (unfold read_to_end; by destruct (_ <? _)).
  assert (Hone : forall T (He : Encode T) (Hd : Decode T) (Hw : SszWf T) (Hc : SszCodec T) buf,
    returned (decode_single_frame (T:=T) buf) /\ forall x : T, decode_single_frame buf = Ok x -> ssz_wf x).
  { intros T ? ? ? ? buf. destruct (decode_frames_sound (T:=T) buf) as [Hr Hwf]. unfold decode_single_frame.
    destruct (decode_frames buf) as [frames|e| |]; try done. cbn [obind]. specialize (Hwf frames eq_refl).
    destruct frames as [|x [|]]; try done. split; [done|]. intros ? [= <-]. by inversion Hwf. }
  assert (Hresp : forall buf, returned (decode_blocks_by_root_response buf) /\
    forall r, decode_blocks_by_root_response buf = Ok r -> response_wf r).
  { intros buf. destruct (decode_frames_sound (T:=SignedBlockWithAttestation) buf) as [Hr Hw]. unfold decode_blocks_by_root_response.
    destruct (decode_frames buf) as [frames|e| |]; try done. cbn [obind]. specialize (Hw frames eq_refl).
    unfold BlocksByRootResponse_new, enforce_list_cap. destruct (N.ltb_spec MAX_REQUEST_BLOCKS (len frames)) as [|Hl]; [done|].
    split; [done|]. by intros r [= <-]. }
  unfold read_request, read_response. destruct (read_to_end io) as [buf|e| |]; try done. cbn [obind].
  destruct (Hone Status _ _ _ _ buf) as [Hs Hsw], (Hone BlocksByRootRequest _ _ _ _ buf) as [Hq Hqw], (Hresp buf) as [Hb Hbw].
  destruct (bool_decide (protocol = STATUS_PROTOCOL_V1)).
  { destruct (decode_single_frame (T:=Status) buf); try done. split_and!; try done; intros ? [= <-]; by apply Hsw. }
  destruct (bool_decide (protocol = BLOCKS_BY_ROOT_PROTOCOL_V1)); [|done].
  split_and!.
  - by apply obind_returned.
  - by apply obind_returned.
  - intros req Hreq. inv_ok. by apply Hqw.
  - intros res Hres. inv_ok. by apply Hbw.
Qed.

End StreamClaims.

(** ** Gossip *)

Section Gossip.
Context {snap : Snap} {snap_laws : SnapLaws snap}.

Lemma gossip_round_trip {T} `{SszCodec T} (x : T) :
  ssz_wf x -> len (encode x) <= MAX_DECODED_PAYLOAD_BYTES ->
  exists data, encode_gossip x = Ok data /\ decode_gossip data = Ok x.
Proof.
  intros Hwf Hl. destruct (compress_law (encode x)) as (data & Hc & Hd & Hn); [unfold MAX_DECODED_PAYLOAD_BYTES, u32_max in *; lia|].
  exists data. unfold encode_gossip, encode_gossip_data, decode_gossip, decode_gossip_data. rewrite Hc, Hn. split; [done|].
  cbn [of_sum obind]. rewrite (proj2 (N.ltb_ge _ _)) by done. rewrite Hd. cbn [of_sum obind].
  unfold ssz_decode. by rewrite sc_decode.
Qed.

(** What is hashed determines the message: different messages share an id only by
    a collision of the truncated hash. *)
Lemma message_id_preimage_inj domain domain' topic topic' payload payload' :
  length domain = 4%nat -> length domain' = 4%nat -> len topic <= u64_max -> len topic' <= u64_max ->
  message_id_preimage domain topic payload = message_id_preimage domain' topic' payload' ->
  domain = domain' /\ topic = topic' /\ payload = payload'.
Proof.
  unfold message_id_preimage, topic_len_le_bytes. intros Hd Hd' Ht Ht' He.
  apply app_inj_1 in He as [<- He]; [|congruence]. apply app_inj_1 in He as [Hl He]; [|by rewrite !length_to_le_bytes].
  apply (f_equal from_le_bytes) in Hl. rewrite !from_to_le_bytes, !N.min_l in Hl by done.
  rewrite !N.mod_small in Hl by (unfold u64_max in *; lia). unfold len in Hl. apply app_inj_1 in He as [<- <-]; [done|lia].
Qed.

(** A frame of one byte cannot be read back: the budget of the first chunk is five
    bytes, and the identifier has six. *)
Lemma identifier_over_budget rest :
  read_snappy_chunk 5 (stream_identifier ++ rest)
  = (Err (MalformedFrame "snappy chunk payload length exceeds caller budget"), SNAPPY_STREAM_MAGIC ++ rest).
Proof.
  unfold read_snappy_chunk.
  by rewrite (mbind_Ok _ _ _ _ _ (read_exact_app SNAPPY_CHUNK_HEADER_LEN [xff; x06; x00; x00] (SNAPPY_STREAM_MAGIC ++ rest) eq_refl)).
Qed.

Lemma single_byte_frame_refused b max : 1 <= max ->
  (read_req_resp_frame (Some max) (frame_bytes [b])).1
  = Err (MalformedFrame "snappy chunk payload length exceeds caller budget").
Proof.
  intros Hmax. unfold read_req_resp_frame, frame_bytes. change (len [b]) with 1.
  rewrite (mbind_Ok _ _ _ _ _ (read_uvarint_spec 1 _ ltac:(done))). rewrite (proj2 (N.ltb_ge _ _)) by done. mstep.
  destruct (frame_encode_law [b]) as (pieces & chunks & _ & _ & _ & _ & ->); [done|].
  unfold read_snappy_frame_exact. change (1 =? 0) with false.
  change (usize_try_from 1) with (Some 1). cbn [ok_or].
  replace (N.to_nat MAX_SNAPPY_CHUNK_ITERATIONS) with (S (N.to_nat 4095)) by (unfold MAX_SNAPPY_CHUNK_ITERATIONS; lia).
  cbn [read_chunks]. change (1 =? 0) with false. change (N.min (1 + SNAPPY_CHECKSUM_LEN) u64_max) with 5. cbv iota.
  unfold mbind, mlift. by rewrite identifier_over_budget.
Qed.

End Gossip.

(** ** A stand-in for Snappy that stores the data as it is *)

Module StoredSnap.

Definition chunk (crc : list u8 -> N) (piece : list u8) : list u8 :=
  x01 :: to_le_bytes 3 (4 + len piece)
  ++ to_le_bytes 4 ((N.lor (N.shiftr (crc piece) 15) (N.shiftl (crc piece) 17 mod 2 ^ 32) + 0xa282ead8) mod 2 ^ 32) ++ piece.

Fixpoint unframe (fuel : nat) (wire : list u8) : list u8 :=
  match fuel, wire with
  | S fuel, _ :: b1 :: b2 :: b3 :: rest =>
      let n := N.to_nat (from_le_bytes [b1; b2; b3]) in
      drop 4 (take n rest) ++ unframe fuel (drop n rest)
  | _, _ => []
  end.

Definition checksum (bs : list u8) : N := fold_right (fun b a => (Byte.to_N b + 31 * a) mod 2 ^ 32) 0 bs.

Definition framed (bs : list u8) : list u8 :=
  match bs with [] => [] | _ => stream_identifier ++ concat (chunk checksum <$> chunks_of (N.to_nat 65536) bs) end.

#[export] Instance snappy : Snap := {|
  SnapError := unit;
  crc32c := checksum;
  compress_vec := inl;
  decompress_vec := inl;
  decompress_len bs := inl (len bs);
  frame_encode := framed;
  frame_decode wire n := inl (take (N.to_nat n) (unframe (length wire) (drop 10 wire)));
|}.

Lemma chunks_loop_spec n fuel : forall (l : list u8), (0 < n)%nat -> (length l <= fuel)%nat ->
  let ps := chunks_loop fuel n l in
  concat ps = l /\ Forall (fun p => 0 < len p <= N.of_nat n) ps /\ len ps * N.of_nat n < len l + N.of_nat n.
Proof.
  induction fuel as [|fuel IH]; intros [|x l] Hn Hl ps; subst ps; cbn [chunks_loop];
    try (split_and!; [done|constructor|unfold len; simpl; lia]); [simpl in Hl; lia|].
  set (k := x :: l) in *. assert (Hk : (0 < length k)%nat) by (unfold k; simpl; lia).
  destruct (IH (drop n k) Hn) as (Hc & Hall & Hcount); [rewrite length_drop; lia|].
  cbn [concat]. split_and!.
  - rewrite Hc. apply take_drop.
  - constructor; [|done]. unfold len. rewrite length_take. lia.
  - rewrite len_cons, N.mul_add_distr_r. destruct (le_lt_dec n (length k)) as [Hge|Hlt].
    + unfold len in *. rewrite length_drop in Hcount. lia.
    + rewrite (drop_ge k n) by lia. replace (chunks_loop fuel n []) with (@nil (list u8)) by by destruct fuel.
      unfold len in *. simpl. lia.
Qed.

Lemma pieces_spec (bs : list u8) :
  let ps := chunks_of (N.to_nat 65536) bs in
  concat ps = bs /\ Forall (fun p => 0 < len p <= 65536) ps /\ len ps * 65536 < len bs + 65536.
Proof.
  pose proof (chunks_loop_spec (N.to_nat 65536) (length bs) bs) as Hs. rewrite N2Nat.id in Hs. apply Hs; lia.
Qed.

Lemma unframe_chunks ps : Forall (fun p => 0 < len p <= 65536) ps -> forall fuel, (length ps <= fuel)%nat ->
  unframe fuel (concat (chunk checksum <$> ps)) = concat ps.
Proof.
  induction 1 as [|p ps Hp _ IH]; intros fuel Hf; [by destruct fuel|]. rewrite fmap_cons. cbn [concat].
  destruct fuel as [|fuel]; simpl in Hf; [lia|].
  assert (exists crc, length crc = 4%nat /\ chunk checksum p = x01 :: to_le_bytes 3 (4 + len p) ++ crc ++ p) as (crc & Hcrc & ->).
  { eexists. split; [apply length_to_le_bytes|]. unfold chunk. reflexivity. }
  pose proof (length_to_le_bytes 3 (4 + len p)) as H3. pose proof (from_to_le_bytes 3 (4 + len p)) as Hv.
  destruct (to_le_bytes 3 (4 + len p)) as [|b1 [|b2 [|b3 [|]]]]; try done. cbn [app unframe].
  rewrite Hv, N.mod_small by (change (256 ^ N.of_nat 3) with 16777216; lia).
  assert (Hn : N.to_nat (4 + len p) = length (crc ++ p)) by (rewrite length_app, Hcrc; unfold len; lia).
  rewrite Hn, take_app_length, drop_app_length, IH by lia. by rewrite drop_app_length' by done.
Qed.

#[export] Instance snappy_laws : SnapLaws snappy.
Proof.
  split.
  - intros bs _. by exists bs.
  - done.
  - intros bs Hne. destruct (pieces_spec bs) as (Hc & Hall & Hn). exists (chunks_of (N.to_nat 65536) bs), (chunk checksum <$> chunks_of (N.to_nat 65536) bs).
    split_and!; [done|done|done| |].
    + apply Forall2_fmap_r, Forall_Forall2_diag, Forall_true. intros p. constructor.
    + cbn [frame_encode snappy]. unfold framed. by destruct bs.
  - intros bs n. cbn [frame_decode frame_encode snappy]. do 2 f_equal. destruct bs as [|b bs]; [done|].
    unfold framed. set (ps := chunks_of _ _). destruct (pieces_spec (b :: bs)) as (Hc & Hall & _). fold ps in Hc, Hall.
    rewrite drop_app_length' by done. rewrite unframe_chunks; [done|done|].
    rewrite length_app. clear. induction ps as [|p ps IH]; csimpl; [lia|]. rewrite length_app in *. simpl in *. lia.
Qed.

Definition sample_response : RpcResponse :=
  ResponseBlocksByRoot (mkBlocksByRootResponse
    [mkSignedBlockWithAttestation
       (mkBlockWithAttestation (mkBlock 3 1 (bv_zero 32) (bv_zero 32) BlockBody_default)
          (mkAttestation 1 (mkAttestationData 3 Checkpoint_default Checkpoint_default Checkpoint_default)))
       (mkBlockSignatures [])]).

Lemma sample_response_wf : rpc_response_wf sample_response.
Proof. split; [done|]. constructor; [|constructor]. repeat split; try constructor; by vm_compute. Qed.

End StoredSnap.

Lemma rpc_stream_round_trip_witness :
  exists wire, write_response (snap:=StoredSnap.snappy) (H:=eth_ssz_reference) BLOCKS_BY_ROOT_PROTOCOL_V1 StoredSnap.sample_response = Ok wire /\
    read_response (snap:=StoredSnap.snappy) (H:=eth_ssz_reference) BLOCKS_BY_ROOT_PROTOCOL_V1 wire
    = if MAX_RPC_STREAM_BYTES <? len wire then Err StreamTooLong else Ok StoredSnap.sample_response.
Proof.
  pose proof (rpc_stream_round_trip (snap_laws:=StoredSnap.snappy_laws) (eth_laws:=eth_ssz_reference_laws)) as [_ Hr].
  apply (Hr StoredSnap.sample_response StoredSnap.sample_response_wf).
  intros r [= <-]. constructor; [by vm_compute|constructor].
Defined.

Lemma rpc_input_safe_witness :
  returned (read_response (snap:=StoredSnap.snappy) (H:=eth_ssz_reference) BLOCKS_BY_ROOT_PROTOCOL_V1 [x05; xff; x06]).
Proof.
  pose proof (rpc_input_safe (snap:=StoredSnap.snappy) (eth_laws:=eth_ssz_reference_laws) BLOCKS_BY_ROOT_PROTOCOL_V1 [x05; xff; x06])
    as (_ & Hr & _). exact Hr.
Defined.
