(* ===== verification/Signer.v ===== *)
(** * Signing duties ([crates/runtime/src/duties])

    The local signer ([signer.rs]), which restores the keys of the local
    validators from their secret files and signs attestations with them, and the
    durable guard around it ([ots_signer.rs]), which stores the advanced watermark
    before it releases a signature.  Files are read through a parameter.

    A run of a node is a sequence of signing requests, crashes and restarts;
    [no_epoch_signed_twice] is the promise of the guard over any such run. *)

From stdpp Require Import base numbers list gmap strings pretty.
From Stdlib Require Import Strings.Byte Strings.Ascii ZArith Lia.
From S2P Require Import Prelude Config Types Merkle Codec Slot Containers State Ots Storage Engine.

(** ** The traits *)

Inductive SignError {ls : LeanSig} :=
| UnknownValidator (validator_id : N)
| SignEpochOverflow (slot : N)
| SignCrypto (e : CryptoError)
| Persist (validator_id : N) (source : StorageError).

(** [AttestationSigner] and [PersistableSigner]. *)
Class AttestationSigner {ls : LeanSig} (T : Type) := sign_attestation : Attestation -> M T SignError Signature.
Class PersistableSigner {ls : LeanSig} (T : Type) := {
  persistable_signer :: AttestationSigner T;
  watermark_for : ValidatorIndex -> T -> option OtsWatermark;
}.

(** ** The local signer ([signer.rs]) *)

Section LocalSigner.
Context {sha : Sha256} {ls : LeanSig} {sw : SchemeWire}.

Record LocalSigner := mkLocalSigner { ls_keys : gmap ValidatorIndex SigningKey }.

Definition LocalSigner_empty : LocalSigner := mkLocalSigner ∅.

(** [self.keys.get_mut(..).ok_or(UnknownValidator)?], then [f] on the key. *)
Definition with_key {A} (validator : ValidatorIndex) (f : M SigningKey SignError A) : M LocalSigner SignError A :=
  fun signer =>
    match ls_keys signer !! validator with
    | None => (Err (UnknownValidator validator), signer)
    | Some key => let '(r, key) := f key in (r, mkLocalSigner (<[validator := key]> (ls_keys signer)))
    end.

(** [?] on a result of the crypto crate. *)
Definition crypto {A} (c : M SigningKey CryptoError A) : M SigningKey SignError A :=
  fun key => let '(r, key) := c key in (omap_err SignCrypto r, key).

#[export] Instance LocalSigner_AttestationSigner : AttestationSigner LocalSigner := fun att =>
  with_key (att_validator_id att)
    (let! (epoch, message) := mlift (omap_err SignEpochOverflow (attestation_signing_inputs att)) in
     let! _ := crypto (prepare epoch) in
     crypto (sign epoch message)).

#[export] Instance LocalSigner_PersistableSigner : PersistableSigner LocalSigner := {
  watermark_for validator signer := to_watermark <$> ls_keys signer !! validator;
}.

(** *** Loading keys *)

Inductive SignerLoadError :=
| SecretFileRead (index : N) (path source : string)
| KeyStateDecode (index : N) (source : OtsDecodeError)
| KeyRestore (index : N) (source : CryptoError)
| KeyStateLoad (index : N) (source : StorageError)
| KeyStateMismatch (index : N).

(** [Path::join] with a relative name. *)
Definition path_join (dir name : string) : string :=
  match String.rev dir with
  | String.EmptyString => name
  | String.String c _ => if Ascii.eqb c "/"%char then dir +:+ name else dir +:+ "/" +:+ name
  end.

Definition validator_secret_path (secrets_dir : string) (index : N) : string :=
  path_join secrets_dir ("validator_" +:+ pretty index +:+ ".ssz").

(** [std::fs::read]: the bytes of a file, or the text of the error. *)
Variable fs_read : string -> list u8 + string.

Definition read_secret_record (secrets_dir : string) (index : ValidatorIndex) : Outcome SignerLoadError OtsKeyState :=
  let path := validator_secret_path secrets_dir index in
  let? bytes := match fs_read path with inl bytes => Ok bytes | inr source => Err (SecretFileRead index path source) end in
  omap_err (KeyStateDecode index) (key_state_from_ssz_bytes bytes).

Definition resolve_record (index : ValidatorIndex) (file : OtsKeyState) (stored : option OtsWatermark)
    : Outcome SignerLoadError OtsKeyState :=
  match stored with
  | None => Ok file
  | Some stored =>
      if negb (identifies stored (seed_commitment (ks_seed file)) (ks_activation_epoch file) (ks_num_active_epochs file))
      then Err (KeyStateMismatch index)
      else Ok (mkOtsKeyState (ks_seed file) (ks_activation_epoch file) (ks_num_active_epochs file)
                 (N.max (ks_next_index file) (wm_next_index stored)))
  end.

Section Load.
Context {S : Type}.

(** The loop of [load_with], from the keys loaded so far. *)
Fixpoint load_loop (secrets_dir : string) (resolve : ValidatorIndex -> OtsKeyState -> M S SignerLoadError OtsKeyState)
    (local_indices : list ValidatorIndex) (keys : gmap ValidatorIndex SigningKey) : M S SignerLoadError LocalSigner :=
  match local_indices with
  | [] => mret (mkLocalSigner keys)
  | index :: local_indices =>
      let! file_record := mlift (read_secret_record secrets_dir index) in
      let! record := resolve index file_record in
      let! key := mlift (omap_err (KeyRestore index) (from_record record)) in
      load_loop secrets_dir resolve local_indices (<[index := key]> keys)
  end.

Definition load_with (secrets_dir : string) (local_indices : list ValidatorIndex)
    (resolve : ValidatorIndex -> OtsKeyState -> M S SignerLoadError OtsKeyState) : M S SignerLoadError LocalSigner :=
  load_loop secrets_dir resolve local_indices ∅.

Definition signer_load (secrets_dir : string) (local_indices : list ValidatorIndex) : M S SignerLoadError LocalSigner :=
  load_with secrets_dir local_indices (fun _ record => mret record).

Definition load_resuming `{WatermarkStore S} (secrets_dir : string) (local_indices : list ValidatorIndex)
    : M S SignerLoadError LocalSigner :=
  load_with secrets_dir local_indices (fun index file_record =>
    let! stored := fun s => let '(r, s) := load_ots_key_state index s in (omap_err (KeyStateLoad index) r, s) in
    mlift (resolve_record index file_record stored)).

End Load.
End LocalSigner.

(** ** The durable guard ([ots_signer.rs]) *)

Section OtsSigner.
Context {ls : LeanSig} {T S : Type} {signer : PersistableSigner T} {watermarks : WatermarkStore S}.

(** Computations on the inner signer and on the store of the guard; the store is
    shared with the rest of the node. *)
Definition on_inner {E A} (c : M T E A) : M (T * S) E A :=
  fun '(inner, store) => let '(r, inner) := c inner in (r, (inner, store)).
Definition on_store {E A} (c : M S E A) : M (T * S) E A :=
  fun '(inner, store) => let '(r, store) := c store in (r, (inner, store)).

#[export] Instance OtsSigner_AttestationSigner : AttestationSigner (T * S) := fun att =>
  let validator := att_validator_id att in
  let! signature := on_inner (sign_attestation att) in
  let! (inner, _) := mget in
  let! watermark := mlift (ok_or (watermark_for validator inner) (UnknownValidator validator)) in
  let! _ := on_store (fun store =>
              let '(r, store) := save_ots_key_state validator watermark store in (omap_err (Persist validator) r, store)) in
  mret signature.

End OtsSigner.

(** ** Signing with one key *)

Section SignLemmas.
Context {sha : Sha256} {ls : LeanSig} {sw : SchemeWire} {laws : LeanSigLaws}.

(** What holds of every key the signer holds: its window and watermark are within
    the lifetime. *)
Definition key_fits (k : SigningKey) : Prop :=
  snd (activation_interval k) <= LIFETIME /\ fst (activation_interval k) <= snd (activation_interval k) /\
  next_index k <= LIFETIME.

Lemma key_fits_watermark k : key_fits k -> watermark_ok (to_watermark k).
Proof.
  intros (H1 & H2 & H3). pose proof lifetime_u32. unfold watermark_ok, to_watermark, u64_ok. simpl.
  change u64_bound with 18446744073709551616. lia.
Qed.

Lemma signing_inputs_cases att :
  attestation_signing_inputs att = Err (ad_slot (att_data att)) \/
  attestation_signing_inputs att = Ok (ad_slot (att_data att), hash_tree_root att).
Proof. unfold attestation_signing_inputs, u32_try_from. destruct (_ <=? _); auto. Qed.

(** The signature of an attestation with a key. *)
Definition signed_with (k : SigningKey) (att : Attestation) (sig : Signature) : Prop :=
  exists raw, ls_sign (sk_secret k) (ad_slot (att_data att)) (hash_tree_root att) = Ok raw /\ signature_to_wire raw = Ok sig.

(** The outcomes of signing with a local key: the key may have been prepared
    further, and has a higher watermark exactly if it has signed. *)
Inductive local_sign_outcome (att : Attestation) (s : LocalSigner) : Outcome SignError Signature -> LocalSigner -> Prop :=
| local_unknown e : local_sign_outcome att s (Err e) s
| local_refused e k k1 :
    ls_keys s !! att_validator_id att = Some k -> advanced k k1 -> sk_last_signed k1 = sk_last_signed k ->
    local_sign_outcome att s (Err e) (mkLocalSigner (<[att_validator_id att := k1]> (ls_keys s)))
| local_signed sig k k1 :
    ls_keys s !! att_validator_id att = Some k -> advanced k k1 -> sk_last_signed k1 = sk_last_signed k ->
    signed_with k1 att sig -> next_index k <= ad_slot (att_data att) ->
    interval_contains (activation_interval k) (ad_slot (att_data att)) = true ->
    local_sign_outcome att s (Ok sig)
      (mkLocalSigner (<[att_validator_id att := set_last_signed (ad_slot (att_data att)) k1]> (ls_keys s))).

Lemma local_sign_cases att s :
  exists r s', LocalSigner_AttestationSigner att s = (r, s') /\ local_sign_outcome att s r s'.
Proof.
  unfold LocalSigner_AttestationSigner, with_key.
  destruct (ls_keys s !! att_validator_id att) as [k|] eqn:Hk; [|by eexists _, _; split; [|constructor]].
  destruct (signing_inputs_cases att) as [Hi|Hi]; rewrite Hi; simpl omap_err; mstep.
  { eexists _, _. split; [done|]. by apply (local_refused _ _ _ k k). }
  set (epoch := ad_slot (att_data att)).
  destruct (prepare_cases epoch k) as (rp & k1 & Hp & Hadv & Hl & Hr & Hok & _).
  assert (Hcp : crypto (prepare epoch) k = (omap_err SignCrypto rp, k1)) by (unfold crypto; by rewrite Hp).
  destruct rp as [[]|e| |]; try done; simpl in Hcp.
  2:{ erewrite mbind_Err by exact Hcp. eexists _, _. split; [done|]. by apply (local_refused _ _ _ k k1). }
  erewrite mbind_Ok by exact Hcp. unfold crypto. destruct (Hok eq_refl) as [Ha _].
  destruct (sign_cases epoch (hash_tree_root att) k1) as [(e & He & _)|(raw & w & Hraw & Hw & _ & Hle & He)]; rewrite He; simpl omap_err.
  { eexists _, _. split; [done|]. by apply (local_refused _ _ _ k k1). }
  eexists _, _. split; [done|]. apply (local_signed _ _ _ k k1); try done; [by exists raw|].
  unfold next_index in *. by rewrite <-Hl.
Qed.

(** A property of the keys that preparing and signing keep. *)
Lemma local_sign_keys (P : ValidatorIndex -> SigningKey -> Prop) att s r s' :
  local_sign_outcome att s r s' ->
  (forall v k k1, P v k -> advanced k k1 -> sk_last_signed k1 = sk_last_signed k -> P v k1) ->
  (forall k k1, P (att_validator_id att) k -> advanced k k1 -> next_index k <= ad_slot (att_data att) ->
     interval_contains (activation_interval k) (ad_slot (att_data att)) = true ->
     P (att_validator_id att) (set_last_signed (ad_slot (att_data att)) k1)) ->
  (forall v k, ls_keys s !! v = Some k -> P v k) -> forall v k, ls_keys s' !! v = Some k -> P v k.
Proof.
  intros Hout Hprep Hsign Hs v k' Hk'. destruct Hout as [|e k k1 Hk Hadv Hl|sig k k1 Hk Hadv Hl _ Hle Hin]; [by apply Hs|..];
    simpl in Hk'; apply lookup_insert_Some in Hk' as [[<- <-]|[_ Hk']]; eauto.
Qed.

Lemma advanced_fits k k1 : advanced k k1 -> sk_last_signed k1 = sk_last_signed k -> key_fits k -> key_fits k1.
Proof. intros [_ Hact]%advanced_same_key Hl. unfold key_fits, next_index. by rewrite Hact, Hl. Qed.

Lemma signed_fits k k1 epoch :
  key_fits k -> advanced k k1 -> interval_contains (activation_interval k) epoch = true -> key_fits (set_last_signed epoch k1).
Proof.
  unfold key_fits. intros Hfit [_ Hact]%advanced_same_key [H1 H2]%andb_true_iff. apply N.leb_le in H1. apply N.ltb_lt in H2.
  change (activation_interval (set_last_signed epoch k1)) with (activation_interval k1).
  rewrite Hact. unfold next_index. simpl. lia.
Qed.

(** A slot above the watermark, in the window and not behind the prepared one, is
    signed unless leanSig fails to. *)
Lemma local_sign_live att s k :
  ls_keys s !! att_validator_id att = Some k -> key_fits k -> next_index k <= ad_slot (att_data att) ->
  fst (prepared_interval k) <= ad_slot (att_data att) < snd (activation_interval k) ->
  exists r s', LocalSigner_AttestationSigner att s = (r, s') /\
    ((exists sig, r = Ok sig) \/ exists e, r = Err (SignCrypto (Signing e))).
Proof.
  intros Hk (Hfit & _) Hn Hw. unfold LocalSigner_AttestationSigner, with_key. rewrite Hk. pose proof lifetime_u32 as Hlife.
  unfold attestation_signing_inputs, u32_try_from. set (epoch := ad_slot (att_data att)) in *.
  rewrite (proj2 (N.leb_le epoch u32_max)) by (unfold u32_max; lia). simpl omap_err. mstep.
  destruct (prepare_cases epoch k) as (rp & k1 & Hp & _ & Hl & _ & Hok & Hlive). rewrite (Hlive Hw) in *.
  destruct (Hok eq_refl) as [_ Hc].
  assert (Hcp : crypto (prepare epoch) k = (Ok tt, k1)) by (unfold crypto; by rewrite Hp).
  erewrite mbind_Ok by exact Hcp. unfold crypto.
  destruct (sign_cases epoch (hash_tree_root att) k1) as [(e & -> & Hwhy)|(raw & w & _ & _ & _ & _ & ->)]; simpl.
  - eexists _, _. split; [done|]. right. destruct (Hwhy Hc) as [e' ->]; [unfold next_index; by rewrite Hl|]. by exists e'.
  - eexists _, _. split; [done|]. left. by eexists.
Qed.
End SignLemmas.

(** ** Runs of a node *)

Section Runs.
Context {sha : Sha256} {ls : LeanSig} {sw : SchemeWire} {laws : LeanSigLaws}.
Context {S : Type} {watermarks : WatermarkStore S} {rep : S -> gmap ValidatorIndex OtsWatermark -> Prop}
  {refines : WatermarkRefines S rep}.

(** A request to sign; a request during which the process dies, before its
    signature is released; a crash between requests; a restart with the keys of
    [local_indices], from whatever files are there. *)
Inductive SignerEvent :=
| SignRequest (att : Attestation)
| CrashInSign (att : Attestation)
| Crash
| Restart (fs_read : string -> list u8 + string) (secrets_dir : string) (local_indices : list ValidatorIndex).

(** The process memory (if the process runs), the durable store, and what has
    left the process. *)
Record Run := mkRun {
  run_signer : option LocalSigner;
  run_store : S;
  run_released : list (Attestation * Signature);
}.

Definition signer_event (r : Run) (ev : SignerEvent) : Run :=
  match ev, run_signer r with
  | SignRequest att, Some signer =>
      let '(res, (signer, store)) := sign_attestation att (signer, run_store r) in
      mkRun (Some signer) store (run_released r ++ match res with Ok sig => [(att, sig)] | _ => [] end)
  | CrashInSign att, Some signer =>
      let '(_, (_, store)) := sign_attestation att (signer, run_store r) in mkRun None store (run_released r)
  | Crash, _ => mkRun None (run_store r) (run_released r)
  | Restart fs_read secrets_dir local_indices, _ =>
      let '(res, store) := load_resuming fs_read secrets_dir local_indices (run_store r) in
      mkRun (match res with Ok signer => Some signer | _ => None end) store (run_released r)
  | _, None => r
  end.

Definition signer_run (evs : list SignerEvent) (r : Run) : Run := fold_left signer_event evs r.

(** The pair a one-time key is for. *)
Definition one_time_use (released : Attestation * Signature) : ValidatorIndex * N :=
  (att_validator_id (fst released), ad_slot (att_data (fst released))).

(** The watermarks of the store are above everything released, the keys in memory
    are at or above the store. *)
Definition keys_ahead (m : gmap ValidatorIndex OtsWatermark) (signer : LocalSigner) : Prop :=
  forall v k, ls_keys signer !! v = Some k ->
    key_fits k /\ forall wm, m !! v = Some wm -> wm_next_index wm <= next_index k.

Definition released_below (m : gmap ValidatorIndex OtsWatermark) (uses : list (ValidatorIndex * N)) : Prop :=
  forall v epoch, (v, epoch) ∈ uses -> exists wm, m !! v = Some wm /\ epoch < wm_next_index wm.

Definition run_inv (r : Run) : Prop :=
  NoDup (one_time_use <$> run_released r) /\
  exists m, rep (run_store r) m /\ released_below m (one_time_use <$> run_released r) /\
    forall signer, run_signer r = Some signer -> keys_ahead m signer.

(** The outcomes of the guard, given those of the local signer: a signature is
    released only when its watermark is in the store. *)
Lemma guard_cases att signer store m :
  rep store m -> (forall v k, ls_keys signer !! v = Some k -> key_fits k) ->
  exists r0 r signer' store', LocalSigner_AttestationSigner att signer = (r0, signer') /\ local_sign_outcome att signer r0 signer' /\
    sign_attestation att (signer, store) = (r, (signer', store')) /\
    match r0 with
    | Ok sig => exists k', ls_keys signer' !! att_validator_id att = Some k' /\
        let m' := <[att_validator_id att := to_watermark k']> m in
        (r = Ok sig /\ rep store' m' \/
         (exists e, r = Err (Persist (att_validator_id att) e)) /\ (rep store' m \/ rep store' m'))
    | _ => r = r0 /\ rep store' m
    end.
Proof.
  intros Hrep Hfits. unfold sign_attestation, OtsSigner_AttestationSigner, on_inner, on_store. unfold mbind at 1.
  destruct (local_sign_cases att signer) as (r0 & signer' & He & Hout).
  unfold sign_attestation; cbn [persistable_signer LocalSigner_PersistableSigner]; rewrite He.
  exists r0. destruct Hout as [e|e k k1 Hk Hadv Hl|sig k k1 Hk Hadv Hl Hsig Hle Hin].
  - eexists _, _, _. split_and!; [done|constructor|done|done|done].
  - eexists _, _, _. split_and!; [done|by econstructor|done|done|done].
  - mstep. cbn [watermark_for LocalSigner_PersistableSigner ls_keys]. rewrite lookup_insert_eq.
    cbn [fmap option_fmap option_map ok_or]. mstep.
    pose proof (save_watermark_law store m (att_validator_id att) _ Hrep
      (key_fits_watermark _ (signed_fits k k1 _ (Hfits _ _ Hk) Hadv Hin))) as Hsave.
    unfold mbind. destruct (save_ots_key_state _ _ store) as [[[]|e| |] store']; try done; simpl;
      (eexists _, _, _; split_and!; [done|by econstructor|done|]; eexists; split; [cbn [ls_keys]; by rewrite lookup_insert_eq|]); [by left|right; eauto].
Qed.

(** Signing keeps the keys ahead of the store, whether or not it was saved. *)
Lemma keys_ahead_sign m att signer r signer' :
  local_sign_outcome att signer r signer' -> keys_ahead m signer -> keys_ahead m signer'.
Proof.
  intros Hout Ha. unfold keys_ahead. eapply (local_sign_keys
    (fun v k => key_fits k /\ forall wm, m !! v = Some wm -> wm_next_index wm <= next_index k) _ _ _ _ Hout); [| |exact Ha].
  - intros v k k1 [Hf Hwm] Hadv Hl. split; [by eapply advanced_fits|]. unfold next_index. by rewrite Hl.
  - intros k k1 [Hf Hwm] Hadv Hle Hin. split; [by eapply signed_fits|]. intros wm Hm. specialize (Hwm wm Hm).
    unfold next_index. simpl. lia.
Qed.

Lemma keys_ahead_insert m signer v k :
  keys_ahead m signer -> ls_keys signer !! v = Some k -> keys_ahead (<[v := to_watermark k]> m) signer.
Proof.
  intros Ha Hk v' k' Hk'. destruct (Ha v' k' Hk') as [Hf Hwm]. split; [done|].
  intros wm [[<- <-]|[_ Hm]]%lookup_insert_Some; [|auto]. rewrite Hk in Hk'. by injection Hk' as <-.
Qed.

Lemma released_below_insert m uses v wm :
  released_below m uses -> (forall wm', m !! v = Some wm' -> wm_next_index wm' <= wm_next_index wm) ->
  released_below (<[v := wm]> m) uses.
Proof.
  intros Hb Hle v' epoch Hin. destruct (Hb v' epoch Hin) as (wm' & Hm & Hlt). destruct (decide (v = v')) as [<-|Hn].
  - exists wm. rewrite lookup_insert_eq. specialize (Hle wm' Hm). split; [done|lia].
  - exists wm'. by rewrite lookup_insert_ne.
Qed.

Lemma released_below_fresh m uses v epoch :
  released_below m uses -> (forall wm, m !! v = Some wm -> wm_next_index wm <= epoch) -> (v, epoch) ∉ uses.
Proof. intros Hb Hle Hin. destruct (Hb v epoch Hin) as (wm & Hm & Hlt). specialize (Hle wm Hm). lia. Qed.

(** A restart loads keys that are at or above the store, from any files. *)
Lemma load_loop_ahead fs_read secrets_dir indices : forall keys store m,
  rep store m -> keys_ahead m (mkLocalSigner keys) ->
  exists res store', load_loop fs_read secrets_dir (fun index file_record =>
      let! stored := fun s => let '(r, s) := load_ots_key_state index s in (omap_err (KeyStateLoad index) r, s) in
      mlift (resolve_record index file_record stored)) indices keys store = (res, store') /\
    rep store' m /\ forall signer, res = Ok signer -> keys_ahead m signer.
Proof.
  induction indices as [|index indices IH]; intros keys store m Hrep Ha; cbn [load_loop].
  { eexists _, _. split_and!; [done|done|]. intros signer [= <-]. done. }
  destruct (read_secret_record fs_read secrets_dir index) as [file| | |] eqn:Hfile; mstep; [|by eexists _, _..].
  pose proof (load_watermark_law store m index Hrep) as Hload. unfold mbind at 1 2.
  destruct (load_ots_key_state index store) as [[stored|e| |] store']; simpl; [|by eexists _, _|done|done].
  destruct Hload as [-> Hrep']. unfold mlift at 1.
  destruct (resolve_record index file (m !! index)) as [record| | |] eqn:Hres; [|by eexists _, _..].
  destruct (from_record_cases record) as [[e He]|(k & Hk & _ & Hn & Hle & pk & Hgen)];
    [rewrite He; mstep; by eexists _, _|rewrite Hk; mstep].
  apply IH; [done|]. intros v k' Hk'. simpl in Hk'. apply lookup_insert_Some in Hk' as [[<- <-]|[_ Hk']]; [|by apply (Ha v k')].
  pose proof (key_gen_window _ _ _ _ _ Hgen) as Hwin. split; [unfold key_fits, activation_interval; lia|].
  intros wm Hm. rewrite Hm in Hres. unfold resolve_record in Hres. destruct (negb _); [done|]. injection Hres as <-.
  rewrite Hn. simpl. lia.
Qed.

(** One guarded request, between the watermarks before and after it. *)
Lemma guard_inv att signer store m uses :
  rep store m -> keys_ahead m signer -> released_below m uses ->
  exists res signer' store' m', sign_attestation att (signer, store) = (res, (signer', store')) /\
    rep store' m' /\ keys_ahead m' signer' /\ released_below m' uses /\
    forall sig, res = Ok sig -> ((att_validator_id att, ad_slot (att_data att)) ∉ uses) /\
      released_below m' (uses ++ [(att_validator_id att, ad_slot (att_data att))]).
Proof.
  intros Hrep Ha Hb.
  destruct (guard_cases att signer store m Hrep) as (r0 & r & signer' & store' & _ & Hout & -> & Hcase); [by intros v k [? _]%Ha|].
  pose proof (keys_ahead_sign m att signer r0 signer' Hout Ha) as Ha'.
  destruct Hout as [e|e k k1 Hk Hadv Hl|sig k k1 Hk Hadv Hl Hsig Hle Hin].
  { destruct Hcase as [-> Hrep']. by eexists _, _, _, m. }
  { destruct Hcase as [-> Hrep']. by eexists _, _, _, m. }
  destruct Hcase as (k' & Hk' & Hcase). pose proof Hk' as Heq. simpl in Heq. rewrite lookup_insert_eq in Heq. injection Heq as Heq.
  pose proof (keys_ahead_insert m _ _ _ Ha' Hk') as Hins. destruct (Ha _ _ Hk) as [_ Hwm].
  set (wm := to_watermark k') in *.
  assert (Hn : wm_next_index wm = ad_slot (att_data att) + 1) by (subst wm k'; done).
  assert (Hbi : released_below (<[att_validator_id att := wm]> m) uses).
  { apply released_below_insert; [done|]. intros wm' Hm. specialize (Hwm wm' Hm). lia. }
  destruct Hcase as [[-> Hrep']|[[e ->] [Hrep'|Hrep']]]; [|by eexists _, _, _, m|by eexists _, _, _, _].
  eexists _, _, _, (<[att_validator_id att := wm]> m). split_and!; try done. intros _ _. split.
  - apply (released_below_fresh m); [done|]. intros wm' Hm. specialize (Hwm wm' Hm). lia.
  - intros v e [Hin'|Hin']%elem_of_app; [by apply Hbi|]. apply list_elem_of_singleton in Hin'. injection Hin' as -> ->.
    exists wm. rewrite lookup_insert_eq. split; [done|lia].
Qed.

Lemma signer_event_inv r ev : run_inv r -> run_inv (signer_event r ev).
Proof.
  intros (Hnd & m & Hrep & Hb & Ha). destruct ev as [att|att| |fs_read dir indices]; simpl.
  - destruct (run_signer r) as [signer|] eqn:Hsig; [|by split; [|exists m; rewrite Hsig]].
    destruct (guard_inv att signer (run_store r) m _ Hrep (Ha signer eq_refl) Hb)
      as (res & signer' & store' & m' & -> & Hrep' & Ha' & Hb' & Hok).
    unfold run_inv. simpl. rewrite fmap_app. destruct res as [sig| | |]; simpl; rewrite ?app_nil_r;
      [destruct (Hok sig eq_refl) as [Hfresh Hb'']|..].
    { split; [|exists m'; split_and!; [done|exact Hb''|by intros ? [= <-]]].
      apply NoDup_app. split_and!; [done| |apply NoDup_singleton]. intros u Hu ->%list_elem_of_singleton. by apply Hfresh. }
    all: split; [done|exists m'; split_and!; [done|done|by intros ? [= <-]]].
  - destruct (run_signer r) as [signer|] eqn:Hsig; [|by split; [|exists m; rewrite Hsig]].
    destruct (guard_inv att signer (run_store r) m _ Hrep (Ha signer eq_refl) Hb)
      as (res & signer' & store' & m' & -> & Hrep' & Ha' & Hb' & _). by split; [|exists m'].
  - by split; [|exists m].
  - destruct (load_loop_ahead fs_read dir indices ∅ (run_store r) m Hrep) as (res & store' & He & Hrep' & Hres); [by intros v k|].
    unfold load_resuming, load_with. rewrite He. split; [done|]. exists m. split_and!; [done|done|].
    intros signer Hs. destruct res; simplify_eq/=. by apply Hres.
Qed.

(** C3. No one-time key is used twice. Over any sequence of signing requests,
    failed writes of the store, crashes (between requests, or inside one before
    its signature is released) and restarts from whatever secret files are there,
    the signatures that leave the process are for pairwise different pairs of
    validator and slot; so a validator never releases signatures of two different
    attestations for one slot. When a signature has been released, the store holds
    a watermark above its slot. *)
Theorem no_epoch_signed_twice evs store m :
  rep store m ->
  let r := signer_run evs (mkRun None store []) in
  NoDup (one_time_use <$> run_released r) /\
  exists m', rep (run_store r) m' /\
    forall att sig, (att, sig) ∈ run_released r ->
      exists wm, m' !! att_validator_id att = Some wm /\ ad_slot (att_data att) < wm_next_index wm.
Proof.
  intros Hrep r. assert (Hinv : run_inv r).
  { subst r. unfold signer_run. assert (Hinit : run_inv (mkRun None store [])).
    { split; [constructor|]. exists m. split_and!; [done|by intros v e ?%elem_of_nil|done]. }
    revert Hinit. generalize (mkRun None store []). induction evs as [|ev evs IH]; intros r Hr; [done|].
    apply IH. by apply signer_event_inv. }
  destruct Hinv as (Hnd & m' & Hrep' & Hb & _). split; [done|]. exists m'. split; [done|].
  intros att sig Hin. apply Hb, list_elem_of_fmap. by exists (att, sig).
Qed.

(** *** Restarts resume

    The secret files hold the records of the keys [keyfile], and the reads of the
    store succeed.  [validator] has no request for [slot] or later. *)
Section Resume.
Variable fs_read : string -> list u8 + string.
Variable secrets_dir : string.
Variable indices : list ValidatorIndex.
Variable keyfile : ValidatorIndex -> SigningKey.
Hypothesis files : forall v, v ∈ indices -> key_reachable (keyfile v) /\
  fs_read (validator_secret_path secrets_dir v) = inl (key_state_to_ssz_bytes (to_record (keyfile v))).
Hypothesis reads : forall v s, exists wm s', load_ots_key_state v s = (Ok wm, s').
Variable validator : ValidatorIndex.
Variable slot : N.
Hypothesis file_below : next_index (keyfile validator) <= slot.

Definition event_before (ev : SignerEvent) : Prop :=
  match ev with
  | SignRequest att | CrashInSign att => att_validator_id att = validator -> ad_slot (att_data att) < slot
  | Crash => True
  | Restart fs dir local_indices => fs = fs_read /\ dir = secrets_dir /\ local_indices = indices
  end.

Definition in_window (k : SigningKey) : Prop :=
  next_index k = 0 \/ fst (activation_interval k) < next_index k <= snd (activation_interval k).

(** A state of the key of [v]. *)
Definition own_key (v : ValidatorIndex) (k : SigningKey) : Prop :=
  v ∈ indices /\ same_key (keyfile v) k /\ in_window k /\ (v = validator -> next_index k <= slot).

Definition own_watermarks (m : gmap ValidatorIndex OtsWatermark) : Prop :=
  forall v wm, v ∈ indices -> m !! v = Some wm -> exists k, own_key v k /\ wm = to_watermark k.

Definition resume_inv (r : Run) : Prop :=
  exists m, rep (run_store r) m /\ own_watermarks m /\
    forall signer, run_signer r = Some signer -> forall v k, ls_keys signer !! v = Some k -> own_key v k.

Lemma own_key_fits v k : own_key v k -> key_fits k.
Proof.
  intros (Hin & [_ Hact] & Hwin & _). destruct (files v Hin) as [Hreach _].
  destruct (key_reachable_inv _ Hreach) as [(a & n & pk & wire & sk & Hg & _ & Ha) _].
  pose proof (key_gen_window _ _ _ _ _ Hg) as Hw. unfold key_fits, in_window in *. rewrite Ha in Hw. rewrite Hact in *. lia.
Qed.

Lemma own_key_advanced v k k1 : own_key v k -> advanced k k1 -> sk_last_signed k1 = sk_last_signed k -> own_key v k1.
Proof.
  intros (Hin & Hs & Hwin & Hle) Hadv%advanced_same_key Hl. split_and!; [done|by etrans| |].
  - unfold in_window, next_index in *. destruct Hadv as [_ ->]. by rewrite Hl.
  - unfold next_index in *. by rewrite Hl.
Qed.

Lemma own_key_signed v k k1 epoch :
  own_key v k -> advanced k k1 -> interval_contains (activation_interval k) epoch = true -> (v = validator -> epoch < slot) ->
  own_key v (set_last_signed epoch k1).
Proof.
  intros (Hin & Hs & _ & _) Hadv%advanced_same_key [H1 H2]%andb_true_iff Hle. apply N.leb_le in H1. apply N.ltb_lt in H2.
  split_and!; [done|by etrans| |].
  - right. change (activation_interval (set_last_signed epoch k1)) with (activation_interval k1).
    destruct Hadv as [_ ->]. unfold next_index. simpl. lia.
  - intros Hv. specialize (Hle Hv). unfold next_index. simpl. lia.
Qed.

Lemma guard_resume att signer store m :
  (att_validator_id att = validator -> ad_slot (att_data att) < slot) ->
  rep store m -> own_watermarks m -> (forall v k, ls_keys signer !! v = Some k -> own_key v k) ->
  exists res signer' store' m', sign_attestation att (signer, store) = (res, (signer', store')) /\
    rep store' m' /\ own_watermarks m' /\ (forall v k, ls_keys signer' !! v = Some k -> own_key v k).
Proof.
  intros Hbefore Hrep Hown Hkeys.
  destruct (guard_cases att signer store m Hrep) as (r0 & r & signer' & store' & _ & Hout & -> & Hcase); [by eauto using own_key_fits|].
  assert (Hkeys' : forall v k, ls_keys signer' !! v = Some k -> own_key v k).
  { apply (local_sign_keys _ _ _ _ _ Hout); eauto using own_key_advanced, own_key_signed. }
  exists r, signer', store'. destruct r0 as [sig|e| |]; [|exists m; by destruct Hcase..].
  destruct Hcase as (k' & Hk' & Hcase).
  assert (Hins : own_watermarks (<[att_validator_id att := to_watermark k']> m)).
  { intros v wm Hv [[<- <-]|[_ Hm]]%lookup_insert_Some; eauto. }
  destruct Hcase as [[_ Hr]|[_ [Hr|Hr]]]; eauto 10.
Qed.

(** The record of a validator resolves to its key, at the higher watermark. *)
Lemma resolve_own v m :
  v ∈ indices -> own_watermarks m ->
  exists k, (let? record := resolve_record v (to_record (keyfile v)) (m !! v) in omap_err (KeyRestore v) (from_record record)) = Ok k /\
    own_key v k /\ fst (prepared_interval k) = fst (activation_interval k).
Proof.
  intros Hv Hown. destruct (files v Hv) as [Hreach _]. destruct (key_reachable_inv _ Hreach) as [_ Hwin0].
  set (k0 := keyfile v) in *.
  assert (Hmax : exists n, resolve_record v (to_record k0) (m !! v) =
      Ok (mkOtsKeyState (sk_seed k0) (fst (activation_interval k0)) (snd (activation_interval k0) - fst (activation_interval k0)) n) /\
      (n = 0 \/ fst (activation_interval k0) < n <= snd (activation_interval k0)) /\ (v = validator -> n <= slot)).
  { assert (Hfile : v = validator -> next_index k0 <= slot) by (intros Hvv; subst k0; by rewrite Hvv).
    destruct (m !! v) as [wm|] eqn:Hm; simpl; [|by exists (next_index k0)].
    destruct (Hown v wm Hv Hm) as (k & (_ & [Hseed Hact] & Hwin & Hle) & ->).
    exists (N.max (next_index k0) (next_index k)). unfold in_window in Hwin. fold k0 in Hseed, Hact. rewrite Hact in Hwin.
    split_and!; [|lia|intros Hvv; specialize (Hle Hvv); specialize (Hfile Hvv); lia].
    unfold identifies, to_watermark. simpl. rewrite Hseed, Hact, bool_decide_true, !N.eqb_refl by done. done. }
  destruct Hmax as (n & -> & Hn & Hle). cbn [obind].
  destruct (from_record_window k0 n Hreach Hn) as (k & -> & Hs & Hl & Hp). exists k. split; [done|].
  assert (Hnext : next_index k = n).
  { unfold next_index. rewrite Hl. destruct (N.ltb_spec 0 n); lia. }
  split; [|by rewrite Hp; destruct Hs as [_ ->]]. split_and!; [done|done| |by rewrite Hnext].
  unfold in_window. destruct Hs as [_ ->]. by rewrite Hnext.
Qed.

Definition fresh_own_key (v : ValidatorIndex) (k : SigningKey) : Prop :=
  own_key v k /\ fst (prepared_interval k) = fst (activation_interval k).

Lemma load_loop_resumes todo : forall keys store m,
  rep store m -> own_watermarks m -> todo ⊆ indices -> (forall v k, keys !! v = Some k -> fresh_own_key v k) ->
  exists signer store', load_loop fs_read secrets_dir (fun index file_record =>
      let! stored := fun s => let '(r, s) := load_ots_key_state index s in (omap_err (KeyStateLoad index) r, s) in
      mlift (resolve_record index file_record stored)) todo keys store = (Ok signer, store') /\
    rep store' m /\ (forall v k, ls_keys signer !! v = Some k -> fresh_own_key v k) /\
    forall v, v ∈ todo \/ is_Some (keys !! v) -> is_Some (ls_keys signer !! v).
Proof.
  induction todo as [|v todo IH]; intros keys store m Hrep Hown Hsub Hkeys; cbn [load_loop].
  { eexists _, _. split_and!; [done|done|done|]. intros v [?%elem_of_nil|?]; done. }
  assert (Hv : v ∈ indices) by (apply Hsub; left). destruct (files v Hv) as [Hreach Hfile].
  unfold read_secret_record. rewrite Hfile. cbn [obind].
  assert (Hdec : key_state_from_ssz_bytes (key_state_to_ssz_bytes (to_record (keyfile v))) = Ok (to_record (keyfile v))).
  { pose proof (key_reachable_record_ok _ Hreach) as (H1 & H2 & H3). unfold key_state_from_ssz_bytes, key_state_to_ssz_bytes.
    by rewrite ots_decode_encode by done. }
  rewrite Hdec. cbn [omap_err]. mstep. destruct (reads v store) as (wm & store' & Hload).
  pose proof (load_watermark_law store m v Hrep) as Hlaw. rewrite Hload in Hlaw. destruct Hlaw as [-> Hrep'].
  unfold mbind at 1 2. rewrite Hload. cbn [omap_err]. destruct (resolve_own v m Hv Hown) as (k & Hres & Hk).
  unfold mlift at 1. destruct (resolve_record v (to_record (keyfile v)) (m !! v)) as [record| | |]; try done.
  cbn [obind] in Hres. rewrite Hres. mstep.
  destruct (IH (<[v:=k]> keys) store' m Hrep' Hown) as (signer & store'' & He & Hrep'' & Hall & Hdom).
  - intros x Hx. apply Hsub. by right.
  - intros v' k' [[<- <-]|[_ Hk']]%lookup_insert_Some; [done|by apply Hkeys].
  - exists signer, store''. split_and!; [done|done|done|]. intros v' [[->|Hin]%elem_of_cons|Hs]; apply Hdom; [right|by left|right].
    + by rewrite lookup_insert_eq.
    + destruct (decide (v = v')) as [<-|Hn]; [by rewrite lookup_insert_eq|by rewrite lookup_insert_ne].
Qed.

Lemma resume_event r ev : event_before ev -> resume_inv r -> resume_inv (signer_event r ev).
Proof.
  intros Hb (m & Hrep & Hown & Hkeys). destruct ev as [att|att| |fs dir ixs]; simpl in *.
  - destruct (run_signer r) as [signer|] eqn:Hs; [|exists m; by rewrite Hs].
    destruct (guard_resume att signer (run_store r) m Hb Hrep Hown (Hkeys signer eq_refl)) as (res & s' & st' & m' & -> & ? & ? & ?).
    exists m'. split_and!; [done|done|]. by intros ? [= <-].
  - destruct (run_signer r) as [signer|] eqn:Hs; [|exists m; by rewrite Hs].
    destruct (guard_resume att signer (run_store r) m Hb Hrep Hown (Hkeys signer eq_refl)) as (res & s' & st' & m' & -> & ? & ? & ?).
    by exists m'.
  - by exists m.
  - destruct Hb as (-> & -> & ->).
    destruct (load_loop_resumes indices ∅ (run_store r) m Hrep Hown) as (signer & store' & He & Hrep' & Hall & _); [done|done|].
    unfold load_resuming, load_with. rewrite He. exists m. split_and!; [done|done|]. intros s [= <-] v k Hk. by apply Hall.
Qed.

End Resume.
End Runs.

(** ** A run with the toy scheme *)

Module ToyRun.
#[local] Existing Instances toy_sha256 ToyScheme.scheme ToyScheme.wire ToyScheme.scheme_laws.

(** Validator 3 has a key for the epochs 4 to 15, in an otherwise empty directory. *)
Definition key : SigningKey := toy_key.
Definition files (path : string) : list u8 + string :=
  if decide (path = "keys/validator_3.ssz"%string) then inl (key_state_to_ssz_bytes (to_record key)) else inr "not found"%string.

Definition vote (slot : N) : Attestation :=
  mkAttestation 3 (mkAttestationData slot Checkpoint_default Checkpoint_default Checkpoint_default).

Definition restart : SignerEvent := Restart files "keys" [3].

(** Slot 8 is refused after slot 9, slot 9 is refused after the crash, and slot 11
    because its watermark was stored before the crash. *)
Definition events : list SignerEvent :=
  [restart; SignRequest (vote 9); SignRequest (vote 8); Crash; restart; SignRequest (vote 9);
   CrashInSign (vote 11); SignRequest (vote 12); restart; SignRequest (vote 11); SignRequest (vote 12)].

Lemma key_in_use : key_reachable key.
Proof. by eapply (reach_generate toy_seed 5 10). Qed.
End ToyRun.

Lemma no_epoch_signed_twice_witness :
  let r := @signer_run toy_sha256 ToyScheme.scheme ToyScheme.wire Inner _ ToyRun.events (mkRun None Inner_default []) in
  (one_time_use <$> run_released r) = [(3, 9); (3, 12)] /\ NoDup (one_time_use <$> run_released r).
Proof.
  split; [vm_compute; reflexivity|].
  pose proof (@no_epoch_signed_twice toy_sha256 ToyScheme.scheme ToyScheme.wire ToyScheme.scheme_laws Inner _ _
    (store_refines_watermarks (rep:=eq)) ToyRun.events Inner_default ∅ (ex_intro _ Inner_default (conj eq_refl eq_refl))) as H.
  exact (proj1 H).
Defined.

