(* ===== verification/Duties.v ===== *)
(** * Duties of the local validators ([runtime/src/duties])

    The configuration, the validator assignments, the genesis registry and the
    round-robin proposer lookup.  The file system and the YAML parser are
    parameters.

    Shown: an assignment that loads is a partition of the registry, so that in
    every slot exactly one node proposes and every other validator attests, once
    ([duties_partition]); the registry loaded beside it has one validator per
    index ([registry_indexed]). *)

From stdpp Require Import base numbers list gmap sets strings.
From Stdlib Require Import Strings.Byte Strings.Ascii ZArith Lia.
From S2P Require Import Prelude Config Types Merkle Codec Slot Containers State Ancestry Ots Storage Signer.

(** ** Text *)

(** The UTF-8 encodings of the characters with the property [White_Space]. *)
Definition WHITE_SPACE : list (list u8) :=
  [[x09]; [x0a]; [x0b]; [x0c]; [x0d]; [x20]; [xc2; x85]; [xc2; xa0]; [xe1; x9a; x80];
   [xe2; x80; x80]; [xe2; x80; x81]; [xe2; x80; x82]; [xe2; x80; x83]; [xe2; x80; x84]; [xe2; x80; x85];
   [xe2; x80; x86]; [xe2; x80; x87]; [xe2; x80; x88]; [xe2; x80; x89]; [xe2; x80; x8a];
   [xe2; x80; xa8]; [xe2; x80; xa9]; [xe2; x80; xaf]; [xe2; x81; x9f]; [xe3; x80; x80]].

(** The text after the characters of [ws] it starts with; each is a byte at least. *)
Fixpoint skip_prefixes (ws : list (list u8)) (fuel : nat) (text : list u8) : list u8 :=
  match fuel with
  | O => text
  | S fuel =>
      match List.find (fun w => bool_decide (take (length w) text = w)) ws with
      | Some w => skip_prefixes ws fuel (drop (length w) text)
      | None => text
      end
  end.

(** [str::trim].  In valid UTF-8 the encoding of a character occurs only as that
    character, so the end of the text is skipped backwards. *)
Definition trim (text : string) : string :=
  let bytes := String.list_byte_of_string text in
  let start := skip_prefixes WHITE_SPACE (length bytes) bytes in
  String.string_of_list_byte (reverse (skip_prefixes (reverse <$> WHITE_SPACE) (length start) (reverse start))).

Definition is_blank (text : string) : bool := bool_decide (trim text = EmptyString).

(** ** Errors ([error.rs]) *)

(** [std::io::Error]: the kind that is looked at, and the text. *)
Record IoError := mkIoError { io_not_found : bool; io_text : string }.

Inductive DutiesError :=
| EmptyValidatorsPath
| EmptyValidatorGroup
| UnknownValidatorGroup (group : string)
| EmptyValidatorGroupAssignment (group : string)
| EmptyAssignmentSet
| DuplicateValidatorAssignment (index : N) (existing_group conflicting_group : string)
| NonContiguousValidatorSet (max_index total : N)
| GenesisTimeUnset
| ValidatorsFileTooLarge (size cap : N)
| YamlParse (path source : string)
| YamlRead (path : string) (source : IoError)
| ValidatorPubkeyCountMismatch (expected got : N)
| InvalidValidatorPubkey (index : N) (source : TypesError)
| ManifestContainsYamlAlias (path : string).

(** ** Configuration ([config.rs]) *)

Definition GenesisTimeUnix : Type := N.
Definition GENESIS_EPOCH : GenesisTimeUnix := 0.

(** A path that is not UTF-8 is not all white space. *)
Definition path_is_blank (path : string) : bool := bool_decide (path = EmptyString) || is_blank path.

Definition ValidatorsPath_new (path : string) : Outcome DutiesError string :=
  if path_is_blank path then Err EmptyValidatorsPath else Ok path.

Definition ValidatorGroup_new (raw : string) : Outcome DutiesError string :=
  let trimmed := trim raw in if bool_decide (trimmed = EmptyString) then Err EmptyValidatorGroup else Ok trimmed.

Record DutiesConfig := mkDutiesConfig {
  dc_validators_path : string;
  dc_validator_group : string;
  dc_genesis_time_unix : GenesisTimeUnix;
  dc_slot_duration_ms : N;
}.

Definition DutiesConfig_new (path group : string) (genesis : GenesisTimeUnix) : DutiesConfig :=
  mkDutiesConfig path group genesis (slot_duration_ms DEVNET_CONFIG).

Definition ensure_runnable (self : DutiesConfig) : Outcome DutiesError unit :=
  if dc_genesis_time_unix self =? GENESIS_EPOCH then Err GenesisTimeUnset else Ok tt.

Definition with_validators_path (path : string) (self : DutiesConfig) : Outcome DutiesError DutiesConfig :=
  let? path := ValidatorsPath_new path in
  Ok (mkDutiesConfig path (dc_validator_group self) (dc_genesis_time_unix self) (dc_slot_duration_ms self)).

Definition with_validator_group (group : string) (self : DutiesConfig) : Outcome DutiesError DutiesConfig :=
  let? group := ValidatorGroup_new group in
  Ok (mkDutiesConfig (dc_validators_path self) group (dc_genesis_time_unix self) (dc_slot_duration_ms self)).

Definition with_genesis_time_unix (genesis : GenesisTimeUnix) (self : DutiesConfig) : DutiesConfig :=
  mkDutiesConfig (dc_validators_path self) (dc_validator_group self) genesis (dc_slot_duration_ms self).

(** ** Files ([validators.rs]) *)

Definition MAX_VALIDATORS_FILE_BYTES : N := 2 ^ 20.

Section Files.
(** The content of a file, or the error of opening or reading it; the directory of
    the crate at build time. *)
Variables (file_read : string -> list u8 + IoError) (manifest_dir : string).

Definition check_file_size (size : N) : Outcome DutiesError unit :=
  if MAX_VALIDATORS_FILE_BYTES <? size then Err (ValidatorsFileTooLarge size MAX_VALIDATORS_FILE_BYTES) else Ok tt.

Definition read_capped (path : string) : Outcome DutiesError (list u8) :=
  match file_read path with
  | inr source => Err (YamlRead path source)
  | inl content =>
      let bytes := take (N.to_nat (MAX_VALIDATORS_FILE_BYTES + 1)) content in
      let? _ := check_file_size (len bytes) in
      Ok bytes
  end.

(** [b'&' | b'*']. *)
Definition reject_yaml_aliases (bytes : list u8) (path : string) : Outcome DutiesError unit :=
  if existsb (fun b => bool_decide (b = x26) || bool_decide (b = x2a)) bytes then Err (ManifestContainsYamlAlias path) else Ok tt.

Definition is_absolute (path : string) : bool :=
  match path with String.String c _ => Ascii.eqb c "/"%char | String.EmptyString => false end.

Definition resolve_path (raw : string) : string := if is_absolute raw then raw else path_join manifest_dir raw.

(** ** Assignments

    A [BTreeMap] is its entries in the order of the keys; [from_canonical] visits
    them in that order and inserts each key again. *)
Record ValidatorAssignments := mkValidatorAssignments {
  va_groups : list (string * list ValidatorIndex);
  va_total_validators : N;
}.

Record Assigning := mkAssigning { ag_seen : gmap N string; ag_max_index : N; ag_total : N }.

(** The loop over the indices of a group.  [total += 1] is checked in a debug
    build. *)
Fixpoint assign_indices (name : string) (indices : list N) (a : Assigning) : Outcome DutiesError Assigning :=
  match indices with
  | [] => Ok a
  | index :: indices =>
      match ag_seen a !! index with
      | Some existing => Err (DuplicateValidatorAssignment index existing name)
      | None =>
          match checked_add (ag_total a) 1 with
          | None => Panic
          | Some total =>
              assign_indices name indices
                (mkAssigning (<[index := name]> (ag_seen a)) (if ag_max_index a <? index then index else ag_max_index a) total)
          end
      end
  end.

Fixpoint assign_groups (raw : list (string * list N)) (a : Assigning) : Outcome DutiesError Assigning :=
  match raw with
  | [] => Ok a
  | (name, indices) :: raw =>
      if is_blank name then Err (EmptyValidatorGroupAssignment name)
      else if len indices =? 0 then Err (EmptyValidatorGroupAssignment name)
      else let? a := assign_indices name indices a in assign_groups raw a
  end.

Definition from_canonical (raw : list (string * list N)) : Outcome DutiesError ValidatorAssignments :=
  if len raw =? 0 then Err EmptyAssignmentSet
  else
    let? a := assign_groups raw (mkAssigning ∅ 0 0) in
    if bool_decide (checked_add (ag_max_index a) 1 = Some (ag_total a))
    then Ok (mkValidatorAssignments raw (ag_total a))
    else Err (NonContiguousValidatorSet (ag_max_index a) (ag_total a)).

Fixpoint find_group (groups : list (string * list ValidatorIndex)) (group_name : string) : option (list ValidatorIndex) :=
  match groups with
  | [] => None
  | (name, indices) :: groups => if bool_decide (name = group_name) then Some indices else find_group groups group_name
  end.
Definition assignments_group (self : ValidatorAssignments) : string -> option (list ValidatorIndex) := find_group (va_groups self).

(** [serde_yaml]: the map of an assignment file, the sequence of a manifest. *)
Class Yaml := {
  yaml_assignments : list u8 -> list (string * list N) + string;
  yaml_manifest : list u8 -> list string + string;
}.
Context {yaml : Yaml}.

Definition assignments_load (raw : string) : Outcome DutiesError ValidatorAssignments :=
  if bool_decide (raw = EmptyString) then Err EmptyValidatorsPath
  else
    let resolved := resolve_path raw in
    let? bytes := read_capped resolved in
    let? parsed := match yaml_assignments bytes with inl parsed => Ok parsed | inr source => Err (YamlParse resolved source) end in
    from_canonical parsed.

(** ** Genesis registry ([genesis_pubkeys.rs]) *)

Fixpoint registry_loop (position : N) (hexes : list string) : Outcome DutiesError (list Validator) :=
  match hexes with
  | [] => Ok []
  | hex :: hexes =>
      let? pubkey := omap_err (InvalidValidatorPubkey position) (bv_try_from_hex _ (String.list_byte_of_string hex)) in
      let? validators := registry_loop (position + 1) hexes in
      Ok (mkValidator pubkey position :: validators)
  end.

Definition from_pubkey_hexes (expected : N) (hexes : list string) : Outcome DutiesError (list Validator) :=
  let got := len hexes in
  if negb (got =? expected) then Err (ValidatorPubkeyCountMismatch expected got) else registry_loop 0 hexes.

Definition registry_load (assignments : ValidatorAssignments) (manifest_path : string) : Outcome DutiesError (list Validator) :=
  let resolved := resolve_path manifest_path in
  let? bytes := read_capped resolved in
  let? _ := reject_yaml_aliases bytes resolved in
  let? raw := match yaml_manifest bytes with inl raw => Ok raw | inr source => Err (YamlParse resolved source) end in
  from_pubkey_hexes (va_total_validators assignments) raw.

Definition registry_load_optional (assignments : ValidatorAssignments) (manifest_path : string)
    : Outcome DutiesError (option (list Validator)) :=
  match registry_load assignments manifest_path with
  | Ok registry => Ok (Some registry)
  | Err (YamlRead path source) => if io_not_found source then Ok None else Err (YamlRead path source)
  | Err other => Err other
  | Panic => Panic
  | Diverge => Diverge
  end.

(** ** Local validators ([node/src/consensus_loop.rs]) *)

Record LocalValidatorSet := mkLocalValidatorSet { lv_local : list ValidatorIndex; lv_total : N }.

Inductive ResolveError := LoadAssignments (e : DutiesError) | GroupNotFound (group : string).

Definition resolve_local_validators (duties : DutiesConfig) : Outcome ResolveError LocalValidatorSet :=
  let? assignments := omap_err LoadAssignments (assignments_load (dc_validators_path duties)) in
  let group := dc_validator_group duties in
  let? local := ok_or (assignments_group assignments group) (GroupNotFound group) in
  Ok (mkLocalValidatorSet local (va_total_validators assignments)).

End Files.

(** ** Proposers ([proposer.rs]) *)

(** A [HashSet] is a map to the unit type. *)
Record LocalProposers := mkLocalProposers { lp_local : gmap ValidatorIndex unit; lp_total_validators : N }.

Definition LocalProposers_new (local : list ValidatorIndex) (total_validators : N) : LocalProposers :=
  mkLocalProposers (list_to_map ((fun v => (v, tt)) <$> local)) total_validators.

Definition proposer_for_slot (self : LocalProposers) (slot : Slot) : option ValidatorIndex :=
  if lp_total_validators self =? 0 then None
  else
    let proposer := slot mod lp_total_validators self in
    if bool_decide (is_Some (lp_local self !! proposer)) then Some proposer else None.

Definition proposers_local {ord : HashOrder} (self : LocalProposers) : list ValidatorIndex := (hash_iter (lp_local self)).*1.

Definition attesters_for_slot {ord : HashOrder} (self : LocalProposers) (slot : Slot) : list ValidatorIndex :=
  filter (fun validator => Some validator <> proposer_for_slot self slot) (proposers_local self).

(** ** What loading ensures *)

Lemma elem_of_concat {A} (x : A) ls : x ∈ concat ls <-> exists l, x ∈ l /\ l ∈ ls.
Proof. rewrite list_elem_of_In, in_concat. setoid_rewrite list_elem_of_In. naive_solver. Qed.

(** A member of two lists of a concatenation without duplicates. *)
Lemma concat_nodup_index {A} (ls : list (list A)) i j l k x :
  NoDup (concat ls) -> ls !! i = Some l -> ls !! j = Some k -> x ∈ l -> x ∈ k -> i = j.
Proof.
  revert i j. induction ls as [|m ls IH]; intros i j; [done|]. cbn [concat]. rewrite NoDup_app. intros (_ & Hdis & Hnd) Hi Hj Hl Hk.
  destruct i as [|i], j as [|j]; simplify_eq/=; [done| | |f_equal; by eapply IH].
  - destruct (Hdis x Hl). apply elem_of_concat. exists k. split; [done|by eapply list_elem_of_lookup_2].
  - destruct (Hdis x Hk). apply elem_of_concat. exists l. split; [done|by eapply list_elem_of_lookup_2].
Qed.

Lemma NoDup_range lo hi : NoDup (range lo hi).
Proof. unfold range. apply NoDup_fmap_2; [intros i j ?; lia|apply NoDup_seq]. Qed.

(** The state of the loops after the indices [done]. *)
Record assigning_ok (done : list N) (a : Assigning) : Prop := {
  ak_seen : forall i, is_Some (ag_seen a !! i) <-> i ∈ done;
  ak_nodup : NoDup done;
  ak_total : ag_total a = len done;
  ak_max : forall i, i ∈ done -> i <= ag_max_index a;
}.

Lemma assign_indices_ok name indices done a a' :
  assigning_ok done a -> assign_indices name indices a = Ok a' -> assigning_ok (done ++ indices) a'.
Proof.
  revert done a. induction indices as [|index indices IH]; intros done a Ha; cbn [assign_indices].
  { intros [= <-]. by rewrite app_nil_r. }
  destruct (ag_seen a !! index) as [|] eqn:Hs; [done|]. unfold checked_add. destruct (_ <? _); [|done].
  rewrite cons_middle, app_assoc. apply IH. destruct Ha as [Hseen Hnd Ht Hm]. split; simpl.
  - intros i. rewrite lookup_insert_is_Some', Hseen, elem_of_app, list_elem_of_singleton. naive_solver.
  - apply NoDup_app. split_and!; [done| |apply NoDup_singleton].
    intros i Hi%Hseen ->%list_elem_of_singleton. rewrite Hs in Hi. by destruct Hi.
  - rewrite len_app, Ht. done.
  - intros i [Hi| ->%list_elem_of_singleton]%elem_of_app; [specialize (Hm i Hi)|]; destruct (N.ltb_spec (ag_max_index a) index); lia.
Qed.

Lemma assign_groups_ok raw done a a' :
  assigning_ok done a -> assign_groups raw a = Ok a' -> assigning_ok (done ++ concat raw.*2) a'.
Proof.
  revert done a. induction raw as [|[name indices] raw IH]; intros done a Ha; cbn [assign_groups].
  { intros [= <-]. by rewrite app_nil_r. }
  destruct (is_blank name); [done|]. destruct (_ =? _); [done|].
  destruct (assign_indices name indices a) as [a1| | |] eqn:Hi; [|done..]. cbn [obind]. intros Hg.
  rewrite fmap_cons. cbn [snd concat]. rewrite app_assoc. by eapply IH; [eapply assign_indices_ok|].
Qed.

(** A loaded assignment lists every index below the total, once. *)
Lemma from_canonical_partition raw a :
  from_canonical raw = Ok a -> va_groups a = raw /\ 0 < va_total_validators a /\ concat raw.*2 ≡ₚ range 0 (va_total_validators a).
Proof.
  unfold from_canonical. destruct (len raw =? 0); [done|].
  destruct (assign_groups raw _) as [g| | |] eqn:Hg; [|done..]. cbn [obind]. case_bool_decide as Ht; [|done]. intros [= <-].
  apply (assign_groups_ok raw []) in Hg as [_ Hnd Htot Hm]; [|by split; simpl; [intros i; rewrite lookup_empty, elem_of_nil; split; [intros []|]|constructor| |intros i ?%elem_of_nil]].
  unfold checked_add in Ht. destruct (_ <? _); [|done]. injection Ht as Ht. cbn [va_groups va_total_validators].
  split_and!; [done|lia|]. symmetry in Htot. rewrite app_nil_l in *.
  apply submseteq_length_Permutation.
  - apply NoDup_submseteq; [done|]. intros i Hi. apply elem_of_range. specialize (Hm i Hi). lia.
  - pose proof (len_range 0 (ag_total g)) as Hl. unfold len in *. lia.
Qed.

Lemma find_group_elem groups name indices :
  NoDup groups.*1 -> find_group groups name = Some indices <-> (name, indices) ∈ groups.
Proof.
  induction groups as [|[n i] groups IH]; cbn [find_group]; [intros _; split; [done|by intros ?%elem_of_nil]|].
  rewrite fmap_cons, NoDup_cons. intros [Hn Hnd]. rewrite elem_of_cons. case_bool_decide as Heq.
  - subst n. split; [intros [= <-]; by left|]. intros [[= ->]|Hin]; [done|].
    destruct Hn. by apply (list_elem_of_fmap_2 fst) in Hin.
  - rewrite IH by done. naive_solver.
Qed.

Lemma local_lookup local total v : is_Some (lp_local (LocalProposers_new local total) !! v) <-> v ∈ local.
Proof.
  cbn [LocalProposers_new lp_local]. induction local as [|w local IH]; [split; [by intros [? ?]|by intros ?%elem_of_nil]|].
  rewrite fmap_cons. cbn [list_to_map foldr]. by rewrite lookup_insert_is_Some', IH, elem_of_cons, (eq_comm w).
Qed.

Lemma proposer_for_slot_Some local total slot v :
  0 < total -> proposer_for_slot (LocalProposers_new local total) slot = Some v <-> v = slot mod total /\ v ∈ local.
Proof.
  intros Ht. unfold proposer_for_slot. change (lp_total_validators (LocalProposers_new local total)) with total.
  rewrite (proj2 (N.eqb_neq _ _)) by lia.
  case_bool_decide as Hl; rewrite local_lookup in Hl; naive_solver.
Qed.

Section Partition.
Context {ord : HashOrder} {laws : HashOrderLaws ord}.

Lemma attesters_for_slot_elem local total slot v :
  v ∈ attesters_for_slot (LocalProposers_new local total) slot <->
  v ∈ local /\ proposer_for_slot (LocalProposers_new local total) slot <> Some v.
Proof.
  unfold attesters_for_slot, proposers_local. rewrite list_elem_of_filter.
  assert (Hin : v ∈ (hash_iter (lp_local (LocalProposers_new local total))).*1 <-> v ∈ local).
  { rewrite <-(local_lookup local total), list_elem_of_fmap. split.
    - intros ([w []] & -> & Hw%elem_of_hash_iter). by eexists.
    - intros [[] Hw]. exists (v, tt). split; [done|by apply elem_of_hash_iter]. }
  rewrite Hin. naive_solver.
Qed.

Lemma attesters_for_slot_nodup self slot : NoDup (attesters_for_slot self slot).
Proof. apply NoDup_filter, NoDup_hash_keys. Qed.

(** C15. The duties of all nodes partition the registry, in every slot.  If an
    assignment loads, each validator belongs to exactly one group; the node of
    that group proposes with it exactly if it is the proposer by the rule of the
    protocol, and attests with it, once, exactly if it is not; the other nodes
    neither propose nor attest with it. *)
Theorem duties_partition raw a slot v :
  NoDup raw.*1 -> from_canonical raw = Ok a -> v < va_total_validators a ->
  exists name local, assignments_group a name = Some local /\
    let total := va_total_validators a in
    let node := LocalProposers_new local total in
    is_proposer v slot total = Ok (bool_decide (proposer_for_slot node slot = Some v)) /\
    (v ∈ attesters_for_slot node slot <-> proposer_for_slot node slot <> Some v) /\ NoDup (attesters_for_slot node slot) /\
    forall name' local', assignments_group a name' = Some local' -> name' <> name ->
      proposer_for_slot (LocalProposers_new local' total) slot <> Some v /\
      v ∉ attesters_for_slot (LocalProposers_new local' total) slot.
Proof.
  intros Hnames Ha Hv. destruct (from_canonical_partition raw a Ha) as (Hg & Ht & Hp). unfold assignments_group. rewrite Hg.
  assert (Hall : v ∈ concat raw.*2) by (rewrite Hp; apply elem_of_range; lia).
  apply elem_of_concat in Hall as (local & Hin & Hl). apply list_elem_of_fmap in Hl as ([name l] & -> & Hl). simpl in Hin.
  exists name, l. split; [by apply find_group_elem|]. cbv zeta. split_and!.
  - unfold is_proposer. rewrite (proj2 (N.eqb_neq _ _)) by lia. f_equal. apply Bool.eq_iff_eq_true.
    rewrite bool_decide_eq_true, proposer_for_slot_Some, N.eqb_eq by done. naive_solver.
  - rewrite attesters_for_slot_elem. naive_solver.
  - apply attesters_for_slot_nodup.
  - intros name' local' Hfind%find_group_elem Hne; [|done].
    assert (Hout : v ∉ local').
    { intros Hin'. assert (Hnd : NoDup (concat raw.*2)) by (rewrite Hp; apply NoDup_range).
      apply list_elem_of_lookup in Hl as [i Hi], Hfind as [j Hj].
      assert (i = j) as -> by (eapply concat_nodup_index; [exact Hnd|by rewrite list_lookup_fmap, Hi|by rewrite list_lookup_fmap, Hj|done|done]).
      congruence. }
    split; [rewrite proposer_for_slot_Some by done; naive_solver|rewrite attesters_for_slot_elem; naive_solver].
Qed.

End Partition.

(** Conversely such a partition into named groups loads. *)
Lemma assign_indices_Ok name indices done a :
  assigning_ok done a -> NoDup (done ++ indices) -> len (done ++ indices) < u64_bound ->
  exists a', assign_indices name indices a = Ok a' /\ assigning_ok (done ++ indices) a' /\
    (ag_max_index a' = ag_max_index a \/ ag_max_index a' ∈ indices).
Proof.
  revert done a. induction indices as [|index indices IH]; intros done a Ha Hnd Hb; cbn [assign_indices].
  { exists a. rewrite app_nil_r. auto. }
  assert (Hs : ag_seen a !! index = None).
  { apply eq_None_not_Some. intros Hs%(ak_seen _ _ Ha). apply NoDup_app in Hnd as (_ & Hd & _). destruct (Hd index Hs). left. }
  rewrite Hs. unfold checked_add. rewrite (ak_total _ _ Ha).
  rewrite (proj2 (N.ltb_lt _ _)) by (rewrite len_app, len_cons in Hb; lia).
  assert (Hone : forall a1, assign_indices name [index] a = Ok a1 -> assigning_ok (done ++ [index]) a1) by (intros a1; by apply assign_indices_ok).
  cbn [assign_indices] in Hone. rewrite Hs in Hone. unfold checked_add in Hone. rewrite (ak_total _ _ Ha) in Hone.
  rewrite (proj2 (N.ltb_lt _ _)) in Hone by (rewrite len_app, len_cons in Hb; lia).
  rewrite cons_middle, app_assoc in Hnd, Hb |- *. destruct (IH _ _ (Hone _ eq_refl) Hnd Hb) as (a' & He & Ha' & Hm).
  exists a'. split_and!; [done|done|]. simpl in Hm. rewrite elem_of_cons. destruct Hm as [Hm|]; [|auto].
  destruct (_ <? _); auto.
Qed.

Lemma assign_groups_Ok raw done a :
  assigning_ok done a -> (forall name indices, (name, indices) ∈ raw -> is_blank name = false /\ indices <> []) ->
  NoDup (done ++ concat raw.*2) -> len (done ++ concat raw.*2) < u64_bound ->
  exists a', assign_groups raw a = Ok a' /\ (ag_max_index a' = ag_max_index a \/ ag_max_index a' ∈ concat raw.*2).
Proof.
  revert done a. induction raw as [|[name indices] raw IH]; intros done a Ha Hne Hnd Hb; cbn [assign_groups]; [by eauto|].
  destruct (Hne name indices) as [-> Hi]; [left|]. rewrite (proj2 (N.eqb_neq _ _)) by (destruct indices; [done|rewrite len_cons; lia]).
  rewrite fmap_cons in *. cbn [snd concat] in *. rewrite app_assoc in Hnd, Hb.
  destruct (assign_indices_Ok name indices done a Ha) as (a1 & -> & Ha1 & Hm1);
    [by apply NoDup_app in Hnd as [? _]|rewrite len_app in Hb; lia|]. cbn [obind].
  destruct (IH _ a1 Ha1) as (a2 & He & Hm2); [intros n i Hin; apply Hne; by right|done|done|].
  exists a2. split; [done|]. rewrite elem_of_app. destruct Hm2 as [->|]; [|auto]. destruct Hm1; auto.
Qed.

Lemma from_canonical_complete raw n :
  raw <> [] -> (forall name indices, (name, indices) ∈ raw -> is_blank name = false /\ indices <> []) ->
  concat raw.*2 ≡ₚ range 0 n -> n < u64_bound -> from_canonical raw = Ok (mkValidatorAssignments raw n).
Proof.
  intros Hraw Hne Hp Hn. unfold from_canonical. rewrite (proj2 (N.eqb_neq _ _)) by (destruct raw; [done|rewrite len_cons; lia]).
  assert (Hlen : len (concat raw.*2) = n) by (unfold len; rewrite Hp; fold (len (range 0 n)); rewrite len_range; lia).
  assert (H0 : assigning_ok [] (mkAssigning ∅ 0 0)) by (split; simpl; [intros i; split; [by intros [? ?]|by intros ?%elem_of_nil]|constructor| |intros i ?%elem_of_nil]; done).
  destruct (assign_groups_Ok raw [] _ H0 Hne) as (a & He & Hm); [rewrite app_nil_l, Hp; apply NoDup_range|rewrite app_nil_l; lia|].
  pose proof (assign_groups_ok raw [] _ a H0 He) as [_ _ Ht Hmax]. rewrite app_nil_l in Ht, Hmax. rewrite He. cbn [obind].
  rewrite Hlen in Ht. rewrite Ht.
  assert (Hpos : 0 < n).
  { destruct raw as [|[name indices] raw]; [done|]. destruct (Hne name indices) as [_ Hi]; [left|].
    rewrite fmap_cons in Hlen. cbn [snd concat] in Hlen. rewrite len_app in Hlen. destruct indices; [done|]. rewrite len_cons in Hlen. lia. }
  assert (Hlast : ag_max_index a = n - 1).
  { assert (n - 1 <= ag_max_index a) by (apply Hmax; rewrite Hp; apply elem_of_range; lia).
    destruct Hm as [Hm|Hm]; [simpl in Hm; lia|]. rewrite Hp in Hm. apply elem_of_range in Hm. lia. }
  rewrite Hlast. unfold checked_add. replace (n - 1 + 1) with n by lia. rewrite (proj2 (N.ltb_lt _ _)) by done.
  by rewrite bool_decide_eq_true_2.
Qed.

(** The registry has one validator per index, as many as are assigned. *)
Lemma registry_loop_indexed position hexes vs :
  registry_loop position hexes = Ok vs -> length vs = length hexes /\ forall i v, vs !! i = Some v -> v_index v = position + N.of_nat i.
Proof.
  revert position vs. induction hexes as [|hex hexes IH]; intros position vs; cbn [registry_loop]; [by intros [= <-]|].
  destruct (omap_err _ _) as [pk| | |]; [|done..]. cbn [obind]. destruct (registry_loop _ hexes) as [rest| | |] eqn:Hr; [|done..].
  cbn [obind]. intros [= <-]. destruct (IH _ _ Hr) as [Hl Hi]. split; [by simpl; rewrite Hl|].
  intros [|i] v; [intros [= <-]; simpl; lia|]. simpl. intros Hv. rewrite (Hi i v Hv). lia.
Qed.

Lemma registry_indexed expected hexes vs :
  from_pubkey_hexes expected hexes = Ok vs -> len vs = expected /\ forall i v, vs !! i = Some v -> v_index v = N.of_nat i.
Proof.
  unfold from_pubkey_hexes. destruct (N.eqb_spec (len hexes) expected) as [<-|]; [|done]. cbn [negb]. intros Hr.
  destruct (registry_loop_indexed _ _ _ Hr) as [Hl Hi]. split; [unfold len; by rewrite Hl|exact Hi].
Qed.

(** ** The assignment of the devnet *)

Definition devnet_assignments : list (string * list N) := [("quadrivium", [2; 5]); ("ream", [0; 3]); ("zeam", [1; 4])]%string.

Lemma duties_partition_witness :
  exists name local, assignments_group (mkValidatorAssignments devnet_assignments 6) name = Some local /\
    is_proposer 4 10 6 = Ok (bool_decide (proposer_for_slot (LocalProposers_new local 6) 10 = Some 4)).
Proof.
  assert (Hnd : NoDup devnet_assignments.*1) by (apply (bool_decide_unpack _); vm_compute; exact I).
  assert (Ha : from_canonical devnet_assignments = Ok (mkValidatorAssignments devnet_assignments 6)) by (vm_compute; reflexivity).
  pose proof (duties_partition (laws:=order_forward_laws) devnet_assignments _ 10 4 Hnd Ha eq_refl) as (name & local & Hg & Hp & _).
  exists name, local. exact (conj Hg Hp).
Defined.
