(* ===== verification/Host.v ===== *)
(** * Options, bootnodes and identity of the p2p host ([runtime/src/p2p])

    What [DevnetHost::build_with_provider] reads before the swarm exists: the
    options ([options.rs]), the bootnode list ([host/bootnodes.rs]) and the identity
    key pair ([host/keypair.rs]).  Multiaddresses, key pairs, YAML and hex are
    libraries, a parameter [HostLib]; the file system is a parameter [HostFs].

    Shown: an identity, once generated, is the one every later start loads
    ([identity_stable]), and a file that does not decode is left as it is
    ([existing_identity_kept]). *)

From stdpp Require Import base numbers list gmap sets strings pretty.
From Stdlib Require Import Strings.Byte Strings.Ascii ZArith Lia.
From S2P Require Import Prelude Config Types Duties.

(** ** UTF-8 ([std::str::from_utf8]) *)

(** A valid text, or the index of the first invalid byte and the length of the
    invalid sequence, which is none when the text ends within it. *)
Inductive Utf8 := Utf8Ok | Utf8Error (valid_up_to : N) (error_len : option N).

Definition in_range (lo hi : N) (b : u8) : bool := (lo <=? Byte.to_N b) && (Byte.to_N b <=? hi).

(** The ranges of the bytes that may follow a first byte of two or more. *)
Definition utf8_tail (first : u8) : option (list (N * N)) :=
  let cont := (0x80, 0xbf) in
  if in_range 0xc2 0xdf first then Some [cont]
  else if bool_decide (Byte.to_N first = 0xe0) then Some [(0xa0, 0xbf); cont]
  else if in_range 0xe1 0xec first || in_range 0xee 0xef first then Some [cont; cont]
  else if bool_decide (Byte.to_N first = 0xed) then Some [(0x80, 0x9f); cont]
  else if bool_decide (Byte.to_N first = 0xf0) then Some [(0x90, 0xbf); cont; cont]
  else if in_range 0xf1 0xf3 first then Some [cont; cont; cont]
  else if bool_decide (Byte.to_N first = 0xf4) then Some [(0x80, 0x8f); cont; cont]
  else None.

(** The bytes after the tail, or the error; [got]: the bytes of the sequence so far. *)
Fixpoint utf8_follow (tail : list (N * N)) (got : N) (bytes : list u8) : list u8 + option N :=
  match tail, bytes with
  | [], _ => inl bytes
  | _ :: _, [] => inr None
  | (lo, hi) :: tail, b :: bytes => if in_range lo hi b then utf8_follow tail (got + 1) bytes else inr (Some got)
  end.

(** Each character takes a byte at least. *)
Fixpoint utf8_loop (fuel : nat) (index : N) (bytes : list u8) : Utf8 :=
  match fuel, bytes with
  | _, [] | O, _ => Utf8Ok
  | S fuel, b :: rest =>
      if Byte.to_N b <? 0x80 then utf8_loop fuel (index + 1) rest
      else
        match utf8_tail b with
        | None => Utf8Error index (Some 1)
        | Some tail =>
            match utf8_follow tail 1 rest with
            | inl rest => utf8_loop fuel (index + 1 + len tail) rest
            | inr error_len => Utf8Error index error_len
            end
        end
  end.

Definition from_utf8 (bytes : list u8) : string + string :=
  match utf8_loop (length bytes) 0 bytes with
  | Utf8Ok => inl (String.string_of_list_byte bytes)
  | Utf8Error valid_up_to (Some n) =>
      inr ("invalid utf-8 sequence of " +:+ pretty n +:+ " bytes from index " +:+ pretty valid_up_to)%string
  | Utf8Error valid_up_to None => inr ("incomplete utf-8 byte sequence from index " +:+ pretty valid_up_to)%string
  end.

(** ** Errors ([error.rs]) *)

Inductive HostError :=
| EmptyListenAddr
| EmptyAgentVersion
| EmptyIdentityPath
| EmptyBootnodesPath
| InvalidListenAddr (input source : string)
| IdentityIo (path : string) (source : IoError)
| InvalidIdentity (path source : string)
| InvalidRawIdentityHex (path reason : string)
| InvalidRawIdentityLength (path : string) (actual expected : N)
| InvalidRawIdentityKeyMaterial (path source : string)
| BootnodesRead (path : string) (source : IoError)
| BootnodesParse (path source : string)
| InvalidBootnode (entry reason : string)
| Bind (addr reason : string)
| Transport (source : string)
| GossipsubInit (reason : string)
| GossipSubscribe (reason : string)
| HostAlreadyStarted.

(** [Display]; [dbg] is the quoted form [{:?}] of a text or a path. *)
Definition HostError_display (dbg : string -> string) (err : HostError) : string :=
  match err with
  | EmptyListenAddr => "host listen address must not be empty"
  | EmptyAgentVersion => "host agent version must not be empty"
  | EmptyIdentityPath => "host identity path must not be empty"
  | EmptyBootnodesPath => "host bootnodes path must not be empty"
  | InvalidListenAddr input source => "invalid listen address " +:+ dbg input +:+ ": " +:+ source
  | IdentityIo path source => "identity file " +:+ dbg path +:+ " unreadable: " +:+ io_text source
  | InvalidIdentity path source => "identity file " +:+ dbg path +:+ " corrupt: " +:+ source
  | InvalidRawIdentityHex path reason => "identity file " +:+ dbg path +:+ " invalid raw secp256k1 hex: " +:+ reason
  | InvalidRawIdentityLength path actual expected =>
      "identity file " +:+ dbg path +:+ " raw secp256k1 key has " +:+ pretty actual +:+ " bytes, expected " +:+ pretty expected
  | InvalidRawIdentityKeyMaterial path source =>
      "identity file " +:+ dbg path +:+ " invalid raw secp256k1 key material: " +:+ source
  | BootnodesRead path source => "bootnodes file " +:+ dbg path +:+ " unreadable: " +:+ io_text source
  | BootnodesParse path source => "bootnodes file " +:+ dbg path +:+ " parse error: " +:+ source
  | InvalidBootnode entry reason => "invalid bootnode entry " +:+ dbg entry +:+ ": " +:+ reason
  | Bind addr reason => "bind failed for " +:+ addr +:+ ": " +:+ reason
  | Transport source => "transport: " +:+ source
  | GossipsubInit reason => "gossipsub init: " +:+ reason
  | GossipSubscribe reason => "gossipsub subscribe: " +:+ reason
  | HostAlreadyStarted => "host service already started"
  end.

(** ** Libraries *)

(** The last component of a multiaddress. *)
Inductive Terminal := TermP2p (peer_id : string) | TermOther (display : string).

Class HostLib := {
  Multiaddr : Type;
  parse_multiaddr : string -> Multiaddr + string;
  multiaddr_display : Multiaddr -> string;
  (** [Multiaddr::pop]. *)
  multiaddr_pop : Multiaddr -> option (Terminal * Multiaddr);
  (** [serde_yaml::from_slice] at a list of strings or null. *)
  yaml_strings : list u8 -> option (list string) + string;
  hex_decode : string -> list u8 + string;
  Keypair : Type;
  from_protobuf_encoding : list u8 -> option Keypair;
  to_protobuf_encoding : Keypair -> list u8 + string;
  (** [secp256k1::SecretKey::try_from_bytes]. *)
  secp256k1_keypair : list u8 -> Keypair + string;
  to_peer_id : Keypair -> string;
  (** [DevnetBehaviour::build]: the error, if any. *)
  behaviour_build : Keypair -> string -> option string;
}.

(** The file system and the random generator. *)
Class HostFs {lib : HostLib} (F : Type) := {
  fs_read : string -> F -> list u8 + IoError;
  (** [create_dir_all] of the parent, when the path has a parent that is not empty:
      the path that failed. *)
  create_parent : string -> F -> option (string * IoError) * F;
  (** Open with [create_new] and write: the error, if any. *)
  write_new : string -> list u8 -> F -> option IoError * F;
  generate_ed25519 : F -> Keypair * F;
}.

Section Host.
Context {lib : HostLib}.

(** ** Options ([options.rs]) *)

Definition ListenAddr_new (input : string) : Outcome HostError Multiaddr :=
  let trimmed := trim input in
  if bool_decide (trimmed = EmptyString) then Err EmptyListenAddr
  else match parse_multiaddr trimmed with inl addr => Ok addr | inr source => Err (InvalidListenAddr trimmed source) end.

Definition AgentVersion_new (input : string) : Outcome HostError string :=
  let trimmed := trim input in if bool_decide (trimmed = EmptyString) then Err EmptyAgentVersion else Ok trimmed.

Definition IdentityPath_new (path : string) : Outcome HostError string :=
  if bool_decide (path = EmptyString) then Err EmptyIdentityPath else Ok path.

Definition BootnodesPath_new (path : string) : Outcome HostError string :=
  if bool_decide (path = EmptyString) then Err EmptyBootnodesPath else Ok path.

Record HostOptions := mkHostOptions {
  ho_listen_addr : Multiaddr;
  ho_agent_version : string;
  ho_identity_path : string;
  ho_bootnodes_path : option string;
}.

Definition HostOptions_try_new (listen_addr agent_version identity_path : string) (bootnodes_path : option string) : Outcome HostError HostOptions :=
  let? listen_addr := ListenAddr_new listen_addr in
  let? agent_version := AgentVersion_new agent_version in
  let? identity_path := IdentityPath_new identity_path in
  let? bootnodes_path := match bootnodes_path with
                         | None => Ok None
                         | Some path => let? path := BootnodesPath_new path in Ok (Some path)
                         end in
  Ok (mkHostOptions listen_addr agent_version identity_path bootnodes_path).

(** ** Bootnodes ([bootnodes.rs]) *)

Record Bootnode := mkBootnode { bn_addr : Multiaddr; bn_peer_id : string }.

Definition parse_entry (entry : string) : Outcome HostError Bootnode :=
  let trimmed := trim entry in
  if bool_decide (trimmed = EmptyString) then Err (InvalidBootnode entry "entry is empty or whitespace-only")
  else
    match parse_multiaddr trimmed with
    | inr source => Err (InvalidBootnode entry ("not a valid multiaddr: " +:+ source))
    | inl addr =>
        match multiaddr_pop addr with
        | Some (TermP2p peer_id, addr) => Ok (mkBootnode addr peer_id)
        | Some (TermOther other, _) => Err (InvalidBootnode entry ("terminal component must be /p2p/<peer-id>, got " +:+ other))
        | None => Err (InvalidBootnode entry "multiaddr is empty after parse")
        end
    end.

Definition parse_yaml (bytes : list u8) : list string + string :=
  match yaml_strings bytes with inl parsed => inl (default [] parsed) | inr source => inr source end.

Fixpoint parse_entries (raw : list string) : Outcome HostError (list Bootnode) :=
  match raw with
  | [] => Ok []
  | entry :: raw => let? node := parse_entry entry in let? nodes := parse_entries raw in Ok (node :: nodes)
  end.

Context {F : Type} {fs : HostFs F}.

Definition bootnodes_load (path : string) (f : F) : Outcome HostError (list Bootnode) :=
  match fs_read path f with
  | inr source => Err (BootnodesRead path source)
  | inl bytes =>
      match parse_yaml bytes with
      | inr source => Err (BootnodesParse path source)
      | inl raw => parse_entries raw
      end
  end.

(** ** Identity ([keypair.rs]) *)

Definition RAW_SECP256K1_PRIVATE_KEY_LEN : N := 32.

Definition decode_raw_secp256k1_hex (path : string) (bytes : list u8) : Outcome HostError Keypair :=
  match from_utf8 bytes with
  | inr source => Err (InvalidRawIdentityHex path source)
  | inl raw =>
      match hex_decode (trim raw) with
      | inr source => Err (InvalidRawIdentityHex path source)
      | inl secret_bytes =>
          if bool_decide (len secret_bytes = RAW_SECP256K1_PRIVATE_KEY_LEN) then
            match secp256k1_keypair secret_bytes with
            | inl keypair => Ok keypair
            | inr source => Err (InvalidRawIdentityKeyMaterial path source)
            end
          else Err (InvalidRawIdentityLength path (len secret_bytes) RAW_SECP256K1_PRIVATE_KEY_LEN)
      end
  end.

Definition decode_existing (path : string) (bytes : list u8) : Outcome HostError Keypair :=
  match from_protobuf_encoding bytes with Some keypair => Ok keypair | None => decode_raw_secp256k1_hex path bytes end.

Definition generate_and_persist (path : string) : M F HostError Keypair := fun f =>
  let '(keypair, f) := generate_ed25519 f in
  match to_protobuf_encoding keypair with
  | inr source => (Err (IdentityIo path (mkIoError false source)), f)
  | inl bytes =>
      match create_parent path f with
      | (Some (parent, source), f) => (Err (IdentityIo parent source), f)
      | (None, f) =>
          match write_new path bytes f with
          | (Some source, f) => (Err (IdentityIo path source), f)
          | (None, f) => (Ok keypair, f)
          end
      end
  end.

Definition load_or_generate (path : string) : M F HostError Keypair := fun f =>
  match fs_read path f with
  | inl bytes => (decode_existing path bytes, f)
  | inr err => if io_not_found err then generate_and_persist path f else (Err (IdentityIo path err), f)
  end.

Definition load_existing_peer_id (path : string) (f : F) : Outcome HostError string :=
  match fs_read path f with
  | inr source => Err (IdentityIo path source)
  | inl bytes => let? keypair := decode_existing path bytes in Ok (to_peer_id keypair)
  end.

(** ** Building the host ([devnet.rs]) *)

(** The service in its idle state: the peer id and what it will dial. *)
Record IdleHost := mkIdleHost { ih_options : HostOptions; ih_peer_id : string; ih_bootnodes : list Bootnode }.

Definition build_with_provider (options : HostOptions) : M F HostError IdleHost :=
  let! keypair := load_or_generate (ho_identity_path options) in
  let! bootnodes := (fun f => (match ho_bootnodes_path options with None => Ok [] | Some path => bootnodes_load path f end, f)) in
  match behaviour_build keypair (ho_agent_version options) with
  | Some reason => mthrow (GossipsubInit reason)
  | None => mret (mkIdleHost options (to_peer_id keypair) bootnodes)
  end.

(** ** Identity is stable *)

Class HostLaws : Prop := {
  (** Protobuf round trip. *)
  protobuf_roundtrip : forall keypair bytes, to_protobuf_encoding keypair = inl bytes -> from_protobuf_encoding bytes = Some keypair;
  (** A file that was written is read back. *)
  read_written : forall path bytes f f', write_new path bytes f = (None, f') -> fs_read path f' = inl bytes;
}.

Context {laws : HostLaws}.

(** Any operation of other parts that leaves a file alone. *)
Definition keeps_file (path : string) (f f' : F) : Prop := fs_read path f' = fs_read path f.

Lemma load_or_generate_Ok path f keypair f' :
  load_or_generate path f = (Ok keypair, f') -> exists bytes, fs_read path f' = inl bytes /\ decode_existing path bytes = Ok keypair.
Proof.
  unfold load_or_generate. destruct (fs_read path f) as [bytes|err] eqn:Er; [intros [= Hd <-]; eauto|].
  destruct (io_not_found err); [|done]. unfold generate_and_persist. destruct (generate_ed25519 f) as [kp f1].
  destruct (to_protobuf_encoding kp) as [bytes|] eqn:Ep; [|done].
  destruct (create_parent path f1) as [[[]|] f2]; [done|]. destruct (write_new path bytes f2) as [[]f3] eqn:Ew; [done|].
  intros [= <- <-]. exists bytes. split; [by apply (read_written _ _ _ _ Ew)|]. unfold decode_existing.
  by rewrite (protobuf_roundtrip _ _ Ep).
Qed.

(** A host keeps its identity: after a start that loaded or generated a key
    pair, as long as other code leaves the file alone every later load gives the
    same key pair, changes nothing on disk, and the peer id read from the file is
    its peer id. *)
Theorem identity_stable path f keypair f1 f2 :
  load_or_generate path f = (Ok keypair, f1) -> keeps_file path f1 f2 ->
  load_or_generate path f2 = (Ok keypair, f2) /\ load_existing_peer_id path f2 = Ok (to_peer_id keypair).
Proof.
  intros (bytes & Hr & Hd)%load_or_generate_Ok Hk. unfold keeps_file in Hk. rewrite Hr in Hk.
  unfold load_or_generate, load_existing_peer_id. rewrite Hk, Hd. done.
Qed.

(** A file that exists is never replaced, whether or not it decodes. *)
Lemma existing_identity_kept path f bytes : fs_read path f = inl bytes -> (load_or_generate path f).2 = f.
Proof. intros Hr. unfold load_or_generate. by rewrite Hr. Qed.

End Host.

(** ** A concrete host *)

Module HostExample.

#[export] Instance lib : HostLib := {|
  Multiaddr := string;
  parse_multiaddr := fun s => inl s;
  multiaddr_display := fun s => s;
  multiaddr_pop := fun s => Some (TermP2p s, s);
  yaml_strings := fun _ => inl None;
  hex_decode := fun _ => inr "odd"%string;
  Keypair := list u8;
  from_protobuf_encoding := fun bytes => match bytes with x08 :: key => Some key | _ => None end;
  to_protobuf_encoding := fun key => inl (x08 :: key);
  secp256k1_keypair := fun key => inl key;
  to_peer_id := String.string_of_list_byte;
  behaviour_build := fun _ _ => None;
|}.

#[export] Instance fs : HostFs (gmap string (list u8)) := {|
  fs_read := fun path f => match f !! path with Some bytes => inl bytes | None => inr (mkIoError true "missing") end;
  create_parent := fun _ f => (None, f);
  write_new := fun path bytes f =>
    match f !! path with Some _ => (Some (mkIoError false "exists"), f) | None => (None, <[path := bytes]> f) end;
  generate_ed25519 := fun f => ([x41], f);
|}.

#[export] Instance laws : HostLaws.
Proof.
  split; cbn.
  - by intros keypair bytes [= <-].
  - intros path bytes f f'. destruct (f !! path); [done|]. intros [= <-]. by rewrite lookup_insert_eq.
Qed.

Definition disk : gmap string (list u8) := <["key" := [x08; x41]]> ∅.

Lemma identity_stable_witness :
  load_or_generate (lib := lib) "key" disk = (Ok ([x41] : list u8), disk) /\ load_existing_peer_id (lib := lib) "key" disk = Ok "A"%string.
Proof.
  apply (identity_stable (lib := lib) "key" ∅ ([x41] : list u8) disk disk); [by vm_compute|done].
Defined.

End HostExample.
