(* ===== verification/Genesis.v ===== *)
(** * Genesis of a node ([lean-cli/src/genesis.rs])

    The chain configuration, the genesis state from a file or from the validator
    assignment, and the anchor block.  The file system, the clock and the YAML
    parser are parameters.

    Shown: what the loader accepts is a well-formed state with a populated registry
    in the native format or the genesis state of the assigned registry, and the
    engine anchors at it ([genesis_loaded]); a file in the compact layout is always
    refused ([compact_genesis_refused]). *)

From stdpp Require Import base numbers list gmap strings pretty.
From Stdlib Require Import Strings.Byte Strings.Ascii ZArith Lia.
From S2P Require Import Prelude Config Types Bitfields Merkle Codec Slot Containers State Ream Stf Justif StfInv Ancestry Ghost Store Ots Storage Signer Duties Host.

(** ** Paths *)

(** Separators and current-directory components at the end of a reversed path. *)
Fixpoint skip_separators (path : list ascii) : list ascii :=
  match path with
  | "/"%char :: path => skip_separators path
  | "."%char :: (("/"%char :: path) as rest) => skip_separators path
  | _ => path
  end.

Fixpoint break_separator (path : list ascii) : list ascii * list ascii :=
  match path with
  | [] => ([], [])
  | c :: path => if Ascii.eqb c "/"%char then ([], c :: path) else let '(name, rest) := break_separator path in (c :: name, rest)
  end.

(** [Path::parent] of a path with a file name. *)
Definition file_parent (path : string) : option string :=
  let '(name, rest) := break_separator (skip_separators (reverse (String.list_ascii_of_string path))) in
  if bool_decide (name = []) || bool_decide (name = ["."%char]) || bool_decide (name = ["."; "."]%char) then None
  else Some (match rest with
             | [] => EmptyString
             | _ => match skip_separators rest with [] => "/"%string | dir => String.string_of_list_ascii (reverse dir) end
             end).

(** [Path::with_file_name] of a relative name. *)
Definition with_file_name (path name : string) : string := path_join (default path (file_parent path)) name.

(** ** Parameters and errors *)

Record GenesisEnv := mkGenesisEnv {
  ge_read : string -> list u8 + IoError;
  (** [std::fs::metadata]: the length. *)
  ge_stat_len : string -> N + IoError;
  ge_yaml_config : string -> Config + string;
  (** Seconds since the epoch, unless the clock is before it. *)
  ge_now : option N;
  ge_manifest_dir : string;
}.

Inductive YamlConfigError := ConfigYaml (source : string) | ConfigInvalid (e : ConfigError).

Inductive GenesisError :=
| ReadConfigYaml (path : string) (source : string)
| ParseConfigYaml (path : string) (source : YamlConfigError)
| StatGenesisState (path : string) (source : IoError)
| GenesisStateTooLarge (path : string) (size : N)
| ReadGenesisState (path : string) (source : IoError)
| DecodeGenesisState (path : string) (native : SszError) (ream_legacy : DecodeError)
| GenesisAssignments (path : string) (source : DutiesError)
| GenesisManifest (path : string) (source : DutiesError)
| EmptyGenesisRegistry
| RegistryAboveConfig (registry_len limit : N)
| RegistryAboveCap (registry_len : N)
| HistoryAboveConfig (historical_roots limit : N)
| ClockBeforeEpoch
| GenesisDelayOverflow
| GenesisTimeOverflow
| BodyRootNotEmpty
| AnchorSlotMismatch (state_slot header_slot : Slot).

Definition DEFAULT_GENESIS_DELAY_SLOTS : N := 15.
Definition GENESIS_VALIDATORS_MANIFEST : string := "genesis_validators.yaml".
Definition MAX_GENESIS_STATE_BYTES : N := 16 * 1024 * 1024.

(** ** Loading *)

Section Genesis.
Context {eth : EthSsz} {sha : Sha256} {yaml : Yaml}.
Variable env : GenesisEnv.

(** [Config::from_yaml]. *)
Definition config_from_yaml (text : string) : Outcome YamlConfigError Config :=
  match ge_yaml_config env text with
  | inr source => Err (ConfigYaml source)
  | inl cfg => let? _ := omap_err ConfigInvalid (validate cfg) in Ok cfg
  end.

Definition load_chain_config (path : option string) : Outcome GenesisError Config :=
  match path with
  | None => Ok DEVNET_CONFIG
  | Some path =>
      let? text := match ge_read env path with
                   | inr source => Err (ReadConfigYaml path (io_text source))
                   | inl bytes => match from_utf8 bytes with
                                  | inr _ => Err (ReadConfigYaml path "stream did not contain valid UTF-8")
                                  | inl text => Ok text
                                  end
                   end in
      omap_err (ParseConfigYaml path) (config_from_yaml text)
  end.

Definition load_state (path : string) : Outcome GenesisError State :=
  let? size := match ge_stat_len env path with inl size => Ok size | inr source => Err (StatGenesisState path source) end in
  if MAX_GENESIS_STATE_BYTES <? size then Err (GenesisStateTooLarge path size)
  else
    let? bytes := match ge_read env path with inl bytes => Ok bytes | inr source => Err (ReadGenesisState path source) end in
    match ssz_decode bytes with
    | Ok state => Ok state
    | Err native_err => omap_err (DecodeGenesisState path native_err) (from_ream_legacy_ssz_bytes bytes)
    | Panic => Panic
    | Diverge => Diverge
    end.

Definition load_genesis_registry (validators_path : string) (assignments : ValidatorAssignments) : Outcome GenesisError (list Validator) :=
  let manifest_path := with_file_name validators_path GENESIS_VALIDATORS_MANIFEST in
  omap_err (GenesisManifest manifest_path) (registry_load (ge_read env) (ge_manifest_dir env) assignments manifest_path).

Definition default_genesis_time (chain_config : Config) : Outcome GenesisError N :=
  let? now := ok_or (ge_now env) ClockBeforeEpoch in
  let? delay := ok_or (checked_mul (seconds_per_slot chain_config) DEFAULT_GENESIS_DELAY_SLOTS) GenesisDelayOverflow in
  ok_or (checked_add now delay) GenesisTimeOverflow.

Definition validate_state_limits (state : State) (chain_config : Config) : Outcome GenesisError unit :=
  if bool_decide (st_validators state = []) then Err EmptyGenesisRegistry
  else
    let registry_len := len (st_validators state) in
    if validator_registry_limit chain_config <? registry_len then Err (RegistryAboveConfig registry_len (validator_registry_limit chain_config))
    else if VALIDATOR_REGISTRY_LIMIT <? registry_len then Err (RegistryAboveCap registry_len)
    else
      let historical_roots := len (st_historical_block_hashes state) in
      if historical_roots_limit chain_config <? historical_roots
      then Err (HistoryAboveConfig historical_roots (historical_roots_limit chain_config))
      else Ok tt.

Definition load_or_synthesize_state (state_path : option string) (chain_config : Config) (validators_path : string)
    : Outcome GenesisError State :=
  let? state :=
    match state_path with
    | Some path => load_state path
    | None =>
        let? assignments := omap_err (GenesisAssignments validators_path)
                              (assignments_load (ge_read env) (ge_manifest_dir env) validators_path) in
        let? validators := load_genesis_registry validators_path assignments in
        let? genesis_time := default_genesis_time chain_config in
        Ok (genesis_state genesis_time validators)
    end in
  let? _ := validate_state_limits state chain_config in
  Ok state.

Definition anchor_block_for_state (state : State) : Outcome GenesisError Block :=
  let header := st_latest_block_header state in
  let body := BlockBody_default in
  if negb (bool_decide (bh_body_root header = hash_tree_root body)) then Err BodyRootNotEmpty
  else if negb (st_slot state =? bh_slot header) then Err (AnchorSlotMismatch (st_slot state) (bh_slot header))
  else Ok (mkBlock (bh_slot header) (bh_proposer_index header) (bh_parent_root header) (hash_tree_root state) body).

End Genesis.

(** ** What is accepted *)

Section Accepted.
Context {eth : EthSsz} {eth_laws : EthSszLaws} {sha : Sha256} {yaml : Yaml}.
Variable env : GenesisEnv.

Lemma validate_state_limits_Ok state cfg : validate_state_limits state cfg = Ok tt ->
  st_validators state <> [] /\ len (st_validators state) <= VALIDATOR_REGISTRY_LIMIT /\
  len (st_historical_block_hashes state) <= historical_roots_limit cfg.
Proof.
  unfold validate_state_limits. case_bool_decide as Hne; [done|]. destruct (_ <? _); [done|].
  destruct (N.ltb_spec VALIDATOR_REGISTRY_LIMIT (len (st_validators state))); [done|].
  destruct (N.ltb_spec (historical_roots_limit cfg) (len (st_historical_block_hashes state))); [done|]. intros _. by split_and!.
Qed.

(** A file gives a state of the native format, or one without validators. *)
Lemma load_state_Ok path state : load_state env path = Ok state ->
  exists bytes, ge_read env path = inl bytes /\ ((state_wf state /\ encode state = bytes) \/ st_validators state = []).
Proof.
  unfold load_state. destruct (ge_stat_len env path); [|done]. cbn [obind]. destruct (_ <? _); [done|].
  destruct (ge_read env path) as [bytes|]; [|done]. cbn [obind]. intros Hs. exists bytes. split; [done|]. unfold ssz_decode in Hs.
  destruct (from_ssz_bytes bytes) as [s|e| |] eqn:Hd; cbn [omap_err] in Hs; [|right|done..].
  - injection Hs as ->. left. by apply sc_canonical.
  - destruct (ream_format bytes) as [(r & s & _ & _ & Hr & Hv)|(e' & Hr & _)]; rewrite Hr in Hs; cbn [omap_err] in Hs; [|done]. by injection Hs as <-.
Qed.

Lemma default_genesis_time_Ok cfg t : default_genesis_time env cfg = Ok t ->
  exists now, ge_now env = Some now /\ t = now + seconds_per_slot cfg * DEFAULT_GENESIS_DELAY_SLOTS /\ u64_ok t.
Proof.
  unfold default_genesis_time, checked_mul, checked_add. destruct (ge_now env) as [now|]; [|done]. cbn [ok_or obind].
  destruct (_ <? u64_bound); [|done]. cbn [ok_or obind].
  destruct (N.ltb_spec (now + seconds_per_slot cfg * DEFAULT_GENESIS_DELAY_SLOTS) u64_bound); [|done]. intros [= <-]. by exists now.
Qed.

Lemma registry_load_Ok assignments path vs : registry_load (ge_read env) (ge_manifest_dir env) assignments path = Ok vs ->
  len vs = va_total_validators assignments /\ forall i v, vs !! i = Some v -> v_index v = N.of_nat i.
Proof.
  unfold registry_load. destruct (read_capped _ _) as [bytes| | |]; [|done..]. cbn [obind].
  destruct (reject_yaml_aliases _ _) as [[]| | |]; [|done..]. cbn [obind]. destruct (yaml_manifest bytes); [|done]. apply registry_indexed.
Qed.

(** Without a file: the genesis state of the assigned registry, and its anchor. *)
Lemma synthesized_state cfg validators_path state : load_or_synthesize_state env None cfg validators_path = Ok state ->
  exists a registry now, assignments_load (ge_read env) (ge_manifest_dir env) validators_path = Ok a /\ ge_now env = Some now /\
    len registry = va_total_validators a /\ (forall i v, registry !! i = Some v -> v_index v = N.of_nat i) /\
    state = genesis_state (now + seconds_per_slot cfg * DEFAULT_GENESIS_DELAY_SLOTS) registry /\
    anchor_block_for_state state = Ok (genesis_anchor_block state) /\
    u64_ok (now + seconds_per_slot cfg * DEFAULT_GENESIS_DELAY_SLOTS) /\ len registry <= VALIDATOR_REGISTRY_LIMIT.
Proof.
  unfold load_or_synthesize_state. intros (s & Hload & H)%obind_Ok_inv. apply obind_Ok_inv in H as ([] & Hlim & [= ->]).
  apply validate_state_limits_Ok in Hlim as (_ & Hlen & _). apply obind_Ok_inv in Hload as (a & Ha & Hload).
  apply obind_Ok_inv in Hload as (vs & Hvs & Hload). apply obind_Ok_inv in Hload as (t & Ht & [= <-]).
  destruct (assignments_load _ _ _) as [a'| | |]; [injection Ha as ->|done..]. unfold load_genesis_registry in Hvs.
  destruct (registry_load _ _ _ _) as [vs'| | |] eqn:Hreg; [injection Hvs as ->|done..]. apply registry_load_Ok in Hreg as [Hl Hi].
  apply default_genesis_time_Ok in Ht as (now & Hnow & -> & Hok). exists a, vs, now. split_and!; try done.
  unfold anchor_block_for_state. cbn -[hash_tree_root]. by rewrite bool_decide_eq_true_2.
Qed.

(** C21. What the genesis loader accepts.  The state has between one validator and as
    many as a registry can hold.  Without a state file it is the genesis state of the
    registry that the assignment names, one validator per index in order, at a time
    fifteen slots from now, and the anchor block derived from it is the genesis
    block.  With a file it is well formed and the file is its native encoding.  The
    engine anchors at the derived block unless its slot is beyond the clock. *)
Theorem genesis_loaded state_path cfg validators_path state :
  load_or_synthesize_state env state_path cfg validators_path = Ok state ->
  st_validators state <> [] /\ len (st_validators state) <= VALIDATOR_REGISTRY_LIMIT /\
  match state_path with
  | None => exists a registry now, assignments_load (ge_read env) (ge_manifest_dir env) validators_path = Ok a /\ ge_now env = Some now /\
      len registry = va_total_validators a /\ (forall i v, registry !! i = Some v -> v_index v = N.of_nat i) /\
      state = genesis_state (now + seconds_per_slot cfg * DEFAULT_GENESIS_DELAY_SLOTS) registry /\
      anchor_block_for_state state = Ok (genesis_anchor_block state)
  | Some path => state_wf state /\ ge_read env path = inl (encode state)
  end /\
  forall block, anchor_block_for_state state = Ok block -> b_slot block * INTERVALS_PER_SLOT < u64_bound ->
    exists engine, from_anchor state block = Ok engine /\ s_head engine = hash_tree_root block /\
      s_states engine = {[ hash_tree_root block := state ]}.
Proof.
  intros H. pose proof H as Hload. unfold load_or_synthesize_state in Hload. apply obind_Ok_inv in Hload as (s & Hload & Hl).
  apply obind_Ok_inv in Hl as ([] & Hlim & [= ->]). apply validate_state_limits_Ok in Hlim as (Hne & Hlen & _). split_and!; [done|done| |].
  - destruct state_path as [path|].
    + apply load_state_Ok in Hload as (bytes & Hr & [[Hwf <-]|Hnil]); done.
    + apply synthesized_state in H as (a & registry & now & Ha & Hn & Hc & Hi & Hs & Hb & _). by exists a, registry, now.
  - intros block Hb Hs. unfold anchor_block_for_state in Hb. destruct (negb _); [done|]. destruct (negb _); [done|]. injection Hb as <-.
    unfold from_anchor, seed_anchor, checked_mul. cbn [b_state_root b_slot] in *. rewrite bool_decide_eq_true_2, (proj2 (N.ltb_lt _ _) Hs) by done.
    cbn [negb ok_or obind]. eexists. split; [done|]. unfold insert_block. cbn [s_blocks]. rewrite lookup_empty. split; [done|]. apply insert_empty.
Qed.

Lemma compact_refused path cfg validators_path r size :
  ream_wf r -> ge_read env path = inl (ream_bytes r) -> ge_stat_len env path = inl size -> size <= MAX_GENESIS_STATE_BYTES ->
  (forall s : State, state_wf s -> encode s <> ream_bytes r) ->
  load_or_synthesize_state env (Some path) cfg validators_path = Err EmptyGenesisRegistry.
Proof.
  intros Hwf Hr Hst Hle Hnat. unfold load_or_synthesize_state, load_state. rewrite Hst. cbn [obind].
  rewrite (proj2 (N.ltb_ge _ _) Hle), Hr. cbn [obind]. unfold ssz_decode.
  pose proof (sc_returned (T:=State) (ream_bytes r)) as Hret.
  destruct (from_ssz_bytes (ream_bytes r)) as [s|e| |] eqn:Hd; cbn [omap_err]; [|by rewrite from_ream_Ok|done..].
  apply sc_canonical in Hd as [Hs He]. by destruct (Hnat s).
Qed.

(** A compact state without history is shorter than any native one. *)
Lemma compact_genesis_short r : ream_wf r -> rs_historical_block_hashes r = [] -> rs_justifications_roots r = [] ->
  len (ream_bytes r) = REAM_LEAN_STATE_FIXED_PART_LEN.
Proof.
  intros [_ _ _ _ _ Hs Hsl _ Hv Hvl] Hh Hr. rewrite Hh in Hsl. rewrite Hr in Hvl.
  assert (Hz : forall n (bl : Bitlist n), bitlist_wf bl -> blist_length bl = 0 -> blist_bytes bl = []).
  { intros n bl Hwf H0. pose proof (wf_bytes _ Hwf) as Hb. rewrite H0 in Hb. by destruct (blist_bytes bl). }
  unfold ream_bytes, ream_tails. rewrite Hh, Hr, (Hz _ _ Hs Hsl), (Hz _ _ Hv Hvl). cbn [fmap list_fmap concat app].
  rewrite app_nil_r, !len_app, !fc_len, len_offset_words. done.
Qed.

(** A node cannot start from a genesis file in the compact layout of the other
    clients: the loader decodes every such file, and refuses it for its empty
    registry, whatever validator count the file declares. *)
Theorem compact_genesis_refused path cfg validators_path r size :
  ream_wf r -> rs_historical_block_hashes r = [] -> rs_justifications_roots r = [] ->
  ge_read env path = inl (ream_bytes r) -> ge_stat_len env path = inl size -> size <= MAX_GENESIS_STATE_BYTES ->
  load_or_synthesize_state env (Some path) cfg validators_path = Err EmptyGenesisRegistry.
Proof.
  intros Hwf Hh Hr Hread Hst Hle. eapply compact_refused; [done..|]. intros s Hs He.
  apply (f_equal len) in He. rewrite compact_genesis_short, len_encode_State in He by done.
  change REAM_LEAN_STATE_FIXED_PART_LEN with 112 in He. change STATE_FIXED_PART_LEN with 228 in He. lia.
Qed.

End Accepted.

(** ** A concrete genesis *)

Module GenesisExample.

#[export] Instance yaml : Yaml := {|
  yaml_assignments := fun _ => inl [("lean_0", [0])]%string;
  yaml_manifest := fun _ => inl [String.string_of_list_byte (to_hex (bv_zero 52))];
|}.

Definition env (file : list u8) : GenesisEnv := mkGenesisEnv (fun _ => inl file) (fun _ => inl 1000) (fun _ => inl DEVNET_CONFIG) (Some 1700000000) "/".

Lemma genesis_loaded_witness : exists state,
  load_or_synthesize_state (eth := eth_ssz_reference) (sha := toy_sha256) (env []) None DEVNET_CONFIG "validators.yaml" = Ok state /\
  len (st_validators state) = 1 /\ anchor_block_for_state (sha := toy_sha256) state = Ok (genesis_anchor_block (sha := toy_sha256) state).
Proof.
  destruct (load_or_synthesize_state (eth := eth_ssz_reference) (sha := toy_sha256) (env []) None DEVNET_CONFIG "validators.yaml") as [state| | |] eqn:E;
    [|by vm_compute in E..].
  exists state. split; [done|]. pose proof (genesis_loaded (eth_laws := eth_ssz_reference_laws) (env []) None DEVNET_CONFIG "validators.yaml" state E)
    as (_ & _ & (a & registry & now & Ha & _ & Hl & _ & -> & Hb) & _). split; [|exact Hb].
  vm_compute in Ha. injection Ha as <-. exact Hl.
Defined.

Lemma compact_genesis_refused_witness :
  load_or_synthesize_state (eth := eth_ssz_reference) (sha := toy_sha256) (env (ream_bytes (eth := eth_ssz_reference) toy_ream))
    (Some "genesis.ssz"%string) DEVNET_CONFIG "validators.yaml" = Err EmptyGenesisRegistry.
Proof.
  apply (compact_genesis_refused (eth_laws := eth_ssz_reference_laws) _ _ _ _ toy_ream 1000); try done.
Defined.

End GenesisExample.
