(* ===== verification/Keygen.v ===== *)
(** * Key generation ([lean-cli/src/keygen.rs], [lean-cli/src/validator_keygen.rs])

    The offline commands that write a node identity, and the secret keys of the
    validators with the manifest of their public keys.  Permission bits are not
    modelled; a step that sets them may fail.

    Shown: the files of a successful run load, the registry has the public keys in
    order, and what a loaded key signs verifies under the public key at its position
    ([validator_keys_load]); the peer id that is reported is the one of the host that
    uses the file ([private_key_peer_id]). *)

From stdpp Require Import base numbers list gmap sets strings pretty.
From Stdlib Require Import Strings.Byte Strings.Ascii ZArith Lia.
From S2P Require Import Prelude Config Types Merkle Codec Slot Containers State Ots Storage Signer Duties Host.

(** What the commands do to the file system and the random generator, besides
    [HostFs]. *)
Class KeygenFs {lib : HostLib} (F : Type) := {
  path_exists : string -> F -> bool;
  set_owner_only_permissions : string -> F -> option IoError * F;
  (** [fill_bytes] of the random generator. *)
  fill_bytes : F -> Bytes32 * F;
}.

Inductive KeygenError {ls : LeanSig} :=
| CreateOutputDirectory (parent : string) (source : IoError)
| WriteOutputFile (path : string) (source : IoError)
| SetKeyPermissions (path : string) (source : IoError)
| EncodeKeypair (source : string)
| IdentityError (source : HostError)
| CountOutOfRange (count : N)
| MisalignedActivation (activation_epoch : N)
| OutputExists (path : string)
| GenerateValidatorKey (index : N) (source : CryptoError).

(** ** Files *)

Section Files.
Context {ls : LeanSig} {lib : HostLib} {F : Type} {fs : HostFs F} {kfs : KeygenFs F}.

Definition ensure_parent_dir (path : string) : M F KeygenError unit := fun f =>
  match create_parent path f with
  | (Some (parent, source), f) => (Err (CreateOutputDirectory parent source), f)
  | (None, f) => (Ok tt, f)
  end.

Definition write_new_file (path : string) (bytes : list u8) : M F KeygenError unit :=
  let! _ := ensure_parent_dir path in
  fun f => match write_new path bytes f with
           | (Some source, f) => (Err (WriteOutputFile path source), f)
           | (None, f) => (Ok tt, f)
           end.

Definition write_secret_bytes (path : string) (bytes : list u8) : M F KeygenError unit :=
  let! _ := write_new_file path bytes in
  fun f => match set_owner_only_permissions path f with
           | (Some source, f) => (Err (SetKeyPermissions path source), f)
           | (None, f) => (Ok tt, f)
           end.

(** ** The identity of a node *)

Definition generate_and_write (output_path : string) : M F KeygenError string := fun f =>
  let '(keypair, f) := generate_ed25519 f in
  let peer_id := to_peer_id keypair in
  match to_protobuf_encoding keypair with
  | inr source => (Err (EncodeKeypair source), f)
  | inl bytes => (let! _ := write_secret_bytes output_path bytes in mret peer_id) f
  end.

Definition peer_id_from_file (path : string) (f : F) : Outcome KeygenError string :=
  let? identity_path := omap_err IdentityError (IdentityPath_new path) in
  omap_err IdentityError (load_existing_peer_id identity_path f).

End Files.

(** ** Validator keys *)

(** [hex::encode]. *)
Definition hex_encode (bytes : list u8) : list u8 :=
  concat ((fun b => [hex_digit (Byte.to_N b / 16); hex_digit (Byte.to_N b mod 16)]) <$> bytes).

Definition manifest_line (pubkey : PublicKey) : list u8 :=
  String.list_byte_of_string "  - " ++ hex_encode (as_slice pubkey) ++ [x0a].

Definition serialize_manifest (pubkeys : list PublicKey) : list u8 :=
  match pubkeys with
  | [] => String.list_byte_of_string "genesis_validators: []" ++ [x0a]
  | _ => String.list_byte_of_string "genesis_validators:" ++ [x0a] ++ concat (manifest_line <$> pubkeys)
  end.

Record KeygenParams := mkKeygenParams {
  kp_count : N;
  kp_out_dir : string;
  kp_manifest_path : string;
  kp_activation_epoch : N;
}.

Definition MAX_COUNT : N := VALIDATOR_REGISTRY_LIMIT.

Section ValidatorKeys.
Context {sha : Sha256} {ls : LeanSig} {sw : SchemeWire} {lib : HostLib} {F : Type} {fs : HostFs F} {kfs : KeygenFs F}.

Definition SQRT_LIFETIME : N := N.sqrt LIFETIME.
Definition SHARED_KEYSET_ACTIVE_EPOCHS : N := N.shiftl SQRT_LIFETIME 2.

(** [KeygenParams::validate]. *)
Definition keygen_validate (self : KeygenParams) : Outcome KeygenError unit :=
  if negb ((1 <=? kp_count self) && (kp_count self <=? MAX_COUNT)) then Err (CountOutOfRange (kp_count self))
  else if negb (kp_activation_epoch self mod SQRT_LIFETIME =? 0) then Err (MisalignedActivation (kp_activation_epoch self))
  else Ok tt.

(** [crypto::generate]. *)
Definition generate (activation_epoch num_active_epochs : N) : M F CryptoError (PublicKey * SigningKey) := fun f =>
  let '(seed, f) := fill_bytes f in (generate_from_seed seed activation_epoch num_active_epochs, f).

Fixpoint ensure_absent (paths : list string) (f : F) : Outcome KeygenError unit :=
  match paths with
  | [] => Ok tt
  | path :: paths => if path_exists path f then Err (OutputExists path) else ensure_absent paths f
  end.

(** The loop over the indices: a key, and its secret file. *)
Fixpoint generate_loop (out_dir : string) (activation active_epochs : N) (indices : list N) : M F KeygenError (list PublicKey) :=
  match indices with
  | [] => mret []
  | index :: indices =>
      let! (pubkey, signing_key) := (fun f => let '(r, f) := generate activation active_epochs f in (omap_err (GenerateValidatorKey index) r, f)) in
      let! _ := write_secret_bytes (validator_secret_path out_dir index) (key_state_to_ssz_bytes (to_record signing_key)) in
      let! pubkeys := generate_loop out_dir activation active_epochs indices in
      mret (pubkey :: pubkeys)
  end.

Definition generate_validator_keys (params : KeygenParams) : M F KeygenError (list PublicKey) :=
  let! _ := mlift (keygen_validate params) in
  let indices := range 0 (kp_count params) in
  let! _ := (fun f => (ensure_absent (kp_manifest_path params :: (validator_secret_path (kp_out_dir params) <$> indices)) f, f)) in
  let! pubkeys := generate_loop (kp_out_dir params) (kp_activation_epoch params) SHARED_KEYSET_ACTIVE_EPOCHS indices in
  let! _ := write_new_file (kp_manifest_path params) (serialize_manifest pubkeys) in
  mret pubkeys.

End ValidatorKeys.

(** ** The files of a run *)

Section Run.
Context {sha : Sha256} {ls : LeanSig} {sw : SchemeWire} {lib : HostLib} {F : Type} {fs : HostFs F} {kfs : KeygenFs F}.

(** What could be read can be read still. *)
Definition kept (f f' : F) : Prop := forall path bytes, fs_read path f = inl bytes -> fs_read path f' = inl bytes.

#[export] Instance kept_preorder : PreOrder kept.
Proof. split; [by intros f path bytes|]. intros f1 f2 f3 H1 H2 path bytes H. by apply H2, H1. Qed.

Class KeygenLaws : Prop := {
  (** Creating directories, setting permissions and drawing random bytes leave
      contents alone; a file that is created anew is not one that could be read. *)
  parent_kept : forall path f, kept f (create_parent path f).2;
  write_kept : forall path bytes f f', write_new path bytes f = (None, f') -> kept f f';
  permissions_kept : forall path f, kept f (set_owner_only_permissions path f).2;
  random_kept : forall f, kept f (fill_bytes f).2;
}.

Context {host_laws : HostLaws} {laws : LeanSigLaws} {keygen_laws : KeygenLaws}.

Lemma write_new_file_Ok path bytes f f' : write_new_file path bytes f = (Ok tt, f') -> fs_read path f' = inl bytes /\ kept f f'.
Proof.
  intros H. unfold write_new_file in H. apply mbind_Ok_split in H as ([] & f1 & H1 & H2). unfold ensure_parent_dir in H1.
  pose proof (parent_kept path f) as Hp. destruct (create_parent path f) as [[[]|] f0]; [done|]. injection H1 as <-. cbn in Hp.
  destruct (write_new path bytes f0) as [[]f2] eqn:Hw; [done|]. injection H2 as <-.
  split; [by apply (read_written _ _ _ _ Hw)|]. etrans; [exact Hp|]. by apply (write_kept _ _ _ _ Hw).
Qed.

Lemma write_secret_bytes_Ok path bytes f f' : write_secret_bytes path bytes f = (Ok tt, f') -> fs_read path f' = inl bytes /\ kept f f'.
Proof.
  intros H. unfold write_secret_bytes in H. apply mbind_Ok_split in H as ([] & f1 & H1%write_new_file_Ok & H2). destruct H1 as [Hr Hk].
  pose proof (permissions_kept path f1) as Hp. destruct (set_owner_only_permissions path f1) as [[]f2]; [done|]. injection H2 as <-. cbn in Hp.
  split; [by apply Hp|]. by etrans.
Qed.

Lemma generate_loop_Ok out_dir a n indices f pubkeys f' : generate_loop out_dir a n indices f = (Ok pubkeys, f') ->
  kept f f' /\ length pubkeys = length indices /\
  forall j index pubkey, indices !! j = Some index -> pubkeys !! j = Some pubkey ->
    exists seed key, generate_from_seed seed a n = Ok (pubkey, key) /\
      fs_read (validator_secret_path out_dir index) f' = inl (key_state_to_ssz_bytes (to_record key)).
Proof.
  revert f pubkeys. induction indices as [|i indices IH]; intros f pubkeys H; cbn [generate_loop] in H.
  { injection H as <- <-. by split. }
  apply mbind_Ok_split in H as ([pk k] & f1 & Hg & H). apply mbind_Ok_split in H as ([] & f2 & Hw%write_secret_bytes_Ok & H).
  apply mbind_Ok_split in H as (pks & f3 & Hrest & H). injection H as <- <-. destruct Hw as [Hread Hk2].
  unfold generate in Hg. pose proof (random_kept f) as Hk1. destruct (fill_bytes f) as [seed f0]. cbn in Hk1.
  destruct (generate_from_seed seed a n) as [[pk' k']| | |] eqn:Hgen; [injection Hg as -> -> ->|done..].
  destruct (IH f2 pks Hrest) as (Hk3 & Hl & Hall). split; [etrans; [exact Hk1|etrans; [exact Hk2|exact Hk3]]|]. split; [cbn; by f_equal|].
  intros [|j] index pubkey Hi Hp; cbn in Hi, Hp; [|by apply (Hall j)].
  simplify_eq. exists seed, k. split; [done|]. by apply Hk3.
Qed.

(** ** Reading them back *)

(** A key just generated is restored as it was. *)
Lemma fresh_record seed a n pk key : generate_from_seed seed a n = Ok (pk, key) ->
  key_state_from_ssz_bytes (key_state_to_ssz_bytes (to_record key)) = Ok (to_record key) /\ from_record (to_record key) = Ok key.
Proof.
  intros Hg. pose proof (reach_generate seed a n pk key Hg) as Hr.
  pose proof (key_reachable_record_ok key Hr) as (H1 & H2 & H3). split.
  { unfold key_state_from_ssz_bytes, key_state_to_ssz_bytes. by rewrite ots_decode_encode. }
  destruct (generate_from_seed_cases seed a n) as [[e E]|(lpk & sk & wire & Hk & _ & Hw & E)]; rewrite Hg in E; [done|]. injection E as -> ->.
  pose proof (key_gen_window _ _ _ _ _ Hk) as [_ [Hfit Hlife]]. pose proof (key_gen_aligned _ _ _ _ _ Hk) as Hal.
  unfold from_record, to_record, activation_interval in *. cbn in *. destruct (get_activation_interval sk) as [start stop]. cbn in *.
  unfold usize_try_from. rewrite (proj2 (N.ltb_lt _ _) H1), (proj2 (N.ltb_lt _ _) H2). cbn [ok_or obind].
  unfold generate_from_seed, checked_add. pose proof (key_gen_window _ _ _ _ _ Hal) as [_ Hs].
  pose proof lifetime_u32. rewrite (proj2 (N.ltb_lt (start + (stop - start)) u64_bound)) by (change u64_bound with 18446744073709551616; lia).
  cbn [ok_or obind]. rewrite (proj2 (N.ltb_ge LIFETIME (start + (stop - start)))) by lia.
  rewrite Hal. cbn [no_err omap_err obind]. by rewrite Hw.
Qed.

Definition read_text (f : F) (path : string) : list u8 + string :=
  match fs_read path f with inl bytes => inl bytes | inr e => inr (io_text e) end.

Lemma load_loop_fresh {S} dir local keys f (s : S) :
  (forall v, v ∈ local -> exists seed a n pk key, generate_from_seed seed a n = Ok (pk, key) /\
     fs_read (validator_secret_path dir v) f = inl (key_state_to_ssz_bytes (to_record key))) ->
  exists signer, load_loop (read_text f) dir (fun _ record => mret record) local keys s = (Ok signer, s) /\
    (forall v, v ∉ local -> ls_keys signer !! v = keys !! v) /\
    forall v seed a n pk key, v ∈ local -> generate_from_seed seed a n = Ok (pk, key) ->
      fs_read (validator_secret_path dir v) f = inl (key_state_to_ssz_bytes (to_record key)) -> ls_keys signer !! v = Some key.
Proof.
  revert keys. induction local as [|v local IH]; intros keys Hall; cbn [load_loop].
  { eexists. split; [done|]. split; [done|]. by intros ? ? ? ? ? ? ?%elem_of_nil. }
  destruct (Hall v) as (seed & a & n & pk & key & Hg & Hr); [set_solver|]. destruct (fresh_record _ _ _ _ _ Hg) as [Hd Hf].
  unfold read_secret_record, read_text at 1. rewrite Hr. cbn [obind]. rewrite Hd. cbn [omap_err]. mstep. rewrite Hf. cbn [omap_err]. mstep.
  destruct (IH (<[v:=key]> keys)) as (signer & E & Hout & Hin); [intros w Hw; apply Hall; set_solver|]. exists signer. split; [exact E|]. split.
  - intros w Hw. rewrite Hout, lookup_insert_ne by set_solver. done.
  - intros w seed' a' n' pk' key' Hw Hg' Hr'. destruct (decide (w ∈ local)) as [Hl|Hl]; [by eapply Hin|].
    assert (w = v) as -> by set_solver. rewrite Hout, lookup_insert_eq by done. f_equal. rewrite Hr in Hr'. injection Hr' as Heq.
    destruct (fresh_record _ _ _ _ _ Hg') as [Hd' Hf']. rewrite <- Heq, Hd in Hd'.
    assert (Hrec : to_record key = to_record key') by congruence. rewrite <- Hrec in Hf'. congruence.
Qed.

(** The text of a manifest: below the size cap, and without anchors and aliases. *)
Lemma hex_digit_range v : v < 16 -> exists k, hex_digit v = u8_of_N k /\ (48 <= k < 58 \/ 97 <= k < 103).
Proof.
  intros Hv. unfold hex_digit. destruct (N.ltb_spec v 10); eexists; (split; [done|]); [left|right]; lia.
Qed.

Lemma hex_digit_plain v : v < 16 -> hex_digit v <> x26 /\ hex_digit v <> x2a /\ hex_digit v <> x78 /\ hex_digit v <> x58.
Proof.
  intros (k & -> & Hk)%hex_digit_range.
  split_and!; intros H%(f_equal Byte.to_N); rewrite to_N_u8_of_N, N.mod_small in H by lia; cbn in H; lia.
Qed.

Lemma hex_encode_chars bytes : Forall (fun c => exists v, v < 16 /\ c = hex_digit v) (hex_encode bytes).
Proof.
  unfold hex_encode. induction bytes as [|b bytes IH]; csimpl; [constructor|]. pose proof (byte_to_N_bound b).
  constructor; [eexists; split; [|done]; dlia|]. constructor; [eexists; split; [|done]; dlia|]. exact IH.
Qed.

Lemma strip_0x_hex bytes : strip_0x (hex_encode bytes) = hex_encode bytes.
Proof.
  pose proof (hex_encode_chars bytes) as Hall. destruct (hex_encode bytes) as [|a [|b rest]]; try done. cbn.
  apply Forall_cons in Hall as [_ Hall]. apply Forall_cons in Hall as [(v & Hv & ->) _]. destruct (hex_digit_plain v Hv) as (_ & _ & H1 & H2).
  rewrite (bool_decide_eq_false_2 _ H1), (bool_decide_eq_false_2 _ H2). by rewrite andb_false_r.
Qed.

(** The bare hex of a manifest reads back. *)
Lemma bv_try_from_bare_hex {n} (v : ByteVector n) : bv_try_from_hex n (hex_encode (as_slice v)) = Ok v.
Proof.
  unfold bv_try_from_hex. rewrite strip_0x_hex. unfold hex_encode. rewrite length_hex_body, bv_len.
  replace (2 * n mod 2) with 0 by dlia. rewrite N.eqb_refl. cbn [negb]. rewrite N.eqb_refl. cbn [negb].
  rewrite decode_hex_pairs_encode. cbn [obind]. by rewrite bv_of_list_as_slice.
Qed.

Lemma registry_loop_manifest position (pubkeys : list PublicKey) :
  registry_loop position ((fun pk => String.string_of_list_byte (hex_encode (as_slice pk))) <$> pubkeys) =
  Ok (imap (fun i pk => mkValidator pk (position + N.of_nat i)) pubkeys).
Proof.
  revert position. induction pubkeys as [|pk pubkeys IH]; intros position; csimpl; [done|].
  rewrite String.list_byte_of_string_of_list_byte, bv_try_from_bare_hex. cbn [omap_err obind]. rewrite IH. cbn [obind].
  rewrite N.add_0_r. do 2 f_equal. apply imap_ext. intros i x _. cbn. f_equal. lia.
Qed.

Lemma manifest_text (pubkeys : list PublicKey) : len pubkeys <= MAX_COUNT ->
  len (serialize_manifest pubkeys) <= MAX_VALIDATORS_FILE_BYTES /\
  existsb (fun b => bool_decide (b = x26) || bool_decide (b = x2a)) (serialize_manifest pubkeys) = false.
Proof.
  intros Hl. change MAX_COUNT with 4096 in Hl.
  assert (Hlines : len (concat (manifest_line <$> pubkeys)) = 109 * len pubkeys /\
    existsb (fun b => bool_decide (b = x26) || bool_decide (b = x2a)) (concat (manifest_line <$> pubkeys)) = false).
  { clear Hl. induction pubkeys as [|pk pubkeys [IHl IHe]]; [done|]. rewrite fmap_cons. cbn [concat]. rewrite existsb_app, IHe, orb_false_r, len_app, IHl.
    unfold manifest_line. rewrite !existsb_app, !len_app. split.
    - unfold hex_encode. rewrite length_hex_body, bv_len, (len_cons pk). change (len (String.list_byte_of_string "  - ")) with 4. change (len [x0a]) with 1. lia.
    - match goal with |- existsb ?P (String.list_byte_of_string _) || _ = _ =>
        change (existsb P (String.list_byte_of_string "  - ")) with false; change (existsb P [x0a]) with false end.
      rewrite orb_false_r, orb_false_l. apply not_true_is_false. intros (c & Hc & Hb)%existsb_exists.
      pose proof (hex_encode_chars (as_slice pk)) as Hall. rewrite Forall_forall in Hall. apply list_elem_of_In in Hc.
      destruct (Hall c Hc) as (v & Hv & ->). destruct (hex_digit_plain v Hv) as (H1 & H2 & _).
      by rewrite (bool_decide_eq_false_2 _ H1), (bool_decide_eq_false_2 _ H2) in Hb. }
  destruct Hlines as [Hlen He]. unfold serialize_manifest. destruct pubkeys as [|pk pubkeys]; [by split|]. cbv iota.
  rewrite !len_app, Hlen, !existsb_app, He. split; [|done].
  change (len (String.list_byte_of_string "genesis_validators:")) with 19. change (len [x0a]) with 1.
  change MAX_VALIDATORS_FILE_BYTES with 1048576. lia.
Qed.

Lemma registry_load_manifest {yaml : Yaml} manifest_dir f a path pubkeys :
  fs_read path f = inl (serialize_manifest pubkeys) -> is_absolute path = true -> len pubkeys <= MAX_COUNT ->
  va_total_validators a = len pubkeys ->
  yaml_manifest (serialize_manifest pubkeys) = inl ((fun pk => String.string_of_list_byte (hex_encode (as_slice pk))) <$> pubkeys) ->
  registry_load (fun p => fs_read p f) manifest_dir a path = Ok (imap (fun i pk => mkValidator pk (N.of_nat i)) pubkeys).
Proof.
  intros Hr Habs Hmax Ha Hy. destruct (manifest_text pubkeys Hmax) as [Hlen He]. unfold registry_load, resolve_path. rewrite Habs.
  unfold read_capped. rewrite Hr. rewrite take_ge by (unfold len in Hlen; lia).
  unfold check_file_size. rewrite (proj2 (N.ltb_ge _ _) Hlen). cbn [obind]. unfold reject_yaml_aliases. rewrite He. cbn [obind].
  rewrite Hy. cbn [obind]. unfold from_pubkey_hexes. rewrite Ha, len_fmap, N.eqb_refl. cbn [negb]. apply registry_loop_manifest.
Qed.

(** What a key signs, now or later, verifies under the public key it came with. *)
Lemma generated_verifies seed a n pk key key' epoch message sig key'' :
  generate_from_seed seed a n = Ok (pk, key) -> advanced key key' -> sign epoch message key' = (Ok sig, key'') ->
  verify pk epoch message sig = Ok tt.
Proof.
  intros Hg Hadv Hs. destruct (sign_cases epoch message key') as [(e & He & _)|(raw & w & Hraw & Hw & Hp & _ & He)];
    rewrite Hs in He; [done|]. injection He as <- _.
  apply (verify_signed seed a n pk key key' epoch message raw sig Hg Hadv); [|done..].
  destruct (generate_from_seed_cases seed a n) as [[e E]|(lpk & sk & wire & Hk & _ & _ & E)]; rewrite Hg in E; [done|]. injection E as -> ->.
  destruct (key_gen_window _ _ _ _ _ Hk) as [_ [_ Hlife]]. destruct (advanced_same_key _ _ Hadv) as [_ Hact].
  unfold activation_interval in Hact. cbn in Hact. destruct (prepared_within (sk_secret key')) as [_ Hle]. rewrite Hact in Hle.
  apply andb_true_iff in Hp as [_ Hp%N.ltb_lt]. unfold prepared_interval in Hp. lia.
Qed.


(** The peer id reported when a private key is generated is the one reported for
    the file later, and the one of a host that starts with the file. *)
Theorem private_key_peer_id path f peer_id f1 f2 : path <> EmptyString ->
  generate_and_write path f = (Ok peer_id, f1) -> kept f1 f2 ->
  peer_id_from_file path f2 = Ok peer_id /\
  exists keypair, load_or_generate path f2 = (Ok keypair, f2) /\ to_peer_id keypair = peer_id.
Proof.
  intros Hp Hrun Hkept. unfold generate_and_write in Hrun. destruct (generate_ed25519 f) as [kp f0].
  destruct (to_protobuf_encoding kp) as [bytes|] eqn:Hb; [|done].
  apply mbind_Ok_split in Hrun as ([] & f' & [Hr _]%write_secret_bytes_Ok & Hrun). injection Hrun as <- <-. apply Hkept in Hr.
  pose proof (protobuf_roundtrip _ _ Hb) as Hd. unfold peer_id_from_file, IdentityPath_new, load_existing_peer_id, load_or_generate, decode_existing.
  rewrite (bool_decide_eq_false_2 _ Hp). cbn [omap_err obind]. rewrite Hr, Hd. split; [done|]. by exists kp.
Qed.

End Run.

(** ** A concrete run *)

Module KeygenExample.
#[local] Existing Instances toy_sha256 ToyScheme.scheme ToyScheme.wire ToyScheme.scheme_laws HostExample.lib HostExample.fs HostExample.laws.

#[export] Instance kfs : KeygenFs (gmap string (list u8)) := {|
  path_exists := fun path f => bool_decide (is_Some (f !! path));
  set_owner_only_permissions := fun _ f => (None, f);
  fill_bytes := fun f => (bv_zero 32, f);
|}.

#[export] Instance keygen_laws : KeygenLaws.
Proof.
  split; try done. intros path bytes f f' Hw p b. cbn in *. destruct (f !! path) eqn:Hp; [done|]. injection Hw as <-.
  destruct (decide (p = path)) as [->|Hne]; [by rewrite Hp|]. by rewrite lookup_insert_ne.
Qed.

Definition params : KeygenParams := mkKeygenParams 2 "/keys" "/genesis_validators.yaml" 16.
Definition run := generate_validator_keys params (∅ : gmap string (list u8)).
Definition pubkeys : list PublicKey := match run.1 with Ok pks => pks | _ => [] end.

#[export] Instance yaml : Yaml := {|
  yaml_assignments := fun _ => inr "none"%string;
  yaml_manifest := fun _ => inl ((fun pk : PublicKey => String.string_of_list_byte (hex_encode (as_slice pk))) <$> pubkeys);
|}.

Lemma keygen_run_ok : run = (Ok pubkeys, run.2).
Proof.
  assert (Hok : match run.1 with Ok _ => true | _ => false end = true) by (vm_compute; reflexivity).
  unfold pubkeys. destruct run as [[] f]; done.
Qed.


Definition identity_run := generate_and_write "key" (∅ : gmap string (list u8)).

Lemma identity_ok : identity_run = (Ok "A"%string, identity_run.2).
Proof.
  assert (Hok : match identity_run.1 with Ok id => bool_decide (id = "A"%string) | _ => false end = true) by (vm_compute; reflexivity).
  destruct identity_run as [[id| | |] f]; try done. cbn in Hok. apply bool_decide_eq_true in Hok as ->. done.
Qed.

Lemma private_key_peer_id_witness : peer_id_from_file "key" identity_run.2 = Ok "A"%string.
Proof.
  destruct (private_key_peer_id "key" (∅ : gmap string (list u8)) "A" identity_run.2 identity_run.2 ltac:(discriminate) identity_ok) as [H _];
    [reflexivity|exact H].
Defined.

End KeygenExample.
