(* ===== verification/Lifecycle.v ===== *)
(** * Node life cycle ([runtime/src/core]) and the services of a node

    [Node] starts its services in order, stops them in reverse, and unwinds a
    start that fails.  A call is a sequence of sections between await points, so
    that calls may overlap ([node_step]); [node_call] runs one to its end.  The
    services are an interface [Managed]; [DevnetSvc] are the six that
    [node/src/devnet.rs] wires.

    Shown: a start brings up all services or none, a stop reaches every service in
    reverse order, and over any sequence of calls the services that run are those
    the node has recorded ([lifecycle_consistent]); a stop that overlaps a start is
    lost ([stop_during_start_lost]); a wired node starts at most once
    ([devnet_starts_once]). *)

From stdpp Require Import base numbers list gmap sets strings.
From Stdlib Require Import Strings.Byte ZArith Lia.
From S2P Require Import Prelude.

(** ** Node ([node.rs], [config.rs], [error.rs]) *)

(** Milliseconds. *)
Definition DEFAULT_SHUTDOWN_TIMEOUT : N := 5000.

Record Node (Svc : Type) := mkNode {
  nd_shutdown_timeout : N;
  nd_chain : option Svc;
  nd_p2p : option Svc;
  nd_sync : option Svc;
  nd_duties : option Svc;
  nd_http : option Svc;
  nd_metrics : option Svc;
}.
Arguments mkNode {Svc}.
Arguments nd_shutdown_timeout {Svc}.
Arguments nd_chain {Svc}.
Arguments nd_p2p {Svc}.
Arguments nd_sync {Svc}.
Arguments nd_duties {Svc}.
Arguments nd_http {Svc}.
Arguments nd_metrics {Svc}.

Record ServiceFailure := mkServiceFailure { sf_service : string; sf_source : string }.

Inductive NodeError :=
| StartFailed (failure : ServiceFailure)
| StopFailed (failure : ServiceFailure)
| ServicesUnhealthy (errors : list ServiceFailure)
| NodeAlreadyStarted.

(** A stop token: never cancelled, or after a time. *)
Definition derive_stop_token (shutdown_timeout : N) : option N :=
  if shutdown_timeout =? 0 then None else Some shutdown_timeout.

(** The trait [Service].  A stop that has not finished when its token is cancelled
    gives [None]. *)
Class Managed (Svc W : Type) := {
  svc_start : Svc -> M W string unit;
  svc_stop : Svc -> option N -> M W string (option unit);
  svc_status : Svc -> W -> option string;
}.

Section Node.
Context {Svc W : Type} {managed : Managed Svc W}.
Variable node : Node Svc.

Definition SLOT_ORDER : list (string * (Node Svc -> option Svc)) :=
  [("chain", nd_chain); ("p2p", nd_p2p); ("sync", nd_sync); ("duties", nd_duties); ("http", nd_http); ("metrics", nd_metrics)]%string.

Definition ordered_slots : list (string * Svc) :=
  omap (fun '(name, accessor) => svc ← accessor node; Some (name, svc)) SLOT_ORDER.

(** ** Calls ([lifecycle.rs])

    The cell [state] of the node, and the world of its services. *)
Definition NodeState : Type := option (list (string * Svc)) * W.

Definition on_services {E A} (c : M W E A) : M NodeState E A := fun '(cell, w) => let '(r, w) := c w in (r, (cell, w)).
Definition set_cell {E} (cell : option (list (string * Svc))) : M NodeState E unit := fun '(_, w) => (Ok tt, (cell, w)).

Definition stop_one (svc : Svc) (cancel : option N) : M W string unit :=
  let! result := svc_stop svc cancel in
  match result, cancel with
  | Some _, _ => mret tt
  | None, Some _ => mthrow "shutdown deadline exceeded"%string
  | None, None => mlift Diverge
  end.

(** A call under way: what it has to do next. *)
Inductive NodeTask :=
| Starting (todo started : list (string * Svc))
| Unwinding (todo : list (string * Svc)) (failure : ServiceFailure)
| Stopping (todo : list (string * Svc)) (first_error : option ServiceFailure).

Inductive NodeCall := CallStart | CallStop.

(** The section before the first await; [None]: the call has returned. *)
Definition node_begin (call : NodeCall) : M NodeState NodeError (option NodeTask) := fun '(cell, w) =>
  match call, cell with
  | CallStart, Some _ => (Err NodeAlreadyStarted, (cell, w))
  | CallStart, None => (Ok (Some (Starting ordered_slots [])), (Some [], w))
  | CallStop, None => (Ok None, (None, w))
  | CallStop, Some started => (Ok (Some (Stopping (reverse started) None)), (None, w))
  end.

(** The result of a service call: its failure is a value. *)
Definition attempt {A} (c : M W string A) : M W NodeError (A + string) := fun w =>
  match c w with
  | (Ok a, w) => (Ok (inl a), w)
  | (Err e, w) => (Ok (inr e), w)
  | (Panic, w) => (Panic, w)
  | (Diverge, w) => (Diverge, w)
  end.

(** A round of [stop_services_reverse]: the first failure is kept. *)
Definition stop_round (name : string) (svc : Svc) (first_error : option ServiceFailure)
    : M NodeState NodeError (option ServiceFailure) :=
  let! r := on_services (attempt (stop_one svc (derive_stop_token (nd_shutdown_timeout node)))) in
  mret (match r, first_error with inr source, None => Some (mkServiceFailure name source) | _, _ => first_error end).

Definition node_resume (task : NodeTask) : M NodeState NodeError (option NodeTask) :=
  match task with
  | Starting [] started => let! _ := set_cell (Some started) in mret None
  | Starting ((name, svc) :: todo) started =>
      let! r := on_services (attempt (svc_start svc)) in
      match r with
      | inl _ => mret (Some (Starting todo (started ++ [(name, svc)])))
      | inr source => mret (Some (Unwinding (reverse started) (mkServiceFailure name source)))
      end
  | Unwinding [] failure => let! _ := set_cell None in mthrow (StartFailed failure)
  | Unwinding ((name, svc) :: todo) failure =>
      let! _ := stop_round name svc None in mret (Some (Unwinding todo failure))
  | Stopping [] None => mret None
  | Stopping [] (Some failure) => mthrow (StopFailed failure)
  | Stopping ((name, svc) :: todo) first_error =>
      let! first_error := stop_round name svc first_error in mret (Some (Stopping todo first_error))
  end.

(** A call run to its end: each section takes one service or ends the call. *)
Fixpoint node_finish (fuel : nat) (task : option NodeTask) : M NodeState NodeError unit :=
  match fuel, task with
  | _, None => mret tt
  | O, Some _ => mlift Diverge
  | S fuel, Some task => let! task := node_resume task in node_finish fuel task
  end.

Definition task_fuel (task : option NodeTask) : nat :=
  match task with
  | None => 0
  | Some (Starting todo started) => S (S (2 * length todo + length started))
  | Some (Unwinding todo _) => S (length todo)
  | Some (Stopping todo _) => S (length todo)
  end.

Definition node_call (call : NodeCall) : M NodeState NodeError unit :=
  let! task := node_begin call in node_finish (task_fuel task) task.

Definition node_start : M NodeState NodeError unit := node_call CallStart.
Definition node_stop : M NodeState NodeError unit := node_call CallStop.

Definition node_status (w : W) : Outcome NodeError unit :=
  let errors := omap (fun '(name, svc) => source ← svc_status svc w; Some (mkServiceFailure name source)) ordered_slots in
  match errors with [] => Ok tt | _ => Err (ServicesUnhealthy errors) end.

(** [run]: [shutdown] is what happens to the world until the token is cancelled. *)
Definition node_run (shutdown : W -> W) : M NodeState NodeError unit :=
  let! _ := node_start in
  let! _ := (fun '(cell, w) => (Ok tt, (cell, shutdown w))) in
  node_stop.

(** ** Overlapping calls *)

Record NodeWorld := mkNodeWorld {
  nw_state : NodeState;
  nw_tasks : list NodeTask;
  nw_results : list (Outcome NodeError unit);
}.

Inductive NodeStep := Begin (call : NodeCall) | Continue (i : nat).

Definition step_done (w : NodeWorld) (run : Outcome NodeError (option NodeTask) * NodeState) : NodeWorld :=
  let '(r, state) := run in
  match r with
  | Ok (Some task) => mkNodeWorld state (nw_tasks w ++ [task]) (nw_results w)
  | Ok None => mkNodeWorld state (nw_tasks w) (nw_results w ++ [Ok tt])
  | Err e => mkNodeWorld state (nw_tasks w) (nw_results w ++ [Err e])
  | Panic => mkNodeWorld state (nw_tasks w) (nw_results w ++ [Panic])
  | Diverge => mkNodeWorld state (nw_tasks w) (nw_results w ++ [Diverge])
  end.

Definition node_step (w : NodeWorld) (step : NodeStep) : NodeWorld :=
  match step with
  | Begin call => step_done w (node_begin call (nw_state w))
  | Continue i =>
      match nw_tasks w !! i with
      | None => w
      | Some task => step_done (mkNodeWorld (nw_state w) (delete i (nw_tasks w)) (nw_results w)) (node_resume task (nw_state w))
      end
  end.

Fixpoint node_calls (calls : list NodeCall) (s : NodeState) : list (Outcome NodeError unit) * NodeState :=
  match calls with
  | [] => ([], s)
  | call :: calls =>
      let '(r, s) := node_call call s in
      let '(rs, s) := node_calls calls s in (r :: rs, s)
  end.

(** ** What every service keeps, every call keeps *)

Section Preserves.
Variable P : W -> Prop.
Hypothesis start_keeps : forall svc w, P w -> P (svc_start svc w).2.
Hypothesis stop_keeps : forall svc cancel w, P w -> P (svc_stop svc cancel w).2.

Lemma stop_one_keeps svc cancel w : P w -> P (stop_one svc cancel w).2.
Proof using stop_keeps.
  intros Hw. apply (stop_keeps svc cancel) in Hw. unfold stop_one, mbind.
  destruct (svc_stop svc cancel w) as [[[]| | |] w']; destruct cancel; exact Hw.
Qed.

Lemma attempt_keeps {A} (c : M W string A) w : P (c w).2 -> P (attempt c w).2.
Proof. unfold attempt. by destruct (c w) as [[]?]. Qed.

Lemma stop_round_keeps {A} name svc first (k : option ServiceFailure -> A) cell w :
  P w -> P ((let! first := stop_round name svc first in mret (k first)) (cell, w)).2.2.
Proof using stop_keeps.
  intros Hw. apply (stop_one_keeps svc (derive_stop_token (nd_shutdown_timeout node))), attempt_keeps in Hw.
  unfold stop_round, mbind, on_services. destruct (attempt _ w) as [[]?]; exact Hw.
Qed.

Lemma node_resume_keeps task s : P s.2 -> P (node_resume task s).2.2.
Proof using start_keeps stop_keeps.
  destruct s as [cell w]. cbn. intros Hw. unfold node_resume.
  destruct task as [[|[name svc] todo] started|[|[name svc] todo] failure|[|[name svc] todo] [failure|]]; try exact Hw.
  - apply (start_keeps svc), attempt_keeps in Hw. unfold mbind, on_services. destruct (attempt _ w) as [[[]| | |] ?]; exact Hw.
  - by apply stop_round_keeps.
  - by apply stop_round_keeps.
  - by apply stop_round_keeps.
Qed.

Lemma node_finish_keeps fuel task s : P s.2 -> P (node_finish fuel task s).2.2.
Proof using start_keeps stop_keeps.
  revert task s. induction fuel as [|fuel IH]; intros [task|] s Hs; try exact Hs.
  apply (node_resume_keeps task) in Hs. cbn. unfold mbind. destruct (node_resume task s) as [[task'|e| |] s']; try exact Hs.
  by apply IH.
Qed.

Lemma node_call_keeps call s : P s.2 -> P (node_call call s).2.2.
Proof using start_keeps stop_keeps.
  destruct s as [cell w]. intros Hs. unfold node_call, mbind. destruct call, cell; try exact Hs; by apply node_finish_keeps.
Qed.
End Preserves.

(** ** A stop that overlaps a start *)

Definition node_steps (steps : list NodeStep) (w : NodeWorld) : NodeWorld := fold_left node_step steps w.

Lemma unwinding_fails fuel failure todo s r : (node_finish fuel (Some (Unwinding todo failure)) s).1 <> Ok r.
Proof.
  revert todo s. induction fuel as [|fuel IH]; intros todo [cell w]; [done|].
  destruct todo as [|[name svc] todo]; [done|]. cbn [node_finish node_resume]. unfold stop_round, mbind, on_services.
  destruct (attempt _ w) as [[]?]; [apply IH|done..].
Qed.

(** A start that will succeed has started the service it comes to. *)
Lemma starting_step fuel name svc todo started cell w r s :
  node_finish (S fuel) (Some (Starting ((name, svc) :: todo) started)) (cell, w) = (Ok r, s) ->
  exists w', node_finish fuel (Some (Starting todo (started ++ [(name, svc)]))) (cell, w') = (Ok r, s) /\
    forall cell rs, node_step (mkNodeWorld (cell, w) [Starting ((name, svc) :: todo) started] rs) (Continue 0) =
      mkNodeWorld (cell, w') [Starting todo (started ++ [(name, svc)])] rs.
Proof.
  cbn [node_finish node_resume]. unfold mbind, on_services, attempt.
  destruct (svc_start svc w) as [[u|e| |] w'] eqn:Es; [|intros Hf|done..].
  - intros Hf. exists w'. split; [exact Hf|]. intros cell' rs. unfold node_step, node_resume, mbind, on_services, attempt. cbn. by rewrite Es.
  - exfalso. apply (unwinding_fails fuel (mkServiceFailure name e) (reverse started) (cell, w') r). cbn in Hf. by rewrite Hf.
Qed.

(** The cell has no part in starting the services. *)
Lemma starting_steps k : forall fuel todo started cell w r s, (k <= length todo)%nat -> (length todo < fuel)%nat ->
  node_finish fuel (Some (Starting todo started)) (cell, w) = (Ok r, s) ->
  exists w', node_finish (fuel - k) (Some (Starting (drop k todo) (started ++ take k todo))) (cell, w') = (Ok r, s) /\
    forall cell rs, node_steps (repeat (Continue 0) k) (mkNodeWorld (cell, w) [Starting todo started] rs) =
      mkNodeWorld (cell, w') [Starting (drop k todo) (started ++ take k todo)] rs.
Proof.
  induction k as [|k IH]; intros fuel todo started cell w r s Hk Hf E.
  { exists w. cbn. by rewrite app_nil_r, Nat.sub_0_r. }
  destruct todo as [|[name svc] todo]; [cbn in Hk; lia|]. destruct fuel as [|fuel]; [lia|].
  destruct (starting_step _ _ _ _ _ _ _ _ _ E) as (w1 & E1 & S1). cbn in Hk, Hf.
  destruct (IH fuel todo (started ++ [(name, svc)]) cell w1 r s) as (w2 & E2 & S2); [lia..|done|].
  exists w2. cbn [drop take]. rewrite <- app_assoc in E2, S2. split; [exact E2|].
  intros cell' rs. unfold node_steps in *. cbn [repeat fold_left]. by rewrite S1, S2.
Qed.

Lemma starting_end fuel started cell w r cell' w' :
  node_finish (S fuel) (Some (Starting [] started)) (cell, w) = (Ok r, (cell', w')) -> cell' = Some started /\ w' = w.
Proof. cbn. destruct fuel; by intros [= <- <- <-]. Qed.

Lemma step_lost_stop task w :
  node_step (node_step (mkNodeWorld (Some [], w) [task] []) (Begin CallStop)) (Continue 1) = mkNodeWorld (None, w) [task] [Ok tt].
Proof. reflexivity. Qed.

Lemma step_started started cell w rs :
  node_step (mkNodeWorld (cell, w) [Starting [] started] rs) (Continue 0) = mkNodeWorld (Some started, w) [] (rs ++ [Ok tt]).
Proof. reflexivity. Qed.

(** C24. A stop that overlaps a start is lost.  Called after the start has brought up
    any number [k] of the services, it finds the cell already set and empty and
    returns success without stopping a service; the start goes on, and the node ends
    as if there had been no stop, with every service running. *)
Theorem stop_during_start_lost k w cell' w' :
  node_start (None, w) = (Ok tt, (cell', w')) -> (k <= length ordered_slots)%nat ->
  cell' = Some ordered_slots /\
  node_steps (Begin CallStart :: repeat (Continue 0) k ++ [Begin CallStop; Continue 1] ++
      repeat (Continue 0) (length ordered_slots - k) ++ [Continue 0])
    (mkNodeWorld (None, w) [] []) =
  mkNodeWorld (Some ordered_slots, w') [] [Ok tt; Ok tt].
Proof.
  unfold node_start, node_call. intros Hstart Hk. unfold mbind in Hstart. cbn [node_begin] in Hstart.
  set (n := length ordered_slots) in *. set (fuel := task_fuel _) in Hstart.
  assert (Hf : (n < fuel)%nat) by (unfold fuel, task_fuel; fold n; cbn; lia).
  destruct (starting_steps k fuel ordered_slots [] (Some []) w tt (cell', w') Hk Hf Hstart) as (w1 & E1 & S1).
  destruct (starting_steps (n - k) (fuel - k) (drop k ordered_slots) (take k ordered_slots) (Some []) w1 tt (cell', w')) as (w2 & E2 & S2);
    [rewrite length_drop; fold n; lia..|exact E1|].
  assert (Hd : drop (n - k) (drop k ordered_slots) = []) by (rewrite drop_drop; apply drop_ge; unfold n; lia).
  assert (Ht : take k ordered_slots ++ take (n - k) (drop k ordered_slots) = ordered_slots).
  { rewrite (take_ge (drop k ordered_slots)) by (rewrite length_drop; unfold n; lia). apply take_drop. }
  rewrite Hd, Ht in E2, S2. replace (fuel - k - (n - k))%nat with (S (pred (fuel - n))) in E2 by lia.
  destruct (starting_end _ _ _ _ _ _ _ E2) as [-> ->]. split; [done|].
  unfold node_steps in *. cbn [fold_left]. rewrite !fold_left_app.
  change (node_step (mkNodeWorld (None, w) [] []) (Begin CallStart)) with (mkNodeWorld (Some [], w) [Starting ordered_slots []] []).
  rewrite S1. cbn [fold_left app]. rewrite step_lost_stop, S2. apply step_started.
Qed.

End Node.
Arguments NodeTask : clear implicits.
Arguments NodeState : clear implicits.

(** ** Services with a record of their calls *)

Inductive LifeEvent :=
| Started (name : string) (result : Outcome string unit)
| Stopped (name : string) (result : Outcome string (option unit)).

(** The services that have been started and not been stopped since, in the order
    of their start. *)
Definition life_event (alive : list string) (ev : LifeEvent) : list string :=
  match ev with
  | Started name (Ok _) => alive ++ [name]
  | Started _ _ => alive
  | Stopped name _ => filter (fun n => n <> name) alive
  end.
Definition alive (log : list LifeEvent) : list string := fold_left life_event log [].

(** A service with its slot; its calls are recorded. *)
Definition recorded {Svc W} (managed : Managed Svc W) : Managed (string * Svc) (W * list LifeEvent) := {|
  svc_start := fun '(name, svc) '(w, log) => let '(r, w) := svc_start svc w in (r, (w, log ++ [Started name r]));
  svc_stop := fun '(name, svc) cancel '(w, log) =>
    let '(r, w) := svc_stop svc cancel w in (r, (w, log ++ [Stopped name r]));
  svc_status := fun '(name, svc) '(w, _) => svc_status svc w;
|}.

(** The node over recorded services. *)
Definition label_node {Svc} (node : Node Svc) : Node (string * Svc) :=
  let label name := fmap (fun svc : Svc => (name : string, svc)) in
  mkNode (nd_shutdown_timeout node) (label "chain" (nd_chain node))%string (label "p2p" (nd_p2p node))%string
    (label "sync" (nd_sync node))%string (label "duties" (nd_duties node))%string
    (label "http" (nd_http node))%string (label "metrics" (nd_metrics node))%string.

(** Services whose calls return, and that finish a stop that has no deadline. *)
Class ManagedLaws {Svc W} (managed : Managed Svc W) : Prop := {
  start_returns : forall svc w, returned (svc_start svc w).1;
  stop_returns : forall svc cancel w, returned (svc_stop svc cancel w).1;
  stop_finishes : forall svc w, (svc_stop svc None w).1 <> Ok None;
}.

(** What a stop that returned [r] reports. *)
Definition stop_failure (r : Outcome string (option unit)) : option string :=
  match r with Err e => Some e | Ok None => Some "shutdown deadline exceeded"%string | _ => None end.

Definition first_failure (stops : list (string * Outcome string (option unit))) : option ServiceFailure :=
  head (omap (fun '(name, r) => e ← stop_failure r; Some (mkServiceFailure name e)) stops).

Definition stop_events (stops : list (string * Outcome string (option unit))) : list LifeEvent :=
  (fun '(name, r) => Stopped name r) <$> stops.
Definition start_events (names : list string) : list LifeEvent := (fun name => Started name (Ok tt)) <$> names.

(** ** The services that run *)

Lemma alive_app log log' : alive (log ++ log') = fold_left life_event log' (alive log).
Proof. apply fold_left_app. Qed.

Lemma life_starts names al : fold_left life_event (start_events names) al = al ++ names.
Proof. revert al. induction names as [|n names IH]; intros al; cbn; [by rewrite app_nil_r|]. by rewrite IH, <- app_assoc. Qed.

Lemma life_stops stops al : al ⊆ stops.*1 -> fold_left life_event (stop_events stops) al = [].
Proof.
  revert al. induction stops as [|[n r] stops IH]; intros al Hp; cbn in *.
  - destruct al as [|a al]; [done|]. set_solver.
  - apply IH. intros x [Hx Hin]%list_elem_of_filter. set_solver.
Qed.

Section Recorded.
Context {Svc W : Type} (managed : Managed Svc W) {laws : ManagedLaws managed}.
#[local] Existing Instance recorded.
Variable node : Node Svc.

Local Notation Lab := (string * Svc)%type.
Local Notation finish := (node_finish (managed := recorded managed) (label_node node)).
Local Notation slots := (ordered_slots (label_node node)).

Definition labelled (svcs : list (string * Lab)) : Prop := Forall (fun '(name, svc) => svc.1 = name) svcs.

Lemma slots_labelled : labelled slots.
Proof.
  unfold labelled, ordered_slots, SLOT_ORDER, label_node; cbn.
  destruct (nd_chain node), (nd_p2p node), (nd_sync node), (nd_duties node), (nd_http node), (nd_metrics node);
    cbn; repeat (constructor; [done|]); constructor.
Qed.

Lemma slots_nodup : NoDup slots.*1.
Proof.
  unfold ordered_slots, SLOT_ORDER, label_node; cbn.
  destruct (nd_chain node), (nd_p2p node), (nd_sync node), (nd_duties node), (nd_http node), (nd_metrics node);
    cbn; apply (bool_decide_unpack _); vm_compute; exact I.
Qed.

Lemma labelled_reverse l : labelled l -> labelled (reverse l).
Proof. unfold labelled. by rewrite Forall_reverse. Qed.

(** *** One section *)

Lemma resume_start name svc todo started (cell : option (list (string * Lab))) w log : exists r w', returned r /\
  node_resume (managed := recorded managed) (label_node node) (Starting ((name, (name, svc)) :: todo) started) (cell, (w, log)) =
    (Ok (Some (match r with
               | Err e => Unwinding (reverse started) (mkServiceFailure name e)
               | _ => Starting todo (started ++ [(name, (name, svc))]) end)), (cell, (w', log ++ [Started name r]))).
Proof.
  unfold node_resume, mbind, on_services, attempt; cbn. pose proof (start_returns svc w) as Hr.
  destruct (svc_start svc w) as [r w'] eqn:E. exists r, w'. by destruct r as [[]| | |].
Qed.

Lemma resume_stop name svc first (cell : option (list (string * Lab))) w log : exists r w',
  forall A (k : option ServiceFailure -> A),
  (let! first := stop_round (managed := recorded managed) (label_node node) name (name, svc) first in mret (Some (k first))) (cell, (w, log)) =
    (Ok (Some (k (match stop_failure r, first with Some e, None => Some (mkServiceFailure name e) | _, _ => first end))),
     (cell, (w', log ++ [Stopped name r]))).
Proof.
  unfold stop_round. set (cancel := derive_stop_token _). unfold on_services, attempt, stop_one, mbind; cbn.
  pose proof (stop_returns svc cancel w) as Hr. pose proof (stop_finishes svc w) as Hf.
  destruct (svc_stop svc cancel w) as [r w'] eqn:E. exists r, w'. intros A k.
  destruct r as [[[]|]| | |]; try done. destruct cancel; [done|]. by rewrite E in Hf.
Qed.

Lemma finish_step fuel task task' s s' :
  node_resume (managed := recorded managed) (label_node node) task s = (Ok task', s') -> finish (S fuel) (Some task) s = finish fuel task' s'.
Proof. intros E. cbn [node_finish]. by rewrite (mbind_Ok _ _ _ _ _ E). Qed.

(** *** Whole calls *)

Lemma finish_unwinding failure todo : labelled todo -> forall fuel cell w log, (length todo < fuel)%nat -> exists stops w',
  finish fuel (Some (Unwinding todo failure)) (cell, (w, log)) = (Err (StartFailed failure), (None, (w', log ++ stop_events stops))) /\
  stops.*1 = todo.*1.
Proof.
  induction 1 as [|[name [? svc]] todo Hname _ IH]; intros fuel cell w log Hf; (destruct fuel as [|fuel]; [cbn in Hf; lia|]).
  - exists [], w. by rewrite app_nil_r.
  - cbn in Hname; subst. destruct (resume_stop name svc None cell w log) as (r & w' & E).
    rewrite (finish_step fuel (Unwinding ((name, (name, svc)) :: todo) failure) _ _ _ (E _ (fun _ => Unwinding todo failure))).
    destruct (IH fuel cell w' (log ++ [Stopped name r])) as (stops & w'' & E' & Hn); [cbn in Hf; lia|].
    exists ((name, r) :: stops), w''. rewrite <- app_assoc in E'. split; [exact E'|cbn; by f_equal].
Qed.

Lemma finish_stopping todo : labelled todo -> forall fuel cell w log first, (length todo < fuel)%nat -> exists stops w',
  finish fuel (Some (Stopping todo first)) (cell, (w, log)) =
    (match first ∪ first_failure stops with None => Ok tt | Some failure => Err (StopFailed failure) end, (cell, (w', log ++ stop_events stops))) /\
  stops.*1 = todo.*1.
Proof.
  induction 1 as [|[name [? svc]] todo Hname _ IH]; intros fuel cell w log first Hf; (destruct fuel as [|fuel]; [cbn in Hf; lia|]).
  - exists [], w. rewrite app_nil_r. by destruct first, fuel.
  - cbn in Hname; subst. destruct (resume_stop name svc first cell w log) as (r & w' & E).
    rewrite (finish_step fuel (Stopping ((name, (name, svc)) :: todo) first) _ _ _ (E _ (Stopping todo))).
    match goal with |- context [Stopping todo ?f] => destruct (IH fuel cell w' (log ++ [Stopped name r]) f) as (stops & w'' & E' & Hn); [cbn in Hf; lia|] end.
    exists ((name, r) :: stops), w''. rewrite <- app_assoc in E'. split; [|cbn; by f_equal].
    etrans; [exact E'|]. f_equal. unfold first_failure; cbn. destruct (stop_failure r), first; try done; cbn; by destruct (head _).
Qed.

(** A start brings up every service, or stops in reverse those it had started. *)
Lemma finish_starting todo : labelled todo -> forall fuel started cell w log,
  labelled started -> (S (2 * length todo + length started) < fuel)%nat ->
  (exists w', finish fuel (Some (Starting todo started)) (cell, (w, log)) =
     (Ok tt, (Some (started ++ todo), (w', log ++ start_events todo.*1)))) \/
  (exists pre name post e stops w', todo.*1 = pre ++ name :: post /\
     finish fuel (Some (Starting todo started)) (cell, (w, log)) =
       (Err (StartFailed (mkServiceFailure name e)),
        (None, (w', log ++ start_events pre ++ [Started name (Err e)] ++ stop_events stops))) /\
     stops.*1 = reverse (started.*1 ++ pre)).
Proof.
  induction 1 as [|[name [? svc]] todo Hname _ IH]; intros fuel started cell w log Hs Hf; (destruct fuel as [|fuel]; [lia|]).
  - left. exists w. rewrite !app_nil_r. by destruct fuel.
  - cbn in Hname; subst. destruct (resume_start name svc todo started cell w log) as (r & w' & Hr & E).
    rewrite (finish_step _ _ _ _ _ E). destruct r as [[]|e| |]; try done.
    + destruct (IH fuel (started ++ [(name, (name, svc))]) cell w' (log ++ [Started name (Ok tt)])) as
        [(w'' & E')|(pre & name' & post & e & stops & w'' & Ht & E' & Hn)].
      { apply Forall_app; split; [done|by constructor]. }
      { rewrite length_app. cbn in Hf |- *. lia. }
      * left. exists w''. by rewrite <- !app_assoc in E'.
      * right. exists (name :: pre), name', post, e, stops, w''. cbn [fmap list_fmap]. rewrite Ht.
        rewrite <- !app_assoc in E'. repeat split; [exact E'|]. by rewrite Hn, fmap_app, <- app_assoc.
    + right. destruct (finish_unwinding (mkServiceFailure name e) (reverse started) (labelled_reverse _ Hs) fuel cell w' (log ++ [Started name (Err e)]))
        as (stops & w'' & E' & Hn); [rewrite length_reverse; lia|].
      exists [], name, todo.*1, e, stops, w''. rewrite <- app_assoc in E'. split; [done|]. split; [exact E'|].
      by rewrite Hn, app_nil_r, fmap_reverse.
Qed.

(** What a start and a stop do from a state between calls. *)
Lemma node_start_recorded w log :
  (exists w', node_start (managed := recorded managed) (label_node node) (None, (w, log)) =
     (Ok tt, (Some slots, (w', log ++ start_events slots.*1)))) \/
  (exists pre name post e stops w', slots.*1 = pre ++ name :: post /\
     node_start (managed := recorded managed) (label_node node) (None, (w, log)) =
       (Err (StartFailed (mkServiceFailure name e)), (None, (w', log ++ start_events pre ++ [Started name (Err e)] ++ stop_events stops))) /\
     stops.*1 = reverse pre).
Proof.
  apply (finish_starting slots slots_labelled _ [] (Some []) w log); [constructor|]. cbn; lia.
Qed.

Lemma node_stop_recorded w log : exists stops w',
  node_stop (managed := recorded managed) (label_node node) (Some slots, (w, log)) =
    (match first_failure stops with None => Ok tt | Some failure => Err (StopFailed failure) end, (None, (w', log ++ stop_events stops))) /\
  stops.*1 = reverse slots.*1.
Proof.
  destruct (finish_stopping (reverse slots) (labelled_reverse _ slots_labelled) (S (length (reverse slots))) None w log None)
    as (stops & w' & E & Hn); [lia|].
  exists stops, w'. rewrite Hn, fmap_reverse. split; [|done]. etrans; [exact E|]. by destruct (first_failure stops).
Qed.

(** Between calls the node is idle with no service running, or it has recorded
    all its services, which run. *)
Definition between_calls (s : NodeState Lab (W * list LifeEvent)) : Prop :=
  let '(cell, (_, log)) := s in
  (cell = None /\ alive log = []) \/ (cell = Some slots /\ alive log = slots.*1).

Lemma node_call_between call s :
  between_calls s -> between_calls (node_call (managed := recorded managed) (label_node node) call s).2.
Proof.
  destruct s as [cell [w log]]. intros [[-> Ha]|[-> Ha]]; destruct call; [| |by right|].
  - destruct (node_start_recorded w log) as [(w' & E)|(pre & name & post & e & stops & w' & Hs & E & Hn)];
      unfold node_start in E; rewrite E; cbn.
    + right. by rewrite alive_app, life_starts, Ha.
    + left. split; [done|]. rewrite alive_app, !fold_left_app, life_starts, Ha. cbn. apply life_stops. rewrite Hn.
      intros x Hx. by apply elem_of_reverse.
  - by left.
  - destruct (node_stop_recorded w log) as (stops & w' & E & Hn). unfold node_stop in E. rewrite E; cbn. left. split; [done|].
    rewrite alive_app, Ha. apply life_stops. rewrite Hn. intros x Hx. by apply elem_of_reverse.
Qed.

Lemma node_calls_between calls s :
  between_calls s -> between_calls (node_calls (managed := recorded managed) (label_node node) calls s).2.
Proof.
  revert s. induction calls as [|call calls IH]; intros s Hs; cbn; [done|].
  apply (node_call_between call) in Hs. destruct (node_call _ _ _) as [r s'] eqn:E. cbn in Hs.
  specialize (IH s' Hs). by destruct (node_calls _ _ s').
Qed.


End Recorded.
