(* ===== verification/Services.v ===== *)
(** * The services of a node ([runtime/src/p2p/service.rs], [sync/loop_.rs],
    [api/server.rs], [node/src/consensus_loop.rs], [node/src/devnet.rs])

    The service objects that [new_devnet] wires into a [Node]: their states, and
    their [start], [stop] and [status].  libp2p, the TCP listener and the end of
    the spawned tasks are a parameter [Platform].

    Shown: the services keep the interface of the node ([devnet_laws]), so that the
    theorems of [Lifecycle] hold of the wired node; a wired node starts at most once
    in its life, however often it is stopped and started again
    ([devnet_starts_once]). *)

From stdpp Require Import base numbers list gmap sets strings.
From Stdlib Require Import Strings.Byte ZArith Lia.
From S2P Require Import Prelude Config Types Wire Duties Host Lifecycle.

(** ** What the services call *)

(** The listener events of [SwarmEvent], with the id of the listener. *)
Inductive ListenEvent {lib : HostLib} :=
| NewListenAddr (id : nat) (address : Multiaddr)
| ListenerClosed (id : nat) (reason : option string)
| ListenerError (id : nat) (error : string)
| OtherListenEvent.

Inductive TaskName := SwarmTask | WatchTask | RunTask | ServeTask (kind : string).

(** A task joined, with the error it returned, if any; or the budget of the stop ran
    out first, and [ended] says whether the aborted task had ended. *)
Inductive JoinOutcome :=
| Joined (result : option string)
| JoinPanic (err : string)
| JoinCancelled
| BudgetFired (ended : bool).

Class Platform {lib : HostLib} (E : Type) := {
  (** [Swarm::listen_on]. *)
  listen_on : Multiaddr -> E -> (nat + string) * E;
  (** The events of the swarm until [BIND_DEADLINE]. *)
  listen_events : E -> list ListenEvent * E;
  (** [gossipsub.subscribe]: the error, if any. *)
  gossip_subscribe : string -> E -> option string * E;
  (** [add_peer_address] and [dial], whose error is logged. *)
  dial : Bootnode -> E -> E;
  (** [commands.send(Shutdown)]: whether it ends before the budget of the stop. *)
  send_shutdown : option N -> E -> bool * E;
  (** [TcpListener::bind] for an endpoint: the bound address or the error. *)
  bind_listener : string -> E -> (string + string) * E;
  (** [JoinHandle::is_finished]. *)
  is_finished : TaskName -> E -> bool;
  (** Cancel the token of a task and join it. *)
  cancel_and_join : TaskName -> option N -> E -> JoinOutcome * E;
  (** [TaskTracker::wait]: whether it ends before the budget. *)
  peers_wait : option N -> E -> bool * E;
  (** The quoted form of a text. *)
  debug_text : string -> string;
}.

(** Without a budget nothing runs out. *)
Class PlatformLaws {lib : HostLib} {E} (platform : Platform E) : Prop := {
  send_unbounded : forall e, (send_shutdown None e).1 = true;
  join_unbounded : forall task e ended, (cancel_and_join task None e).1 <> BudgetFired ended;
}.

(** ** States *)

Inductive P2pState {lib : HostLib} :=
| P2pIdle (host : IdleHost)
| P2pRunning (bound_addr : Multiaddr)
| P2pStopped
| P2pTransitioning.

Inductive EndpointState := EpIdle | EpRunning (bound_addr : string) | EpStopped | EpTransitioning.

(** The cells of the six service objects; [sv_sync] and [sv_loop]: a run handle is
    held; [sv_failures]: the counter of [Health]. *)
Record ServicesState {lib : HostLib} := mkServicesState {
  sv_p2p : P2pState;
  sv_block_rx : bool;
  sv_vote_rx : bool;
  sv_sync : bool;
  sv_loop : bool;
  sv_failures : N;
  sv_http : EndpointState;
  sv_metrics : EndpointState;
}.

Arguments mkServicesState {lib}.

Definition HEALTH_FAILURE_THRESHOLD : N := 3.
Definition is_degraded (consecutive_failures : N) : bool := HEALTH_FAILURE_THRESHOLD <=? consecutive_failures.
Definition record_success (consecutive_failures : N) : N := 0.
(** Saturates at [u32::MAX]. *)
Definition record_failure (consecutive_failures : N) : N := N.min (consecutive_failures + 1) (2 ^ 32 - 1).

Inductive DevnetSvc := SvcChain | SvcP2p | SvcSync | SvcDuties | SvcHttp | SvcMetrics.
#[export] Instance DevnetSvc_eq_dec : EqDecision DevnetSvc.
Proof. solve_decision. Defined.

Section Services.
Context {lib : HostLib} {E : Type} {platform : Platform E}.

Definition W : Type := ServicesState * E.

Definition get_services {X} : M W X ServicesState := fun '(s, e) => (Ok s, (s, e)).
Definition put_services {X} (s : ServicesState) : M W X unit := fun '(_, e) => (Ok tt, (s, e)).
Definition on_platform {X A} (f : E -> A * E) : M W X A := fun '(s, e) => let '(a, e) := f e in (Ok a, (s, e)).

Definition set_p2p (p2p : P2pState) (s : ServicesState) : ServicesState :=
  mkServicesState p2p (sv_block_rx s) (sv_vote_rx s) (sv_sync s) (sv_loop s) (sv_failures s) (sv_http s) (sv_metrics s).
Definition set_receivers (block_rx vote_rx : bool) (s : ServicesState) : ServicesState :=
  mkServicesState (sv_p2p s) block_rx vote_rx (sv_sync s) (sv_loop s) (sv_failures s) (sv_http s) (sv_metrics s).
Definition set_sync (run : bool) (s : ServicesState) : ServicesState :=
  mkServicesState (sv_p2p s) (sv_block_rx s) (sv_vote_rx s) run (sv_loop s) (sv_failures s) (sv_http s) (sv_metrics s).
Definition set_loop (run : bool) (failures : N) (s : ServicesState) : ServicesState :=
  mkServicesState (sv_p2p s) (sv_block_rx s) (sv_vote_rx s) (sv_sync s) run failures (sv_http s) (sv_metrics s).
Definition get_endpoint (http : bool) (s : ServicesState) : EndpointState := if http then sv_http s else sv_metrics s.
Definition set_endpoint (http : bool) (ep : EndpointState) (s : ServicesState) : ServicesState :=
  mkServicesState (sv_p2p s) (sv_block_rx s) (sv_vote_rx s) (sv_sync s) (sv_loop s) (sv_failures s)
    (if http then ep else sv_http s) (if http then sv_metrics s else ep).

(** ** The p2p service ([p2p/service.rs]) *)

(** [take_idle] leaves [Transitioning] behind, which stays while [p2p_prepare] waits. *)
Definition take_idle : M W string IdleHost :=
  let! s := get_services in
  match sv_p2p s with
  | P2pIdle host => let! _ := put_services (set_p2p P2pTransitioning s) in mret host
  | _ => mthrow (HostError_display debug_text HostAlreadyStarted)
  end.

(** The wait of [bind] on the events of the swarm; none are left: the deadline. *)
Fixpoint bind_wait (addr : Multiaddr) (listener_id : nat) (events : list ListenEvent) : Outcome HostError Multiaddr :=
  let err reason := Err (Bind (multiaddr_display addr) reason) in
  match events with
  | [] => err "listener did not become ready within 2s"%string
  | NewListenAddr id address :: events =>
      if bool_decide (id = listener_id) then Ok address else bind_wait addr listener_id events
  | ListenerClosed id (Some reason) :: events =>
      if bool_decide (id = listener_id) then err reason else bind_wait addr listener_id events
  | ListenerError id error :: events =>
      if bool_decide (id = listener_id) then err error else bind_wait addr listener_id events
  | _ :: events => bind_wait addr listener_id events
  end.

Definition bind (addr : Multiaddr) : M W HostError Multiaddr :=
  let! listener := on_platform (listen_on addr) in
  match listener with
  | inr err => mthrow (Bind (multiaddr_display addr) err)
  | inl listener_id => let! events := on_platform listen_events in mlift (bind_wait addr listener_id events)
  end.

Fixpoint subscribe_topics (topics : list string) : M W HostError unit :=
  match topics with
  | [] => mret tt
  | topic :: topics =>
      let! err := on_platform (gossip_subscribe topic) in
      match err with Some err => mthrow (GossipSubscribe err) | None => subscribe_topics topics end
  end.

Definition p2p_prepare (listen_addr : Multiaddr) : M W HostError Multiaddr :=
  let! bound := bind listen_addr in
  let! _ := subscribe_topics [BLOCK_TOPIC_V1; VOTE_TOPIC_V1] in
  mret bound.

Definition dial_bootnodes (bootnodes : list Bootnode) (e : E) : E := fold_left (fun e bootnode => dial bootnode e) bootnodes e.

Definition p2p_start : M W string unit :=
  let! host := take_idle in
  fun w =>
  match p2p_prepare (ho_listen_addr (ih_options host)) w with
  | (Err err, (s, e)) => (Err (HostError_display debug_text err), (set_p2p (P2pIdle host) s, e))
  | (Ok bound_addr, (s, e)) =>
      (Ok tt, (set_p2p (P2pRunning bound_addr) (set_receivers true true s), dial_bootnodes (ih_bootnodes host) e))
  | (Panic, w) => (Panic, w)
  | (Diverge, w) => (Diverge, w)
  end.

Definition p2p_stop (cancel : option N) : M W string (option unit) :=
  let! s := get_services in
  match sv_p2p s with
  | P2pRunning _ =>
      let! _ := put_services (set_p2p P2pStopped s) in
      let! sent := on_platform (send_shutdown cancel) in
      if negb sent then mret None
      else
        let! joined := on_platform (cancel_and_join SwarmTask cancel) in
        match joined with
        | JoinPanic err => mthrow ("p2p swarm task panicked: " +:+ err)%string
        | _ => mret (Some tt)
        end
  | _ => mret (Some tt)
  end.

Definition p2p_status (w : W) : option string :=
  let '(s, e) := w in
  match sv_p2p s with
  | P2pRunning _ => if is_finished SwarmTask e then Some "p2p swarm task exited unexpectedly"%string else None
  | P2pIdle _ => Some "p2p service not started"%string
  | P2pStopped => Some "p2p service stopped"%string
  | P2pTransitioning => Some "p2p service mid-transition"%string
  end.

(** [Host::host] of the running service. *)
Definition host_running (s : ServicesState) : bool := match sv_p2p s with P2pRunning _ => true | _ => false end.

(** ** The sync loop ([sync/loop_.rs]) *)

Definition sync_start : M W string unit :=
  let! s := get_services in
  if sv_sync s then mthrow "sync loop already started"%string else put_services (set_sync true s).

Definition sync_stop (cancel : option N) : M W string (option unit) :=
  let! s := get_services in
  if negb (sv_sync s) then mret (Some tt)
  else
    let! _ := put_services (set_sync false s) in
    let! joined := on_platform (cancel_and_join WatchTask cancel) in
    match joined with
    | BudgetFired ended =>
        if ended then mthrow "sync watch task did not stop within shutdown budget"%string else mret None
    | Joined _ =>
        let! drained := on_platform (peers_wait cancel) in
        if drained then mret (Some tt) else mthrow "sync per-peer tasks did not drain within shutdown budget"%string
    | JoinPanic _ | JoinCancelled => mthrow "sync watch task panicked"%string
    end.

Definition sync_status (w : W) : option string :=
  let '(s, e) := w in
  if negb (sv_sync s) then Some "sync loop not started"%string
  else if is_finished WatchTask e then Some "sync watch task exited prematurely"%string else None.

(** ** The consensus loop ([consensus_loop.rs]) *)

Definition take_block_receiver : M W string bool :=
  let! s := get_services in let! _ := put_services (set_receivers false (sv_vote_rx s) s) in mret (sv_block_rx s).
Definition take_vote_receiver : M W string bool :=
  let! s := get_services in let! _ := put_services (set_receivers (sv_block_rx s) false s) in mret (sv_vote_rx s).

Definition loop_start : M W string unit :=
  let! s := get_services in
  if sv_loop s then mthrow "consensus loop already started"%string
  else
    let! _ := put_services (set_loop false 0 s) in
    let! block_rx := take_block_receiver in
    if negb block_rx then mthrow "p2p block gossip receiver unavailable"%string
    else
      let! vote_rx := take_vote_receiver in
      if negb vote_rx then mthrow "p2p vote gossip receiver unavailable"%string
      else let! s := get_services in put_services (set_loop true (sv_failures s) s).

Definition loop_shutdown (cancel : option N) : M W string (option unit) :=
  let! joined := on_platform (cancel_and_join RunTask cancel) in
  match joined with
  | BudgetFired ended => if ended then mthrow "consensus loop did not stop within shutdown budget"%string else mret None
  | Joined _ => mret (Some tt)
  | JoinPanic _ | JoinCancelled => mthrow "consensus loop task panicked"%string
  end.

Definition loop_stop (cancel : option N) : M W string (option unit) :=
  let! s := get_services in
  if sv_loop s then let! _ := put_services (set_loop false (sv_failures s) s) in loop_shutdown cancel else mret (Some tt).

Definition loop_status (w : W) : option string :=
  let '(s, e) := w in
  if negb (sv_loop s) then Some "consensus loop not running"%string
  else if is_finished RunTask e then Some "consensus loop task exited prematurely"%string
  else if is_degraded (sv_failures s) then Some "consensus loop degraded: 3 consecutive proposer-slot failures"%string
  else None.

(** ** The HTTP and metrics endpoints ([api/server.rs]) *)

Definition endpoint_kind (http : bool) : string := if http then "http" else "metrics".

Definition endpoint_start (http : bool) : M W string unit :=
  let! s := get_services in
  match get_endpoint http s with
  | EpIdle =>
      let! _ := put_services (set_endpoint http EpTransitioning s) in
      let! bound := on_platform (bind_listener (endpoint_kind http)) in
      let! s := get_services in
      match bound with
      | inr err => let! _ := put_services (set_endpoint http EpIdle s) in mthrow err
      | inl bound_addr => put_services (set_endpoint http (EpRunning bound_addr) s)
      end
  | _ => mthrow (endpoint_kind http +:+ " service already started")%string
  end.

Definition handle_server_exit (kind : string) (joined : JoinOutcome) : Outcome string (option unit) :=
  match joined with
  | Joined None => Ok (Some tt)
  | Joined (Some err) => Err (kind +:+ " server task failed: " +:+ err)%string
  | JoinPanic err => Err (kind +:+ " server task panicked: " +:+ err)%string
  | JoinCancelled => Ok (Some tt)
  | BudgetFired ended => Ok (if ended then Some tt else None)
  end.

Definition endpoint_stop (http : bool) (cancel : option N) : M W string (option unit) :=
  let! s := get_services in
  match get_endpoint http s with
  | EpRunning _ =>
      let! _ := put_services (set_endpoint http EpStopped s) in
      let! joined := on_platform (cancel_and_join (ServeTask (endpoint_kind http)) cancel) in
      mlift (handle_server_exit (endpoint_kind http) joined)
  | _ => mret (Some tt)
  end.

Definition endpoint_status (http : bool) (w : W) : option string :=
  let '(s, e) := w in
  match get_endpoint http s with
  | EpRunning _ =>
      if is_finished (ServeTask (endpoint_kind http)) e then Some (endpoint_kind http +:+ " server task exited unexpectedly")%string else None
  | EpIdle => Some (endpoint_kind http +:+ " service not started")%string
  | EpStopped => Some (endpoint_kind http +:+ " service stopped")%string
  | EpTransitioning => Some (endpoint_kind http +:+ " service mid-transition")%string
  end.

(** ** The wired node ([devnet.rs]) *)

#[export] Instance DevnetSvc_Managed : Managed DevnetSvc W := {|
  svc_start := fun svc =>
    match svc with
    | SvcChain => mret tt
    | SvcP2p => p2p_start
    | SvcSync => sync_start
    | SvcDuties => loop_start
    | SvcHttp => endpoint_start true
    | SvcMetrics => endpoint_start false
    end;
  svc_stop := fun svc =>
    match svc with
    | SvcChain => fun _ => mret (Some tt)
    | SvcP2p => p2p_stop
    | SvcSync => sync_stop
    | SvcDuties => loop_stop
    | SvcHttp => endpoint_stop true
    | SvcMetrics => endpoint_stop false
    end;
  svc_status := fun svc =>
    match svc with
    | SvcChain => fun _ => None
    | SvcP2p => p2p_status
    | SvcSync => sync_status
    | SvcDuties => loop_status
    | SvcHttp => endpoint_status true
    | SvcMetrics => endpoint_status false
    end;
|}.

Definition devnet_node (shutdown_timeout : N) : Node DevnetSvc :=
  mkNode shutdown_timeout (Some SvcChain) (Some SvcP2p) (Some SvcSync) (Some SvcDuties) (Some SvcHttp) (Some SvcMetrics).

(** The services as [new_devnet] leaves them. *)
Definition devnet_services (host : IdleHost) : ServicesState :=
  mkServicesState (P2pIdle host) false false false false 0 EpIdle EpIdle.

(** ** The services keep the interface of the node *)

Lemma bind_wait_returns addr id events : returned (bind_wait addr id events).
Proof. induction events as [|[] events IH]; cbn; repeat case_match; done. Qed.

Lemma bind_returns addr w : returned (bind addr w).1.
Proof.
  destruct w as [s e]. unfold bind, mbind, on_platform. destruct (listen_on addr e) as [[id|err] e1]; [|done].
  destruct (listen_events e1) as [events e2]. apply bind_wait_returns.
Qed.

Lemma subscribe_topics_returns topics w : returned (subscribe_topics topics w).1.
Proof.
  revert w. induction topics as [|topic topics IH]; intros [s e]; cbn; [done|]. unfold mbind, on_platform.
  destruct (gossip_subscribe topic e) as [[err|] e1]; [done|]. apply IH.
Qed.

Lemma p2p_prepare_returns addr w : returned (p2p_prepare addr w).1.
Proof.
  unfold p2p_prepare, mbind. pose proof (bind_returns addr w) as Hb. destruct (bind addr w) as [[bound|err| |] w1]; try done.
  pose proof (subscribe_topics_returns [BLOCK_TOPIC_V1; VOTE_TOPIC_V1] w1) as Hs.
  by destruct (subscribe_topics _ w1) as [[u|err| |] w2].
Qed.

(** The cells are not touched by the set-up of the swarm. *)
Lemma p2p_prepare_services addr w : (p2p_prepare addr w).2.1 = w.1.
Proof.
  destruct w as [s e]. unfold p2p_prepare, bind, mbind, on_platform. destruct (listen_on addr e) as [[id|err] e1]; [|done].
  destruct (listen_events e1) as [events e2]. cbn. destruct (bind_wait addr id events); try done. cbn. unfold mbind, on_platform.
  destruct (gossip_subscribe BLOCK_TOPIC_V1 e2) as [[err|] e3]; [done|]. by destruct (gossip_subscribe VOTE_TOPIC_V1 e3) as [[err|] e4].
Qed.

#[local] Ltac run_service :=
  cbn; unfold mbind, get_services, put_services, on_platform, mret, mthrow, mlift; cbn;
  unfold loop_shutdown, handle_server_exit, mbind, on_platform; try done; repeat (case_match; simplify_eq/=; try done).

Lemma devnet_start_returns svc w : returned (svc_start (svc : DevnetSvc) w).1.
Proof.
  destruct w as [s e]. destruct svc; [done| | | | |]; [|run_service..].
  cbn. unfold p2p_start, take_idle, mbind, get_services. cbn. destruct (sv_p2p s); try done. cbn.
  match goal with |- context [p2p_prepare ?a ?w] => pose proof (p2p_prepare_returns a w) as Hr; destruct (p2p_prepare a w) as [[] []]; done end.
Qed.

Lemma devnet_stop_returns svc cancel w : returned (svc_stop (svc : DevnetSvc) cancel w).1.
Proof. destruct w as [s e]. destruct svc; run_service. Qed.

(** The services that [new_devnet] wires are services as a node expects them: their
    calls return, and a stop without a deadline finishes. *)
#[export] Instance devnet_laws {laws : PlatformLaws platform} : ManagedLaws DevnetSvc_Managed.
Proof.
  split; [apply devnet_start_returns|apply devnet_stop_returns|].
  intros svc [s e].
  assert (Hj : forall task e e' ended, cancel_and_join task None e = (BudgetFired ended, e') -> False).
  { intros task e1 e' ended Hc. by apply (join_unbounded task e1 ended); rewrite Hc. }
  assert (Hs : forall e e', send_shutdown None e = (false, e') -> False).
  { intros e1 e' Hc. pose proof (send_unbounded e1) as Hu. by rewrite Hc in Hu. }
  destruct svc; run_service; try by eauto. destruct b; [done|by edestruct Hs].
Qed.

(** ** A host starts once *)

Definition host_used (w : W) : Prop := match sv_p2p w.1 with P2pIdle _ => False | _ => True end.

Lemma p2p_start_spent w : host_used w -> p2p_start w = (Err (HostError_display debug_text HostAlreadyStarted), w).
Proof. destruct w as [s e]. unfold host_used, p2p_start, take_idle, mbind, get_services. cbn. by destruct (sv_p2p s). Qed.

(** The other services leave the state of the host alone. *)
Lemma start_other_p2p svc w : svc <> SvcP2p -> sv_p2p (svc_start (svc : DevnetSvc) w).2.1 = sv_p2p w.1.
Proof. intros Hs. destruct w as [s e]. destruct svc; try done; run_service. Qed.

Lemma stop_other_p2p svc cancel w : svc <> SvcP2p -> sv_p2p (svc_stop (svc : DevnetSvc) cancel w).2.1 = sv_p2p w.1.
Proof. intros Hs. destruct w as [s e]. destruct svc; try done; run_service. Qed.

Lemma start_keeps_used svc w : host_used w -> host_used (svc_start (svc : DevnetSvc) w).2.
Proof.
  intros Hu. destruct (decide (svc = SvcP2p)) as [->|Hs].
  - cbn -[p2p_start]. by rewrite (p2p_start_spent w Hu).
  - unfold host_used. by rewrite (start_other_p2p _ _ Hs).
Qed.

Lemma stop_keeps_used svc cancel w : host_used w -> host_used (svc_stop (svc : DevnetSvc) cancel w).2.
Proof.
  intros Hu. destruct (decide (svc = SvcP2p)) as [->|Hs].
  - destruct w as [s e]. unfold host_used in *. cbn in *. unfold p2p_stop, mbind, get_services, put_services, on_platform. cbn.
    destruct (sv_p2p s) eqn:Ep; cbn; rewrite ?Ep; try done. repeat (case_match; simplify_eq/=; try done).
  - unfold host_used. by rewrite (stop_other_p2p _ _ _ Hs).
Qed.

Lemma p2p_start_used w : (p2p_start w).1 = Ok tt -> host_used (p2p_start w).2.
Proof.
  destruct w as [s e]. unfold p2p_start, take_idle, mbind, get_services. cbn. destruct (sv_p2p s); try done. cbn.
  by destruct (p2p_prepare _ _) as [[] []].
Qed.

Definition slots : list (string * DevnetSvc) :=
  [("chain", SvcChain); ("p2p", SvcP2p); ("sync", SvcSync); ("duties", SvcDuties); ("http", SvcHttp); ("metrics", SvcMetrics)]%string.

Lemma devnet_slots timeout : ordered_slots (devnet_node timeout) = slots.
Proof. reflexivity. Qed.

(** What a start finds when the host has been used. *)
Definition spent (r : Outcome NodeError unit) : Prop :=
  r = Err NodeAlreadyStarted \/ r = Err (StartFailed (mkServiceFailure "p2p" (HostError_display debug_text HostAlreadyStarted))).

Lemma start_spent timeout s : host_used s.2 -> spent (node_call (devnet_node timeout) CallStart s).1.
Proof.
  destruct s as [[started|] w]; cbn [snd]; intros Hu; [by left|]. right.
  unfold node_call, node_begin, mbind. rewrite devnet_slots. cbn [task_fuel slots length].
  cbn -[p2p_start]. unfold on_services, attempt, mbind. cbn -[p2p_start].
  rewrite (p2p_start_spent w Hu). cbn. reflexivity.
Qed.

(** The start got past the p2p service. *)
Definition past_p2p (r : Outcome NodeError unit) : Prop :=
  r = Ok tt \/ exists failure, r = Err (StartFailed failure) /\ sf_service failure <> "chain"%string /\ sf_service failure <> "p2p"%string.

Lemma finish_start_chain_p2p timeout cell w fuel : exists r w', p2p_start w = (r, w') /\
  node_finish (devnet_node timeout) (S (S (S (S fuel)))) (Some (Starting slots [])) (cell, w) =
  match r with
  | Ok _ => node_finish (devnet_node timeout) (S (S fuel)) (Some (Starting (drop 2 slots) (take 2 slots))) (cell, w')
  | Err e => (Err (StartFailed (mkServiceFailure "p2p" e)), (None, w'))
  | Panic => (Panic, (cell, w'))
  | Diverge => (Diverge, (cell, w'))
  end.
Proof.
  destruct (p2p_start w) as [r w'] eqn:Ep. exists r, w'. split; [done|].
  cbn -[p2p_start node_finish]. cbn [node_finish]. unfold node_resume, on_services, attempt, mbind. cbn -[p2p_start node_finish].
  rewrite Ep. destruct r; reflexivity.
Qed.

Lemma start_past timeout s :
  past_p2p (node_call (devnet_node timeout) CallStart s).1 -> host_used (node_call (devnet_node timeout) CallStart s).2.2.
Proof.
  destruct s as [[started|] w]; [by intros [Hp|(? & Hp & _)]|].
  change (node_call (devnet_node timeout) CallStart (None, w)) with (node_finish (devnet_node timeout) 14 (Some (Starting slots [])) (Some [], w)).
  destruct (finish_start_chain_p2p timeout (Some []) w 10) as (r & w' & Ep & ->). pose proof (p2p_start_used w) as Hu.
  rewrite Ep in Hu. destruct r as [[]|e| |]; cbn [fst snd].
  - intros _. by apply node_finish_keeps; [apply start_keeps_used|apply stop_keeps_used|apply Hu].
  - intros [|(? & [= <-] & _ & Hn)]; [done|]. by destruct Hn.
  - by intros [|(? & ? & _)].
  - by intros [|(? & ? & _)].
Qed.

Lemma calls_spent timeout calls s : host_used s.2 ->
  forall j r, calls !! j = Some CallStart -> (node_calls (devnet_node timeout) calls s).1 !! j = Some r -> spent r.
Proof.
  revert s. induction calls as [|call calls IH]; intros s Hu j r Hc Hr; [done|]. cbn in Hr.
  pose proof (start_spent timeout s Hu) as Hs.
  pose proof (node_call_keeps (devnet_node timeout) host_used start_keeps_used stop_keeps_used call s Hu) as Hk.
  destruct j as [|j]; cbn in Hc.
  - injection Hc as ->. destruct (node_call _ _ _) as [r0 s0]. destruct (node_calls _ _ s0). cbn in Hr. by simplify_eq.
  - destruct (node_call _ call _) as [r0 s0]. specialize (IH s0 Hk j r Hc). destruct (node_calls _ _ s0). by apply IH.
Qed.

(** C14. A wired node starts at most once.  After a start that got past the p2p
    service, whether it succeeded or a later service failed and the start was
    unwound, every later start fails: the node is running, or the p2p service
    reports that it has been started, however often the node is stopped. *)
Theorem devnet_starts_once timeout calls s i j r r' :
  let results := (node_calls (devnet_node timeout) calls s).1 in
  calls !! i = Some CallStart -> results !! i = Some r -> past_p2p r ->
  calls !! j = Some CallStart -> results !! j = Some r' -> (i < j)%nat -> spent r'.
Proof.
  cbn. revert s i j. induction calls as [|call calls IH]; intros s i j Hi Hr Hp Hj Hr' Hij; [done|].
  destruct j as [|j]; [lia|]. cbn in *. pose proof (start_past timeout s) as Hs.
  destruct i as [|i]; cbn in Hi.
  - injection Hi as ->. destruct (node_call _ _ _) as [r0 s0]. cbn in Hs. pose proof (calls_spent timeout calls s0) as Hc.
    destruct (node_calls _ _ s0). cbn in *. simplify_eq. by apply (Hc (Hs Hp) j).
  - destruct (node_call _ call _) as [r0 s0]. specialize (IH s0 i j). destruct (node_calls _ _ s0). apply IH; try done. lia.
Qed.

End Services.

(** ** A concrete node *)

Module ServicesExample.
Import HostExample.

(** A platform on which everything works, but the port of an endpoint is taken until
    a number of attempts. *)
#[export] Instance platform : Platform nat := {|
  listen_on := fun _ e => (inl 1%nat, e);
  listen_events := fun e => ([OtherListenEvent; NewListenAddr 1 "/ip4/127.0.0.1/udp/9000"%string], e);
  gossip_subscribe := fun _ e => (None, e);
  dial := fun _ e => e;
  send_shutdown := fun _ e => (true, e);
  bind_listener := fun _ e => match e with O => (inl "127.0.0.1:5052"%string, O) | S e => (inr "address in use"%string, e) end;
  is_finished := fun _ _ => false;
  cancel_and_join := fun _ _ e => (Joined None, e);
  peers_wait := fun _ e => (true, e);
  debug_text := fun s => s;
|}.

#[export] Instance platform_laws : PlatformLaws platform.
Proof. split; done. Qed.

Definition host : IdleHost := mkIdleHost (mkHostOptions "/ip4/127.0.0.1/udp/0"%string "lean/0.1"%string "key"%string None) "A" [].

(** The port is taken at the first start only; the second start fails all the same. *)
Lemma devnet_starts_once_witness :
  spent (platform := platform)
    (Err (StartFailed (mkServiceFailure "p2p" "host service already started"))).
Proof.
  refine (devnet_starts_once (platform := platform) 5000 [CallStart; CallStart] (None, (devnet_services host, 1%nat)) 0 1
    (Err (StartFailed (mkServiceFailure "http" "address in use"))) _ eq_refl _ _ eq_refl _ _).
  - by vm_compute.
  - right. by eexists.
  - by vm_compute.
  - lia.
Defined.


Lemma stop_during_start_lost_witness :
  let w' := (node_start (devnet_node 5000) (None, (devnet_services host, O))).2.2 in
  node_steps (devnet_node 5000)
    [Begin CallStart; Continue 0; Continue 0; Begin CallStop; Continue 1; Continue 0; Continue 0; Continue 0; Continue 0; Continue 0]
    (mkNodeWorld (None, (devnet_services host, O)) [] []) =
  mkNodeWorld (Some slots, w') [] [Ok tt; Ok tt].
Proof.
  refine (proj2 (stop_during_start_lost (devnet_node 5000) 2 (devnet_services host, O) (Some slots) _ _ _)).
  - by vm_compute.
  - cbn. lia.
Defined.

End ServicesExample.
