(* ===== verification/Chain.v ===== *)
(** * The chain service ([crates/runtime/src/chain/chain]) and its start-up

    [service.rs], [cache.rs], [error.rs], and the parts of the composition root
    [crates/node/src/devnet.rs] that start it: the engine over a store, and the
    local signer.

    A method of the service takes the engine lock, the signer lock and the store
    in turn, holding none of them across two sections; other calls may run in
    between.  So a method is a sequence of sections: [service_start] is the first
    section of a call, [service_resume] the next section of a call under way, and
    a call run to its end is the method ([service_import_block] and so on).  A run
    of the service is any interleaving of sections ([service_run]). *)

From stdpp Require Import base numbers list gmap strings sorting.
From Stdlib Require Import Strings.Byte ZArith Lia.
From S2P Require Import Prelude Config Types Merkle Codec Slot Containers State Stf Ancestry Ghost Store Production Engine Wire Ots Storage Signer.

(** [ProdVerifier]: leanSig verification of the crypto crate. *)
Definition ProdVerifier {sha : Sha256} {ls : LeanSig} {sw : SchemeWire} : Verifier CryptoError :=
  fun public_key epoch message signature =>
    match verify public_key epoch message signature with
    | Ok _ => inl tt
    | Err e => inr e
    | Panic | Diverge => inr InvalidSignature
    end.

Section Chain.
Context {sha : Sha256} {o : HashOrder} {ls : LeanSig} {T S : Type}.
Context {signer : AttestationSigner (T * S)} {db : ChainStore S}.
Variable verifier : option (Verifier CryptoError).

Inductive ChainError :=
| ChainStorage (e : StorageError)
| PostStateMissing (block_root : Bytes32)
| ChainEngine (e : EngineError CryptoError)
| HeadBlockMissing (head_root : Bytes32)
| ChainSign (e : SignError).

(** The engine's store, the state of the signer and the durable store, which the
    signer shares. *)
Definition Service : Type := Store * (T * S).

Definition on_engine {E A} (wrap : E -> ChainError) (c : M Store E A) : M Service ChainError A :=
  fun '(engine, rest) => let '(r, engine) := c engine in (omap_err wrap r, (engine, rest)).
Definition on_signer {A} (c : M (T * S) SignError A) : M Service ChainError A :=
  fun '(engine, rest) => let '(r, rest) := c rest in (omap_err ChainSign r, (engine, rest)).
Definition on_db {A} (c : M S StorageError A) : M Service ChainError A :=
  fun '(engine, (inner, store)) => let '(r, store) := c store in (omap_err ChainStorage r, (engine, (inner, store))).
(** Engine calls that report failure in their result. *)
Definition infallible (e : Empty_set) : ChainError := match e with end.

(** ** Snapshots ([cache.rs]) *)

Record ChainSnapshot := mkChainSnapshot {
  cs_head_root : Bytes32;
  cs_current_slot : N;
  cs_latest_justified : Checkpoint;
  cs_latest_finalized : Checkpoint;
}.

Definition ChainSnapshot_from_engine (engine : Store) : ChainSnapshot :=
  mkChainSnapshot (s_head engine) (time_slot (s_time engine)) (s_latest_justified engine) (s_latest_finalized engine).

Definition local_status (self : Service) : Status :=
  let snap := ChainSnapshot_from_engine (fst self) in
  let head := mkCheckpoint (cs_head_root snap) (cs_current_slot snap) in
  mkStatus (cs_latest_finalized snap) head.

(** ** Methods ([service.rs]) *)

Definition persist_plan (plan : PersistPlan) : M Service ChainError unit :=
  let! _ := on_db (db_save_accepted (pp_block_root plan) (pp_block plan) (pp_state plan)
                     (mkHeadInfo (pp_head plan) (pp_finalized plan))) in
  mret tt.

Definition persist_accepted (outcome : BlockImportResult CryptoError) (plan : option PersistPlan)
    : M Service ChainError (BlockImportResult CryptoError) :=
  match outcome with
  | BlockAccepted block_root _ _ _ =>
      let! plan := mlift (ok_or plan (PostStateMissing block_root)) in
      let! _ := persist_plan plan in
      mret outcome
  | _ => mret outcome
  end.

Definition service_import_block (signed : SignedBlockWithAttestation) : M Service ChainError (BlockImportResult CryptoError) :=
  let! (outcome, plan) := on_engine infallible (import_block_capturing verifier signed) in
  persist_accepted outcome plan.

Definition service_import_block_synced (signed : SignedBlockWithAttestation)
    : M Service ChainError (BlockImportResult CryptoError) :=
  let! (outcome, plan) := on_engine infallible (import_block_synced_capturing verifier signed) in
  persist_accepted outcome plan.

Definition service_import_attestation (signed : SignedAttestation)
    : M Service ChainError (AttestationImportResult CryptoError) :=
  on_engine infallible (import_attestation signed).

Definition service_tick_interval (has_proposal : bool) : M Service ChainError unit :=
  let! _ := on_engine ChainEngine (engine_tick_interval has_proposal) in mret tt.

(** The four sections of [produce_block]. *)

Definition produce_unsigned (slot : Slot) (validator : ValidatorIndex)
    : M Service ChainError (UnsignedProduction * PersistInputs) :=
  let! prod := on_engine ChainEngine (produce_block_unsigned slot validator) in
  let! inputs := mlift (ok_or (up_persist prod) (PostStateMissing (up_block_root prod))) in
  mret (prod, inputs).

Definition sign_own (message : Attestation) : M Service ChainError Signature := on_signer (sign_attestation message).

(** A rejected vote is only logged. *)
Definition reimport_own (message : Attestation) (signature : Signature) : M Service ChainError unit :=
  let! _ := on_engine infallible (import_attestation (CryptoError:=CryptoError) (mkSignedAttestation message signature)) in
  mret tt.

Definition signed_production (prod : UnsignedProduction) (proposer_attestation : Attestation) (signature : Signature)
    : SignedBlockWithAttestation :=
  mkSignedBlockWithAttestation (mkBlockWithAttestation (up_block prod) proposer_attestation)
    (mkBlockSignatures [signature]).

Definition production_plan (prod : UnsignedProduction) (inputs : PersistInputs) (signed : SignedBlockWithAttestation)
    : PersistPlan :=
  mkPersistPlan (up_block_root prod) (pi_head inputs) (pi_finalized inputs) (pi_post_state inputs) signed.

Definition service_produce_block (slot : Slot) (validator : ValidatorIndex)
    : M Service ChainError SignedBlockWithAttestation :=
  let! (prod, inputs) := produce_unsigned slot validator in
  let proposer_attestation := mkAttestation validator (pv_vote (up_proposer_vote prod)) in
  let! signature := sign_own proposer_attestation in
  let! _ := reimport_own proposer_attestation signature in
  let signed := signed_production prod proposer_attestation signature in
  let! _ := persist_plan (production_plan prod inputs signed) in
  mret signed.

Definition service_produce_attestation (slot : Slot) (validator : ValidatorIndex) : M Service ChainError SignedAttestation :=
  let! produced := on_engine ChainEngine (engine_produce_attestation_vote slot) in
  let message := mkAttestation validator (pv_vote produced) in
  let! signature := sign_own message in
  let! _ := reimport_own message signature in
  mret (mkSignedAttestation message signature).

Definition service_has_block (root : Bytes32) : M Service ChainError bool := on_db (db_has_block root).

(** ** Interleavings

    A call under way is the section it has to run next. *)

Inductive ServiceCall :=
| ImportBlock (signed : SignedBlockWithAttestation)
| ImportBlockSynced (signed : SignedBlockWithAttestation)
| ImportAttestation (signed : SignedAttestation)
| TickInterval (has_proposal : bool)
| ProduceBlock (slot : Slot) (validator : ValidatorIndex)
| ProduceAttestation (slot : Slot) (validator : ValidatorIndex).

Inductive ServiceTask :=
| PersistAccepted (outcome : BlockImportResult CryptoError) (plan : option PersistPlan)
| SignProposal (prod : UnsignedProduction) (inputs : PersistInputs) (message : Attestation)
| ReimportProposal (prod : UnsignedProduction) (inputs : PersistInputs) (message : Attestation) (signature : Signature)
| PersistProduced (plan : PersistPlan)
| SignVote (message : Attestation)
| ReimportVote (message : Attestation) (signature : Signature).

Definition service_start (call : ServiceCall) : M Service ChainError (option ServiceTask) :=
  match call with
  | ImportBlock signed =>
      let! (outcome, plan) := on_engine infallible (import_block_capturing verifier signed) in
      mret (Some (PersistAccepted outcome plan))
  | ImportBlockSynced signed =>
      let! (outcome, plan) := on_engine infallible (import_block_synced_capturing verifier signed) in
      mret (Some (PersistAccepted outcome plan))
  | ImportAttestation signed => let! _ := service_import_attestation signed in mret None
  | TickInterval has_proposal => let! _ := service_tick_interval has_proposal in mret None
  | ProduceBlock slot validator =>
      let! (prod, inputs) := produce_unsigned slot validator in
      mret (Some (SignProposal prod inputs (mkAttestation validator (pv_vote (up_proposer_vote prod)))))
  | ProduceAttestation slot validator =>
      let! produced := on_engine ChainEngine (engine_produce_attestation_vote slot) in
      mret (Some (SignVote (mkAttestation validator (pv_vote produced))))
  end.

Definition service_resume (task : ServiceTask) : M Service ChainError (option ServiceTask) :=
  match task with
  | PersistAccepted outcome plan => let! _ := persist_accepted outcome plan in mret None
  | SignProposal prod inputs message =>
      let! signature := sign_own message in mret (Some (ReimportProposal prod inputs message signature))
  | ReimportProposal prod inputs message signature =>
      let! _ := reimport_own message signature in
      mret (Some (PersistProduced (production_plan prod inputs (signed_production prod message signature))))
  | PersistProduced plan => let! _ := persist_plan plan in mret None
  | SignVote message => let! signature := sign_own message in mret (Some (ReimportVote message signature))
  | ReimportVote message signature => let! _ := reimport_own message signature in mret None
  end.

(** A call run to its end: at most four sections. *)
Fixpoint finish_task (fuel : nat) (task : option ServiceTask) : M Service ChainError unit :=
  match fuel, task with
  | _, None => mret tt
  | O, Some _ => mlift Diverge
  | Datatypes.S fuel, Some task => let! task := service_resume task in finish_task fuel task
  end.

Definition run_call (call : ServiceCall) : M Service ChainError unit :=
  let! task := service_start call in finish_task 3 task.

(** The service with the calls under way and the results of the finished ones. *)
Record World := mkWorld {
  w_service : Service;
  w_tasks : list ServiceTask;
  w_results : list (Outcome ChainError unit);
}.

Inductive ServiceStep := Start (call : ServiceCall) | Resume (i : nat).

(** After a section: the call goes on, or has ended. *)
Definition section_done (w : World) (run : Outcome ChainError (option ServiceTask) * Service) : World :=
  let '(r, service) := run in
  match r with
  | Ok (Some task) => mkWorld service (w_tasks w ++ [task]) (w_results w)
  | Ok None => mkWorld service (w_tasks w) (w_results w ++ [Ok tt])
  | Err e => mkWorld service (w_tasks w) (w_results w ++ [Err e])
  | Panic => mkWorld service (w_tasks w) (w_results w ++ [Panic])
  | Diverge => mkWorld service (w_tasks w) (w_results w ++ [Diverge])
  end.

Definition service_step (w : World) (step : ServiceStep) : World :=
  match step with
  | Start call => section_done w (service_start call (w_service w))
  | Resume i =>
      match w_tasks w !! i with
      | None => w
      | Some task =>
          section_done (mkWorld (w_service w) (delete i (w_tasks w)) (w_results w)) (service_resume task (w_service w))
      end
  end.

Definition service_run (steps : list ServiceStep) (w : World) : World := fold_left service_step steps w.

(** ** Start-up ([devnet.rs]) *)

(** The errors of the composition root, which wraps them with a context. *)
Inductive StartError :=
| StartStorage (e : StorageError)
| StartForkchoice (e : ForkchoiceError)
| StartHead (e : HeadInfoError)
| InconsistentStore
| SecretsDirRequired
| StartSigner (e : SignerLoadError)
| DurableStoreRequired.

Definition start_db {A} (c : M S StorageError A) : M S StartError A :=
  fun store => let '(r, store) := c store in (omap_err StartStorage r, store).

Definition Attestation_default : Attestation :=
  mkAttestation 0 (mkAttestationData 0 Checkpoint_default Checkpoint_default Checkpoint_default).

Definition signed_block_envelope (block : Block) : SignedBlockWithAttestation :=
  mkSignedBlockWithAttestation (mkBlockWithAttestation block Attestation_default) (mkBlockSignatures []).

Definition resume_anchor : M S StartError (option (Bytes32 * State * Block)) :=
  let! head := start_db db_load_head in
  match head with
  | None => mret None
  | Some head =>
      let head_root := cp_root (hi_head head) in
      let! block := start_db (db_load_block head_root) in
      let! state := start_db (db_load_state head_root) in
      match block, state with
      | Some block, Some state => mret (Some (head_root, state, bwa_block (sb_message block)))
      | _, _ => mret None
      end
  end.

Definition persist_anchor (anchor_root : Bytes32) (anchor_slot : Slot) (finalized : Checkpoint)
    (signed_anchor : SignedBlockWithAttestation) (anchor_state : State) : M S StartError unit :=
  let! _ := start_db (db_save_block anchor_root signed_anchor) in
  let! _ := start_db (db_save_state anchor_root anchor_state) in
  let! head := mlift (omap_err StartHead (HeadInfo_try_new (mkCheckpoint anchor_root anchor_slot) finalized)) in
  let! _ := start_db (db_save_head head) in
  mret tt.

Definition build_engine (genesis_state : State) (genesis_block : Block) : M S StartError Store :=
  let! anchor := resume_anchor in
  match anchor with
  | Some (head_root, state, block) =>
      let! engine := mlift (omap_err StartForkchoice (from_trusted_head state block)) in
      if negb (bool_decide (s_head engine = head_root)) then mthrow InconsistentStore else mret engine
  | None =>
      let signed_anchor := signed_block_envelope genesis_block in
      let! engine := mlift (omap_err StartForkchoice (from_anchor genesis_state genesis_block)) in
      let! _ := persist_anchor (s_head engine) (b_slot genesis_block) (s_latest_finalized engine) signed_anchor genesis_state in
      mret engine
  end.

Definition build_local_signer {sw : SchemeWire} (fs_read : string -> list u8 + string) (local : list ValidatorIndex)
    (secrets_dir : option string) : M S StartError LocalSigner :=
  match local with
  | [] => mret LocalSigner_empty
  | _ =>
      let! dir := mlift (ok_or secrets_dir SecretsDirRequired) in
      fun store => let '(r, store) := load_resuming fs_read dir local store in (omap_err StartSigner r, store)
  end.

(** The backends, and the guard of [new_devnet] on them. *)
Inductive StorageKind := Memory | Persistent (path : string).
Definition is_durable (kind : StorageKind) : bool := match kind with Persistent _ => true | Memory => false end.

Definition start_signer {sw : SchemeWire} (fs_read : string -> list u8 + string) (storage : StorageKind)
    (local : list ValidatorIndex) (secrets_dir : option string) : M S StartError LocalSigner :=
  if negb (bool_decide (local = []) || is_durable storage) then mthrow DurableStoreRequired
  else build_local_signer fs_read local secrets_dir.

End Chain.
