(* ===== verification/ChainInv.v ===== *)
(** * Correctness of the chain service

    Under any interleaving of calls: the engine's invariant holds, no call panics,
    and the durable store holds only blocks the engine accepted, each with its
    post-state ([world_inv]).  The consequence is what a restart finds
    ([restart_after_any_run]). *)

From stdpp Require Import base numbers list gmap strings sorting.
From Stdlib Require Import Strings.Byte ZArith Lia.
From S2P Require Import Prelude Config Types Merkle Codec Slot Containers State Stf StfInv Ancestry Ghost Store StoreInv Production ProductionInv Engine EngineInv Ots Storage Signer Chain.

(** The block, state and head tables are the same. *)
Definition same_chain (c c' : Inner) : Prop :=
  in_blocks c' = in_blocks c /\ in_states c' = in_states c /\ in_head c' = in_head c.

(** What the service relies on of its signer: it returns, keeps its own invariant,
    and writes nothing to the store but watermarks. *)
Class SignerLaws {ls : LeanSig} {T S : Type} (signer : AttestationSigner (T * S)) (rep : S -> Inner -> Prop)
    (signer_inv : T -> Prop) : Prop :=
  sign_law att t s c : signer_inv t -> rep s c ->
    exists r t' s' c', sign_attestation att (t, s) = (r, (t', s')) /\ returned r /\ signer_inv t' /\ rep s' c' /\ same_chain c c'.

(** The guard over the local signer is such a signer. *)
Definition local_signer_inv {sha : Sha256} {ls : LeanSig} {sw : SchemeWire} (s : LocalSigner) : Prop :=
  forall v k, ls_keys s !! v = Some k -> key_fits k.

#[export] Instance guard_signer_laws {sha : Sha256} {ls : LeanSig} {sw : SchemeWire} {laws : LeanSigLaws}
    {S : Type} {db : ChainStore S} {rep fails} {refines : StoreRefines S rep fails} :
  SignerLaws (S:=S) OtsSigner_AttestationSigner rep local_signer_inv.
Proof.
  intros att t s c Ht Hrep. unfold sign_attestation, OtsSigner_AttestationSigner, on_inner, on_store. unfold mbind at 1.
  destruct (local_sign_cases att t) as (r0 & t' & He & Hout).
  unfold sign_attestation; cbn [persistable_signer LocalSigner_PersistableSigner]; rewrite He.
  assert (Ht' : local_signer_inv t').
  { unfold local_signer_inv. eapply (local_sign_keys (fun _ => key_fits) _ _ _ _ Hout); eauto using advanced_fits, signed_fits. }
  destruct Hout as [e|e k k1 Hk Hadv Hl|sig k k1 Hk Hadv Hl Hsig Hle Hin].
  - eexists _, _, _, c. by split_and!.
  - eexists _, _, _, c. by split_and!.
  - mstep. cbn [watermark_for LocalSigner_PersistableSigner ls_keys]. rewrite lookup_insert_eq.
    cbn [fmap option_fmap option_map ok_or]. mstep.
    pose proof (save_ots_law s c (att_validator_id att) _ Hrep (key_fits_watermark _ (signed_fits k k1 _ (Ht _ _ Hk) Hadv Hin))) as Hs.
    unfold mbind. unfold written in Hs. destruct (save_ots_key_state _ _ s) as [[[]|e| |] s']; try done; simpl.
    + eexists _, _, _, _. by split_and!.
    + destruct Hs as [_ [Hs|Hs]]; (eexists _, _, _, _; split_and!; [done|done|done|exact Hs|done]).
Qed.

Section ChainInv.
Context {sha : Sha256} {o : HashOrder} {Ho : HashOrderLaws o} {ls : LeanSig} {T S : Type}.
Context {signer : AttestationSigner (T * S)} {db : ChainStore S} {rep : S -> Inner -> Prop} {fails : Prop}
  {signer_inv : T -> Prop}.
Context {refines : StoreRefines S rep fails} {signing : SignerLaws signer rep signer_inv}.
Variable verifier : option (Verifier CryptoError).

(** ** Sections and methods *)

(** Running the sections of a call one after the other is the method. *)
Lemma mbind_assoc {St E A B C} (c : M St E A) (f : A -> M St E B) (g : B -> M St E C) s :
  mbind (mbind c f) g s = mbind c (fun a => mbind (f a) g) s.
Proof. unfold mbind. by destruct (c s) as [[]]. Qed.

Definition discard {St E A} (c : M St E A) : M St E unit := let! _ := c in mret tt.

Definition call_method (call : ServiceCall) : M (Service (T:=T) (S:=S)) (ChainError (ls:=ls)) unit :=
  match call with
  | ImportBlock signed => discard (service_import_block verifier signed)
  | ImportBlockSynced signed => discard (service_import_block_synced verifier signed)
  | ImportAttestation signed => discard (service_import_attestation signed)
  | TickInterval has_proposal => discard (service_tick_interval has_proposal)
  | ProduceBlock slot validator => discard (service_produce_block slot validator)
  | ProduceAttestation slot validator => discard (service_produce_attestation slot validator)
  end.

Lemma run_call_method call s : run_call verifier call s = call_method call s.
Proof.
  unfold run_call, call_method, discard.
  destruct call; cbn [service_start]; unfold service_import_block, service_import_block_synced, service_produce_block,
    service_produce_attestation, produce_unsigned; cbn [finish_task service_resume]; unfold mbind, mret.
  - destruct (on_engine _ _ s) as [[[outcome plan]| | |] s1]; try done. simpl. unfold mbind, mret. by destruct (persist_accepted _ _ s1) as [[] ?].
  - destruct (on_engine _ _ s) as [[[outcome plan]| | |] s1]; try done. simpl. unfold mbind, mret. by destruct (persist_accepted _ _ s1) as [[] ?].
  - by destruct (service_import_attestation _ s) as [[] ?].
  - by destruct (service_tick_interval _ s) as [[] ?].
  - destruct (on_engine _ _ s) as [[prod| | |] s1]; try done. simpl. destruct (up_persist prod) as [inputs|]; simpl; [|done].
    unfold mbind, mret. destruct (sign_own _ s1) as [[sig| | |] s3]; try done. simpl. unfold mbind, mret.
    destruct (reimport_own _ _ s3) as [[[]| | |] s4]; try done. simpl. unfold mbind, mret. by destruct (persist_plan _ s4) as [[] ?].
  - destruct (on_engine _ _ s) as [[produced| | |] s1]; try done. simpl. unfold mbind, mret.
    destruct (sign_own _ s1) as [[sig| | |] s2]; try done. simpl. unfold mbind, mret. by destruct (reimport_own _ _ s2) as [[] ?].
Qed.

(** ** What the engine and the store hold *)

Definition engine_ok (anchor : Bytes32) (vs : list Validator) (engine : Store) : Prop :=
  store_inv anchor vs engine /\ anchor_parent_fresh engine anchor.

(** A checkpoint of a tracked block. *)
Definition head_tracked (engine : Store) (cp : Checkpoint) : Prop :=
  exists hb, s_blocks engine !! cp_root cp = Some hb /\ b_slot hb = cp_slot cp.

Record plan_ok (engine : Store) (plan : PersistPlan) : Prop := {
  po_root : hash_tree_root (bwa_block (sb_message (pp_block plan))) = pp_block_root plan;
  po_wf : ssz_wf (pp_block plan);
  po_tracked : is_Some (s_blocks engine !! pp_block_root plan);
  po_state : s_states engine !! pp_block_root plan = Some (pp_state plan);
  po_head : head_tracked engine (pp_head plan);
  po_finalized : ssz_wf (pp_finalized plan);
}.

(** Whatever the signature, the plan of the production is a good one. *)
Definition production_ok (engine : Store) (prod : UnsignedProduction) (inputs : PersistInputs) : Prop :=
  forall message signature, ssz_wf message ->
    plan_ok engine (production_plan prod inputs (signed_production prod message signature)).

Definition task_ok (engine : Store) (task : ServiceTask (ls:=ls)) : Prop :=
  match task with
  | PersistAccepted (BlockAccepted _ _ _ _) plan => exists p, plan = Some p /\ plan_ok engine p
  | PersistAccepted _ _ => True
  | SignProposal prod inputs message | ReimportProposal prod inputs message _ =>
      production_ok engine prod inputs /\ ssz_wf message
  | PersistProduced plan => plan_ok engine plan
  | SignVote message | ReimportVote message _ => ssz_wf message
  end.

(** The block a call under way will store. *)
Definition task_roots (task : ServiceTask (ls:=ls)) : list Bytes32 :=
  match task with
  | PersistAccepted (BlockAccepted _ _ _ _) (Some plan) => [pp_block_root plan]
  | SignProposal prod _ _ | ReimportProposal prod _ _ _ => [up_block_root prod]
  | PersistProduced plan => [pp_block_root plan]
  | _ => []
  end.

(** A block with its post-state, as a restart needs them. *)
Definition sound_pair (block : Block) (state : State) : Prop :=
  b_state_root block = hash_tree_root state /\ post_state_of (st_validators state) (b_slot block) state.

(** Every stored block has its state, and the pair is sound on its own or is the
    engine's entry; the stored head is a tracked block. *)
Record db_sound (engine : Store) (c : Inner) : Prop := {
  ds_pairs : forall r sb st, in_blocks c !! r = Some sb -> in_states c !! r = Some st ->
    hash_tree_root (bwa_block (sb_message sb)) = r /\
    (sound_pair (bwa_block (sb_message sb)) st \/ is_Some (s_blocks engine !! r) /\ s_states engine !! r = Some st);
  ds_both : forall r, is_Some (in_blocks c !! r) <-> is_Some (in_states c !! r);
  ds_head : exists info, in_head c = Some info /\ head_tracked engine (hi_head info);
}.

(** ** Stability *)

Lemma engine_ok_grows anchor vs engine engine' :
  store_inv anchor vs engine -> anchor_parent_fresh engine anchor -> store_inv anchor vs engine' -> grows engine engine' ->
  engine_ok anchor vs engine'.
Proof. intros Hi Hfr Hi' Hg. split; [done|by apply (fresh_grows anchor vs engine)]. Qed.

Lemma head_tracked_grows engine engine' cp : grows engine engine' -> head_tracked engine cp -> head_tracked engine' cp.
Proof. intros Hg (hb & Hb & Hs). exists hb. split; [|done]. by eapply lookup_weaken, gr_blocks. Qed.

Lemma plan_ok_grows engine engine' plan : grows engine engine' -> plan_ok engine plan -> plan_ok engine' plan.
Proof.
  intros Hg [H1 H2 [b H3] H4 H5 H6]. split; [done|done| | |by eapply head_tracked_grows|done].
  - exists b. by eapply lookup_weaken, gr_blocks.
  - by eapply lookup_weaken, gr_states.
Qed.

Lemma task_ok_grows engine engine' task : grows engine engine' -> task_ok engine task -> task_ok engine' task.
Proof.
  intros Hg. destruct task as [outcome plan| | | | |]; simpl; try done.
  - destruct outcome; try done. intros (p & -> & Hp). exists p. split; [done|by eapply plan_ok_grows].
  - intros [Hp Hm]. split; [|done]. intros m sg Hwf. by eapply plan_ok_grows, Hp.
  - intros [Hp Hm]. split; [|done]. intros m sg Hwf. by eapply plan_ok_grows, Hp.
  - by apply plan_ok_grows.
Qed.

Lemma db_sound_grows engine engine' c : grows engine engine' -> db_sound engine c -> db_sound engine' c.
Proof.
  intros Hg [Hp Hb (info & Hi & Hh)]. split; [|done|exists info; split; [done|by eapply head_tracked_grows]].
  intros r sb st Hsb Hst. destruct (Hp r sb st Hsb Hst) as [Hr [Hs|[[b Ht] Hs]]]; split; auto. right. split.
  - exists b. by eapply lookup_weaken, gr_blocks.
  - by eapply lookup_weaken, gr_states.
Qed.

Lemma db_sound_same_chain engine c c' : same_chain c c' -> db_sound engine c -> db_sound engine c'.
Proof. intros (E1 & E2 & E3) []. by split; rewrite ?E1, ?E2, ?E3. Qed.

Lemma db_sound_put engine c plan :
  plan_ok engine plan -> db_sound engine c ->
  db_sound engine (put_accepted (pp_block_root plan) (pp_block plan) (pp_state plan) (mkHeadInfo (pp_head plan) (pp_finalized plan)) c).
Proof.
  intros [Hr Hw Ht Hs Hh Hf] [Hp Hb Hhd]. split; simpl.
  - intros r sb st [[<- <-]|[Hne Hsb]]%lookup_insert_Some [[? <-]|[? Hst]]%lookup_insert_Some; try done; [by auto|by apply Hp].
  - intros r. by rewrite !lookup_insert_is_Some', Hb.
  - by eexists.
Qed.

(** ** Engine sections *)

Lemma tracked_state_wf anchor vs engine r b :
  store_inv anchor vs engine -> s_blocks engine !! r = Some b ->
  exists st, s_states engine !! r = Some st /\ ssz_wf st /\ u64_ok (b_slot b).
Proof.
  intros Hi Hb. destruct (si_states _ _ _ Hi _ _ Hb) as (st & Hst & [[Hwf] Hslot _ _]). exists st. split_and!; [done|done|].
  rewrite <-Hslot. by destruct Hwf.
Qed.

Lemma head_tracked_wf anchor vs engine cp : store_inv anchor vs engine -> head_tracked engine cp -> ssz_wf cp.
Proof. intros Hi (hb & Hb & Hs). unfold ssz_wf, Checkpoint_SszWf. rewrite <-Hs. by destruct (tracked_state_wf _ _ _ _ _ Hi Hb) as (_ & _ & _ & ?). Qed.

Lemma import_section anchor vs engine sb policy :
  engine_ok anchor vs engine -> ssz_wf sb ->
  exists outcome plan engine', import_block_capturing_inner verifier sb policy engine = (Ok (outcome, plan), engine') /\
    engine_ok anchor vs engine' /\ grows engine engine' /\ task_ok engine' (PersistAccepted outcome plan) /\
    forall r, is_Some (s_blocks engine' !! r) -> is_Some (s_blocks engine !! r) \/ r ∈ task_roots (PersistAccepted outcome plan).
Proof.
  intros [Hi Hfr] Hwf. pose proof (import_block_outcome anchor vs engine verifier sb policy Hi Hfr Hwf) as Hout. simpl in Hout.
  destruct (import_block_capturing_inner verifier sb policy engine) as [[[outcome plan]|[]| |] engine']; [|done..].
  exists outcome, plan, engine'. destruct outcome as [r parent post_root head| | |].
  - destruct Hout as (-> & -> & -> & hs & post & hb & _ & Hnew & _ & _ & _ & Hbl & Hst & _ & _ & Hhb & -> & Hi' & Hg).
    split_and!; [done|by apply (engine_ok_grows anchor vs engine)|done| |].
    + eexists. split; [done|]. split; simpl; [done|done| | |by exists hb|apply (si_checkpoints _ _ _ Hi')].
      * by rewrite Hbl, lookup_insert_eq.
      * by rewrite Hst, lookup_insert_eq.
    + intros r. rewrite Hbl, lookup_insert_is_Some'. simpl. rewrite list_elem_of_singleton. intros [<-|]; auto.
  - destruct Hout as (_ & _ & -> & ->). split_and!; [done|by split|done|done|auto].
  - destruct Hout as (_ & _ & _ & -> & ->). split_and!; [done|by split|done|done|auto].
  - destruct Hout as (_ & _ & -> & -> & _). split_and!; [done|by split|done|done|auto].
Qed.

Lemma produce_section anchor vs engine slot v :
  engine_ok anchor vs engine -> u64_ok slot -> u64_ok v ->
  exists r engine', produce_block_unsigned (CryptoError:=CryptoError (ls:=ls)) slot v engine = (r, engine') /\
    engine_ok anchor vs engine' /\ grows engine engine' /\
    match r with
    | Ok prod => exists inputs, up_persist prod = Some inputs /\ production_ok engine' prod inputs /\
        ssz_wf (mkAttestation v (pv_vote (up_proposer_vote prod))) /\ ad_slot (pv_vote (up_proposer_vote prod)) = slot /\
        up_block_root prod = hash_tree_root (up_block prod) /\ only_added engine engine' (up_block_root prod)
    | Err _ => True
    | _ => False
    end.
Proof.
  intros [Hi Hfr] Hsl Hv. unfold produce_block_unsigned, lift_fc, mbind.
  destruct (produce_block_cases anchor vs engine slot v Hi Hfr Hsl Hv)
    as (h & _ & Hi1 & [[e ->]|(hs & votes & post & s' & -> & _ & _ & _ & Hgat & _ & _ & Hi' & Hgr & Hadd)]); cbn [omap_err].
  { eexists _, _. split_and!; [done|by apply (engine_ok_grows anchor vs engine)|by split|done]. }
  assert (Hg : grows engine s') by (etrans; [|exact Hgr]; by split).
  destruct (produce_attestation_vote_Ok anchor vs s' slot Hi') as (h2 & hb & cp & tb & -> & Hi2 & _ & Hhb & Htb & Hts & _). cbn [omap_err].
  set (s2 := set_head h2 (set_votes (s_latest_new_votes s' ∪ s_latest_known_votes s') ∅ s')) in *. simpl.
  assert (Hg2 : grows engine s2) by (etrans; [exact Hg|by split]).
  eexists _, _. split_and!; [done|by apply (engine_ok_grows anchor vs engine)|done|].
  set (block := mkBlock slot v h (hash_tree_root post) (body_from votes)) in *. destruct Hadd as [[b Hb] Hadd].
  destruct (si_states _ _ _ Hi' _ _ Hb) as (st & Hst & _).
  exists (mkPersistInputs (mkCheckpoint h2 (b_slot hb)) (s_latest_finalized s') st). split_and!.
  - unfold capture_persist_inputs. simpl. rewrite Hst. simpl. by rewrite Hhb.
  - intros message signature Hm. split; simpl; [done| |by exists b|done|by exists hb|apply (si_checkpoints _ _ _ Hi')].
    split; [|by vm_compute]. split; [|done]. by apply (body_wf anchor vs _ slot v h votes Hi1).
  - split; [done|]. split_and!; [done|..].
    + apply (head_tracked_wf anchor vs s'); [done|by exists hb].
    + apply (head_tracked_wf anchor vs s'); [done|by exists tb].
    + apply (si_checkpoints _ _ _ Hi').
  - done.
  - done.
  - by split; [exists b|].
Qed.

Lemma vote_section anchor vs engine slot v :
  engine_ok anchor vs engine -> u64_ok slot -> u64_ok v ->
  exists pv engine', engine_produce_attestation_vote (CryptoError:=CryptoError (ls:=ls)) slot engine = (Ok pv, engine') /\
    engine_ok anchor vs engine' /\ grows engine engine' /\ s_blocks engine' = s_blocks engine /\
    ssz_wf (mkAttestation v (pv_vote pv)).
Proof.
  intros [Hi Hfr] Hsl Hv. unfold engine_produce_attestation_vote, lift_fc.
  destruct (produce_attestation_vote_Ok anchor vs engine slot Hi) as (h2 & hb & cp & tb & -> & Hi2 & _ & Hhb & Htb & Hts & _).
  eexists _, _. split_and!; [done|by apply (engine_ok_grows anchor vs engine)|by split|done|]. split; [done|]. split_and!; [done|..].
  - apply (head_tracked_wf anchor vs engine); [done|by exists hb].
  - apply (head_tracked_wf anchor vs engine); [done|by exists tb].
  - apply (si_checkpoints _ _ _ Hi).
Qed.

(** ** One section

    [roots] are the blocks the call was going to store.  If the section succeeds,
    they and the newly tracked blocks are stored or will be by the rest of the
    call. *)
Definition section_post (anchor : Bytes32) (vs : list Validator) (engine : Store) (c : Inner) (roots : list Bytes32)
    (run : Outcome (ChainError (ls:=ls)) (option (ServiceTask (ls:=ls))) * Service (T:=T) (S:=S)) : Prop :=
  exists r engine' t' s' c', run = (r, (engine', (t', s'))) /\ engine_ok anchor vs engine' /\ grows engine engine' /\
    signer_inv t' /\ rep s' c' /\ db_sound engine' c' /\ returned r /\
    (forall root, is_Some (in_blocks c !! root) -> is_Some (in_blocks c' !! root)) /\
    forall next, r = Ok next ->
      (forall task, next = Some task -> task_ok engine' task) /\
      forall root, is_Some (s_blocks engine' !! root) /\ s_blocks engine !! root = None \/ root ∈ roots ->
        is_Some (in_blocks c' !! root) \/ root ∈ from_option task_roots [] next.

Definition service_call_wf (call : ServiceCall) : Prop :=
  match call with
  | ImportBlock signed | ImportBlockSynced signed => ssz_wf signed
  | ImportAttestation signed => ssz_wf signed
  | TickInterval _ => True
  | ProduceBlock slot v | ProduceAttestation slot v => u64_ok slot /\ u64_ok v
  end.

(** A section that only uses the engine and tracks no block. *)
Lemma engine_section {E A} wrap anchor vs engine t s c roots (comp : M Store E A) next :
  keeps_blocks anchor vs engine comp -> engine_ok anchor vs engine -> signer_inv t -> rep s c -> db_sound engine c ->
  (forall engine' task, grows engine engine' -> next = Some task -> task_ok engine' task) -> roots ⊆ from_option task_roots [] next ->
  section_post anchor vs engine c roots
    (mbind (on_engine (T:=T) (S:=S) (ls:=ls) wrap comp) (fun _ => mret next) (engine, (t, s))).
Proof.
  intros (r & engine' & He & Hr & Hi' & Hg & Hb) [Hi Hfr] Ht Hrep Hdb Htask Hsub. unfold mbind, on_engine. rewrite He.
  pose proof (engine_ok_grows anchor vs engine engine' Hi Hfr Hi' Hg) as Hok.
  destruct r as [a|e| |]; simpl; [| |done|done]; eexists _, engine', t, s, c; split_and!; try done; eauto using db_sound_grows.
  intros _ [= <-]. split; [by eauto|]. intros root [[Hs Hn]|Hin]; [rewrite Hb, Hn in Hs; by destruct Hs|by right; apply Hsub].
Qed.

Lemma start_section anchor vs call engine t s c :
  engine_ok anchor vs engine -> signer_inv t -> rep s c -> db_sound engine c -> service_call_wf call ->
  section_post anchor vs engine c [] (service_start verifier call (engine, (t, s))).
Proof.
  intros Hok Ht Hrep Hdb Hwf. pose proof Hok as [Hi Hfr].
  assert (Himp : forall policy signed, ssz_wf signed -> section_post anchor vs engine c []
    (mbind (on_engine infallible (import_block_capturing_inner verifier signed policy))
       (fun '(outcome, plan) => mret (Some (PersistAccepted outcome plan))) (engine, (t, s)))).
  { intros policy signed Hw. destruct (import_section anchor vs engine signed policy Hok Hw) as (outcome & plan & engine' & He & Hok' & Hg & Htask & Hnew).
    unfold mbind, on_engine. rewrite He. simpl. eexists _, engine', t, s, c. split_and!; try done; [by eapply db_sound_grows|].
    intros _ [= <-]. split; [by intros _ [= <-]|]. intros root [[Hs Hn]|?%elem_of_nil]; [|done].
    destruct (Hnew root Hs) as [Hold|]; [rewrite Hn in Hold; by destruct Hold|by right]. }
  destruct call as [signed|signed|signed|hp|slot v|slot v]; cbn [service_start]; simpl in Hwf.
  - by apply Himp.
  - by apply Himp.
  - apply engine_section; try done. by apply import_attestation_keeps.
  - unfold service_tick_interval. unfold section_post. rewrite mbind_assoc. apply engine_section; try done. by apply tick_keeps.
  - destruct Hwf as [Hsl Hv]. destruct (produce_section anchor vs engine slot v Hok Hsl Hv) as (r & engine' & He & Hok' & Hg & Hr).
    unfold produce_unsigned, section_post. rewrite mbind_assoc. unfold mbind, on_engine. rewrite He.
    destruct r as [prod|e| |]; [|by eexists _, engine', t, s, c; split_and!; eauto using db_sound_grows|done|done].
    destruct Hr as (inputs & Hp & Hprod & Hm & _ & _ & _ & Hadd). simpl. rewrite Hp. simpl.
    eexists _, engine', t, s, c. split_and!; try done; [by eapply db_sound_grows|].
    intros _ [= <-]. split; [by intros _ [= <-]|]. intros root [[Hs Hn]|?%elem_of_nil]; [|done]. right. simpl.
    destruct (Hadd root Hs) as [Hold| ->]; [rewrite Hn in Hold; by destruct Hold|by apply list_elem_of_singleton].
  - destruct Hwf as [Hsl Hv]. destruct (vote_section anchor vs engine slot v Hok Hsl Hv) as (pv & engine' & He & Hok' & Hg & Hb & Hm).
    unfold mbind, on_engine. rewrite He. simpl. eexists _, engine', t, s, c. split_and!; try done; [by eapply db_sound_grows|].
    intros _ [= <-]. split; [by intros _ [= <-]|]. intros root [[Hs Hn]|?%elem_of_nil]; [|done]. rewrite Hb, Hn in Hs. by destruct Hs.
Qed.

(** Storing a plan. *)
Lemma persist_section anchor vs plan engine t s c :
  engine_ok anchor vs engine -> signer_inv t -> rep s c -> db_sound engine c -> plan_ok engine plan ->
  exists r s' c', persist_plan (ls:=ls) plan (engine, (t, s)) = (r, (engine, (t, s'))) /\ returned r /\
    (fails \/ r = Ok tt) /\ rep s' c' /\ db_sound engine c' /\
    (forall root, is_Some (in_blocks c !! root) -> is_Some (in_blocks c' !! root)) /\
    (r = Ok tt -> c' = put_accepted (pp_block_root plan) (pp_block plan) (pp_state plan) (mkHeadInfo (pp_head plan) (pp_finalized plan)) c).
Proof.
  intros [Hi _] Ht Hrep Hdb Hp. pose proof (db_sound_put engine c plan Hp Hdb) as Hdb'.
  destruct Hp as [_ Hw [b Hb] Hst Hh Hf]. destruct (tracked_state_wf _ _ _ _ _ Hi Hb) as (st & Hst' & Hwst & _). simplify_eq.
  pose proof (save_accepted_law s c (pp_block_root plan) (pp_block plan) (pp_state plan) (mkHeadInfo (pp_head plan) (pp_finalized plan))
    Hrep Hw Hwst (conj (head_tracked_wf _ _ _ _ Hi Hh) Hf)) as Hsave.
  set (c1 := put_accepted _ _ _ _ c) in *.
  assert (Hmono : forall root, is_Some (in_blocks c !! root) -> is_Some (in_blocks c1 !! root)).
  { intros root Hs. subst c1. simpl. apply lookup_insert_is_Some'. by right. }
  unfold persist_plan, mbind, on_db. unfold written in Hsave.
  destruct (db_save_accepted _ _ _ _ s) as [[[]|e| |] s']; simpl; [| |done|done].
  - exists (Ok tt), s', c1. split_and!; auto; done.
  - destruct Hsave as [Hfl [Hs|Hs]]; [exists (Err (ChainStorage e)), s', c|exists (Err (ChainStorage e)), s', c1]; split_and!; auto; done.
Qed.

Lemma persist_task_section anchor vs plan engine t s c k :
  engine_ok anchor vs engine -> signer_inv t -> rep s c -> db_sound engine c -> plan_ok engine plan ->
  (forall u w, k u w = (Ok None, w)) ->
  section_post anchor vs engine c [pp_block_root plan] (mbind (persist_plan (ls:=ls) plan) k (engine, (t, s))).
Proof.
  intros Hok Ht Hrep Hdb Hp Hk.
  destruct (persist_section anchor vs plan engine t s c Hok Ht Hrep Hdb Hp) as (r & s' & c' & He & Hr & _ & Hrep' & Hdb' & Hmono & Hput).
  unfold mbind. rewrite He. destruct r as [[]|e| |]; try done; rewrite ?Hk; (eexists _, engine, t, s', c'; split_and!; try done).
  intros _ [= <-].
  split; [done|]. intros root [[Hs Hn]|Hin]; [rewrite Hn in Hs; by destruct Hs|].
  apply list_elem_of_singleton in Hin as ->. left. rewrite (Hput eq_refl). simpl. by rewrite lookup_insert_eq.
Qed.

Lemma sign_section anchor vs engine t s c message (next : Signature -> option (ServiceTask (ls:=ls))) roots :
  engine_ok anchor vs engine -> signer_inv t -> rep s c -> db_sound engine c ->
  (forall sig task, next sig = Some task -> task_ok engine task) -> (forall sig, roots ⊆ from_option task_roots [] (next sig)) ->
  section_post anchor vs engine c roots (mbind (sign_own message) (fun sig => mret (next sig)) (engine, (t, s))).
Proof.
  intros Hok Ht Hrep Hdb Htask Hsub. destruct (sign_law message t s c Ht Hrep) as (r & t' & s' & c' & He & Hr & Ht' & Hrep' & Hsame).
  unfold mbind, sign_own, on_signer. rewrite He.
  assert (Hmono : forall root, is_Some (in_blocks c !! root) -> is_Some (in_blocks c' !! root)).
  { destruct Hsame as (-> & _). done. }
  destruct r as [sig|e| |]; simpl; [| |done|done]; eexists _, engine, t', s', c'; split_and!; try done; eauto using db_sound_same_chain.
  intros _ [= <-]. split; [by eauto|]. intros root [[Hs Hn]|Hin]; [rewrite Hn in Hs; by destruct Hs|right; by apply Hsub].
Qed.

Lemma resume_section anchor vs task engine t s c :
  engine_ok anchor vs engine -> signer_inv t -> rep s c -> db_sound engine c -> task_ok engine task ->
  section_post anchor vs engine c (task_roots task) (service_resume task (engine, (t, s))).
Proof.
  intros Hok Ht Hrep Hdb Htask. pose proof Hok as [Hi Hfr].
  destruct task as [outcome plan|prod inputs message|prod inputs message sig|plan|message|message sig]; cbn [service_resume].
  - destruct outcome; [|by eexists _, engine, t, s, c; split_and!; try done; intros _ [= <-]; (split; [done|]);
      intros root [[Hs Hn]|?%elem_of_nil]; [rewrite Hn in Hs; destruct Hs|]..].
    destruct Htask as (p & -> & Hp).
    cbn [persist_accepted ok_or]. rewrite mbind_assoc. mstep. rewrite mbind_assoc. by apply persist_task_section.
  - destruct Htask. by apply sign_section; [..|intros sig task [= <-]|].
  - destruct Htask as [Hp Hm]. unfold reimport_own, section_post. rewrite mbind_assoc. apply engine_section; try done.
    + by apply import_attestation_keeps.
    + intros engine' task Hg [= <-]. simpl. by eapply plan_ok_grows, Hp.
  - by apply persist_task_section.
  - by apply sign_section; [..|intros sig task [= <-]|].
  - unfold reimport_own, section_post. rewrite mbind_assoc. apply engine_section; try done. by apply import_attestation_keeps.
Qed.

(** ** Every interleaving *)

(** A call under way is going to store the block. *)
Definition pending (tasks : list (ServiceTask (ls:=ls))) (root : Bytes32) : Prop :=
  exists task, task ∈ tasks /\ root ∈ task_roots task.

(** If no call has failed, every tracked block is stored, or a call under way is
    going to store it. *)
Definition covered (engine : Store) (c : Inner) (tasks : list (ServiceTask (ls:=ls))) : Prop :=
  forall root, is_Some (s_blocks engine !! root) -> is_Some (in_blocks c !! root) \/ pending tasks root.

Definition world_inv (anchor : Bytes32) (vs : list Validator) (w : World (T:=T) (S:=S) (ls:=ls)) : Prop :=
  let '(engine, (t, s)) := w_service w in
  engine_ok anchor vs engine /\ signer_inv t /\ Forall (task_ok engine) (w_tasks w) /\ Forall returned (w_results w) /\
  exists c, rep s c /\ db_sound engine c /\ (Forall (eq (Ok tt)) (w_results w) -> covered engine c (w_tasks w)).

Lemma section_done_inv anchor vs w engine t s c tasks roots run :
  section_post anchor vs engine c roots run -> w_service w = (engine, (t, s)) ->
  Forall (task_ok engine) (w_tasks w) -> Forall returned (w_results w) ->
  (Forall (eq (Ok tt)) (w_results w) -> covered engine c tasks) ->
  (forall root, pending tasks root -> root ∈ roots \/ pending (w_tasks w) root) ->
  world_inv anchor vs (section_done w run).
Proof.
  intros (r & engine' & t' & s' & c' & -> & Hok & Hg & Ht & Hrep & Hdb & Hr & Hmono & Hnext) Hw Htasks Hres Hcov Hsub.
  assert (Htasks' : Forall (task_ok engine') (w_tasks w)).
  { eapply Forall_impl; [exact Htasks|]. intros task. by apply task_ok_grows. }
  assert (Hcov' : forall next, r = Ok next -> Forall (eq (Ok tt)) (w_results w) ->
    covered engine' c' (w_tasks w ++ from_option (fun task => [task]) [] next)).
  { intros next Hn Hall root Hs. destruct (Hnext next Hn) as [_ Hroots].
    assert (Hrest : root ∈ from_option task_roots [] next -> pending (w_tasks w ++ from_option (fun task => [task]) [] next) root).
    { destruct next as [task|]; simpl; [|by intros ?%elem_of_nil]. intros Hin. exists task. split; [|done].
      apply elem_of_app. right. by apply list_elem_of_singleton. }
    assert (Hold : pending (w_tasks w) root -> pending (w_tasks w ++ from_option (fun task => [task]) [] next) root).
    { intros (task & Hin & ?). exists task. split; [|done]. apply elem_of_app. by left. }
    destruct (s_blocks engine !! root) as [b|] eqn:Hb; [|destruct (Hroots root) as [|]; [left; by split|by left|auto]].
    destruct (Hcov Hall root) as [Hs'|Hin]; [by exists b|left; by apply Hmono|].
    destruct (Hsub root Hin) as [Hin'|]; [|auto]. destruct (Hroots root) as [|]; [by right|by left|auto]. }
  destruct r as [[task|]|e| |]; try done; simpl; split_and!; try done.
  - apply Forall_app. split; [done|]. apply Forall_singleton. destruct (Hnext _ eq_refl) as [Hnew _]. by apply Hnew.
  - exists c'. split_and!; [done|done|]. intros Hall. by apply (Hcov' (Some task)).
  - apply Forall_app. split; [done|by apply Forall_singleton].
  - exists c'. split_and!; [done|done|]. intros [Hall _]%Forall_app. specialize (Hcov' None eq_refl Hall). simpl in Hcov'. by rewrite app_nil_r in Hcov'.
  - apply Forall_app. split; [done|by apply Forall_singleton].
  - exists c'. split_and!; [done|done|]. intros [_ Hbad]%Forall_app. by inversion Hbad.
Qed.

Definition step_wf (step : ServiceStep) : Prop := match step with Start call => service_call_wf call | Resume _ => True end.

Lemma service_step_inv anchor vs w step : world_inv anchor vs w -> step_wf step -> world_inv anchor vs (service_step verifier w step).
Proof.
  unfold world_inv at 1. destruct (w_service w) as [engine [t s]] eqn:Hw.
  intros (Hok & Ht & Htasks & Hres & c & Hrep & Hdb & Hcov) Hwf. destruct step as [call|i]; simpl.
  - rewrite Hw. by eapply (section_done_inv _ _ _ _ _ _ _ (w_tasks w) []); [by apply start_section|done|..|auto].
  - destruct (w_tasks w !! i) as [task|] eqn:Hi; [|unfold world_inv; rewrite Hw; split_and!; try done; by exists c].
    pose proof (Forall_lookup_1 _ _ _ _ Htasks Hi) as Htask. rewrite Hw.
    eapply (section_done_inv _ _ _ _ _ _ _ (w_tasks w) (task_roots task)); [by apply resume_section|done|by apply Forall_delete|done|done|].
    intros root (task' & Hin & Hroot). apply list_elem_of_lookup in Hin as [j Hj].
    destruct (decide (i = j)) as [<-|Hne]; [left; by simplify_eq|right]. exists task'. split; [|done]. cbn [w_tasks].
    rewrite (delete_take_drop (w_tasks w) i), elem_of_app, !list_elem_of_lookup.
    destruct (Nat.lt_total j i) as [Hlt|[|Hlt]]; [left|done|right].
    + exists j. by rewrite lookup_take_lt.
    + exists (j - Datatypes.S i)%nat. rewrite lookup_drop. by replace (Datatypes.S i + (j - Datatypes.S i))%nat with j by lia.
Qed.

Lemma service_run_inv anchor vs steps w : world_inv anchor vs w -> Forall step_wf steps -> world_inv anchor vs (service_run verifier steps w).
Proof.
  intros Hw Hs. unfold service_run. revert w Hw. induction Hs as [|step steps Hstep _ IH]; intros w Hw; [done|].
  apply IH. by apply service_step_inv.
Qed.

(** ** Starting over a store *)

(** Anchoring succeeds on a block with its post-state; only the anchor is tracked. *)
Lemma seed_anchor_Ok state block checkpoints :
  b_state_root block = hash_tree_root state -> b_slot block <= HISTORICAL_ROOTS_LIMIT ->
  exists engine, seed_anchor state block checkpoints = Ok engine /\ s_head engine = hash_tree_root block /\
    s_blocks engine = {[ hash_tree_root block := block ]} /\ s_states engine = {[ hash_tree_root block := state ]} /\
    s_latest_finalized engine = (checkpoints (hash_tree_root block) (b_slot block)).2.
Proof.
  intros Hr Hs. unfold seed_anchor. rewrite bool_decide_eq_true_2 by done. cbn [negb]. unfold checked_mul.
  assert (Hlim : b_slot block * INTERVALS_PER_SLOT < u64_bound).
  { eapply N.le_lt_trans; [apply N.mul_le_mono_r, Hs|by vm_compute]. }
  rewrite (proj2 (N.ltb_lt _ _) Hlim). cbn [ok_or obind]. destruct (checkpoints _ _) as [j f].
  eexists. split; [done|]. unfold insert_block. cbn [s_blocks]. rewrite lookup_empty. simpl. by rewrite !insert_empty.
Qed.

Lemma post_state_slot vs slot st : post_state_of vs slot st -> slot <= HISTORICAL_ROOTS_LIMIT.
Proof. intros [[[] Hh _ _ _ _ _ _] _ Hb _]. by rewrite <-Hb, <-Hh. Qed.

Lemma trusted_head_Ok block state :
  sound_pair block state -> exists engine, from_trusted_head state block = Ok engine /\ s_head engine = hash_tree_root block /\
    s_blocks engine = {[ hash_tree_root block := block ]} /\ s_states engine = {[ hash_tree_root block := state ]}.
Proof.
  intros [Hr Hps]. destruct (seed_anchor_Ok state block (fun anchor_root anchor_slot =>
    let cp := mkCheckpoint anchor_root anchor_slot in (cp, cp)) Hr (post_state_slot _ _ _ Hps)) as (engine & He & Hh & Hb & Hs & _).
  by exists engine.
Qed.

(** What [resume_anchor] finds. *)
Definition resumable (c : Inner) (info : HeadInfo) (sb : SignedBlockWithAttestation) (st : State) : Prop :=
  in_head c = Some info /\ in_blocks c !! cp_root (hi_head info) = Some sb /\ in_states c !! cp_root (hi_head info) = Some st.

Definition head_disordered (c : Inner) : Prop := exists info, in_head c = Some info /\ ~ head_ordered info.

Lemma start_db_answered {A} (m : M S StorageError A) s c value fails' :
  answered rep fails' c value (m s) ->
  (exists s', start_db (ls:=ls) m s = (Ok value, s') /\ rep s' c) \/
  (exists e s', start_db (ls:=ls) m s = (Err (StartStorage e), s') /\ rep s' c /\ fails').
Proof.
  unfold answered, start_db. destruct (m s) as [[a|e| |] s']; [|intros [? ?]|done|done]; [|right; by exists e, s'].
  intros [-> ?]. left. by exists s'.
Qed.

Lemma resume_anchor_cases s c :
  rep s c ->
  exists r s', resume_anchor (ls:=ls) s = (r, s') /\ rep s' c /\
    ((exists info sb st, r = Ok (Some (cp_root (hi_head info), st, bwa_block (sb_message sb))) /\ resumable c info sb st) \/
     (r = Ok None /\ forall info sb st, ~ resumable c info sb st) \/
     (exists e, r = Err (StartStorage e) /\ (fails \/ head_disordered c))).
Proof.
  intros Hrep. unfold resume_anchor.
  destruct (start_db_answered _ _ _ _ _ (load_head_law s c Hrep)) as [(s1 & He & Hr1)|(e & s1 & He & Hr1 & Hf)].
  2:{ erewrite mbind_Err by exact He. eexists _, s1. split_and!; [done|done|]. right; right. by eexists. }
  erewrite mbind_Ok by exact He. destruct (in_head c) as [info|] eqn:Hh.
  2:{ eexists _, s1. split_and!; [done|done|]. right; left. split; [done|]. intros info sb st [? _]. congruence. }
  destruct (start_db_answered _ _ _ _ _ (load_block_law s1 c (cp_root (hi_head info)) Hr1)) as [(s2 & He2 & Hr2)|(e & s2 & He2 & Hr2 & Hf)].
  2:{ erewrite mbind_Err by exact He2. eexists _, s2. split_and!; [done|done|]. right; right. by eexists; split; [|left]. }
  erewrite mbind_Ok by exact He2.
  destruct (start_db_answered _ _ _ _ _ (load_state_law s2 c (cp_root (hi_head info)) Hr2)) as [(s3 & He3 & Hr3)|(e & s3 & He3 & Hr3 & Hf)].
  2:{ erewrite mbind_Err by exact He3. eexists _, s3. split_and!; [done|done|]. right; right. by eexists; split; [|left]. }
  erewrite mbind_Ok by exact He3.
  destruct (in_blocks c !! cp_root (hi_head info)) as [sb|] eqn:Hb, (in_states c !! cp_root (hi_head info)) as [st|] eqn:Hs;
    eexists _, s3; (split_and!; [done|done|]); [left; by exists info, sb, st|right; left; split; [done|]..];
    intros info' sb' st' (? & ? & ?); congruence.
Qed.

(** A store a node can start from: blocks and states come in pairs that belong
    together, and the head record has the slot of its block. *)
Record db_valid (c : Inner) : Prop := {
  dv_pairs : forall r sb st, in_blocks c !! r = Some sb -> in_states c !! r = Some st ->
    hash_tree_root (bwa_block (sb_message sb)) = r /\ sound_pair (bwa_block (sb_message sb)) st;
  dv_both : forall r, is_Some (in_blocks c !! r) <-> is_Some (in_states c !! r);
  dv_head : forall info sb, in_head c = Some info -> in_blocks c !! cp_root (hi_head info) = Some sb ->
    b_slot (bwa_block (sb_message sb)) = cp_slot (hi_head info);
}.

Lemma empty_db_valid : db_valid Inner_default.
Proof. split; simpl; [by intros r sb st; rewrite lookup_empty|intros r; by rewrite !lookup_empty|done]. Qed.

(** A stored block and a tracked block with the same root are the same block. *)
Definition no_clash (engine : Store) (c : Inner) : Prop :=
  forall r sb b, in_blocks c !! r = Some sb -> s_blocks engine !! r = Some b -> b = bwa_block (sb_message sb).

Lemma db_sound_valid anchor vs engine c : store_inv anchor vs engine -> db_sound engine c -> no_clash engine c -> db_valid c.
Proof.
  intros Hi [Hp Hb (info & Hh & hb & Hhb & Hslot)] Hnc. split; [|done|].
  - intros r sb st Hsb Hst. destruct (Hp r sb st Hsb Hst) as [Hr [Hs|[[b Hbl] Hse]]]; [done|]. split; [done|].
    pose proof (Hnc r sb b Hsb Hbl) as <-. destruct (si_states _ _ _ Hi _ _ Hbl) as (st' & Hst' & Hps). simplify_eq.
    split; [by eapply si_state_roots|]. by rewrite (ps_validators _ _ _ Hps).
  - intros info' sb Hi' Hsb. rewrite Hh in Hi'. injection Hi' as <-. by rewrite <-(Hnc _ sb hb Hsb Hhb).
Qed.

Section Genesis.
Context (t0 : N) (vs0 : list Validator).
Hypothesis genesis_time : u64_ok t0.
Hypothesis genesis_validators : Forall ssz_wf vs0.
Hypothesis genesis_count : len vs0 <= VALIDATOR_REGISTRY_LIMIT.

Definition genesis_anchor (c : Inner) : Inner :=
  let state := genesis_state t0 vs0 in
  let root := hash_tree_root (genesis_anchor_block state) in
  put_head (mkHeadInfo (mkCheckpoint root 0) (mkCheckpoint root 0))
    (put_state root state (put_block root (signed_block_envelope (genesis_anchor_block state)) c)).

Lemma start_db_written (m : M S StorageError unit) s c c' :
  written rep fails c c' (m s) ->
  (exists s', start_db (ls:=ls) m s = (Ok tt, s') /\ rep s' c') \/
  (exists e s' c'', start_db (ls:=ls) m s = (Err (StartStorage e), s') /\ rep s' c'' /\ fails).
Proof.
  unfold written, start_db. destruct (m s) as [[[]|e| |] s']; [|intros [? [?|?]]|done|done]; [left; by exists s'|right; by exists e, s', c|].
  right. by exists e, s', c'.
Qed.

Lemma persist_genesis s c :
  let state := genesis_state t0 vs0 in let block := genesis_anchor_block state in let root := hash_tree_root block in
  rep s c ->
  exists r s' c', persist_anchor (ls:=ls) root (b_slot block) (mkCheckpoint root 0) (signed_block_envelope block) state s = (r, s') /\
    rep s' c' /\ ((r = Ok tt /\ c' = genesis_anchor c) \/ (exists e, r = Err (StartStorage e) /\ fails)).
Proof.
  intros state block root Hrep. unfold persist_anchor.
  assert (Hwb : ssz_wf (signed_block_envelope block)) by (repeat split; try constructor; by vm_compute).
  assert (Hws : ssz_wf state) by (by apply genesis_state_inv).
  destruct (start_db_written _ _ _ _ (save_block_law s c root _ Hrep Hwb)) as [(s1 & He & Hr)|(e & s1 & c1 & He & Hr & Hf)].
  2:{ erewrite mbind_Err by exact He. eexists _, s1, c1. split_and!; [done|done|]. right. by exists e. }
  erewrite mbind_Ok by exact He.
  destruct (start_db_written _ _ _ _ (save_state_law s1 _ root _ Hr Hws)) as [(s2 & He2 & Hr2)|(e & s2 & c2 & He2 & Hr2 & Hf)].
  2:{ erewrite mbind_Err by exact He2. eexists _, s2, c2. split_and!; [done|done|]. right. by exists e. }
  erewrite mbind_Ok by exact He2. simpl omap_err. mstep.
  destruct (start_db_written _ _ _ _ (save_head_law s2 _ (mkHeadInfo (mkCheckpoint root 0) (mkCheckpoint root 0)) Hr2 ltac:(done)))
    as [(s3 & He3 & Hr3)|(e & s3 & c3 & He3 & Hr3 & Hf)].
  2:{ erewrite mbind_Err by exact He3. eexists _, s3, c3. split_and!; [done|done|]. right. by exists e. }
  erewrite mbind_Ok by exact He3. eexists _, s3, _. split_and!; [done|exact Hr3|by left].
Qed.

(** The ways a start ends. *)
Lemma build_engine_cases s c :
  let state := genesis_state t0 vs0 in let block := genesis_anchor_block state in
  rep s c -> db_valid c ->
  exists r s' c', build_engine (ls:=ls) state block s = (r, s') /\ rep s' c' /\
    ((exists info sb st engine, r = Ok engine /\ c' = c /\ resumable c info sb st /\
        from_trusted_head st (bwa_block (sb_message sb)) = Ok engine /\ s_head engine = cp_root (hi_head info) /\
        s_blocks engine = {[ s_head engine := bwa_block (sb_message sb) ]}) \/
     (exists engine, r = Ok engine /\ c' = genesis_anchor c /\ (forall info sb st, ~ resumable c info sb st) /\
        from_anchor state block = Ok engine /\ s_head engine = hash_tree_root block /\ s_blocks engine = {[ s_head engine := block ]}) \/
     (exists e, r = Err (StartStorage e) /\ (fails \/ head_disordered c))).
Proof.
  intros state block Hrep Hv. unfold build_engine.
  destruct (resume_anchor_cases s c Hrep) as (r & s1 & He & Hr1 & [(info & sb & st & -> & Hres)|[[-> Hno]|(e & -> & Hf)]]).
  - erewrite mbind_Ok by exact He. pose proof Hres as (Hh & Hsb & Hst). destruct (dv_pairs _ Hv _ _ _ Hsb Hst) as [Hroot Hpair].
    destruct (trusted_head_Ok _ _ Hpair) as (engine & Hft & Hhead & Hbl & _). rewrite Hft. simpl omap_err. mstep.
    rewrite bool_decide_eq_true_2 by congruence. simpl negb. cbv iota. eexists _, s1, c. split_and!; [done|done|]. left.
    exists info, sb, st, engine. split_and!; try done; congruence.
  - erewrite mbind_Ok by exact He.
    destruct (seed_anchor_Ok state block (fun anchor_root anchor_slot =>
      (normalize_genesis_checkpoint (st_latest_justified state) anchor_slot anchor_root,
       normalize_genesis_checkpoint (st_latest_finalized state) anchor_slot anchor_root))) as (engine & Hfa & Hhead & Hbl & _ & Hfin); [done|done|].
    change (from_anchor state block = Ok engine) in Hfa. rewrite Hfa. simpl omap_err. mstep.
    change (normalize_genesis_checkpoint _ _ _) with (mkCheckpoint (hash_tree_root block) 0) in Hfin. rewrite Hhead, Hfin.
    destruct (persist_genesis s1 c Hr1) as (r & s2 & c2 & Hp & Hr2 & [[-> ->]|(e & -> & Hf)]).
    + erewrite mbind_Ok by exact Hp. eexists _, s2, _. split_and!; [done|exact Hr2|]. right; left. exists engine. split_and!; try done. by rewrite Hhead.
    + erewrite mbind_Err by exact Hp. eexists _, s2, c2. split_and!; [done|done|]. right; right. exists e. auto.
  - erewrite mbind_Err by exact He. eexists _, s1, c. split_and!; [done|done|]. right; right. by exists e.
Qed.

(** A new store starts at genesis. *)
Lemma build_engine_genesis s c engine :
  let state := genesis_state t0 vs0 in let block := genesis_anchor_block state in
  rep s c -> db_valid c -> in_head c = None -> ~ fails -> from_anchor state block = Ok engine ->
  s_head engine = hash_tree_root block /\ exists s1, build_engine (ls:=ls) state block s = (Ok engine, s1).
Proof.
  intros state block Hrep Hv Hh Hnf Hfa.
  destruct (build_engine_cases s c Hrep Hv) as (r & s' & c' & He & _ & Hcase). fold state in He, Hcase. fold block in He, Hcase.
  destruct Hcase as [(info & sb & st & e & _ & _ & (Hn & _) & _)|[(e & -> & _ & _ & Hfa' & Hhead & _)|(e & _ & [|(info & Hn & _)])]];
    [congruence| |done|congruence]. rewrite Hfa in Hfa'. injection Hfa' as <-. split; [done|by exists s'].
Qed.

(** The world after a start, under the hash assumptions of [engine_histories_safe]. *)
Lemma started_world s c engine s1 t :
  let state := genesis_state t0 vs0 in let block := genesis_anchor_block state in
  rep s c -> db_valid c -> build_engine (ls:=ls) state block s = (Ok engine, s1) ->
  anchor_parent_fresh engine (s_head engine) ->
  (forall ab, s_blocks engine !! s_head engine = Some ab -> b_parent_root ab <> s_head engine) -> signer_inv t ->
  exists vs, started (s_head engine) vs engine /\ world_inv (s_head engine) vs (mkWorld (engine, (t, s1)) [] []).
Proof.
  intros state block Hrep Hv Hbuild Hfr Hne Ht.
  destruct (build_engine_cases s c Hrep Hv) as (r & s' & c' & He & Hr' & Hcase).
  fold state in He, Hcase. fold block in He, Hcase. rewrite Hbuild in He. injection He as <- <-.
  assert (Hfin : forall vs hb, started (s_head engine) vs engine -> s_blocks engine = {[ s_head engine := hb ]} ->
    is_Some (in_blocks c' !! s_head engine) -> db_sound engine c' -> exists vs, started (s_head engine) vs engine /\
      world_inv (s_head engine) vs (mkWorld (engine, (t, s1)) [] [])).
  { intros vs hb Hst Hbl Hin Hdb. exists vs. split; [done|]. unfold world_inv. simpl.
    split_and!; [split; [by apply started_inv|done]|done|constructor|constructor|]. exists c'. split_and!; [done|done|].
    intros _ root. rewrite Hbl. intros [b [<- _]%lookup_singleton_Some]. by left. }
  destruct Hcase as [(info & sb & st & e & [= <-] & -> & (Hh & Hsb & Hst) & Hft & Hhead & Hbl)|[(e & [= <-] & -> & _ & Hfa & Hhead & Hbl)|(e & ? & _)]];
    [| |done].
  - destruct (dv_pairs _ Hv _ _ _ Hsb Hst) as [Hroot [_ Hps]].
    eapply (Hfin _ _); [|exact Hbl|by rewrite Hhead|].
    + rewrite Hhead, <-Hroot. by apply started_resumed.
    + split; [|apply (dv_both _ Hv)|].
      * intros r sb' st' H1 H2. destruct (dv_pairs _ Hv _ _ _ H1 H2). auto.
      * exists info. split; [done|]. exists (bwa_block (sb_message sb)). rewrite Hbl, Hhead, lookup_singleton_eq.
        split; [done|]. by apply (dv_head _ Hv).
  - eapply (Hfin vs0 _); [|exact Hbl|by rewrite Hhead; simpl; rewrite lookup_insert_eq|].
    + rewrite Hhead. by apply (started_genesis t0 vs0).
    + split; simpl.
      * intros r sb' st'. fold state. fold block. rewrite !lookup_insert_Some. intros [[<- <-]|[Hn H1]] [[? <-]|[? H2]]; try done.
        -- split; [done|]. left. split; [done|]. split; [by apply genesis_state_inv|done|done|done].
        -- destruct (dv_pairs _ Hv _ _ _ H1 H2). auto.
      * intros r. rewrite !lookup_insert_is_Some'. by rewrite (dv_both _ Hv).
      * eexists. split; [done|]. exists block. simpl. rewrite Hbl, Hhead. by rewrite lookup_singleton_eq.
Qed.

(** C6. What a restart finds after any run.  A node starts over a store (an empty
    one, or one that an earlier run left) and serves any interleaving of calls,
    whose sections other calls may separate, with any failures of the store and of
    the signer, up to a crash at any point.  Then every call that ended has
    returned, and the store is one a node can start from.  The next start resumes
    from a block that the engine had accepted, with its post-state, as its own
    justified and finalized anchor; or, if the block of the head record was never
    stored, it starts from genesis, which happens only if a call failed or was
    still under way at the crash; or it reports that the store failed or that the
    head record has the finalized block ahead of the head.  It never resumes from
    a state that is not the post-state of the head, and never panics.  The
    assumptions are on the hash: no cycle through the anchor, and no two blocks,
    one stored and one tracked, with the same root. *)
Theorem restart_after_any_run s c engine s1 t steps :
  let state := genesis_state t0 vs0 in let block := genesis_anchor_block state in
  rep s c -> db_valid c -> build_engine (ls:=ls) state block s = (Ok engine, s1) ->
  anchor_parent_fresh engine (s_head engine) ->
  (forall ab, s_blocks engine !! s_head engine = Some ab -> b_parent_root ab <> s_head engine) ->
  signer_inv t -> Forall step_wf steps ->
  let w := service_run verifier steps (mkWorld (engine, (t, s1)) [] []) in
  let '(engine', (_, s')) := w_service w in
  Forall returned (w_results w) /\
  exists c', rep s' c' /\ (no_clash engine' c' -> db_valid c' /\
    match build_engine (ls:=ls) state block s' with
    | (Ok engine2, _) =>
        (exists info sb st, resumable c' info sb st /\ is_Some (s_blocks engine' !! s_head engine2) /\
           from_trusted_head st (bwa_block (sb_message sb)) = Ok engine2 /\ s_head engine2 = cp_root (hi_head info) /\
           started (s_head engine2) (st_validators st) engine2) \/
        (from_anchor state block = Ok engine2 /\ ~ (Forall (eq (Ok tt)) (w_results w) /\ w_tasks w = []))
    | (Err (StartStorage _), _) => fails \/ head_disordered c'
    | _ => False
    end).
Proof.
  intros state block Hrep Hv Hbuild Hfr Hne Ht Hwf w.
  destruct (started_world s c engine s1 t Hrep Hv Hbuild Hfr Hne Ht) as (vs & _ & Hw0).
  pose proof (service_run_inv (s_head engine) vs steps _ Hw0 Hwf) as Hw. fold w in Hw. unfold world_inv in Hw.
  destruct (w_service w) as [engine' [t' s']]. destruct Hw as ([Hi _] & _ & _ & Hret & c' & Hrep' & Hdb & Hcov).
  split; [done|]. exists c'. split; [done|]. intros Hnc. pose proof (db_sound_valid _ _ _ _ Hi Hdb Hnc) as Hv'. split; [done|].
  destruct (ds_head _ _ Hdb) as (info0 & Hh0 & hb & Hhb & _).
  destruct (build_engine_cases s' c' Hrep' Hv') as (r & s2 & c2 & He & _ & Hcase). fold state in He, Hcase. fold block in He, Hcase. rewrite He.
  destruct Hcase as [(info & sb & st & e & -> & _ & Hres & Hft & Hhead & _)|[(e & -> & _ & Hno & Hfa & _)|(e & -> & Hf)]]; [left|right|done].
  - exists info, sb, st. pose proof Hres as (Hh & Hsb & Hst). rewrite Hh0 in Hh. injection Hh as ->. split_and!; try done.
    + rewrite Hhead. by exists hb.
    + destruct (dv_pairs _ Hv' _ _ _ Hsb Hst) as [Hroot [_ Hps]]. rewrite Hhead, <-Hroot. by apply started_resumed.
  - split; [done|]. intros [Hall Hnil]. destruct (Hcov Hall (cp_root (hi_head info0))) as [[sb Hsb]|(task & Hin & _)]; [by exists hb| |].
    + destruct (proj1 (ds_both _ _ Hdb _) (ex_intro _ sb Hsb)) as [st Hst]. by apply (Hno info0 sb st).
    + rewrite Hnil in Hin. by apply elem_of_nil in Hin.
Qed.
End Genesis.
End ChainInv.
