(* ===== verification/P2p.v ===== *)
(** * The peer-to-peer layer ([runtime/src/p2p])

    What the node answers to its peers and how it takes in their messages: the
    provider of the request handlers, the status check, the peer registry, the
    table of pending requests, the per-peer admission bound, the gossip message
    id with its cache of decompressed payloads, the routing of gossip, and the
    handlers of the swarm's events.  libp2p is the parameter [Libp2p]; what the
    handlers ask of the swarm is recorded as a list of [SwarmAction]s.

    Shown: the cache never changes what a gossip message decodes to; over any
    history of gossip, drains and channel closures, the messages of a peer in
    flight are counted exactly and never exceed the bound, and the queues never
    exceed their capacity.  The task that runs the handlers is in [SwarmTask]. *)

From stdpp Require Import base numbers list gmap sets strings.
From Stdlib Require Import Strings.Byte ZArith Lia.
From S2P Require Import Prelude Config Types Merkle Codec Slot Containers State Ancestry Store Engine Ots Storage Wire Signer Chain.

(** ** External code *)

Class Libp2p := {
  LpPeerId : Type;
  #[global] lp_peer_eq_dec :: EqDecision LpPeerId;
  #[global] lp_peer_countable :: Countable LpPeerId;
  to_base58 : LpPeerId -> string;
  parse_peer_id : string -> option LpPeerId;
  (** the ids of requests and of response channels *)
  RequestId : Type;
  #[global] request_id_eq_dec :: EqDecision RequestId;
  #[global] request_id_countable :: Countable RequestId;
}.

(** ** Peer ids of the runtime ([sync/peer_id.rs]) *)

(** A non-empty string. *)
Record PeerId := mkPeerId { peer_str : string }.
#[export] Instance PeerId_eq_dec : EqDecision PeerId.
Proof. solve_decision. Defined.
#[export] Instance PeerId_countable : Countable PeerId.
Proof. by apply (inj_countable' peer_str mkPeerId); intros []. Defined.

Definition PeerId_new (raw : string) : option PeerId :=
  if bool_decide (raw = EmptyString) then None else Some (mkPeerId raw).

(** ** Bounded channels of tokio *)

Record Channel (A : Type) := mkChannel { ch_queue : list A; ch_bound : N; ch_closed : bool }.
Arguments mkChannel {A}.
Arguments ch_queue {A}.
Arguments ch_bound {A}.
Arguments ch_closed {A}.

Inductive TrySend (A : Type) := Sent (c : Channel A) | Full | Closed.
Arguments Sent {A}.
Arguments Full {A}.
Arguments Closed {A}.

Definition channel {A} (bound : N) : Channel A := mkChannel [] bound false.

Definition try_send {A} (c : Channel A) (a : A) : TrySend A :=
  if ch_closed c then Closed
  else if ch_bound c <=? len (ch_queue c) then Full
  else Sent (mkChannel (ch_queue c ++ [a]) (ch_bound c) false).

(** ** Request handlers ([rpc]) *)

(** [RpcProvider::NoOp] has no chain behind it. *)
Inductive RpcProvider := NoOp | ProviderChain.

Section Provider.
Context {sha : Sha256} {ord : HashOrder} {ls : LeanSig} {T S : Type} {db : ChainStore S}.
Variable provider : RpcProvider.

Definition get_block_by_root (root : Bytes32) : M (@Service T S) Empty_set (option SignedBlockWithAttestation) :=
  match provider with
  | NoOp => mret None
  | ProviderChain => fun self =>
      let '(engine, (signer, store)) := self in
      match db_load_block root store with
      | (Ok block, store) => (Ok block, (engine, (signer, store)))
      | (Err _, store) => (Ok None, (engine, (signer, store)))
      | (Panic, store) => (Panic, (engine, (signer, store)))
      | (Diverge, store) => (Diverge, (engine, (signer, store)))
      end
  end.

Definition provider_local_status (self : @Service T S) : Status :=
  match provider with NoOp => Status_default | ProviderChain => local_status self end.

(** [roots.iter().filter_map(..)]. *)
Fixpoint lookup_roots (roots : list Bytes32) : M (@Service T S) Empty_set (list SignedBlockWithAttestation) :=
  match roots with
  | [] => mret []
  | root :: roots =>
      let! block := get_block_by_root root in
      let! blocks := lookup_roots roots in
      mret (match block with Some block => block :: blocks | None => blocks end)
  end.

Definition build_response {snap : Snap} (request : BlocksByRootRequest) : M (@Service T S) Empty_set BlocksByRootResponse :=
  let! blocks := lookup_roots (br_roots request) in
  mret (match BlocksByRootResponse_new blocks with Ok response => response | _ => mkBlocksByRootResponse [] end).

End Provider.

(** [status.rs]: the peers agree on the finalized root, if on the finalized slot. *)
Definition validate_status (local peer : Status) : bool :=
  negb (cp_slot (status_finalized local) =? cp_slot (status_finalized peer)) ||
  bool_decide (cp_root (status_finalized local) = cp_root (status_finalized peer)).

(** ** Peer registry ([peers.rs]) *)

Section Registry.
Context {p2p_lib : Libp2p}.

Record PeerRegistry := mkPeerRegistry {
  pr_connected : gset LpPeerId;
  pr_statuses : gmap LpPeerId Status;
  pr_subscribers : list (Channel string);
}.

Definition PeerRegistry_default : PeerRegistry := mkPeerRegistry ∅ ∅ [].

Definition on_connect (peer : LpPeerId) (self : PeerRegistry) : PeerRegistry :=
  mkPeerRegistry ({[peer]} ∪ pr_connected self) (pr_statuses self) (pr_subscribers self).

Definition on_disconnect (peer : LpPeerId) (self : PeerRegistry) : PeerRegistry :=
  mkPeerRegistry (pr_connected self ∖ {[peer]}) (delete peer (pr_statuses self)) (pr_subscribers self).

(** [subscribers.retain(|tx| ..)]: a full channel loses the event, a closed one is dropped. *)
Definition notify (id : string) (subscribers : list (Channel string)) : list (Channel string) :=
  flat_map (fun tx => match try_send tx id with Sent tx => [tx] | Full => [tx] | Closed => [] end) subscribers.

Definition set_status (peer : LpPeerId) (status : Status) (self : PeerRegistry) : PeerRegistry :=
  mkPeerRegistry (pr_connected self) (<[peer := status]> (pr_statuses self)) (notify (to_base58 peer) (pr_subscribers self)).

Definition status_of (self : PeerRegistry) (peer : LpPeerId) : option Status := pr_statuses self !! peer.

(** The order of a [HashSet] is not fixed; [elements] is one. *)
Definition connected (self : PeerRegistry) : list string := to_base58 <$> elements (pr_connected self).

Definition subscribe (bound : N) (self : PeerRegistry) : PeerRegistry :=
  let subscribers := filter (fun s => ch_closed s = false) (pr_subscribers self) in
  mkPeerRegistry (pr_connected self) (pr_statuses self) (subscribers ++ [channel (N.max bound 1)]).

(** [P2pService::peer_status]. *)
Definition peer_status (self : PeerRegistry) (peer : string) : option Status :=
  peer_id ← parse_peer_id peer; status_of self peer_id.

End Registry.

(** ** Pending requests ([rpc/outbound.rs]) *)

Inductive RpcError :=
| ChannelClosed
| Outbound (reason : string)
| UnexpectedResponseKind (expected : string).

Section Outbound.
Context {p2p_lib : Libp2p}.

(** A reply channel is the number of the caller that waits on it; [ob_replies] is
    what has been sent to callers so far. *)
Record OutboundTable := mkOutboundTable {
  ob_pending : gmap RequestId (LpPeerId * nat);
  ob_replies : list (nat * Outcome RpcError RpcResponse);
}.

Definition outbound_default : OutboundTable := mkOutboundTable ∅ [].

Definition outbound_insert (id : RequestId) (peer : LpPeerId) (caller : nat) (self : OutboundTable) : OutboundTable :=
  mkOutboundTable (<[id := (peer, caller)]> (ob_pending self)) (ob_replies self).

Definition send_reply (id : RequestId) (reply : Outcome RpcError RpcResponse) (self : OutboundTable) : OutboundTable :=
  match ob_pending self !! id with
  | Some (_, caller) => mkOutboundTable (delete id (ob_pending self)) (ob_replies self ++ [(caller, reply)])
  | None => self
  end.

Definition fulfill (id : RequestId) (response : RpcResponse) : OutboundTable -> OutboundTable := send_reply id (Ok response).
Definition fail (id : RequestId) (reason : string) : OutboundTable -> OutboundTable := send_reply id (Err (Outbound reason)).

Definition fail_all_for_peer (peer : LpPeerId) (reason : string) (self : OutboundTable) : OutboundTable :=
  let ids := (filter (fun '(_, (p, _)) => p = peer) (map_to_list (ob_pending self))).*1 in
  fold_left (fun self id => fail id reason self) ids self.

End Outbound.

(** ** Admission ([admission.rs]) *)

Definition DEFAULT_MAX_IN_FLIGHT_PER_PEER : N := 32.

(** [PeerAdmission]: the number of slots a peer holds, absent at zero.  An
    [AdmitGuard] is the peer whose slot it holds. *)
Abbreviation PeerAdmission := (gmap PeerId N) (only parsing).

(** [entry(..).or_insert(0)] leaves an entry also when the peer is refused. *)
Definition try_admit (cap : N) (peer : PeerId) (map : PeerAdmission) : bool * PeerAdmission :=
  let count := default 0 (map !! peer) in
  if cap <=? count then (false, <[peer := count]> map) else (true, <[peer := count + 1]> map).

Definition release (peer : PeerId) (map : PeerAdmission) : PeerAdmission :=
  match map !! peer with
  | Some count =>
      let count := saturating_sub count 1 in
      if count =? 0 then delete peer map else <[peer := count]> map
  | None => map
  end.

(** ** Gossip message ids and the payload cache ([host/behaviour.rs]) *)

Definition MAX_SNAPPY_DECOMPRESSED : N := 16 * 1024 * 1024.
Definition DECOMPRESSED_CACHE_CAP : N := 32.
Definition GOSSIP_CHANNEL_CAPACITY : N := 256.

Record GossipMessage := mkGossipMessage { gm_topic : string; gm_data : list u8 }.

(** The id-keyed queue of decompressed payloads, oldest first. *)
Abbreviation DecompressedCache := (list (list u8 * list u8)) (only parsing).

Section Gossip.
Context {sha : Sha256} {snap : Snap} {eth : EthSsz}.

(** The scratch buffer holds the payload when the length is returned. *)
Definition is_valid_snappy (data : list u8) : option (list u8) :=
  match decompress_len data with
  | inr _ => None
  | inl decompressed_len =>
      if MAX_SNAPPY_DECOMPRESSED <? decompressed_len then None
      else match decompress_vec data with inl bytes => Some bytes | inr _ => None end
  end.

Definition message_id (msg : GossipMessage) : list u8 :=
  compute_gossipsub_message_id
    (match is_valid_snappy (gm_data msg) with
     | Some _ => MESSAGE_DOMAIN_VALID_SNAPPY
     | None => MESSAGE_DOMAIN_INVALID_SNAPPY
     end)
    (String.list_byte_of_string (gm_topic msg)) (gm_data msg).

Definition gossipsub_message_id {E} (msg : GossipMessage) : M DecompressedCache E (list u8) := fun cache =>
  let id := message_id msg in
  match is_valid_snappy (gm_data msg) with
  | None => (Ok id, cache)
  | Some bytes =>
      let cache := if DECOMPRESSED_CACHE_CAP <=? len cache then tail cache else cache in
      (Ok id, cache ++ [(id, bytes)])
  end.

(** [position] and [remove]. *)
Fixpoint take_decompressed_for (id : list u8) (cache : DecompressedCache) : option (list u8) * DecompressedCache :=
  match cache with
  | [] => (None, [])
  | (cached_id, bytes) :: rest =>
      if bool_decide (cached_id = id) then (Some bytes, rest)
      else let '(found, rest) := take_decompressed_for id rest in (found, (cached_id, bytes) :: rest)
  end.

(** ** Gossip routing ([gossip/handler.rs]) *)

Definition decode_payload {T} `{Decode T} (data : list u8) (cached : option (list u8)) : Outcome NetworkingError T :=
  match cached with
  | Some bytes => omap_err NetSsz (ssz_decode bytes)
  | None => decode_gossip data
  end.

(** Admission, then decoding, then the channel; the guard is dropped on each early
    return. *)
Definition forward {T} `{Decode T} (cap : N) (peer : PeerId) (data : list u8) (cached : option (list u8))
    : M (PeerAdmission * Channel (PeerId * T)) Empty_set unit := fun '(admission, tx) =>
  match try_admit cap peer admission with
  | (false, admission) => (Ok tt, (admission, tx))
  | (true, admission) =>
      match decode_payload data cached with
      | Ok value =>
          match try_send tx (peer, value) with
          | Sent tx => (Ok tt, (admission, tx))
          | Full | Closed => (Ok tt, (release peer admission, tx))
          end
      | Err _ => (Ok tt, (release peer admission, tx))
      | Panic => (Panic, (admission, tx))
      | Diverge => (Diverge, (admission, tx))
      end
  end.

Record GossipIngress := mkGossipIngress {
  gi_admission : PeerAdmission;
  gi_cache : DecompressedCache;
  gi_blocks : Channel (PeerId * SignedBlockWithAttestation);
  gi_votes : Channel (PeerId * SignedAttestation);
}.

Definition GossipIngress_new : GossipIngress :=
  mkGossipIngress ∅ [] (channel GOSSIP_CHANNEL_CAPACITY) (channel GOSSIP_CHANNEL_CAPACITY).

Definition route_gossipsub_message {p2p_lib : Libp2p} (propagation_source : LpPeerId) (id : list u8) (msg : GossipMessage)
    : M GossipIngress Empty_set unit := fun self =>
  match PeerId_new (to_base58 propagation_source) with
  | None => (Ok tt, self)
  | Some peer =>
      let '(cached, cache) := take_decompressed_for id (gi_cache self) in
      if bool_decide (gm_topic msg = BLOCK_TOPIC_V1) then
        let '(r, (admission, tx)) :=
          forward DEFAULT_MAX_IN_FLIGHT_PER_PEER peer (gm_data msg) cached (gi_admission self, gi_blocks self) in
        (r, mkGossipIngress admission cache tx (gi_votes self))
      else if bool_decide (gm_topic msg = VOTE_TOPIC_V1) then
        let '(r, (admission, tx)) :=
          forward DEFAULT_MAX_IN_FLIGHT_PER_PEER peer (gm_data msg) cached (gi_admission self, gi_votes self) in
        (r, mkGossipIngress admission cache (gi_blocks self) tx)
      else (Ok tt, mkGossipIngress (gi_admission self) cache (gi_blocks self) (gi_votes self))
  end.

End Gossip.

(** ** Events of the swarm ([service.rs]) *)

Inductive SwarmAction {p2p_lib : Libp2p} :=
| SendStatusRequest (peer : LpPeerId) (status : Status)
| SendStatusResponse (channel : RequestId) (status : Status)
| SendBlocksResponse (channel : RequestId) (response : BlocksByRootResponse)
| SendRpcRequest (peer : LpPeerId) (request : RpcRequest)
| PublishMessage (topic : string) (payload : list u8)
| DisconnectPeer (peer : LpPeerId).

(** [request_response::Event] of either protocol. *)
Inductive RrEvent {p2p_lib : Libp2p} :=
| RrRequest (peer : LpPeerId) (request : RpcRequest) (channel : RequestId)
| RrResponse (peer : LpPeerId) (request_id : RequestId) (response : RpcResponse)
| RrOutboundFailure (peer : LpPeerId) (request_id : RequestId) (error : string)
| RrInboundFailure (peer : LpPeerId) (error : string)
| RrResponseSent.

Inductive SwarmEvent {p2p_lib : Libp2p} :=
| GossipsubMessage (propagation_source : LpPeerId) (id : list u8) (msg : GossipMessage)
| StatusRr (event : RrEvent)
| BlocksRr (event : RrEvent)
| ConnectionEstablished (peer : LpPeerId)
| ConnectionClosed (peer : LpPeerId)
| OtherEvent.

Record SwarmState {p2p_lib : Libp2p} := mkSwarmState {
  sw_ingress : GossipIngress;
  sw_outbound : OutboundTable;
  sw_registry : PeerRegistry;
  sw_actions : list SwarmAction;
}.
Arguments mkSwarmState {p2p_lib}.

Section Swarm.
Context {p2p_lib : Libp2p} {sha : Sha256} {ord : HashOrder} {ls : LeanSig} {snap : Snap} {eth : EthSsz}.
Context {T S : Type} {db : ChainStore S}.
Variable provider : RpcProvider.

(** The swarm task's state and the chain service the provider reads. *)
Definition Swarm : Type := SwarmState * @Service T S.

Definition act (a : SwarmAction) : M Swarm Empty_set unit :=
  mmodify (fun '(s, chain) => (mkSwarmState (sw_ingress s) (sw_outbound s) (sw_registry s) (sw_actions s ++ [a]), chain)).
Definition on_registry (f : PeerRegistry -> PeerRegistry) : M Swarm Empty_set unit :=
  mmodify (fun '(s, chain) => (mkSwarmState (sw_ingress s) (sw_outbound s) (f (sw_registry s)) (sw_actions s), chain)).
Definition on_outbound (f : OutboundTable -> OutboundTable) : M Swarm Empty_set unit :=
  mmodify (fun '(s, chain) => (mkSwarmState (sw_ingress s) (f (sw_outbound s)) (sw_registry s) (sw_actions s), chain)).
Definition on_ingress (c : M GossipIngress Empty_set unit) : M Swarm Empty_set unit := fun '(s, chain) =>
  let '(r, ingress) := c (sw_ingress s) in
  (r, (mkSwarmState ingress (sw_outbound s) (sw_registry s) (sw_actions s), chain)).
Definition on_chain_service {A} (c : M (@Service T S) Empty_set A) : M Swarm Empty_set A := fun '(s, chain) =>
  let '(r, chain) := c chain in (r, (s, chain)).
Definition get_local_status : M Swarm Empty_set Status :=
  let! (_, chain) := mget in mret (provider_local_status provider chain).

Definition initiate_status_handshake (peer_id : LpPeerId) : M Swarm Empty_set unit :=
  let! local := get_local_status in act (SendStatusRequest peer_id local).

(** [status::on_inbound] and [status::on_outbound_response]. *)
Definition status_on_inbound (peer : LpPeerId) (peer_status : Status) (channel : RequestId) : M Swarm Empty_set unit :=
  let! local := get_local_status in
  if negb (validate_status local peer_status) then act (DisconnectPeer peer)
  else act (SendStatusResponse channel local).

Definition status_on_outbound_response (peer : LpPeerId) (peer_status : Status) : M Swarm Empty_set unit :=
  let! local := get_local_status in
  if negb (validate_status local peer_status) then act (DisconnectPeer peer) else mret tt.

(** [blocks_by_root::on_inbound]. *)
Definition blocks_on_inbound (request : BlocksByRootRequest) (channel : RequestId) : M Swarm Empty_set unit :=
  let! response := on_chain_service (build_response provider request) in
  act (SendBlocksResponse channel response).

(** A message of the other protocol's kind is logged and dropped. *)
Definition handle_status_rr_event (event : RrEvent) : M Swarm Empty_set unit :=
  match event with
  | RrRequest peer (RequestStatus s) channel =>
      let! _ := on_registry (set_status peer s) in status_on_inbound peer s channel
  | RrRequest _ (RequestBlocksByRoot _) _ => mret tt
  | RrResponse peer _ (ResponseStatus s) =>
      let! _ := on_registry (set_status peer s) in status_on_outbound_response peer s
  | RrResponse _ _ (ResponseBlocksByRoot _) => mret tt
  | RrOutboundFailure _ _ _ | RrInboundFailure _ _ | RrResponseSent => mret tt
  end.

Definition handle_blocks_rr_event (event : RrEvent) : M Swarm Empty_set unit :=
  match event with
  | RrRequest _ (RequestBlocksByRoot r) channel => blocks_on_inbound r channel
  | RrRequest _ (RequestStatus _) _ => mret tt
  | RrResponse _ request_id (ResponseBlocksByRoot r) => on_outbound (fulfill request_id (ResponseBlocksByRoot r))
  | RrResponse _ _ (ResponseStatus _) => mret tt
  | RrOutboundFailure _ request_id error => on_outbound (fail request_id error)
  | RrInboundFailure _ _ | RrResponseSent => mret tt
  end.

Definition handle_swarm_event (event : SwarmEvent) : M Swarm Empty_set unit :=
  match event with
  | GossipsubMessage source id msg => on_ingress (route_gossipsub_message source id msg)
  | StatusRr event => handle_status_rr_event event
  | BlocksRr event => handle_blocks_rr_event event
  | ConnectionEstablished peer_id =>
      let! _ := on_registry (on_connect peer_id) in initiate_status_handshake peer_id
  | ConnectionClosed peer_id =>
      let! _ := on_registry (on_disconnect peer_id) in
      on_outbound (fail_all_for_peer peer_id "peer connection closed")
  | OtherEvent => mret tt
  end.

End Swarm.

(** [Host::send_blocks_by_root]: the reply to a request for blocks. *)
Definition blocks_reply (reply : Outcome RpcError RpcResponse) : Outcome RpcError BlocksByRootResponse :=
  let? response := reply in
  match response with
  | ResponseBlocksByRoot r => Ok r
  | ResponseStatus _ => Err (UnexpectedResponseKind "blocks_by_root")
  end.

(** ** Histories of the gossip ingress

    The swarm task computes message ids and routes messages; the consensus loop
    takes messages out of the channels, holds their guards while it imports them,
    and drops the channels when it ends. *)

Record GossipRun := mkGossipRun {
  gr_ingress : GossipIngress;
  gr_importing : list PeerId;
}.

Inductive GossipEvent {p2p_lib : Libp2p} :=
| MessageIdOf (msg : GossipMessage)
| Route (source : LpPeerId) (msg : GossipMessage)
| TakeBlock
| TakeVote
| ImportDone (i : nat)
| CloseBlocks
| CloseVotes.

Definition drop_guards (peers : list PeerId) (map : PeerAdmission) : PeerAdmission :=
  fold_left (fun map peer => release peer map) peers map.

Definition close {A} (c : Channel A) : Channel A := mkChannel [] (ch_bound c) true.

Section GossipRuns.
Context {p2p_lib : Libp2p} {sha : Sha256} {snap : Snap} {eth : EthSsz}.

Definition set_cache (cache : DecompressedCache) (g : GossipIngress) : GossipIngress :=
  mkGossipIngress (gi_admission g) cache (gi_blocks g) (gi_votes g).

Definition gossip_event (ev : GossipEvent) : M GossipRun Empty_set unit := fun r =>
  let g := gr_ingress r in
  match ev with
  | MessageIdOf msg =>
      let '(_, cache) := gossipsub_message_id (E:=Empty_set) msg (gi_cache g) in
      (Ok tt, mkGossipRun (set_cache cache g) (gr_importing r))
  | Route source msg =>
      let '(res, g) := route_gossipsub_message source (message_id msg) msg g in
      (res, mkGossipRun g (gr_importing r))
  | TakeBlock =>
      match ch_queue (gi_blocks g) with
      | [] => (Ok tt, r)
      | (peer, _) :: q =>
          (Ok tt, mkGossipRun (mkGossipIngress (gi_admission g) (gi_cache g)
                                 (mkChannel q (ch_bound (gi_blocks g)) (ch_closed (gi_blocks g))) (gi_votes g))
                    (peer :: gr_importing r))
      end
  | TakeVote =>
      match ch_queue (gi_votes g) with
      | [] => (Ok tt, r)
      | (peer, _) :: q =>
          (Ok tt, mkGossipRun (mkGossipIngress (gi_admission g) (gi_cache g) (gi_blocks g)
                                 (mkChannel q (ch_bound (gi_votes g)) (ch_closed (gi_votes g))))
                    (peer :: gr_importing r))
      end
  | ImportDone i =>
      match gr_importing r !! i with
      | None => (Ok tt, r)
      | Some peer =>
          (Ok tt, mkGossipRun (mkGossipIngress (release peer (gi_admission g)) (gi_cache g) (gi_blocks g) (gi_votes g))
                    (delete i (gr_importing r)))
      end
  | CloseBlocks =>
      (Ok tt, mkGossipRun (mkGossipIngress (drop_guards (ch_queue (gi_blocks g)).*1 (gi_admission g)) (gi_cache g)
                             (close (gi_blocks g)) (gi_votes g)) (gr_importing r))
  | CloseVotes =>
      (Ok tt, mkGossipRun (mkGossipIngress (drop_guards (ch_queue (gi_votes g)).*1 (gi_admission g)) (gi_cache g)
                             (gi_blocks g) (close (gi_votes g))) (gr_importing r))
  end.

Fixpoint gossip_run (evs : list GossipEvent) : M GossipRun Empty_set unit :=
  match evs with
  | [] => mret tt
  | ev :: evs => let! _ := gossip_event ev in gossip_run evs
  end.

Definition gossip_start : GossipRun := mkGossipRun GossipIngress_new [].

End GossipRuns.

(** *** Counting guards *)

(** The slots a peer holds among the guards alive. *)
Definition held (peer : PeerId) (guards : list PeerId) : N := len (filter (eq peer) guards).

#[export] Instance held_proper peer : Proper ((≡ₚ) ==> eq) (held peer).
Proof. intros g g' Hg. unfold held, len. by rewrite Hg. Qed.

Lemma held_cons peer p guards : held peer (p :: guards) = (if decide (peer = p) then 1 else 0) + held peer guards.
Proof. unfold held. rewrite filter_cons. destruct (decide (peer = p)); [by rewrite len_cons|lia]. Qed.

Record admission_ok (cap : N) (map : PeerAdmission) (guards : list PeerId) : Prop := {
  ao_count peer : map !! peer = if held peer guards =? 0 then None else Some (held peer guards);
  ao_cap peer : held peer guards <= cap;
}.

#[export] Instance admission_ok_proper cap map : Proper ((≡ₚ) ==> iff) (admission_ok cap map).
Proof.
  assert (Himp : forall g g', g ≡ₚ g' -> admission_ok cap map g -> admission_ok cap map g').
  { intros g g' Hg [H1 H2]. split; intros p; rewrite <-(held_proper p _ _ Hg); [apply H1|apply H2]. }
  intros g g' Hg. split; by apply Himp.
Qed.

Lemma admission_ok_empty cap : admission_ok cap ∅ [].
Proof. split; intros p; [by rewrite lookup_empty|]. change (0 <= cap). lia. Qed.

Lemma try_admit_ok cap peer map guards :
  0 < cap -> admission_ok cap map guards ->
  (try_admit cap peer map = (false, map) /\ held peer guards = cap) \/
  exists map', try_admit cap peer map = (true, map') /\ admission_ok cap map' (peer :: guards).
Proof.
  intros Hpos [Hc Hcap]. pose proof (Hc peer) as Hp. pose proof (Hcap peer) as Hb. unfold try_admit.
  assert (Hd : default 0 (map !! peer) = held peer guards) by (rewrite Hp; destruct (N.eqb_spec (held peer guards) 0); simpl; lia).
  rewrite Hd. destruct (N.leb_spec cap (held peer guards)) as [Hge|Hlt]; [left|right].
  - split; [|lia]. rewrite insert_id; [done|]. by rewrite Hp, (proj2 (N.eqb_neq _ _)) by lia.
  - eexists. split; [done|]. split; intros p; rewrite held_cons; [|destruct (decide (p = peer)) as [->|]; [lia|apply Hcap]].
    destruct (decide (p = peer)) as [->|Hne].
    + rewrite lookup_insert_eq, (proj2 (N.eqb_neq _ _)) by lia. f_equal. lia.
    + rewrite lookup_insert_ne by done. rewrite N.add_0_l. apply Hc.
Qed.

Lemma release_ok cap peer map guards :
  admission_ok cap map (peer :: guards) -> admission_ok cap (release peer map) guards.
Proof.
  intros [Hc Hcap]. pose proof (Hc peer) as Hp. rewrite held_cons, decide_True in Hp by done.
  rewrite (proj2 (N.eqb_neq _ _)) in Hp by lia.
  split; intros p; specialize (Hc p); specialize (Hcap p); rewrite held_cons in Hc, Hcap; [|lia].
  unfold release. rewrite Hp. unfold saturating_sub. replace (1 + held peer guards - 1) with (held peer guards) by lia.
  destruct (decide (p = peer)) as [->|Hne].
  - destruct (N.eqb_spec (held peer guards) 0); [by rewrite lookup_delete_eq|by rewrite lookup_insert_eq].
  - rewrite N.add_0_l in Hc. destruct (held peer guards =? 0); [by rewrite lookup_delete_ne|by rewrite lookup_insert_ne].
Qed.

Lemma drop_guards_ok cap peers : forall map guards,
  admission_ok cap map (peers ++ guards) -> admission_ok cap (drop_guards peers map) guards.
Proof. induction peers as [|p peers IH]; intros map guards Hok; [done|]. simpl. apply IH. by apply release_ok. Qed.

(** *** The invariant of the ingress *)

(** The guards alive: of the messages queued and of those being imported. *)
Definition guards (r : GossipRun) : list PeerId :=
  (ch_queue (gi_blocks (gr_ingress r))).*1 ++ (ch_queue (gi_votes (gr_ingress r))).*1 ++ gr_importing r.

Definition channel_ok {A} (bound : N) (c : Channel A) : Prop := ch_bound c = bound /\ len (ch_queue c) <= bound.

Record ingress_ok (r : GossipRun) : Prop := {
  io_admission : admission_ok DEFAULT_MAX_IN_FLIGHT_PER_PEER (gi_admission (gr_ingress r)) (guards r);
  io_blocks : channel_ok GOSSIP_CHANNEL_CAPACITY (gi_blocks (gr_ingress r));
  io_votes : channel_ok GOSSIP_CHANNEL_CAPACITY (gi_votes (gr_ingress r));
}.

Section IngressLemmas.
Context {p2p_lib : Libp2p} {sha : Sha256} {snap : Snap} {eth : EthSsz} {eth_laws : EthSszLaws}.

Lemma try_send_cases {A} bound (c : Channel A) a :
  channel_ok bound c ->
  (exists c', try_send c a = Sent c' /\ ch_queue c' = ch_queue c ++ [a] /\ channel_ok bound c') \/
  try_send c a = Full \/ try_send c a = Closed.
Proof.
  intros [Hb Hl]. unfold try_send. destruct (ch_closed c); [by right; right|].
  destruct (N.leb_spec (ch_bound c) (len (ch_queue c))); [by right; left|left].
  eexists. split; [done|]. split; [done|]. split; [done|]. simpl. rewrite len_app. change (len [a]) with 1. lia.
Qed.

Lemma decode_payload_returned {X} `{SszCodec X} data cached : returned (decode_payload (T:=X) data cached).
Proof.
  assert (Hs : forall bytes, returned (omap_err NetSsz (ssz_decode (T:=X) bytes))).
  { intros bytes. unfold ssz_decode. pose proof (sc_returned (T:=X) bytes). by destruct (from_ssz_bytes bytes). }
  destruct cached as [bytes|]; [apply Hs|]. apply obind_returned; [|apply Hs].
  apply obind_returned; [by destruct (decompress_len data)|]. intros n. destruct (_ <? n); [done|]. by destruct (decompress_vec data).
Qed.

(** Forwarding keeps the count, whatever the message. *)
Lemma forward_ok {X} `{SszCodec X} peer data cached admission (tx : Channel (PeerId * X)) rest :
  admission_ok DEFAULT_MAX_IN_FLIGHT_PER_PEER admission ((ch_queue tx).*1 ++ rest) -> channel_ok GOSSIP_CHANNEL_CAPACITY tx ->
  exists admission' tx', forward DEFAULT_MAX_IN_FLIGHT_PER_PEER peer data cached (admission, tx) = (Ok tt, (admission', tx')) /\
    admission_ok DEFAULT_MAX_IN_FLIGHT_PER_PEER admission' ((ch_queue tx').*1 ++ rest) /\ channel_ok GOSSIP_CHANNEL_CAPACITY tx'.
Proof.
  intros Hok Hch. unfold forward.
  destruct (try_admit_ok DEFAULT_MAX_IN_FLIGHT_PER_PEER peer admission _ ltac:(done) Hok) as [[-> _]|(adm & -> & Hadm)]; [by eexists _, _|].
  pose proof (decode_payload_returned (X:=X) data cached) as Hr. pose proof (release_ok _ _ _ _ Hadm).
  destruct (decode_payload data cached) as [x|e| |]; try done; [|by eexists _, _].
  destruct (try_send_cases _ tx (peer, x) Hch) as [(tx' & -> & Hq & Hch')|[-> | ->]]; [|by eexists _, _..].
  eexists _, _. split_and!; [done| |done]. rewrite Hq, fmap_app. simpl. rewrite <-app_assoc. simpl.
  by rewrite <-Permutation_middle.
Qed.

(** A routed message joins one of the channels or leaves no trace. *)
Lemma route_ok source id msg g importing :
  ingress_ok (mkGossipRun g importing) ->
  exists g', route_gossipsub_message source id msg g = (Ok tt, g') /\ ingress_ok (mkGossipRun g' importing).
Proof.
  intros [Ha Hb Hv]. unfold guards in Ha. cbn [gr_ingress gr_importing] in *. unfold route_gossipsub_message.
  destruct (PeerId_new _) as [peer|]; [|by eexists; split; [|split]].
  destruct (take_decompressed_for id (gi_cache g)) as [cached cache].
  destruct (bool_decide (gm_topic msg = BLOCK_TOPIC_V1)).
  { destruct (forward_ok peer (gm_data msg) cached (gi_admission g) (gi_blocks g) _ Ha Hb) as (adm & tx & -> & Ha' & Hb').
    eexists. split; [done|]. split; [exact Ha'|done|done]. }
  destruct (bool_decide (gm_topic msg = VOTE_TOPIC_V1)); [|eexists; split; [done|by split]].
  rewrite Permutation_app_swap_app in Ha.
  destruct (forward_ok peer (gm_data msg) cached (gi_admission g) (gi_votes g) _ Ha Hv) as (adm & tx & -> & Ha' & Hv').
  eexists. split; [done|]. rewrite Permutation_app_swap_app in Ha'. split; [exact Ha'|done|done].
Qed.

Lemma gossip_event_ok ev r : ingress_ok r -> exists r', gossip_event ev r = (Ok tt, r') /\ ingress_ok r'.
Proof.
  destruct r as [g importing]. intros Hok. pose proof Hok as [Ha Hb Hv]. unfold guards in Ha. cbn [gr_ingress gr_importing] in *.
  destruct ev as [msg|source msg| | |i| |]; unfold gossip_event; cbn [gr_ingress gr_importing].
  - destruct (gossipsub_message_id msg (gi_cache g)) as [res cache]. eexists. split; [done|]. by split.
  - destruct (route_ok source (message_id msg) msg g importing Hok) as (g' & -> & Hok'). by eexists.
  - destruct Hb as [Hb1 Hb2]. destruct (ch_queue (gi_blocks g)) as [|[peer x] q] eqn:Hq; [by eexists|].
    eexists. split; [done|]. rewrite len_cons in Hb2. split; [|split; [done|simpl; lia]|done].
    unfold guards. simpl in *. by rewrite (app_assoc q.*1), <-Permutation_middle, <-app_assoc.
  - destruct Hv as [Hv1 Hv2]. destruct (ch_queue (gi_votes g)) as [|[peer x] q] eqn:Hq; [by eexists|].
    eexists. split; [done|]. rewrite len_cons in Hv2. split; [|done|split; [done|simpl; lia]].
    unfold guards. simpl in *. rewrite <-Permutation_middle in Ha.
    by rewrite (app_assoc (ch_queue (gi_blocks g)).*1), <-Permutation_middle, <-app_assoc.
  - destruct (importing !! i) as [peer|] eqn:Hi; [|by eexists]. eexists. split; [done|]. split; [|done|done].
    apply release_ok. unfold guards. simpl. rewrite (delete_Permutation _ _ _ Hi) in Ha.
    by rewrite app_assoc, <-Permutation_middle, <-app_assoc in Ha.
  - eexists. split; [done|]. split; [|split; [apply Hb|apply N.le_0_l]|done]. unfold guards. simpl. by apply drop_guards_ok.
  - eexists. split; [done|]. split; [|done|split; [apply Hv|apply N.le_0_l]]. unfold guards. simpl.
    apply drop_guards_ok. by rewrite Permutation_app_swap_app.
Qed.

(** C26. The gossip ingress is bounded, over any history of messages from peers, of
    message ids, imports and closed channels.  No message, whatever its bytes,
    makes the router fail; a peer never has more than 32 messages queued or being
    imported; the count the code keeps is that number, and it keeps none for a
    peer without messages; a channel never holds more than 256 messages. *)
Theorem gossip_ingress_bounded evs :
  exists r, gossip_run evs gossip_start = (Ok tt, r) /\
    (forall peer, held peer (guards r) <= DEFAULT_MAX_IN_FLIGHT_PER_PEER) /\
    (forall peer, gi_admission (gr_ingress r) !! peer
                  = if held peer (guards r) =? 0 then None else Some (held peer (guards r))) /\
    len (ch_queue (gi_blocks (gr_ingress r))) <= GOSSIP_CHANNEL_CAPACITY /\
    len (ch_queue (gi_votes (gr_ingress r))) <= GOSSIP_CHANNEL_CAPACITY.
Proof.
  assert (Hrun : forall evs r, ingress_ok r -> exists r', gossip_run evs r = (Ok tt, r') /\ ingress_ok r').
  { clear evs. induction evs as [|ev evs IH]; intros r Hr; [by exists r|]. cbn [gossip_run].
    destruct (gossip_event_ok ev r Hr) as (r1 & He & Hr1). rewrite (mbind_Ok _ _ _ _ _ He). by apply IH. }
  destruct (Hrun evs gossip_start) as (r & He & [[Hc Hcap] [_ Hb] [_ Hv]]).
  { split; [apply admission_ok_empty|by split|by split]. }
  by exists r.
Qed.

End IngressLemmas.

(** ** The payload cache *)

(** Every cached payload is the decompressed data of a message with that id. *)
Definition cache_sound {sha : Sha256} {snap : Snap} (seen : list GossipMessage) (cache : DecompressedCache) : Prop :=
  forall id bytes, (id, bytes) ∈ cache ->
    exists msg, msg ∈ seen /\ id = message_id msg /\ is_valid_snappy (gm_data msg) = Some bytes.

(** The messages whose id was computed. *)
Definition seen_messages {p2p_lib : Libp2p} (evs : list GossipEvent) : list GossipMessage :=
  flat_map (fun ev => match ev with MessageIdOf msg => [msg] | _ => [] end) evs.

Section CacheLemmas.
Context {p2p_lib : Libp2p} {sha : Sha256} {snap : Snap} {eth : EthSsz}.

Lemma cache_sound_sub seen cache cache' : cache' ⊆ cache -> cache_sound seen cache -> cache_sound seen cache'.
Proof. intros Hs Hc id bytes Hin. apply (Hc id bytes). by apply Hs. Qed.

Lemma cache_sound_more seen seen' cache : seen ⊆ seen' -> cache_sound seen cache -> cache_sound seen' cache.
Proof. intros Hs Hc id bytes Hin. destruct (Hc id bytes Hin) as (msg & Hm & H). exists msg. split; [by apply Hs|done]. Qed.

Lemma take_decompressed_cases id cache :
  let '(found, rest) := take_decompressed_for id cache in
  rest ⊆ cache /\ forall bytes, found = Some bytes -> (id, bytes) ∈ cache.
Proof.
  induction cache as [|[cid b] cache IH]; [done|]. cbn [take_decompressed_for].
  destruct (bool_decide_reflect (cid = id)) as [->|Hne].
  - split; [set_solver|]. intros bytes [= <-]. set_solver.
  - destruct (take_decompressed_for id cache) as [found rest]. destruct IH as [Hs Hf]. split; [set_solver|].
    intros bytes Hb. apply list_elem_of_further. by apply Hf.
Qed.

Lemma message_id_cache seen msg cache :
  cache_sound seen cache -> cache_sound (seen ++ [msg]) (gossipsub_message_id (E:=Empty_set) msg cache).2.
Proof.
  intros Hc. unfold gossipsub_message_id. destruct (is_valid_snappy (gm_data msg)) as [bytes|] eqn:Hv; simpl.
  - intros id b [Hin|Hin]%elem_of_app.
    + eapply cache_sound_more; [|eapply cache_sound_sub; [|exact Hc]|exact Hin]; [set_solver|].
      destruct (_ <=? _); [|done]. destruct cache; set_solver.
    + apply list_elem_of_singleton in Hin. injection Hin as -> ->. exists msg. split_and!; [set_solver|done|done].
  - eapply cache_sound_more; [|done]. set_solver.
Qed.

Lemma decode_payload_cached {X} `{Decode X} data found :
  (forall bytes, found = Some bytes -> is_valid_snappy data = Some bytes) ->
  decode_payload (T:=X) data found = decode_payload data None.
Proof.
  intros Hv. destruct found as [bytes|]; [|done]. specialize (Hv bytes eq_refl). simpl. unfold decode_gossip, decode_gossip_data.
  unfold is_valid_snappy in Hv. destruct (decompress_len data) as [n|]; [|done]. cbn [of_sum obind].
  change MAX_DECODED_PAYLOAD_BYTES with MAX_SNAPPY_DECOMPRESSED. destruct (MAX_SNAPPY_DECOMPRESSED <? n); [done|].
  destruct (decompress_vec data); by simplify_eq.
Qed.

Lemma forward_cached {X} `{Decode X} cap peer data found st :
  (forall bytes, found = Some bytes -> is_valid_snappy data = Some bytes) ->
  forward (T:=X) cap peer data found st = forward cap peer data None st.
Proof. intros Hv. unfold forward. destruct st. by rewrite (decode_payload_cached data found Hv). Qed.

Lemma route_cache_sub source id msg g : gi_cache (route_gossipsub_message source id msg g).2 ⊆ gi_cache g.
Proof.
  unfold route_gossipsub_message. destruct (PeerId_new _) as [peer|]; [|done].
  pose proof (take_decompressed_cases id (gi_cache g)) as Ht. destruct (take_decompressed_for id (gi_cache g)) as [found rest].
  destruct Ht as [Hs _]. destruct (bool_decide _); [by destruct (forward _ _ _ _ _) as [? []]|].
  destruct (bool_decide _); [by destruct (forward _ _ _ _ _) as [? []]|done].
Qed.

(** Routing with a payload from the cache, and without. *)
Lemma route_cached source id msg g :
  (forall bytes, (take_decompressed_for id (gi_cache g)).1 = Some bytes -> is_valid_snappy (gm_data msg) = Some bytes) ->
  let run := route_gossipsub_message source id msg g in
  let uncached := route_gossipsub_message source id msg (set_cache [] g) in
  run.1 = uncached.1 /\ set_cache [] run.2 = uncached.2.
Proof.
  unfold route_gossipsub_message. destruct (PeerId_new _) as [peer|]; [|done]. cbn [set_cache gi_cache gi_admission gi_blocks gi_votes].
  destruct (take_decompressed_for id (gi_cache g)) as [found rest]. cbn [take_decompressed_for fst]. intros Hv.
  destruct (bool_decide (gm_topic msg = BLOCK_TOPIC_V1)).
  { rewrite (forward_cached _ _ _ found _ Hv). by destruct (forward _ _ _ None _) as [? []]. }
  destruct (bool_decide (gm_topic msg = VOTE_TOPIC_V1)); [|done].
  rewrite (forward_cached _ _ _ found _ Hv). by destruct (forward _ _ _ None _) as [? []].
Qed.

Lemma gossip_event_cache seen ev r :
  cache_sound seen (gi_cache (gr_ingress r)) ->
  cache_sound (seen ++ seen_messages [ev]) (gi_cache (gr_ingress (gossip_event ev r).2)).
Proof.
  intros Hc. destruct r as [g importing]. destruct ev as [msg|source msg| | |i| |]; unfold gossip_event; cbn [gr_ingress gr_importing] in *;
    cbn [seen_messages flat_map app]; rewrite ?app_nil_r.
  - pose proof (message_id_cache seen msg (gi_cache g) Hc) as H. by destruct (gossipsub_message_id msg (gi_cache g)).
  - pose proof (route_cache_sub source (message_id msg) msg g) as Hs.
    destruct (route_gossipsub_message source (message_id msg) msg g). by eapply cache_sound_sub.
  - by destruct (ch_queue (gi_blocks g)) as [|[]].
  - by destruct (ch_queue (gi_votes g)) as [|[]].
  - by destruct (importing !! i).
  - done.
  - done.
Qed.

Lemma gossip_run_cache evs : forall seen r r',
  cache_sound seen (gi_cache (gr_ingress r)) -> gossip_run evs r = (Ok tt, r') ->
  cache_sound (seen ++ seen_messages evs) (gi_cache (gr_ingress r')).
Proof.
  induction evs as [|ev evs IH]; intros seen r r' Hc Hrun; cbn [gossip_run] in Hrun.
  - injection Hrun as <-. by rewrite app_nil_r.
  - unfold mbind in Hrun. pose proof (gossip_event_cache seen ev r Hc) as Hc1. destruct (gossip_event ev r) as [[[]|e| |] r1]; try done.
    specialize (IH _ r1 r' Hc1 Hrun). rewrite <-app_assoc in IH. by destruct ev.
Qed.

(** The cache of decompressed payloads is transparent.  After any history, a
    message is routed exactly as if its payload were decompressed again: the same
    result, the same counts and the same queues.  The assumption is that the
    message shares its id with no message of other data whose id was computed
    before. *)
Theorem gossip_cache_transparent evs r source msg :
  gossip_run evs gossip_start = (Ok tt, r) ->
  (forall m, m ∈ seen_messages evs -> message_id m = message_id msg -> gm_data m = gm_data msg) ->
  let run := route_gossipsub_message source (message_id msg) msg (gr_ingress r) in
  let uncached := route_gossipsub_message source (message_id msg) msg (set_cache [] (gr_ingress r)) in
  run.1 = uncached.1 /\ set_cache [] run.2 = uncached.2.
Proof.
  intros Hrun Hcol. assert (Hc : cache_sound (seen_messages evs) (gi_cache (gr_ingress r))).
  { apply (gossip_run_cache evs [] gossip_start r); [|done]. by intros id bytes ?%elem_of_nil. }
  apply route_cached. intros bytes Hb. pose proof (take_decompressed_cases (message_id msg) (gi_cache (gr_ingress r))) as Ht.
  destruct (take_decompressed_for _ _) as [found rest]. destruct Ht as [_ Hf].
  destruct (Hc _ _ (Hf bytes Hb)) as (m & Hm & Hid & Hv). by rewrite <-(Hcol m Hm).
Qed.

End CacheLemmas.

(** ** Pending requests *)

Section OutboundLemmas.
Context {p2p_lib : Libp2p}.

Definition waiting (t : OutboundTable) : list nat := (map_to_list (ob_pending t)).*2.*2.
Definition answered_callers (t : OutboundTable) : list nat := (ob_replies t).*1.

(** Every caller waits or has been answered, and not both. *)
Definition conserved (t : OutboundTable) (callers : list nat) : Prop := answered_callers t ++ waiting t ≡ₚ callers.

Lemma waiting_delete t id peer caller :
  ob_pending t !! id = Some (peer, caller) ->
  waiting t ≡ₚ caller :: (map_to_list (delete id (ob_pending t))).*2.*2.
Proof. intros Hid. unfold waiting. by rewrite <-(map_to_list_delete _ _ _ Hid). Qed.

Lemma send_reply_conserved id reply t callers : conserved t callers -> conserved (send_reply id reply t) callers.
Proof.
  unfold conserved, send_reply. destruct (ob_pending t !! id) as [[peer caller]|] eqn:Hid; [|done]. intros <-.
  rewrite (waiting_delete _ _ _ _ Hid). unfold answered_callers, waiting. simpl. rewrite fmap_app. simpl.
  by rewrite <-app_assoc.
Qed.

Lemma fail_ids_conserved ids reason : forall t callers,
  conserved t callers -> conserved (fold_left (fun t id => fail id reason t) ids t) callers.
Proof. induction ids as [|id ids IH]; intros t callers Hc; [done|]. simpl. apply IH. by apply send_reply_conserved. Qed.

Lemma send_reply_pending id reply t : ob_pending (send_reply id reply t) = delete id (ob_pending t).
Proof.
  unfold send_reply. destruct (ob_pending t !! id) as [[peer caller]|] eqn:Hid; [done|]. by rewrite delete_id.
Qed.

Lemma fail_ids_pending ids reason : forall t id,
  ob_pending (fold_left (fun t id => fail id reason t) ids t) !! id = if decide (id ∈ ids) then None else ob_pending t !! id.
Proof.
  induction ids as [|i ids IH]; intros t id; [by rewrite decide_False by apply not_elem_of_nil|].
  cbn [fold_left]. rewrite IH. unfold fail. rewrite send_reply_pending.
  destruct (decide (id ∈ ids)) as [Hin|Hin]; [by rewrite decide_True by set_solver|].
  destruct (decide (id = i)) as [->|Hne].
  - by rewrite lookup_delete_eq, decide_True by set_solver.
  - rewrite lookup_delete_ne by done. by rewrite decide_False by set_solver.
Qed.

(** A closed connection fails the requests to that peer and no others. *)
Lemma fail_all_pending peer reason t id p caller :
  ob_pending (fail_all_for_peer peer reason t) !! id = Some (p, caller) <-> p <> peer /\ ob_pending t !! id = Some (p, caller).
Proof.
  unfold fail_all_for_peer. rewrite fail_ids_pending. set (ids := (filter _ _).*1).
  assert (Hids : id ∈ ids <-> exists c, ob_pending t !! id = Some (peer, c)).
  { unfold ids. rewrite list_elem_of_fmap. split.
    - intros ([i [q c]] & -> & [-> Hin%elem_of_map_to_list]%list_elem_of_filter). by exists c.
    - intros [c Hc]. exists (id, (peer, c)). split; [done|]. apply list_elem_of_filter. split; [done|]. by apply elem_of_map_to_list. }
  destruct (decide (id ∈ ids)) as [Hin|Hin].
  - apply Hids in Hin as [c Hc]. split; [done|]. rewrite Hc. intros [Hne [= <- _]]. done.
  - split; [|tauto]. intros Hl. split; [|done]. intros ->. apply Hin, Hids. by exists caller.
Qed.

End OutboundLemmas.

Section SwarmLemmas.
Context {p2p_lib : Libp2p} {sha : Sha256} {ord : HashOrder} {ls : LeanSig} {snap : Snap} {eth : EthSsz}.
Context {T S : Type} {db : ChainStore S}.
Variable provider : RpcProvider.

(** What an event does to the table. *)
Definition outbound_effect (event : SwarmEvent) (t : OutboundTable) : OutboundTable :=
  match event with
  | BlocksRr (RrResponse _ id (ResponseBlocksByRoot r)) => fulfill id (ResponseBlocksByRoot r) t
  | BlocksRr (RrOutboundFailure _ id error) => fail id error t
  | ConnectionClosed peer => fail_all_for_peer peer "peer connection closed" t
  | _ => t
  end.

Lemma event_outbound event (w : @Swarm p2p_lib T S) :
  sw_outbound (handle_swarm_event provider event w).2.1 = outbound_effect event (sw_outbound w.1).
Proof.
  destruct w as [s [engine [t st]]]. destruct event as [source id msg|[]|[]| | |]; try done; simpl.
  - unfold on_ingress. by destruct (route_gossipsub_message _ _ _ _).
  - destruct request; [|done]. unfold status_on_inbound, get_local_status, on_registry, act. unfold mbind; simpl.
    by destruct (negb _).
  - destruct response; [|done]. unfold status_on_outbound_response, get_local_status, on_registry, act. unfold mbind; simpl.
    by destruct (negb _).
  - destruct request; [done|]. unfold blocks_on_inbound, on_chain_service, act, mbind.
    by destruct (build_response provider r (engine, (t, st))) as [[]].
  - by destruct response.
Qed.

Lemma outbound_effect_ok event t callers : conserved t callers ->
  conserved (outbound_effect event t) callers /\
  forall id, is_Some (ob_pending (outbound_effect event t) !! id) -> is_Some (ob_pending t !! id).
Proof.
  intros Hc.
  assert (Hr : forall id reply, conserved (send_reply id reply t) callers /\
    forall i, is_Some (ob_pending (send_reply id reply t) !! i) -> is_Some (ob_pending t !! i)).
  { intros id reply. split; [by apply send_reply_conserved|]. intros i. rewrite send_reply_pending, lookup_delete_is_Some. by intros [_ Hi]. }
  destruct event as [| |[]| | |]; try done; simpl.
  - destruct response; [done|]. apply Hr.
  - apply Hr.
  - split; [by apply fail_ids_conserved|]. intros i [[p c] Hi]. apply fail_all_pending in Hi as [_ Hi]. by exists (p, c).
Qed.

Lemma outbound_insert_ok id peer caller t callers : conserved t callers -> ob_pending t !! id = None ->
  conserved (outbound_insert id peer caller t) (callers ++ [caller]).
Proof.
  intros Hc Hn. unfold conserved, waiting, outbound_insert, answered_callers in *. simpl. rewrite map_to_list_insert by done. simpl.
  rewrite <-Hc. by rewrite <-Permutation_middle, Permutation_cons_append.
Qed.

End SwarmLemmas.

(** ** A stand-in network, whose peer ids are their text *)

Module ToyNet.

#[export] Instance net : Libp2p := {|
  LpPeerId := string;
  to_base58 := fun p => p;
  parse_peer_id := fun s => if bool_decide (s = EmptyString) then None else Some s;
  RequestId := nat;
|}.

(** A vote on the wire, sent by one peer. *)
Definition vote_message : GossipMessage :=
  mkGossipMessage VOTE_TOPIC_V1
    (encode (H:=SignedAttestation_Encode (H:=eth_ssz_reference))
       (mkSignedAttestation (mkAttestation 1 (mkAttestationData 3 Checkpoint_default Checkpoint_default Checkpoint_default)) (bv_zero 3116))).

Definition events : list GossipEvent := [MessageIdOf vote_message; Route "peer" vote_message; TakeVote; ImportDone 0].

Definition swarm : @Swarm net unit Inner :=
  (mkSwarmState GossipIngress_new outbound_default PeerRegistry_default [], (Store_default, (tt, Inner_default))).

End ToyNet.

Lemma gossip_ingress_bounded_witness :
  exists r, gossip_run (p2p_lib:=ToyNet.net) (sha:=toy_sha256) (snap:=StoredSnap.snappy) (eth:=eth_ssz_reference) ToyNet.events gossip_start = (Ok tt, r) /\
    forall peer, held peer (guards r) <= DEFAULT_MAX_IN_FLIGHT_PER_PEER.
Proof.
  destruct (gossip_ingress_bounded (p2p_lib:=ToyNet.net) (sha:=toy_sha256) (snap:=StoredSnap.snappy) (eth_laws:=eth_ssz_reference_laws)
              ToyNet.events) as (r & Hr & Hb & _).
  exists r. exact (conj Hr Hb).
Defined.

Lemma gossip_cache_transparent_witness :
  let g := gr_ingress (gossip_run (p2p_lib:=ToyNet.net) (sha:=toy_sha256) (snap:=StoredSnap.snappy) (eth:=eth_ssz_reference)
                         [MessageIdOf ToyNet.vote_message] gossip_start).2 in
  let run g := route_gossipsub_message (p2p_lib:=ToyNet.net) (snap:=StoredSnap.snappy) (eth:=eth_ssz_reference) "peer"
                 (message_id (sha:=toy_sha256) (snap:=StoredSnap.snappy) ToyNet.vote_message) ToyNet.vote_message g in
  (run g).1 = (run (set_cache [] g)).1 /\ set_cache [] (run g).2 = (run (set_cache [] g)).2.
Proof.
  pose proof (gossip_cache_transparent (p2p_lib:=ToyNet.net) (sha:=toy_sha256) (snap:=StoredSnap.snappy) (eth:=eth_ssz_reference)
                [MessageIdOf ToyNet.vote_message] _ "peer" ToyNet.vote_message eq_refl) as Ht.
  apply Ht. intros m Hm _. apply list_elem_of_singleton in Hm. by rewrite Hm.
Defined.
