(* ===== verification/SwarmTask.v ===== *)
(** * The swarm task ([p2p/service.rs], [p2p/rpc/client.rs], [p2p/gossip/publisher.rs])

    The task that owns the libp2p swarm, and the calls of [Host] that other tasks make
    of it: each sends a command with a reply channel over a bounded channel and waits
    for the reply.  A run is any interleaving of calls, of commands entering the
    channel, and of turns of the task's [select!], which serves cancellation first,
    then commands, then events of the swarm.  When the task ends, by itself or
    aborted, its locals are dropped and with them the reply channels it holds.

    Shown: every call returns at most once, and exactly once when the task has ended
    ([calls_return_once]). *)

From stdpp Require Import base numbers list gmap sets strings.
From Stdlib Require Import Strings.Byte ZArith Lia.
From S2P Require Import Prelude Config Types Merkle Codec Slot Containers State Ancestry Store Engine Ots Storage Wire Signer Chain P2p.

Definition COMMAND_CHANNEL_CAPACITY : N := 64.

Inductive PublishError := PublishChannelClosed | PublishGossipsub (e : string).

(** A reply channel is the number of the caller that waits on it. *)
Inductive HostCommand {p2p_lib : Libp2p} :=
| Shutdown
| Publish (topic : string) (payload : list u8) (reply : nat)
| SendRequest (peer : LpPeerId) (request : RpcRequest) (reply : nat).

Inductive CallResult := RequestResult (r : Outcome RpcError RpcResponse) | PublishResult (r : Outcome PublishError (list u8)).

Section Task.
Context {p2p_lib : Libp2p} {sha : Sha256} {ord : HashOrder} {ls : LeanSig} {snap : Snap} {eth : EthSsz}.
Context {T S : Type} {db : ChainStore S}.
Variable provider : RpcProvider.
(** The id libp2p gives to the [n]th request of a protocol. *)
Variables status_request_id blocks_request_id : nat -> RequestId.

(** [tw_sending]: the commands of callers that wait for room in the channel;
    [tw_results]: what calls have returned, other than the replies of the table. *)
Record TaskWorld := mkTaskWorld {
  tw_swarm : @Swarm p2p_lib T S;
  tw_status_requests : nat;
  tw_blocks_requests : nat;
  tw_sending : list HostCommand;
  tw_commands : Channel HostCommand;
  tw_running : bool;
  tw_results : list (nat * CallResult);
}.

Definition on_swarm {A} (c : M (@Swarm p2p_lib T S) Empty_set A) : M TaskWorld Empty_set A := fun w =>
  let '(r, s) := c (tw_swarm w) in
  (r, mkTaskWorld s (tw_status_requests w) (tw_blocks_requests w) (tw_sending w) (tw_commands w) (tw_running w) (tw_results w)).

Definition set_commands (commands : Channel HostCommand) (w : TaskWorld) : TaskWorld :=
  mkTaskWorld (tw_swarm w) (tw_status_requests w) (tw_blocks_requests w) (tw_sending w) commands (tw_running w) (tw_results w).
Definition set_sending (sending : list HostCommand) (w : TaskWorld) : TaskWorld :=
  mkTaskWorld (tw_swarm w) (tw_status_requests w) (tw_blocks_requests w) sending (tw_commands w) (tw_running w) (tw_results w).

(** Results reach their callers. *)
Definition give (results : list (nat * CallResult)) (w : TaskWorld) : TaskWorld :=
  mkTaskWorld (tw_swarm w) (tw_status_requests w) (tw_blocks_requests w) (tw_sending w) (tw_commands w) (tw_running w) (tw_results w ++ results).

(** ** Callers ([Host]) *)

(** What a caller gets whose command or reply channel is dropped. *)
Definition closed_result (command : HostCommand) : list (nat * CallResult) :=
  match command with
  | Shutdown => []
  | Publish _ _ reply => [(reply, PublishResult (Err PublishChannelClosed))]
  | SendRequest _ _ reply => [(reply, RequestResult (Err ChannelClosed))]
  end.

(** [commands().send(..)]: it fails at once on a closed channel. *)
Definition host_send (command : HostCommand) (w : TaskWorld) : TaskWorld :=
  if ch_closed (tw_commands w) then give (closed_result command) w else set_sending (tw_sending w ++ [command]) w.

(** There is room for the [i]th waiting command. *)
Definition host_sent (i : nat) (w : TaskWorld) : TaskWorld :=
  match tw_sending w !! i with
  | None => w
  | Some command =>
      match try_send (tw_commands w) command with
      | Sent commands => set_commands commands (set_sending (delete i (tw_sending w)) w)
      | Full => w
      | Closed => give (closed_result command) (set_sending (delete i (tw_sending w)) w)
      end
  end.

Definition publish_command (topic : string) (payload : list u8) (caller : nat) : HostCommand := Publish topic payload caller.
Definition blocks_by_root_command (peer : LpPeerId) (request : BlocksByRootRequest) (caller : nat) : HostCommand :=
  SendRequest peer (RequestBlocksByRoot request) caller.

(** ** The task *)

(** What a turn finds: whether the token is cancelled, whether a [Host] is left, what
    gossipsub answers to a publication, and the next event of the swarm. *)
Record Poll := mkPoll {
  p_cancelled : bool;
  p_hosts : bool;
  p_published : list u8 + string;
  p_event : option SwarmEvent;
}.

Inductive Turn := Continue | Break.

(** The protocols number their requests separately. *)
Definition next_request_id (request : RpcRequest) : M TaskWorld Empty_set RequestId := fun w =>
  match request with
  | RequestStatus _ =>
      (Ok (status_request_id (tw_status_requests w)),
       mkTaskWorld (tw_swarm w) (tw_status_requests w + 1) (tw_blocks_requests w) (tw_sending w) (tw_commands w) (tw_running w) (tw_results w))
  | RequestBlocksByRoot _ =>
      (Ok (blocks_request_id (tw_blocks_requests w)),
       mkTaskWorld (tw_swarm w) (tw_status_requests w) (tw_blocks_requests w + 1) (tw_sending w) (tw_commands w) (tw_running w) (tw_results w))
  end.

Definition handle_command (command : HostCommand) (published : list u8 + string) : M TaskWorld Empty_set Turn :=
  match command with
  | Shutdown => mret Break
  | Publish topic payload reply =>
      let! _ := on_swarm (act (PublishMessage topic payload)) in
      let! _ := mmodify (give [(reply, PublishResult (match published with inl id => Ok id | inr e => Err (PublishGossipsub e) end))]) in
      mret Continue
  | SendRequest peer request reply =>
      let! id := next_request_id request in
      let! _ := on_swarm (act (SendRpcRequest peer request)) in
      let! _ := on_swarm (on_outbound (outbound_insert id peer reply)) in
      mret Continue
  end.

(** One turn of the biased [select!].  The channel of commands ends when it is empty
    and no [Host] is left. *)
Definition swarm_turn (poll : Poll) : M TaskWorld Empty_set Turn := fun w =>
  if p_cancelled poll then (Ok Break, w)
  else match ch_queue (tw_commands w) with
       | command :: queue =>
           let commands := tw_commands w in
           handle_command command (p_published poll) (set_commands (mkChannel queue (ch_bound commands) (ch_closed commands)) w)
       | [] =>
           if negb (p_hosts poll) then (Ok Break, w)
           else match p_event poll with
                | Some event => (let! _ := on_swarm (handle_swarm_event provider event) in mret Continue) w
                | None => (Ok Continue, w)
                end
       end.

(** The table and the commands are dropped; their callers see closed channels. *)
Definition drop_task (w : TaskWorld) : TaskWorld :=
  let '(s, chain) := tw_swarm w in
  let outbound := sw_outbound s in
  let commands := tw_commands w in
  let pending := (map_to_list (ob_pending outbound)).*2.*2 in
  mkTaskWorld
    (mkSwarmState (sw_ingress s) (mkOutboundTable ∅ (ob_replies outbound)) (sw_registry s) (sw_actions s), chain)
    (tw_status_requests w) (tw_blocks_requests w) [] (mkChannel [] (ch_bound commands) true) false
    (tw_results w ++ ((fun caller => (caller, RequestResult (Err ChannelClosed))) <$> pending) ++
     flat_map closed_result (ch_queue commands) ++ flat_map closed_result (tw_sending w)).

(** A turn of a task that runs; a panic unwinds it. *)
Definition task_turn (poll : Poll) (w : TaskWorld) : TaskWorld :=
  if tw_running w then match swarm_turn poll w with (Ok Continue, w) => w | (_, w) => drop_task w end else w.

(** [join.abort()]. *)
Definition task_abort (w : TaskWorld) : TaskWorld := if tw_running w then drop_task w else w.

(** The task as [P2pService::start] spawns it. *)
Definition task_spawned (swarm : @Swarm p2p_lib T S) : TaskWorld :=
  mkTaskWorld swarm 0 0 [] (channel COMMAND_CHANNEL_CAPACITY) true [].

(** ** Runs *)

Inductive TaskStep :=
| CallPublish (topic : string) (payload : list u8) (caller : nat)
| CallBlocksByRoot (peer : LpPeerId) (request : BlocksByRootRequest) (caller : nat)
| CallShutdown
| Enqueue (i : nat)
| TaskTurn (poll : Poll)
| TaskAbort.

Definition task_step (w : TaskWorld) (step : TaskStep) : TaskWorld :=
  match step with
  | CallPublish topic payload caller => host_send (publish_command topic payload caller) w
  | CallBlocksByRoot peer request caller => host_send (blocks_by_root_command peer request caller) w
  | CallShutdown => host_send Shutdown w
  | Enqueue i => host_sent i w
  | TaskTurn poll => task_turn poll w
  | TaskAbort => task_abort w
  end.

Definition task_run (steps : list TaskStep) (w : TaskWorld) : TaskWorld := fold_left task_step steps w.

Definition callers (steps : list TaskStep) : list nat :=
  flat_map (fun step => match step with CallPublish _ _ caller | CallBlocksByRoot _ _ caller => [caller] | _ => [] end) steps.

(** What calls have returned, and the callers that wait. *)
Definition returned_calls (w : TaskWorld) : list (nat * CallResult) :=
  ((fun '(caller, r) => (caller, RequestResult r)) <$> ob_replies (sw_outbound (tw_swarm w).1)) ++ tw_results w.
Definition command_callers (commands : list HostCommand) : list nat := (flat_map closed_result commands).*1.
Definition waiting_calls (w : TaskWorld) : list nat :=
  command_callers (tw_sending w) ++ command_callers (ch_queue (tw_commands w)) ++ waiting (sw_outbound (tw_swarm w).1).

(** ** Every call returns once *)

(** Callers are counted. *)
Definition times (callers : list nat) (caller : nat) : nat := count_occ Nat.eq_dec callers caller.

Lemma times_app l l' c : times (l ++ l') c = (times l c + times l' c)%nat.
Proof. apply count_occ_app. Qed.
Lemma times_perm l l' : l ≡ₚ l' <-> forall c, times l c = times l' c.
Proof. apply (Permutation_count_occ Nat.eq_dec). Qed.

(** The places of a caller. *)
Definition calls (w : TaskWorld) (c : nat) : nat :=
  (times (command_callers (tw_sending w)) c + times (command_callers (ch_queue (tw_commands w))) c +
   times (waiting (sw_outbound (tw_swarm w).1)) c + times (answered_callers (sw_outbound (tw_swarm w).1)) c +
   times (tw_results w).*1 c)%nat.

#[local] Arguments times : simpl never.
#[local] Arguments command_callers : simpl never.
#[local] Arguments calls : simpl never.

Lemma calls_total w c : times (waiting_calls w ++ (returned_calls w).*1) c = calls w c.
Proof.
  unfold calls, waiting_calls, returned_calls, answered_callers. rewrite !fmap_app, !times_app, <- list_fmap_compose.
  rewrite (list_fmap_ext _ fst (ob_replies (sw_outbound (tw_swarm w).1))) by (by intros ? [] _). lia.
Qed.

Lemma command_callers_cons x l : command_callers (x :: l) = (closed_result x).*1 ++ command_callers l.
Proof. unfold command_callers. cbn [flat_map]. by rewrite fmap_app. Qed.

Lemma command_callers_snoc x l c : times (command_callers (l ++ [x])) c = (times (command_callers l) c + times (closed_result x).*1 c)%nat.
Proof. unfold command_callers. rewrite flat_map_app, fmap_app, times_app. cbn [flat_map]. by rewrite app_nil_r. Qed.

Lemma conserved_times t cs : conserved t cs <-> forall c, (times (answered_callers t) c + times (waiting t) c)%nat = times cs c.
Proof. unfold conserved. rewrite times_perm. apply forall_proper. intros c. by rewrite times_app. Qed.

Definition blocks_command (command : HostCommand) : Prop :=
  match command with SendRequest _ (RequestStatus _) _ => False | _ => True end.

Record task_inv (w : TaskWorld) : Prop := {
  ti_closed : ch_closed (tw_commands w) = negb (tw_running w);
  ti_ended : tw_running w = false -> tw_sending w = [] /\ ch_queue (tw_commands w) = [] /\ ob_pending (sw_outbound (tw_swarm w).1) = ∅;
  ti_ids : forall id, is_Some (ob_pending (sw_outbound (tw_swarm w).1) !! id) -> exists n, (n < tw_blocks_requests w)%nat /\ id = blocks_request_id n;
  ti_kinds : Forall blocks_command (tw_sending w ++ ch_queue (tw_commands w));
}.

Lemma closed_callers (l : list nat) : ((fun caller => (caller, RequestResult (Err ChannelClosed))) <$> l).*1 = l.
Proof. induction l as [|c l IH]; [done|]. cbn. by rewrite IH. Qed.

Lemma drop_task_ok w : task_inv (drop_task w) /\ tw_running (drop_task w) = false /\ forall c, calls (drop_task w) c = calls w c.
Proof.
  destruct w as [[s chain] ns nb sending commands running results]. unfold drop_task. cbn [tw_swarm tw_commands tw_sending tw_results].
  split_and!; [split; [done|done|intros id; cbn; rewrite lookup_empty; by intros []|by constructor]|done|].
  - intros c. unfold calls, waiting, answered_callers. cbn [tw_sending tw_commands tw_swarm tw_results ch_queue fst sw_outbound ob_pending ob_replies].
    rewrite map_to_list_empty, !fmap_app, !times_app, closed_callers. unfold command_callers, times. cbn. lia.
Qed.

Lemma host_send_ok command w : task_inv w -> blocks_command command ->
  task_inv (host_send command w) /\ forall c, calls (host_send command w) c = (calls w c + times (closed_result command).*1 c)%nat.
Proof.
  intros [Hcl He Hids Hk] Hb. unfold host_send. destruct (ch_closed (tw_commands w)) eqn:Hc.
  - split; [by split; cbn; rewrite ?Hc|]. intros c. unfold calls. cbn [give tw_sending tw_commands tw_swarm tw_results]. rewrite fmap_app, times_app. lia.
  - assert (Hr : tw_running w = true) by (by destruct (tw_running w)). split; [split; cbn; try done|].
    + by rewrite Hc, Hr.
    + by rewrite Hr.
    + rewrite <- app_assoc. apply Forall_app in Hk as [??]. apply Forall_app. split; [done|]. by constructor.
    + intros c. unfold calls. cbn [set_sending tw_sending tw_commands tw_swarm tw_results].
      rewrite command_callers_snoc. lia.
Qed.

Lemma command_callers_delete i l command c : l !! i = Some command ->
  times (command_callers l) c = (times (command_callers (delete i l)) c + times (closed_result command).*1 c)%nat.
Proof.
  revert i. induction l as [|x l IH]; intros [|i] Hi; [done..| |].
  - injection Hi as ->. cbn [delete list_delete]. rewrite command_callers_cons, times_app. lia.
  - change (delete (Datatypes.S i) (x :: l)) with (x :: delete i l). rewrite !command_callers_cons, !times_app.
    rewrite (IH i Hi). lia.
Qed.

Lemma host_sent_ok i w : task_inv w -> task_inv (host_sent i w) /\ forall c, calls (host_sent i w) c = calls w c.
Proof.
  intros Hi. unfold host_sent. destruct (tw_sending w !! i) as [command|] eqn:Hc; [|done]. pose proof Hi as [Hcl He Hids Hk].
  assert (Hw : tw_running w = true).
  { destruct (tw_running w); [done|]. destruct (He eq_refl) as [Hs _]. by rewrite Hs in Hc. }
  rewrite Hw in Hcl. unfold try_send. rewrite Hcl. cbn [negb]. destruct (_ <=? _); [done|]. apply Forall_app in Hk as [Hks Hkq]. split.
  - split; cbn; [by rewrite Hw|by rewrite Hw|done|]. rewrite app_assoc. apply Forall_app. split; [apply Forall_app; split; [|done]|].
    + by apply Forall_delete.
    + constructor; [|done]. by apply (Forall_lookup_1 _ _ _ _ Hks Hc).
  - intros c. unfold calls. cbn [set_commands set_sending tw_sending tw_commands tw_swarm tw_results ch_queue].
    rewrite command_callers_snoc, (command_callers_delete i (tw_sending w) command c Hc). lia.
Qed.

Context {ids_fresh : Inj (=) (=) blocks_request_id}.

(** An event leaves the calls where they are, but for replies. *)
Lemma on_event_ok event w : task_inv w ->
  let w' := (on_swarm (handle_swarm_event provider event) w).2 in
  task_inv w' /\ tw_running w' = tw_running w /\ (forall c, calls w' c = calls w c) /\
  sw_outbound (tw_swarm w').1 = outbound_effect event (sw_outbound (tw_swarm w).1).
Proof.
  intros [Hcl He Hids Hk]. unfold on_swarm. pose proof (event_outbound provider event (tw_swarm w)) as Ho.
  destruct (handle_swarm_event provider event (tw_swarm w)) as [r s']. cbn in *. set (t := sw_outbound (tw_swarm w).1) in *.
  destruct (outbound_effect_ok event t (answered_callers t ++ waiting t)) as [Hc Hsub]; [unfold conserved; reflexivity|].
  rewrite <- Ho in Hc, Hsub. pose proof (proj1 (conserved_times _ _) Hc) as Hc'. split_and!; [split; cbn|done| |done].
  - done.
  - intros Hr. destruct (He Hr) as (Hs & Hq & Hp). split_and!; [done..|]. apply map_empty. intros id. apply eq_None_not_Some.
    intros Hid%Hsub. rewrite Hp in Hid. by destruct Hid.
  - intros id Hid. by apply Hids, Hsub.
  - done.
  - intros c. unfold calls. cbn [tw_sending tw_commands tw_swarm tw_results]. fold t. specialize (Hc' c). rewrite times_app in Hc'. lia.
Qed.

(** A command moves its caller from the channel to the table, or answers it. *)
Lemma handle_command_ok command published w : task_inv w -> tw_running w = true -> blocks_command command ->
  match handle_command command published w with
  | (Ok Continue, w') => task_inv w' /\ tw_running w' = true /\ forall c, calls w' c = (calls w c + times (closed_result command).*1 c)%nat
  | (Ok Break, w') => w' = w /\ closed_result command = []
  | _ => False
  end.
Proof.
  intros [Hcl He Hids Hk] Hr Hb. destruct w as [[s chain] ns nb sending commands running results]. cbn in Hr. subst running.
  destruct command as [|topic payload reply|peer request reply]; cbn; [done| |].
  - split_and!; [by split|done|]. intros c. unfold calls. cbn. rewrite fmap_app, times_app. cbn. lia.
  - destruct request as [|request]; [done|]. cbn.
    assert (Hn : ob_pending (sw_outbound s) !! blocks_request_id nb = None).
    { apply eq_None_not_Some. intros Hid. destruct (Hids _ Hid) as (n & Hn & ->%(inj _)). cbn in Hn. lia. }
    split_and!; [split; cbn; try done|done|].
    + intros id. rewrite lookup_insert_is_Some'. intros [<-|Hid]; [exists nb; split; [lia|done]|].
      destruct (Hids id Hid) as (n & Hlt & ->). cbn in Hlt. exists n. split; [lia|done].
    + intros c. unfold calls. cbn.
      pose proof (outbound_insert_ok (blocks_request_id nb) peer reply _ _ (reflexivity _ : conserved (sw_outbound s) _) Hn) as Hc.
      pose proof (proj1 (conserved_times _ _) Hc c) as Hc'. rewrite !times_app in Hc'. cbn in Hc'. lia.
Qed.

Lemma swarm_turn_ok poll w : task_inv w -> tw_running w = true ->
  let '(r, w') := swarm_turn poll w in
  (forall c, calls w' c = calls w c) /\ (r = Ok Continue -> task_inv w' /\ tw_running w' = true).
Proof.
  intros Hi Hr. unfold swarm_turn. destruct (p_cancelled poll); [done|].
  destruct (ch_queue (tw_commands w)) as [|command queue] eqn:Hq.
  - destruct (p_hosts poll); [cbn [negb]|done]. destruct (p_event poll) as [event|]; [|done].
    destruct (on_event_ok event w Hi) as (Hi' & Hr' & Hc & _). unfold mbind.
    destruct (on_swarm (handle_swarm_event provider event) w) as [[[]| | |] w']; cbn in *; by rewrite ?Hr'.
  - destruct Hi as [Hcl He Hids Hk]. rewrite Hq in Hk. apply Forall_app in Hk as [Hks [Hb Hkq]%Forall_cons].
    set (w1 := set_commands _ w). assert (Hi1 : task_inv w1) by (split; cbn; [done|by rewrite Hr|done|by apply Forall_app]).
    assert (Hc1 : forall c, calls w c = (calls w1 c + times (closed_result command).*1 c)%nat).
    { intros c. unfold calls. cbn. rewrite Hq, command_callers_cons, times_app. lia. }
    pose proof (handle_command_ok command (p_published poll) w1 Hi1 Hr Hb) as H.
    destruct (handle_command command (p_published poll) w1) as [[[]| | |] w']; [| |done..].
    + destruct H as (Hi' & Hr' & Hc). split; [|done]. intros c. by rewrite Hc, Hc1.
    + destruct H as [-> H]. rewrite H in Hc1. split; [|done]. intros c. rewrite Hc1. cbn. unfold times. cbn. lia.
Qed.

Lemma task_turn_ok poll w : task_inv w ->
  task_inv (task_turn poll w) /\ (forall c, calls (task_turn poll w) c = calls w c) /\ (p_cancelled poll = true -> tw_running (task_turn poll w) = false).
Proof.
  intros Hi. unfold task_turn. destruct (tw_running w) eqn:Hr; [|done]. pose proof (swarm_turn_ok poll w Hi Hr) as H.
  assert (Hd : forall w', (forall c, calls w' c = calls w c) -> task_inv (drop_task w') /\ (forall c, calls (drop_task w') c = calls w c) /\
    (p_cancelled poll = true -> tw_running (drop_task w') = false)).
  { intros w' Hc. destruct (drop_task_ok w') as (Hi' & Hr' & Hc'). split_and!; [done| |done]. intros c. by rewrite Hc', Hc. }
  destruct (swarm_turn poll w) as [[[]| | |] w'] eqn:E; destruct H as [Hc Hk]; [|by apply Hd..].
  destruct (Hk eq_refl) as [Hi' _]. split_and!; [done..|]. intros Hp. unfold swarm_turn in E. by rewrite Hp in E.
Qed.

Lemma task_step_ok w step : task_inv w ->
  task_inv (task_step w step) /\ forall c, calls (task_step w step) c = (calls w c + times (callers [step]) c)%nat.
Proof.
  intros Hi. assert (Hnone : forall w', task_inv w' /\ (forall c, calls w' c = calls w c) -> callers [step] = [] ->
    task_inv w' /\ forall c, calls w' c = (calls w c + times (callers [step]) c)%nat).
  { intros w' [Hi' Hc] Hn. split; [done|]. intros c. rewrite Hc, Hn. unfold times. cbn. lia. }
  destruct step as [topic payload caller|peer request caller| |i|poll|]; cbn [task_step].
  - by apply (host_send_ok (publish_command topic payload caller)).
  - by apply (host_send_ok (blocks_by_root_command peer request caller)).
  - by apply (host_send_ok Shutdown).
  - apply Hnone; [by apply host_sent_ok|done].
  - apply Hnone; [|done]. by destruct (task_turn_ok poll w Hi) as (? & ? & _).
  - apply Hnone; [|done]. unfold task_abort. destruct (tw_running w); [|done]. by destruct (drop_task_ok w) as (? & _ & ?).
Qed.

Lemma task_run_ok steps w : task_inv w ->
  task_inv (task_run steps w) /\ forall c, calls (task_run steps w) c = (calls w c + times (callers steps) c)%nat.
Proof.
  revert w. induction steps as [|step steps IH]; intros w Hi; [split; [done|]; intros c; unfold times; cbn; lia|].
  destruct (task_step_ok w step Hi) as [Hi1 Hc1]. destruct (IH (task_step w step) Hi1) as [Hi2 Hc2]. split; [done|]. intros c.
  change (task_run (step :: steps) w) with (task_run steps (task_step w step)). rewrite Hc2, Hc1.
  change (callers (step :: steps)) with (callers ([step] ++ steps)). unfold callers. rewrite flat_map_app, times_app. lia.
Qed.

Lemma spawned_inv swarm : sw_outbound swarm.1 = outbound_default -> task_inv (task_spawned swarm) /\ forall c, calls (task_spawned swarm) c = 0%nat.
Proof.
  intros Hs. split; [split; cbn; rewrite ?Hs; [done|done|intros id; cbn; rewrite lookup_empty; by intros []|by constructor]|].
  intros c. unfold calls. cbn. rewrite Hs. unfold waiting. cbn. by rewrite map_to_list_empty.
Qed.

(** The task ends in this step if it still runs. *)
Definition ends (step : TaskStep) : bool :=
  match step with TaskAbort => true | TaskTurn poll => p_cancelled poll | _ => false end.

(** C13. Calls of the host return exactly once.  Over any interleaving of calls, of
    commands entering the bounded channel, and of turns of the task (replies, failed
    requests, closed connections, events), each caller has one result or still waits
    (in the channel or in the table), and none has two.  Once the task has ended
    (shut down, cancelled, aborted, unwound, or without hosts), no caller waits; a turn
    that sees the cancellation ends it.  When a turn has handled the end of the
    connection to a peer, no caller waits for that peer.  The assumption is that libp2p
    does not reuse ids. *)
Theorem calls_return_once steps swarm : sw_outbound swarm.1 = outbound_default ->
  let w := task_run steps (task_spawned swarm) in
  waiting_calls w ++ (returned_calls w).*1 ≡ₚ callers steps /\
  (tw_running w = false -> (returned_calls w).*1 ≡ₚ callers steps) /\
  forall rest step, steps = rest ++ [step] ->
    (ends step = true -> tw_running w = false) /\
    forall poll peer id caller, step = TaskTurn poll -> p_event poll = Some (ConnectionClosed peer) -> p_hosts poll = true ->
      ch_queue (tw_commands (task_run rest (task_spawned swarm))) = [] ->
      ob_pending (sw_outbound (tw_swarm w).1) !! id <> Some (peer, caller).
Proof.
  intros Hs w. destruct (spawned_inv swarm Hs) as [Hi0 Hc0]. destruct (task_run_ok steps _ Hi0) as [Hi Hc]. fold w in Hi, Hc.
  assert (Ht : waiting_calls w ++ (returned_calls w).*1 ≡ₚ callers steps).
  { apply times_perm. intros c. by rewrite calls_total, Hc, Hc0. }
  split_and!; [done| |].
  - intros Hr. destruct (ti_ended _ Hi Hr) as (H1 & H2 & H3). unfold waiting_calls, waiting in Ht.
    rewrite H1, H2, H3, map_to_list_empty in Ht. exact Ht.
  - intros rest step ->. subst w. unfold task_run in *. rewrite fold_left_app in *. cbn [fold_left] in *.
    destruct (task_run_ok rest _ Hi0) as [Hir _]. unfold task_run in Hir. set (w := fold_left task_step rest (task_spawned swarm)) in *. split.
    + destruct step as [| | | |poll|]; try done; cbn [ends task_step].
      * intros Hp. by apply (task_turn_ok poll w Hir).
      * intros _. unfold task_abort. destruct (tw_running w) eqn:Hr; [apply drop_task_ok|done].
    + intros poll peer id caller -> He Hh Hq. cbn [task_step]. clear Hi Hc Ht. unfold task_turn.
      destruct (tw_running w) eqn:Hr; [|by rewrite (proj2 (proj2 (ti_ended _ Hir Hr))), lookup_empty].
      assert (Hdrop : forall w', ob_pending (sw_outbound (tw_swarm (drop_task w')).1) !! id <> Some (peer, caller)).
      { intros w'. unfold drop_task. destruct (tw_swarm w'). cbn. by rewrite lookup_empty. }
      unfold swarm_turn. destruct (p_cancelled poll); [apply Hdrop|]. rewrite Hq, Hh, He. cbn [negb]. unfold mbind.
      destruct (on_event_ok (ConnectionClosed peer) w Hir) as (_ & _ & _ & Ho).
      destruct (on_swarm _ w) as [[[]| | |] w']; [|apply Hdrop..]. cbn in Ho |- *. rewrite Ho. by intros [? _]%fail_all_pending.
Qed.

End Task.

(** Two requests and a publication; the connection of the first is closed, then the
    task is cancelled. *)
Module TaskExample.
#[local] Existing Instances ToyNet.net.

Definition quiet : Poll := mkPoll false true (inr "InsufficientPeers"%string) None.

Definition steps : list TaskStep :=
  [CallBlocksByRoot "a"%string (mkBlocksByRootRequest []) 10; CallBlocksByRoot "b"%string (mkBlocksByRootRequest []) 11; Enqueue 0; Enqueue 0;
   TaskTurn quiet; TaskTurn quiet; CallPublish "topic" [] 12; Enqueue 0; TaskTurn quiet;
   TaskTurn (mkPoll false true (inr EmptyString) (Some (ConnectionClosed "a"%string)));
   TaskTurn (mkPoll true true (inr EmptyString) None); CallPublish "topic" [] 13].

Lemma calls_return_once_witness :
  let w := task_run (p2p_lib:=ToyNet.net) (snap:=StoredSnap.snappy) (eth:=eth_ssz_reference) ProviderChain (fun n => n) (fun n => n) steps
    (task_spawned ToyNet.swarm) in
  (returned_calls w).*1 ≡ₚ [10; 11; 12; 13]%nat.
Proof.
  apply (calls_return_once (p2p_lib:=ToyNet.net) (snap:=StoredSnap.snappy) (eth:=eth_ssz_reference) (ids_fresh:=fun a b H => H)
    ProviderChain (fun n => n) (fun n => n) steps ToyNet.swarm eq_refl). vm_compute. reflexivity.
Defined.

End TaskExample.
