(* ===== verification/SyncInv.v ===== *)
(** * Correctness of block synchronisation

    [walk_back_hash_chain]: what any peer can make a walk return.
    [sync_converges] and [gap_never_closes]: what an honest peer's answers lead to,
    from the walk to the engine.  [watch_walks_bounded]: the walks that run at once. *)

From stdpp Require Import base numbers list gmap sets strings.
From Stdlib Require Import Strings.Byte ZArith Lia.
From S2P Require Import Prelude Config Types Merkle Codec Slot Containers State Stf Ancestry Store StoreInv Engine EngineInv Ots Storage Wire Signer Chain ChainInv P2p Sync.

Definition block_of_signed (sb : SignedBlockWithAttestation) : Block := bwa_block (sb_message sb).
Definition signed_parent (sb : SignedBlockWithAttestation) : Bytes32 := b_parent_root (block_of_signed sb).
Definition signed_root {sha : Sha256} (sb : SignedBlockWithAttestation) : Bytes32 := hash_tree_root (block_of_signed sb).

(** Blocks, newest first, each the parent of the one before; the first has the
    root [next]. *)
Fixpoint hash_chain {sha : Sha256} (next : Bytes32) (sbs : list SignedBlockWithAttestation) : Prop :=
  match sbs with
  | [] => True
  | sb :: sbs => next <> bv_zero 32 /\ signed_root sb = next /\ hash_chain (signed_parent sb) sbs
  end.

(** The root the chain stands on. *)
Fixpoint chain_base (next : Bytes32) (sbs : list SignedBlockWithAttestation) : Bytes32 :=
  match sbs with [] => next | sb :: sbs => chain_base (signed_parent sb) sbs end.

(** ** Walks against any peer *)

Section AnyPeer.
Context {sha : Sha256} {ls : LeanSig} {W : Type} {source : WalkSource W} {cancel : Cancellation W}.
Hypothesis fetch_validates : forall root timeout w block w',
  walk_fetch_hop root timeout w = (Ok (HopBlock block), w') -> signed_root block = root.
Hypothesis fetch_fails : forall root timeout w,
  match walk_fetch_hop root timeout w with (Ok _, _) => True | (Err e, _) => exists reason, e = Network reason | _ => False end.
Hypothesis has_block_returns : forall root w, returned (walk_has_block root w).1.

(** The result of a walk that has [pending] already. *)
Definition walk_result (depth : nat) (next : Bytes32) (pending : list SignedBlockWithAttestation)
    (r : Outcome SyncError (list SignedBlockWithAttestation)) : Prop :=
  match r with
  | Ok out => out = [] \/ exists more, out = pending ++ more /\ hash_chain next more /\ (length more <= depth)%nat
  | Err e => exists reason, e = Network reason
  | _ => False
  end.

Lemma walk_result_stop depth next pending : walk_result depth next pending (Ok pending).
Proof. right. exists []. rewrite app_nil_r. split_and!; [done|done|simpl; lia]. Qed.

Lemma walk_result_cons depth next pending sb r :
  next <> bv_zero 32 -> signed_root sb = next ->
  walk_result depth (signed_parent sb) (pending ++ [sb]) r -> walk_result (Datatypes.S depth) next pending r.
Proof.
  intros Hz Hr. destruct r as [out|e| |]; simpl; [|done..]. intros [->|(more & -> & Hc & Hl)]; [by left|].
  right. exists (sb :: more). rewrite <-app_assoc. split_and!; [done|done|simpl; lia].
Qed.

Lemma walk_loop_result depth timeout next pending w :
  walk_result depth next pending (walk_loop depth timeout next pending w).1.
Proof.
  revert next pending w. induction depth as [|depth IH]; intros next pending w; [apply walk_result_stop|].
  cbn [walk_loop]. unfold mbind at 1, is_cancelled at 1. destruct (poll_cancelled w) as [[] w1]; [by left|].
  case_bool_decide as Hz; [apply walk_result_stop|].
  pose proof (has_block_returns next w1) as Hh. destruct (walk_has_block next w1) as [[[]|e| |] w2]; try done;
    [apply walk_result_stop| |by left].
  unfold mbind at 1, select_cancelled, mbind at 1, is_cancelled at 1. destruct (poll_cancelled w2) as [[] w3]; [by left|].
  pose proof (fetch_validates next timeout w3) as Hv. pose proof (fetch_fails next timeout w3) as Hf.
  destruct (walk_fetch_hop next timeout w3) as [r w4]. unfold mbind at 1, is_cancelled at 1.
  destruct (poll_cancelled w4) as [[] w5]; [by left|]. unfold mlift.
  destruct r as [hop|e| |]; simpl; [|done..]. destruct hop as [sb| |]; [|apply walk_result_stop|by left].
  eapply walk_result_cons; [done|by eapply Hv|apply IH].
Qed.

End AnyPeer.

(** ** The production source *)

Section P2pSource.
Context {sha : Sha256} {ord : HashOrder} {ls : LeanSig} {p2p_lib : Libp2p} {snap : Snap}.
Context {T S W : Type} {db : ChainStore S} {world : SyncWorld T S W}.

Lemma validate_single_root_Some blocks root sb :
  validate_single_root_response blocks root = inl (Some sb) -> blocks = [sb] /\ signed_root sb = root.
Proof.
  destruct blocks as [|b [|? ?]]; simpl; [done| |done]. case_bool_decide as Hr; [|done]. by intros [= ->].
Qed.

Lemma single_root_request root : BlocksByRootRequest_new [root] = Ok (mkBlocksByRootRequest [root]).
Proof. reflexivity. Qed.

Lemma fetch_hop_validates peer root timeout w sb w' :
  fetch_hop peer root timeout w = (Ok (HopBlock sb), w') -> signed_root sb = root.
Proof.
  unfold fetch_hop. rewrite single_root_request. unfold mbind, mlift. simpl.
  destruct (request_blocks_by_root _ _ _ w) as [[[response|]|e| |] w1]; try done.
  destruct (validate_single_root_response _ root) as [[sb'|]|reason] eqn:Hv; try done.
  intros [= -> ->]. by apply validate_single_root_Some in Hv as [_ ?].
Qed.

Hypothesis host_returns : forall peer request timeout w, returned (host_send_request peer request timeout w).1.

Lemma fetch_hop_fails peer root timeout w :
  match fetch_hop peer root timeout w with (Ok _, _) => True | (Err e, _) => exists reason, e = Network reason | _ => False end.
Proof.
  unfold fetch_hop. rewrite single_root_request. unfold mbind, mlift. simpl. unfold request_blocks_by_root.
  destruct (parse_peer_id (peer_str peer)) as [id|]; [|by eexists]. destruct (world_host_running w); [|by eexists]. simpl.
  pose proof (host_returns id (RequestBlocksByRoot (mkBlocksByRootRequest [root])) timeout w) as Hh.
  destruct (host_send_request _ _ _ w) as [[[[status|response]|]|e| |] w1]; try done; simpl; try by eexists.
  by destruct (validate_single_root_response _ _) as [[]|].
Qed.

(** C19. Whatever a peer answers, and whatever the rest of the node does meanwhile,
    a walk returns, and the blocks it returns are a hash chain: the first has the
    requested root, each other one is the parent of the one before, and there are
    at most [max_sync_depth].  The only errors are those of the transport. *)
Theorem walk_back_hash_chain {cancel : Cancellation W} config peer start_root w :
  (forall root v, returned (service_has_block root (world_service v)).1) ->
  match walk_back config peer start_root w with
  | (Ok pending, _) => hash_chain start_root pending /\ len pending <= max_sync_depth config
  | (Err e, _) => exists reason, e = Network reason
  | _ => False
  end.
Proof.
  intros Hdb. unfold walk_back, walk_back_with.
  pose proof (walk_loop_result (source:=P2pWalkSource peer) (fetch_hop_validates peer) (fetch_hop_fails peer)) as H.
  specialize (H ltac:(intros root v; cbn [walk_has_block P2pWalkSource]; unfold on_service; specialize (Hdb root v);
    by destruct (service_has_block root (world_service v)) as [[]])).
  specialize (H (N.to_nat (max_sync_depth config)) (request_timeout config) start_root [] w).
  destruct (walk_loop _ _ _ _ w) as [[out|e| |] w']; try done.
  destruct H as [->|(more & -> & Hc & Hl)]; [split; [done|unfold len; simpl; lia]|]. split; [done|unfold len; simpl; lia].
Qed.

End P2pSource.

(** ** An honest peer

    The world of one node and one peer, which answers from its own chain service
    ([build_response]); nothing else runs. *)

Record PeerWorld {ls : LeanSig} {p2p_lib : Libp2p} (T S : Type) := mkPeerWorld {
  pw_service : @Service T S;
  pw_registry : PeerRegistry;
  pw_remote : @Service T S;
}.
Arguments mkPeerWorld {ls p2p_lib T S}.
Arguments pw_service {ls p2p_lib T S}.
Arguments pw_registry {ls p2p_lib T S}.
Arguments pw_remote {ls p2p_lib T S}.

Section Honest.
Context {sha : Sha256} {ord : HashOrder} {Ho : HashOrderLaws ord} {ls : LeanSig} {p2p_lib : Libp2p} {snap : Snap}.
Context {T S : Type} {db : ChainStore S} {rep : S -> Inner -> Prop} {signer_inv : T -> Prop}.
Context {refines : StoreRefines S rep False}.
Variable verifier : option (Verifier (CryptoError (ls:=ls))).

#[local] Instance honest_world : SyncWorld T S (PeerWorld T S) := {|
  world_service := pw_service;
  set_world_service service w := mkPeerWorld service (pw_registry w) (pw_remote w);
  world_registry := pw_registry;
  world_host_running _ := true;
  host_send_request _ request _ := fun w =>
    match request with
    | RequestStatus _ => (Ok (Some (ResponseStatus (local_status (pw_remote w)))), w)
    | RequestBlocksByRoot request =>
        let '(r, remote) := build_response ProviderChain request (pw_remote w) in
        (let? response := omap_err (Empty_set_rect (fun _ => RpcError)) r in Ok (Some (ResponseBlocksByRoot response)),
         mkPeerWorld (pw_service w) (pw_registry w) remote)
    end;
|}.
#[local] Existing Instance never_cancelled.

(** The engine, and the contents of the two stores. *)
Record world_rep (anchor : Bytes32) (vs : list Validator) (engine : Store) (c remote : Inner) (w : PeerWorld T S) : Prop := {
  wr_engine : engine_ok anchor vs engine;
  wr_service : exists t s, pw_service w = (engine, (t, s)) /\ signer_inv t /\ rep s c;
  wr_sound : db_sound engine c;
  wr_remote : exists e t s, pw_remote w = (e, (t, s)) /\ rep s remote;
}.

Lemma has_block_honest anchor vs engine c remote w peer root :
  world_rep anchor vs engine c remote w ->
  exists w', walk_has_block (WalkSource:=P2pWalkSource peer) root w = (Ok (bool_decide (is_Some (in_blocks c !! root))), w') /\
    world_rep anchor vs engine c remote w' /\ pw_registry w' = pw_registry w.
Proof.
  intros [He (t & s & Hs & Ht & Hr) Hd Hrem]. cbn [walk_has_block P2pWalkSource].
  unfold on_service. cbn [world_service honest_world]. rewrite Hs. unfold service_has_block, on_db.
  pose proof (has_block_law s c root Hr) as Ha. unfold answered in Ha.
  destruct (db_has_block root s) as [[b|e| |] s']; [|by destruct Ha|done|done]. destruct Ha as [-> Hr']. simpl.
  eexists. split; [done|]. split; [split; [done|by exists t, s'|done|done]|done].
Qed.

Lemma fetch_hop_honest anchor vs engine c remote w peer id root sb timeout :
  world_rep anchor vs engine c remote w -> parse_peer_id (peer_str peer) = Some id ->
  in_blocks remote !! root = Some sb -> signed_root sb = root ->
  exists w', walk_fetch_hop (WalkSource:=P2pWalkSource peer) root timeout w = (Ok (HopBlock sb), w') /\
    world_rep anchor vs engine c remote w' /\ pw_registry w' = pw_registry w.
Proof.
  intros [He Hs Hd (e & t & s & Hrem & Hr)] Hid Hin Hroot. cbn [walk_fetch_hop P2pWalkSource]. unfold fetch_hop.
  rewrite single_root_request. unfold mbind at 1, mlift, request_blocks_by_root. rewrite Hid.
  cbn [world_host_running host_send_request honest_world negb]. rewrite Hrem.
  unfold build_response. cbn [br_roots lookup_roots get_block_by_root]. unfold mbind, mret. 
  pose proof (load_block_law s remote root Hr) as Ha. unfold answered in Ha.
  destruct (db_load_block root s) as [[b|err| |] s']; [|by destruct Ha|done|done]. destruct Ha as [-> Hr']. rewrite Hin.
  change (BlocksByRootResponse_new [sb]) with (Ok (E:=NetworkingError) (mkBlocksByRootResponse [sb])).
  cbn [omap_err obind blocks_reply br_blocks validate_single_root_response]. fold (block_of_signed sb). fold (signed_root sb).
  rewrite Hroot, bool_decide_eq_true_2 by done.
  eexists. split; [reflexivity|]. split; [split; [done|done|done|by exists e, t, s']|done].
Qed.

(** A chain the peer has and the node has not. *)
Record missing_chain (c remote : Inner) (next : Bytes32) (sbs : list SignedBlockWithAttestation) : Prop := {
  mc_chain : hash_chain next sbs;
  mc_remote : Forall (fun sb => in_blocks remote !! signed_root sb = Some sb) sbs;
  mc_local : Forall (fun sb => in_blocks c !! signed_root sb = None) sbs;
}.

(** The walk fetches the chain down to the block the node has stored, or as far as
    it may. *)
Lemma walk_fetches anchor vs engine c remote peer id timeout sbs depth next pending w :
  world_rep anchor vs engine c remote w -> parse_peer_id (peer_str peer) = Some id ->
  missing_chain c remote next sbs -> is_Some (in_blocks c !! chain_base next sbs) ->
  exists w', walk_loop (source:=P2pWalkSource peer) depth timeout next pending w = (Ok (pending ++ take depth sbs), w') /\
    world_rep anchor vs engine c remote w' /\ pw_registry w' = pw_registry w.
Proof.
  revert sbs next pending w. induction depth as [|depth IH]; intros sbs next pending w Hw Hid [Hc Hr Hl] Hb.
  { exists w. rewrite take_0, app_nil_r. done. }
  cbn [walk_loop]. unfold mbind at 1, is_cancelled at 1, poll_cancelled at 1, never_cancelled at 1.
  destruct sbs as [|sb sbs].
  - simpl in Hb. rewrite app_nil_r. case_bool_decide; [by exists w|].
    destruct (has_block_honest _ _ _ _ _ w peer next Hw) as (w1 & -> & Hw1 & Hg). rewrite bool_decide_eq_true_2 by done. by exists w1.
  - destruct Hc as (Hz & Hroot & Hc). apply Forall_cons in Hr as [Hsb Hr]. apply Forall_cons in Hl as [Hn Hl].
    rewrite Hroot in Hsb, Hn. rewrite bool_decide_eq_false_2 by done.
    destruct (has_block_honest _ _ _ _ _ w peer next Hw) as (w1 & -> & Hw1 & Hg1).
    rewrite Hn, bool_decide_eq_false_2 by (by intros []).
    destruct (fetch_hop_honest _ _ _ _ _ w1 peer id next sb timeout Hw1 Hid Hsb Hroot) as (w2 & Hf & Hw2 & Hg2).
    unfold mbind at 1, select_cancelled, mbind, is_cancelled, poll_cancelled, never_cancelled, mlift. rewrite Hf. cbn [obind].
    destruct (IH sbs (signed_parent sb) (pending ++ [sb]) w2 Hw2 Hid ltac:(by split) Hb) as (w3 & Hwalk & Hw3 & Hg3).
    exists w3. split; [|split; [done|congruence]]. rewrite <-app_assoc in Hwalk. exact Hwalk.
Qed.

(** ** Imports *)

(** The import of one block: the engine's import, whatever becomes of the write. *)
Lemma import_synced_honest anchor vs engine c remote w sb :
  world_rep anchor vs engine c remote w -> ssz_wf sb ->
  exists r w' outcome plan engine' c', on_service (service_import_block_synced verifier sb) w = (r, w') /\ returned r /\
    import_block_capturing_inner verifier sb Skip engine = (Ok (outcome, plan), engine') /\
    world_rep anchor vs engine' c' remote w' /\ pw_registry w' = pw_registry w /\ grows engine engine' /\
    ((forall r p q h, outcome <> BlockAccepted r p q h) -> c' = c).
Proof.
  intros [He (t & s & Hs & Ht & Hr) Hd Hrem] Hwf.
  destruct (import_section verifier anchor vs engine sb Skip He Hwf) as (outcome & plan & engine' & Hi & He' & Hg & Htask & _).
  pose proof (db_sound_grows _ _ _ Hg Hd) as Hd'.
  unfold on_service. cbn [world_service set_world_service honest_world]. rewrite Hs.
  unfold service_import_block_synced, import_block_synced_capturing, mbind at 1, on_engine. rewrite Hi. cbn [omap_err].
  destruct outcome as [r parent post head| | |];
    try (eexists _, _, _, plan, engine', c; split_and!; [reflexivity|done|done| |done|done|done]; by split; [|exists t, s| |]).
  destruct Htask as (p & -> & Hp). unfold persist_accepted. cbn [ok_or]. mstep.
  destruct (persist_section anchor vs p engine' t s c He' Ht Hr Hd' Hp) as (r1 & s' & c' & Hps & Hret & _ & Hr' & Hdb' & _ & _).
  unfold mbind. rewrite Hps.
  exists (match r1 with Ok _ => Ok (BlockAccepted r parent post head) | Err e => Err e | Panic => Panic | Diverge => Diverge end).
  eexists _, _, _, engine', c'. split_and!; [by destruct r1|by destruct r1|reflexivity| |done|done|intros Hno; by destruct (Hno r parent post head)].
  by split; [|exists t, s'| |].
Qed.

(** Blocks, oldest first, that the state transition accepts one after the other. *)
Fixpoint valid_run (parent : Bytes32) (pre : State) (sbs : list SignedBlockWithAttestation) (posts : list State) : Prop :=
  match sbs, posts with
  | [], [] => True
  | sb :: sbs, post :: posts =>
      signed_parent sb = parent /\ state_transition sb true pre = (Ok tt, post) /\ valid_run (signed_root sb) post sbs posts
  | _, _ => False
  end.

Definition tracks (engine : Store) (sb : SignedBlockWithAttestation) (post : State) : Prop :=
  s_blocks engine !! signed_root sb = Some (block_of_signed sb) /\ s_states engine !! signed_root sb = Some post.

Lemma tracks_grows engine engine' sb post : grows engine engine' -> tracks engine sb post -> tracks engine' sb post.
Proof. intros Hg [Hb Hs]. split; [by eapply lookup_weaken, gr_blocks|by eapply lookup_weaken, gr_states]. Qed.

(** A valid block on a tracked parent is accepted. *)
Lemma import_valid anchor vs engine sb pre post outcome plan engine' :
  engine_ok anchor vs engine -> ssz_wf sb -> s_blocks engine !! signed_root sb = None ->
  s_states engine !! signed_parent sb = Some pre -> state_transition sb true pre = (Ok tt, post) ->
  import_block_capturing_inner verifier sb Skip engine = (Ok (outcome, plan), engine') ->
  s_blocks engine' = <[signed_root sb := block_of_signed sb]> (s_blocks engine) /\ tracks engine' sb post.
Proof.
  intros [Hi Hfr] Hwf Hnew Hpre Hst Hrun.
  pose proof (import_block_outcome anchor vs engine verifier sb Skip Hi Hfr Hwf) as Hout. simpl in Hout. rewrite Hrun in Hout.
  unfold signed_root, signed_parent, block_of_signed in *.
  destruct outcome as [r parent post_root head|r|r parent|r parent e].
  - destruct Hout as (-> & -> & _ & hs & post' & hb & Hhs & _ & _ & Hst' & _ & Hb & Hs & _).
    assert (post' = post) as -> by congruence. split; [done|]. split; [by rewrite Hb, lookup_insert_eq|by rewrite Hs, lookup_insert_eq].
  - destruct Hout as (_ & [b Hb] & _). congruence.
  - destruct Hout as (_ & -> & Hn & _). congruence.
  - destruct Hout as (_ & -> & _ & _ & Hrej). destruct (Hrej pre Hpre) as [err Herr]; [done|congruence].
Qed.

Lemma import_loop_tracks anchor vs remote sbs posts engine c parent pre w :
  world_rep anchor vs engine c remote w -> Forall ssz_wf sbs -> NoDup (signed_root <$> sbs) ->
  Forall (fun sb => s_blocks engine !! signed_root sb = None) sbs ->
  s_states engine !! parent = Some pre -> valid_run parent pre sbs posts ->
  exists w' engine' c', import_loop verifier sbs w = (Ok tt, w') /\ world_rep anchor vs engine' c' remote w' /\
    grows engine engine' /\ Forall2 (tracks engine') sbs posts.
Proof.
  revert posts engine c parent pre w.
  induction sbs as [|sb sbs IH]; intros posts engine c parent pre w Hw Hwf Hnd Hnew Hpre Hv.
  { destruct posts; [|done]. by exists w, engine, c. }
  destruct posts as [|post posts]; [done|]. destruct Hv as (<- & Hst & Hv).
  apply Forall_cons in Hwf as [Hwsb Hwf]. apply NoDup_cons in Hnd as [Hni Hnd]. apply Forall_cons in Hnew as [Hn Hnew].
  destruct (import_synced_honest _ _ _ _ _ w sb Hw Hwsb) as (r & w1 & outcome & plan & engine1 & c1 & Hrun & Hret & Hi & Hw1 & _ & Hg & _).
  destruct (import_valid _ _ _ _ _ _ _ _ _ (wr_engine _ _ _ _ _ _ Hw) Hwsb Hn Hpre Hst Hi) as [Hb Htr].
  assert (Hnew1 : Forall (fun sb => s_blocks engine1 !! signed_root sb = None) sbs).
  { apply Forall_forall. intros sb' Hin. rewrite Hb, lookup_insert_ne; [by eapply Forall_forall in Hnew|].
    intros Heq. apply Hni. rewrite Heq. by apply list_elem_of_fmap_2. }
  destruct (IH posts engine1 c1 (signed_root sb) post w1 Hw1 Hwf Hnd Hnew1 (proj2 Htr) Hv) as (w2 & engine2 & c2 & Hloop & Hw2 & Hg2 & Hall).
  exists w2, engine2, c2. split_and!; [|done|by etrans|constructor; [by eapply tracks_grows|done]].
  cbn [import_loop]. unfold mbind, is_cancelled, poll_cancelled, never_cancelled. rewrite Hrun. by destruct r.
Qed.

(** A block whose parent has no state changes nothing. *)
Lemma import_loop_missing anchor vs remote sbs engine c w :
  world_rep anchor vs engine c remote w -> Forall ssz_wf sbs -> Forall (fun sb => s_states engine !! signed_parent sb = None) sbs ->
  exists w', import_loop verifier sbs w = (Ok tt, w') /\ world_rep anchor vs engine c remote w' /\ pw_registry w' = pw_registry w.
Proof.
  revert w. induction sbs as [|sb sbs IH]; intros w Hw Hwf Hm; [by exists w|].
  apply Forall_cons in Hwf as [Hwsb Hwf]. apply Forall_cons in Hm as [Hn Hm].
  destruct (import_synced_honest _ _ _ _ _ w sb Hw Hwsb) as (r & w1 & outcome & plan & engine1 & c1 & Hrun & Hret & Hi & Hw1 & Hreg & _ & Hc).
  destruct (wr_engine _ _ _ _ _ _ Hw) as [Hinv Hfr].
  pose proof (import_block_outcome anchor vs engine verifier sb Skip Hinv Hfr Hwsb) as Hout. simpl in Hout. rewrite Hi in Hout.
  assert (engine1 = engine /\ c1 = c) as [-> ->].
  { destruct outcome as [rt parent post_root head|rt|rt parent|rt parent e].
    - destruct Hout as (_ & -> & _ & hs & ? & ? & Hhs & _). unfold signed_parent, block_of_signed in Hn. congruence.
    - split; [apply Hout|by apply Hc].
    - split; [apply Hout|by apply Hc].
    - split; [apply Hout|by apply Hc]. }
  destruct (IH w1 Hw1 Hwf Hm) as (w2 & Hloop & Hw2 & Hreg2). exists w2. split; [|split; [done|congruence]].
  cbn [import_loop]. unfold mbind, is_cancelled, poll_cancelled, never_cancelled. rewrite Hrun. by destruct r.
Qed.

Lemma chain_parents_missing engine depth next sbs :
  hash_chain next sbs -> Forall (fun sb => s_states engine !! signed_root sb = None) sbs ->
  s_states engine !! chain_base next sbs = None \/ (depth < length sbs)%nat ->
  Forall (fun sb => s_states engine !! signed_parent sb = None) (take depth sbs).
Proof.
  revert depth next. induction sbs as [|sb sbs IH]; intros depth next Hc Hm Hgap; [by rewrite take_nil|].
  destruct depth as [|depth]; [done|]. destruct Hc as (_ & _ & Hc). apply Forall_cons in Hm as [_ Hm].
  cbn [take]. constructor; [|apply (IH depth (signed_parent sb)); [done|done|destruct Hgap; [by left|right; simpl in *; lia]]].
  destruct sbs as [|sb' sbs]; [destruct Hgap as [|Hl]; [done|simpl in Hl; lia]|].
  destruct Hc as (_ & <- & _). by apply Forall_cons in Hm as [? _].
Qed.

(** ** What a sync leads to *)

Section Sync.
Variables (anchor : Bytes32) (vs : list Validator) (c remote : Inner) (config : SyncConfig) (peer : PeerId) (id : LpPeerId).
Variables (status : Status) (newest_first : list SignedBlockWithAttestation).
Let start_root := cp_root (status_head status).

Lemma sync_with_peer_fetches engine w :
  world_rep anchor vs engine c remote w -> parse_peer_id (peer_str peer) = Some id ->
  missing_chain c remote start_root newest_first -> is_Some (in_blocks c !! chain_base start_root newest_first) ->
  exists w', world_rep anchor vs engine c remote w' /\ pw_registry w' = pw_registry w /\
    sync_with_peer verifier config peer start_root w =
      import_loop verifier (reverse (take (N.to_nat (max_sync_depth config)) newest_first)) w'.
Proof.
  intros Hw Hid Hmc Hb.
  destruct (walk_fetches _ _ _ _ _ peer id (request_timeout config) _ (N.to_nat (max_sync_depth config)) _ [] w Hw Hid Hmc Hb)
    as (w' & Hwalk & Hw' & Hreg).
  exists w'. split_and!; [done|done|]. unfold sync_with_peer, walk_back, walk_back_with. by rewrite Hwalk.
Qed.

Lemma handle_known w :
  peer_status (pw_registry w) (peer_str peer) = Some status ->
  handle verifier config peer w =
    if should_sync (local_status (pw_service w)) status then sync_with_peer verifier config peer start_root w else (Ok tt, w).
Proof.
  intros Hst. unfold handle, mbind, is_cancelled, poll_cancelled, never_cancelled, status_exchange.
  cbn [world_service world_registry honest_world]. rewrite Hst. cbn [option_bind base.mbind]. by destruct (should_sync _ _).
Qed.


(** C27. A gap the walk does not bridge stays.  If the missing chain is longer than
    [max_sync_depth], or stands on a block that is stored but that the engine does
    not track (as after a restart, for a block beside the resumed head), then
    however often the same peer is handled, no block is imported: the engine and
    the store stay as they are. *)
Theorem gap_never_closes engine w n :
  world_rep anchor vs engine c remote w -> parse_peer_id (peer_str peer) = Some id ->
  peer_status (pw_registry w) (peer_str peer) = Some status ->
  missing_chain c remote start_root newest_first -> is_Some (in_blocks c !! chain_base start_root newest_first) ->
  Forall ssz_wf newest_first -> Forall (fun sb => s_states engine !! signed_root sb = None) newest_first ->
  s_states engine !! chain_base start_root newest_first = None \/ max_sync_depth config < len newest_first ->
  let w' := Nat.iter n (fun v => (handle verifier config peer v).2) w in
  (pw_service w').1 = engine /\ world_rep anchor vs engine c remote w'.
Proof.
  intros Hw Hid Hst Hmc Hb Hwf Hm Hgap w'.
  assert (Hstep : world_rep anchor vs engine c remote w' /\ pw_registry w' = pw_registry w).
  { subst w'. induction n as [|n [IHw IHr]]; [done|]. cbn [Nat.iter nat_rect]. set (v := Nat.iter n _ w) in *.
    destruct (sync_with_peer_fetches engine v IHw Hid Hmc Hb) as (w1 & Hw1 & Hr1 & Hsync).
    destruct (import_loop_missing anchor vs remote (reverse (take (N.to_nat (max_sync_depth config)) newest_first)) engine c w1 Hw1)
      as (w2 & Hloop & Hw2 & Hr2).
    { by apply Forall_reverse, Forall_take. }
    { apply Forall_reverse. eapply chain_parents_missing; [apply Hmc|done|]. destruct Hgap; [by left|right; unfold len in *; lia]. }
    change (world_rep anchor vs engine c remote (handle verifier config peer v).2 /\ pw_registry (handle verifier config peer v).2 = pw_registry w).
    rewrite (handle_known v) by (by rewrite IHr). destruct (should_sync _ _); [|done].
    rewrite Hsync, Hloop. split; [done|]. cbn [snd]. congruence. }
  split; [|apply Hstep]. destruct (wr_service _ _ _ _ _ _ (proj1 Hstep)) as (t & s & -> & _). done.
Qed.

End Sync.

End Honest.

(** ** The watch loop *)

Record watch_inv (config : SyncConfig) (s : WatchState) : Prop := {
  wi_permits : wt_permits s + N.of_nat (size (wt_walking s)) = max_concurrent_peer_syncs config;
  wi_walking : forall task peer, wt_walking s !! task = Some peer ->
    wt_in_flight s !! peer = Some task /\ task ∈ wt_unfinished s /\ (task < wt_next s)%nat;
  wi_waiting : forall peer, wt_waiting s = Some peer -> wt_in_flight s !! peer = None;
}.

Lemma reap_keeps s peer task : wt_in_flight s !! peer = Some task -> task ∈ wt_unfinished s -> reap s !! peer = Some task.
Proof. intros Hf Hu. unfold reap. by apply map_lookup_filter_Some. Qed.

Lemma watch_step_inv config s s' : watch_inv config s -> watch_step s s' -> watch_inv config s'.
Proof.
  intros [Hp Hw Hwait] Hstep. destruct Hstep as [raw s Hs Hn|peer s Hs Hn Hpos|task peer s Ht|task s Ht|s].
  - unfold on_peer_event. destruct (PeerId_new raw) as [peer|]; [|done]. split; simpl; [done| |].
    + intros task p Ht. destruct (Hw task p Ht) as (Hf & Hu & Hl). split_and!; [by apply reap_keeps|done|done].
    + intros p. case_bool_decide as Hd; [done|]. intros [= <-]. by apply eq_None_not_Some.
  - pose proof (Hwait peer Hn) as Hfree. split; simpl; [|intros task p|done].
    + rewrite map_size_insert_None; [lia|]. destruct (wt_walking s !! wt_next s) as [p|] eqn:He; [|done].
      destruct (Hw _ _ He) as (_ & _ & ?). lia.
    + intros [[<- <-]|[Hne Ht]]%lookup_insert_Some; [split_and!; [by rewrite lookup_insert_eq|set_solver|lia]|].
      destruct (Hw task p Ht) as (Hf & Hu & Hl). split_and!; [|set_solver|lia].
      rewrite lookup_insert_ne; [done|]. intros ->. congruence.
  - split; simpl; [|intros t p [Hne Hl]%lookup_delete_Some; by apply Hw|done].
    rewrite map_size_delete_Some by done. assert (size (wt_walking s) <> 0%nat) by (by eapply map_size_ne_0_lookup_2; eexists). lia.
  - split; simpl; [done| |done]. intros t p Hl. destruct (Hw t p Hl) as (Hf & Hu & Hlt).
    split_and!; [done| |done]. apply elem_of_difference. split; [done|]. rewrite elem_of_singleton. intros ->. congruence.
  - by split.
Qed.

(** C28. In every reachable state of the watch loop at most
    [max_concurrent_peer_syncs] walks run, and no two of them are of one peer. *)
Theorem watch_walks_bounded config s :
  watch_reachable config s ->
  N.of_nat (size (wt_walking s)) <= max_concurrent_peer_syncs config /\
  forall task task' peer, wt_walking s !! task = Some peer -> wt_walking s !! task' = Some peer -> task = task'.
Proof.
  intros Hr. assert (watch_inv config s) as [Hp Hw _].
  { induction Hr as [|s s' _ IH Hstep]; [|by eapply watch_step_inv]. split; simpl; [rewrite map_size_empty; lia|done|done]. }
  split; [lia|]. intros task task' peer H1 H2. destruct (Hw _ _ H1) as [E1 _], (Hw _ _ H2) as [E2 _]. congruence.
Qed.
