(* ===== verification/Loop.v ===== *)
(** * The consensus loop ([crates/node/src/consensus_loop.rs])

    The task that drives a node: at each tick it imports what gossip has delivered,
    proposes in the first interval of a slot, attests in the third, and advances the
    engine.  It runs beside other tasks: [others] is what they do to the chain
    service and to the gossip channels while the loop waits, and every wait of the
    code is a [yield].  A method of the chain service is run section by section
    ([own_call]), with a wait before each.

    The environment [LoopEnv] gives the steps of the other tasks, the cancellation,
    the results of publishing, and the order in which the futures of the attesters
    are polled. *)

From stdpp Require Import base numbers list gmap sets strings.
From Stdlib Require Import Strings.Byte ZArith Lia.
From S2P Require Import Prelude Config Types Merkle Codec Slot Containers State Ancestry Store Production Engine Ots Storage Wire Signer Duties Chain P2p SwarmTask Services.

(** ** Clock *)

Definition VOTE_DUE_INTERVAL : N := INTERVALS_PER_SLOT / 2.

Definition slot_interval_at (tick_index : N) : Slot * N := (tick_index / INTERVALS_PER_SLOT, tick_index mod INTERVALS_PER_SLOT).

(** Nanoseconds; an [Instant] holds seconds in an [i64]. *)
Definition INSTANT_BOUND : N := 2 ^ 63 * 1000000000.

Definition anchor_from (genesis now_wall now_instant : N) : N :=
  let until_target := saturating_sub genesis now_wall in
  if now_instant + until_target <? INSTANT_BOUND then now_instant + until_target else now_instant.

(** [genesis_anchor] at a reading of the two clocks. *)
Definition loop_genesis_anchor (genesis : GenesisTimeUnix) (now_wall now_instant : N) : N :=
  anchor_from (genesis * 1000000000) now_wall now_instant.

Record ConsensusLoop := mkConsensusLoop { cl_proposers : LocalProposers; cl_genesis_anchor : N }.

Definition ConsensusLoop_new (duties : DutiesConfig) (validators : LocalValidatorSet) (now_wall now_instant : N) : Outcome DutiesError ConsensusLoop :=
  let? _ := ensure_runnable duties in
  Ok (mkConsensusLoop (LocalProposers_new (lv_local validators) (lv_total validators))
        (loop_genesis_anchor (dc_genesis_time_unix duties) now_wall now_instant)).

(** ** The world of the loop *)

Inductive AttestChoice := PollFuture (i : nat) | ExpireFuture (i : nat).

(** A step of another task: of a call of the chain service, or of the swarm task on
    the gossip ingress. *)
Inductive OtherStep {p2p_lib : Libp2p} {ls : LeanSig} :=
| OtherChain (step : ServiceStep)
| OtherMessageId (msg : GossipMessage)
| OtherRoute (source : LpPeerId) (msg : GossipMessage).

Class LoopEnv {p2p_lib : Libp2p} {ls : LeanSig} (X : Type) := {
  others : X -> list OtherStep * X;
  poll_cancelled : X -> bool * X;
  (** [P2pService::host] is present. *)
  host_up : X -> bool;
  (** The command to the swarm task and its reply. *)
  publish_raw : string -> list u8 -> X -> option PublishError * X;
  choose : X -> AttestChoice * X;
  (** A bound on the messages that will arrive. *)
  traffic : X -> nat;
}.

Section Loop.
Context {p2p_lib : Libp2p} {sha : Sha256} {o : HashOrder} {ls : LeanSig} {snap : Snap} {eth : EthSsz} {T S X : Type}.
Context {signer : AttestationSigner (T * S)} {db : ChainStore S} {env : LoopEnv X}.
Variable verifier : option (Verifier CryptoError).

(** [lw_calls]: the calls the loop has made of the chain service, in order, each with
    the time of the engine when it was made. *)
Record LoopWorld := mkLoopWorld {
  lw_chain : World (T:=T) (S:=S) (ls:=ls);
  lw_gossip : GossipRun;
  lw_failures : N;
  lw_calls : list (N * ServiceCall);
  lw_env : X;
}.

Definition set_chain (chain : World) (w : LoopWorld) : LoopWorld := mkLoopWorld chain (lw_gossip w) (lw_failures w) (lw_calls w) (lw_env w).
Definition set_gossip (gossip : GossipRun) (w : LoopWorld) : LoopWorld := mkLoopWorld (lw_chain w) gossip (lw_failures w) (lw_calls w) (lw_env w).
Definition set_failures (failures : N) (w : LoopWorld) : LoopWorld := mkLoopWorld (lw_chain w) (lw_gossip w) failures (lw_calls w) (lw_env w).
Definition add_call (call : ServiceCall) (w : LoopWorld) : LoopWorld := mkLoopWorld (lw_chain w) (lw_gossip w) (lw_failures w) (lw_calls w ++ [(s_time (w_service (lw_chain w)).1, call)]) (lw_env w).
Definition set_env (x : X) (w : LoopWorld) : LoopWorld := mkLoopWorld (lw_chain w) (lw_gossip w) (lw_failures w) (lw_calls w) x.

Definition on_env {E A} (f : X -> A * X) : M LoopWorld E A := fun w => let '(a, x) := f (lw_env w) in (Ok a, set_env x w).

Definition other_step (w : LoopWorld) (step : OtherStep) : LoopWorld :=
  match step with
  | OtherChain step => set_chain (service_step verifier (lw_chain w) step) w
  | OtherMessageId msg => set_gossip (gossip_event (MessageIdOf msg) (lw_gossip w)).2 w
  | OtherRoute source msg => set_gossip (gossip_event (Route source msg) (lw_gossip w)).2 w
  end.

(** The loop waits. *)
Definition yield {E} : M LoopWorld E unit := fun w =>
  let '(steps, x) := others (lw_env w) in (Ok tt, fold_left other_step steps (set_env x w)).

(** ** Calls of the chain service *)

(** What a section leaves among the results when its call ends. *)
Definition ended (r : Outcome ChainError (option ServiceTask)) : list (Outcome ChainError unit) :=
  match r with
  | Ok (Some _) => []
  | Ok None => [Ok tt]
  | Err e => [Err e]
  | Panic => [Panic]
  | Diverge => [Diverge]
  end.

Definition own_section (c : M (Service (T:=T) (S:=S)) ChainError (option ServiceTask)) : M LoopWorld ChainError (option ServiceTask) := fun w =>
  let chain := lw_chain w in
  let '(r, service) := c (w_service chain) in
  (r, set_chain (mkWorld service (w_tasks chain) (w_results chain ++ ended r)) w).

Definition start_own (call : ServiceCall) : M LoopWorld ChainError (option ServiceTask) :=
  let! _ := mmodify (add_call call) in own_section (service_start verifier call).

(** The rest of a call; it gives the task of its last section. *)
Fixpoint finish_own (fuel : nat) (last task : option ServiceTask) : M LoopWorld ChainError (option ServiceTask) :=
  match fuel, task with
  | _, None => mret last
  | O, Some _ => mlift Diverge
  | Datatypes.S fuel, Some task =>
      let! _ := yield in
      let! next := own_section (service_resume task) in
      finish_own fuel (Some task) next
  end.

Definition own_call (call : ServiceCall) : M LoopWorld ChainError (option ServiceTask) :=
  let! _ := yield in
  let! task := start_own call in
  finish_own 3 None task.

(** An error that is logged: the loop goes on. *)
Definition catch {E A} (c : M LoopWorld E A) : M LoopWorld Empty_set (A + E) := fun w =>
  match c w with
  | (Ok a, w) => (Ok (inl a), w)
  | (Err e, w) => (Ok (inr e), w)
  | (Panic, w) => (Panic, w)
  | (Diverge, w) => (Diverge, w)
  end.

Definition loop_produce_block (slot : Slot) (validator : ValidatorIndex) : M LoopWorld ChainError SignedBlockWithAttestation :=
  let! last := own_call (ProduceBlock slot validator) in
  match last with Some (PersistProduced plan) => mret (pp_block plan) | _ => mlift Panic end.

(** ** Publishing ([publisher.rs]) *)

Inductive LoopError := HostNotRunning | LoopPublish (e : PublishError) | LoopChain (e : ChainError (ls:=ls)).

Definition publish {A} `{Encode A} (topic : string) (value : A) : M LoopWorld LoopError unit := fun w =>
  match encode_gossip value with
  | Ok payload =>
      let '(err, x) := publish_raw topic payload (lw_env w) in
      (match err with None => Ok tt | Some err => Err (LoopPublish err) end, set_env x w)
  | Err e => match e with end
  | Panic => (Panic, w)
  | Diverge => (Diverge, w)
  end.

Definition running_host (c : M LoopWorld LoopError unit) : M LoopWorld LoopError unit := fun w =>
  if host_up (lw_env w) then c w else (Err HostNotRunning, w).

Definition publish_block (block : SignedBlockWithAttestation) : M LoopWorld LoopError unit :=
  running_host (publish BLOCK_TOPIC_V1 block).
Definition publish_vote (vote : SignedAttestation) : M LoopWorld LoopError unit :=
  running_host (publish VOTE_TOPIC_V1 vote).

(** ** Gossip *)

Definition drop_admit : M LoopWorld Empty_set unit := mmodify (fun w => set_gossip (gossip_event (ImportDone 0) (lw_gossip w)).2 w).

Fixpoint drain_blocks (fuel : nat) : M LoopWorld Empty_set unit := fun w =>
  match ch_queue (gi_blocks (gr_ingress (lw_gossip w))), fuel with
  | [], _ => (Ok tt, w)
  | _, O => (Diverge, w)
  | (permit, block) :: _, Datatypes.S fuel =>
      (let! _ := mmodify (fun w => set_gossip (gossip_event TakeBlock (lw_gossip w)).2 w) in
       let! _ := catch (own_call (ImportBlock block)) in
       let! _ := drop_admit in
       drain_blocks fuel) w
  end.

Fixpoint drain_votes (fuel : nat) : M LoopWorld Empty_set unit := fun w =>
  match ch_queue (gi_votes (gr_ingress (lw_gossip w))), fuel with
  | [], _ => (Ok tt, w)
  | _, O => (Diverge, w)
  | (permit, vote) :: _, Datatypes.S fuel =>
      (let! _ := mmodify (fun w => set_gossip (gossip_event TakeVote (lw_gossip w)).2 w) in
       let! _ := catch (own_call (ImportAttestation vote)) in
       let! _ := drop_admit in
       drain_votes fuel) w
  end.

(** Each round takes a message that is queued or that is still to arrive. *)
Definition drain_gossip : M LoopWorld Empty_set unit :=
  let! _ := (fun w => drain_blocks (length (ch_queue (gi_blocks (gr_ingress (lw_gossip w)))) + traffic (lw_env w)) w) in
  fun w => drain_votes (length (ch_queue (gi_votes (gr_ingress (lw_gossip w)))) + traffic (lw_env w)) w.

(** ** Proposing *)

Definition on_health (f : N -> N) : M LoopWorld Empty_set unit := mmodify (fun w => set_failures (f (lw_failures w)) w).

Definition maybe_propose (proposers : LocalProposers) (slot : Slot) : M LoopWorld Empty_set bool :=
  match proposer_for_slot proposers slot with
  | None => mret false
  | Some validator =>
      let! produced := catch (loop_produce_block slot validator) in
      match produced with
      | inl block =>
          let! published := catch (publish_block block) in
          let! _ := on_health (match published with inl _ => record_success | inr _ => record_failure end) in
          mret true
      | inr _ => let! _ := on_health record_failure in mret false
      end
  end.

(** ** Attesting

    The future of an attester: not yet polled, in a call, or publishing. *)
Inductive AttestStage := AttestStart | AttestTask (task : ServiceTask (ls:=ls)) | AttestPublish (vote : SignedAttestation).

(** [attest_one] up to its next wait; [None]: it has returned. *)
Definition attest_poll (slot : Slot) (validator : ValidatorIndex) (stage : AttestStage) : M LoopWorld LoopError (option AttestStage) :=
  let lift (c : M LoopWorld ChainError (option ServiceTask)) : M LoopWorld LoopError (option ServiceTask) :=
    fun w => let '(r, w) := c w in (omap_err LoopChain r, w) in
  match stage with
  | AttestStart => let! task := lift (start_own (ProduceAttestation slot validator)) in mret (AttestTask <$> task)
  | AttestTask task =>
      let! next := lift (own_section (service_resume task)) in
      match next, task with
      | Some task, _ => mret (Some (AttestTask task))
      | None, ReimportVote message signature => mret (Some (AttestPublish (mkSignedAttestation message signature)))
      | None, _ => mret None
      end
  | AttestPublish vote => let! _ := publish_vote vote in mret None
  end.

Fixpoint attest_loop (fuel : nat) (slot : Slot) (duties : list (ValidatorIndex * AttestStage)) : M LoopWorld Empty_set unit :=
  match duties, fuel with
  | [], _ => mret tt
  | _, O => mlift Diverge
  | _, Datatypes.S fuel =>
      let! cancelled := on_env poll_cancelled in
      if cancelled then mret tt
      else
        let! _ := yield in
        let! choice := on_env choose in
        match choice with
        | ExpireFuture i => attest_loop fuel slot (delete (i mod length duties)%nat duties)
        | PollFuture i =>
            let i := (i mod length duties)%nat in
            match duties !! i with
            | None => mlift Panic
            | Some (validator, stage) =>
                let! next := catch (attest_poll slot validator stage) in
                attest_loop fuel slot
                  (match next with inl (Some stage) => <[i := (validator, stage)]> duties | _ => delete i duties end)
            end
        end
  end.

(** A future is polled at most four times before it returns. *)
Definition run_attesters (proposers : LocalProposers) (slot : Slot) : M LoopWorld Empty_set unit :=
  let duties := (fun validator => (validator, AttestStart)) <$> attesters_for_slot proposers slot in
  attest_loop (4 * length duties) slot duties.

(** ** The loop *)

Definition run_tick (proposers : LocalProposers) (tick : N) (has_proposal : bool) : M LoopWorld Empty_set bool :=
  let! _ := drain_gossip in
  let '(slot, interval) := slot_interval_at tick in
  let! has_proposal :=
    if interval =? 0 then maybe_propose proposers slot
    else if interval =? VOTE_DUE_INTERVAL then let! _ := run_attesters proposers slot in mret has_proposal
    else mret has_proposal in
  let! _ := catch (own_call (TickInterval has_proposal)) in
  mret has_proposal.

(** At most [n] ticks. *)
Fixpoint run_loop (n : nat) (proposers : LocalProposers) (tick : N) (has_proposal : bool) : M LoopWorld Empty_set unit :=
  match n with
  | O => mret tt
  | Datatypes.S n =>
      let! _ := yield in
      let! cancelled := on_env poll_cancelled in
      if cancelled then mret tt
      else
        let! has_proposal := run_tick proposers tick has_proposal in
        run_loop n proposers (N.min (tick + 1) u64_max) has_proposal
  end.

(** [Runner::run].  The initial sync imports blocks through the chain service like the
    sync task; it is part of what happens while the loop waits. *)
Definition run (n : nat) (self : ConsensusLoop) : M LoopWorld Empty_set unit :=
  let! cancelled := on_env poll_cancelled in
  if cancelled then mret tt
  else
    let! _ := yield in
    run_loop n (cl_proposers self) 0 false.

End Loop.
