(* ===== verification/LoopInv.v ===== *)
(** * Properties of the consensus loop

    First the clock: only a tick advances the time of the engine.  Then the
    invariant of a run ([loop_ok]), which every interleaving with other tasks keeps;
    the duties a run carries out; and what happens to proposals after a restart. *)

From stdpp Require Import base numbers list gmap sets strings.
From Stdlib Require Import Strings.Byte ZArith Lia.
From S2P Require Import Prelude Config Types Merkle Codec Slot Containers State Stf Ancestry Ghost Store StoreInv Production ProductionInv Engine EngineInv Ots Storage Wire Signer Duties Chain ChainInv P2p SwarmTask Services Loop.

(** ** The clock of the engine *)

Create HintDb clock.

Definition keeps_time {E A} (c : M Store E A) : Prop := forall s, s_time (c s).2 = s_time s.

Section Clock.
Context {sha : Sha256} {o : HashOrder}.

Lemma keeps_time_bind {E A B} (c : M Store E A) (k : A -> M Store E B) :
  keeps_time c -> (forall a, keeps_time (k a)) -> keeps_time (mbind c k).
Proof.
  intros Hc Hk s. unfold mbind. specialize (Hc s). destruct (c s) as [[a|e| |] s1]; cbn in *; try done.
  by rewrite Hk.
Qed.

Lemma keeps_time_ret {E A} (a : A) : keeps_time (E:=E) (mret a).
Proof. done. Qed.
Lemma keeps_time_throw {E A} (e : E) : keeps_time (A:=A) (mthrow e).
Proof. done. Qed.
Lemma keeps_time_lift {E A} (r : Outcome E A) : keeps_time (mlift r).
Proof. done. Qed.
Lemma keeps_time_get {E} : keeps_time (E:=E) mget.
Proof. done. Qed.
Lemma keeps_time_modify {E} f : (forall s, s_time (f s) = s_time s) -> keeps_time (E:=E) (mmodify f).
Proof. intros Hf s. apply Hf. Qed.
Lemma keeps_time_fc {CE A} (c : M Store ForkchoiceError A) : keeps_time c -> keeps_time (lift_fc (CryptoError:=CE) c).
Proof. intros Hc s. unfold lift_fc. specialize (Hc s). by destruct (c s). Qed.

#[local] Hint Resolve keeps_time_ret keeps_time_throw keeps_time_lift keeps_time_get keeps_time_fc : clock.

#[local] Ltac clock :=
  repeat (first [apply keeps_time_bind; [|intros ?] | apply keeps_time_modify; by intros [] | by auto with clock | case_match]).

Lemma adopt_time cp cp' s : s_time (adopt_post_state_checkpoints cp cp' s) = s_time s.
Proof. unfold adopt_post_state_checkpoints. by repeat case_match. Qed.

Lemma insert_block_time r b st s : s_time (insert_block r b st s) = s_time s.
Proof. unfold insert_block. by repeat case_match. Qed.

Lemma track_block_time b st : keeps_time (track_block b st).
Proof. unfold track_block. clock. apply keeps_time_modify. intros s. rewrite ?adopt_time, ?insert_block_time. done. Qed.

Lemma update_head_time : keeps_time update_head.
Proof. unfold update_head. clock. Qed.
#[local] Hint Resolve track_block_time update_head_time : clock.

Lemma accept_new_votes_time : keeps_time accept_new_votes.
Proof. unfold accept_new_votes. clock. Qed.
#[local] Hint Resolve accept_new_votes_time : clock.

Lemma get_proposal_head_time : keeps_time get_proposal_head.
Proof. unfold get_proposal_head. clock. Qed.

Lemma update_safe_target_time : keeps_time update_safe_target.
Proof. unfold update_safe_target. clock. Qed.

Lemma process_attestation_time sv from : keeps_time (process_attestation sv from).
Proof. unfold process_attestation. clock. Qed.
#[local] Hint Resolve get_proposal_head_time update_safe_target_time process_attestation_time : clock.

Lemma produce_block_time slot v : keeps_time (produce_block slot v).
Proof. unfold produce_block, finalize_produced_block. clock. Qed.

Lemma produce_attestation_vote_time slot : keeps_time (produce_attestation_vote slot).
Proof. unfold produce_attestation_vote. clock. Qed.
#[local] Hint Resolve produce_block_time produce_attestation_vote_time : clock.

Lemma fold_block_attestations_time {CE} votes : keeps_time (fold_block_attestations (CryptoError:=CE) votes).
Proof.
  induction votes as [|vote votes IH]; [done|]. intros s. cbn [fold_block_attestations]. pose proof (process_attestation_time vote true s) as Hp.
  destruct (process_attestation vote true s) as [[]?]; cbn [snd] in Hp; rewrite <- Hp; try done; apply IH.
Qed.
#[local] Hint Resolve fold_block_attestations_time : clock.

Lemma transition_and_track_time {CE} sb st : keeps_time (transition_and_track (CryptoError:=CE) sb st).
Proof. unfold transition_and_track. clock. Qed.

Lemma import_block_time {CE} verifier sb policy : keeps_time (import_block_capturing_inner (CryptoError:=CE) verifier sb policy).
Proof.
  unfold import_block_capturing_inner. clock; intros s0;
  match goal with |- context [transition_and_track ?sb ?st ?s] => pose proof (transition_and_track_time (CE:=CE) sb st s) as Ht; by destruct (transition_and_track sb st s) as [[]?] end.
Qed.

Lemma import_attestation_time {CE} sv : keeps_time (import_attestation (CryptoError:=CE) sv).
Proof.
  intros s. unfold import_attestation. pose proof (process_attestation_time sv false s) as Hp.
  by destruct (process_attestation sv false s) as [[[]| | |]?].
Qed.

Lemma produce_unsigned_time {CE} slot v : keeps_time (produce_block_unsigned (CryptoError:=CE) slot v).
Proof. unfold produce_block_unsigned. clock. Qed.

(** A tick advances the clock by one, up to its end. *)
Lemma tick_time {CE} hp s : u64_ok (s_time s) ->
  s_time (engine_tick_interval (CryptoError:=CE) hp s).2 = N.min (s_time s + 1) u64_max.
Proof.
  intros Ht. unfold engine_tick_interval, lift_fc, tick_interval. mstep. unfold checked_advance, checked_add.
  destruct (N.ltb_spec (s_time s + 1) u64_bound) as [Hlt|Hge]; cbn [ok_or]; mstep.
  - rewrite N.min_l by (unfold u64_bound, u64_max in *; lia). set (s1 := set_time (s_time s + 1) s).
    change (s_time s + 1) with (s_time s1) at 2.
    assert (Hk : forall c : M Store ForkchoiceError unit, keeps_time c ->
      s_time (let '(r, s') := c s1 in (omap_err (EngineForkchoice (CryptoError:=CE)) r, s')).2 = s_time s1).
    { intros c Hc. specialize (Hc s1). by destruct (c s1). }
    destruct (time_phase _); [destruct hp|..]; apply Hk; auto with clock.
  - cbn. unfold u64_ok, u64_bound, u64_max in *. lia.
Qed.

End Clock.

(** ** The clock of the service *)

Definition is_tick (call : ServiceCall) : bool := match call with TickInterval _ => true | _ => false end.

Section ServiceClock.
Context {sha : Sha256} {o : HashOrder} {ls : LeanSig} {T S : Type}.
Context {signer : AttestationSigner (T * S)} {db : ChainStore S}.
Variable verifier : option (Verifier CryptoError).

Lemma on_engine_time {E A} wrap (c : M Store E A) (s : Service (T:=T) (S:=S)) :
  keeps_time c -> s_time (on_engine (ls:=ls) wrap c s).2.1 = s_time s.1.
Proof. intros Hc. destruct s as [engine ts]. unfold on_engine. specialize (Hc engine). by destruct (c engine). Qed.

Lemma bind_time {E A B} (c : M (Service (T:=T) (S:=S)) E A) (k : A -> M (Service (T:=T) (S:=S)) E B) s :
  s_time (c s).2.1 = s_time s.1 -> (forall a s', s_time (k a s').2.1 = s_time s'.1) -> s_time (mbind c k s).2.1 = s_time s.1.
Proof. intros Hc Hk. unfold mbind. destruct (c s) as [[]s']; cbn in *; try done. by rewrite Hk. Qed.

Lemma service_start_time call (s : Service (T:=T) (S:=S)) :
  is_tick call = false -> s_time (service_start verifier call s).2.1 = s_time s.1.
Proof.
  intros Ht. destruct call; try done; cbn [service_start].
  - apply bind_time; [|by intros []]. apply on_engine_time, import_block_time.
  - apply bind_time; [|by intros []]. apply on_engine_time, import_block_time.
  - apply bind_time; [|done]. apply on_engine_time, import_attestation_time.
  - apply bind_time; [|by intros []]. unfold produce_unsigned. apply bind_time; [apply on_engine_time, produce_unsigned_time|].
    intros prod s'. by destruct (up_persist prod).
  - apply bind_time; [|done]. apply on_engine_time. unfold engine_produce_attestation_vote.
    apply keeps_time_fc, produce_attestation_vote_time.
Qed.

Lemma service_tick_time hp (s : Service (T:=T) (S:=S)) :
  u64_ok (s_time s.1) -> s_time (service_start verifier (TickInterval hp) s).2.1 = N.min (s_time s.1 + 1) u64_max.
Proof.
  intros Ht. destruct s as [engine ts]. pose proof (tick_time (CE:=CryptoError (ls:=ls)) hp engine Ht) as Hk.
  cbn [service_start]. unfold service_tick_interval, mbind, on_engine. by destruct (engine_tick_interval hp engine) as [[]?].
Qed.

Lemma service_resume_time task (s : Service (T:=T) (S:=S)) : s_time (service_resume task s).2.1 = s_time s.1.
Proof.
  assert (Hdb : forall A (c : M S StorageError A) s, s_time (on_db (T:=T) (ls:=ls) c s).2.1 = s_time s.1).
  { intros A c [engine [t st]]. unfold on_db. by destruct (c st). }
  assert (Hsign : forall A (c : M (T * S) SignError A) s, s_time (on_signer (ls:=ls) c s).2.1 = s_time s.1).
  { intros A c [engine ts]. unfold on_signer. by destruct (c ts). }
  assert (Hplan : forall plan s, s_time (persist_plan (T:=T) (ls:=ls) plan s).2.1 = s_time s.1) by (intros; by apply bind_time).
  destruct task; cbn [service_resume]; (apply bind_time; [|done]).
  - unfold persist_accepted. destruct outcome; try done. apply bind_time; [done|]. intros plan' s'. by apply bind_time.
  - apply Hsign.
  - unfold reimport_own. apply bind_time; [|done]. apply on_engine_time, import_attestation_time.
  - apply Hplan.
  - apply Hsign.
  - unfold reimport_own. apply bind_time; [|done]. apply on_engine_time, import_attestation_time.
Qed.

End ServiceClock.

(** ** What other tasks do

    They call the chain service with messages that have been decoded, never with a
    tick, which is left to the loop; and the messages that will arrive are finitely
    many. *)

Section Others.
Context {p2p_lib : Libp2p} {ls : LeanSig}.

Definition other_wf (step : OtherStep) : Prop :=
  match step with
  | OtherChain (Start call) => service_call_wf call /\ is_tick call = false
  | _ => True
  end.

Definition is_route (step : OtherStep) : bool := match step with OtherRoute _ _ => true | _ => false end.
Definition routes (steps : list OtherStep) : nat := length (List.filter is_route steps).

Class LoopEnvLaws {X} (env : LoopEnv X) : Prop := {
  others_wf : forall x, Forall other_wf (others x).1;
  others_traffic : forall x, (routes (others x).1 + traffic (others x).2 <= traffic x)%nat;
  poll_traffic : forall x, (traffic (poll_cancelled x).2 <= traffic x)%nat;
  choose_traffic : forall x, (traffic (choose x).2 <= traffic x)%nat;
  publish_traffic : forall topic payload x, (traffic (publish_raw topic payload x).2 <= traffic x)%nat;
}.
End Others.

(** ** Gossip that arrives *)

Section Arrivals.
Context {p2p_lib : Libp2p} {sha : Sha256} {snap : Snap} {eth : EthSsz} {eth_laws : EthSszLaws}.

(** A queue after it: what was sent is well-formed. *)
Definition extends {A} `{SszWf A} (q q' : list (PeerId * A)) (n : nat) : Prop :=
  exists new, q' = q ++ new /\ Forall (fun '(_, a) => ssz_wf a) new /\ (length new <= n)%nat.

Lemma extends_refl {A} `{SszWf A} (q : list (PeerId * A)) n : extends q q n.
Proof. exists []. rewrite app_nil_r. split_and!; [done|done|cbn; lia]. Qed.

Lemma decode_payload_wf {A} `{SszCodec A} data cached (a : A) : decode_payload data cached = Ok a -> ssz_wf a.
Proof.
  unfold decode_payload, decode_gossip, ssz_decode. intros Hd.
  destruct cached; repeat (case_match; simplify_eq/=; try done);
    repeat match goal with H : obind ?c _ = Ok _ |- _ => destruct c eqn:?; simplify_eq/=; try done end;
    repeat match goal with H : omap_err _ ?c = Ok _ |- _ => destruct c eqn:?; simplify_eq/=; try done end;
    match goal with H : from_ssz_bytes _ = Ok _ |- _ => by apply (sc_canonical _ _ H) end.
Qed.

Lemma forward_extends {A} `{SszCodec A} cap peer data cached adm (tx : Channel (PeerId * A)) :
  extends (ch_queue tx) (ch_queue (forward cap peer data cached (adm, tx)).2.2) 1.
Proof.
  unfold forward. destruct (try_admit cap peer adm) as [[] adm']; [|apply extends_refl].
  destruct (decode_payload data cached) as [a|e| |] eqn:Hd; try apply extends_refl.
  unfold try_send. destruct (ch_closed tx); [apply extends_refl|]. destruct (_ <=? _); [apply extends_refl|].
  exists [(peer, a)]. split_and!; [done| |done]. apply Forall_singleton. by apply (decode_payload_wf data cached).
Qed.

Lemma route_extends source id msg g :
  extends (ch_queue (gi_blocks g)) (ch_queue (gi_blocks (route_gossipsub_message source id msg g).2)) 1 /\
  extends (ch_queue (gi_votes g)) (ch_queue (gi_votes (route_gossipsub_message source id msg g).2)) 1.
Proof.
  unfold route_gossipsub_message. destruct (PeerId_new _) as [peer|]; [|split; apply extends_refl].
  destruct (take_decompressed_for id (gi_cache g)) as [cached cache]. case_bool_decide; [|case_bool_decide].
  - match goal with |- context [forward ?c ?p ?d ?k (?a, ?t)] => pose proof (forward_extends c p d k a t) as Hf; destruct (forward c p d k (a, t)) as [r [adm tx]] end.
    split; [exact Hf|apply extends_refl].
  - match goal with |- context [forward ?c ?p ?d ?k (?a, ?t)] => pose proof (forward_extends c p d k a t) as Hf; destruct (forward c p d k (a, t)) as [r [adm tx]] end.
    split; [apply extends_refl|exact Hf].
  - split; apply extends_refl.
Qed.
End Arrivals.

(** ** The invariant *)

Section LoopInv.
Context {p2p_lib : Libp2p} {sha : Sha256} {o : HashOrder} {Ho : HashOrderLaws o} {ls : LeanSig} {snap : Snap} {eth : EthSsz} {eth_laws : EthSszLaws}.
Context {T S X : Type} {signer : AttestationSigner (T * S)} {db : ChainStore S} {rep : S -> Inner -> Prop} {fails : Prop}
  {signer_inv : T -> Prop}.
Context {refines : StoreRefines S rep fails} {signing : SignerLaws signer rep signer_inv}.
Context {env : LoopEnv X} {env_laws : LoopEnvLaws env}.
Variable verifier : option (Verifier CryptoError).
Variables (anchor : Bytes32) (vs : list Validator) (ab : Block).

Local Notation LW := (LoopWorld (T:=T) (S:=S) (X:=X) (ls:=ls)).
Local Notation Task := (ServiceTask (ls:=ls)).

Definition clock (w : LW) : N := s_time (w_service (lw_chain w)).1.
Definition block_queue (w : LW) := ch_queue (gi_blocks (gr_ingress (lw_gossip w))).
Definition vote_queue (w : LW) := ch_queue (gi_votes (gr_ingress (lw_gossip w))).

(** The world of the chain service with the calls of the loop that are under way. *)
Definition with_own (own : list Task) (c : World (T:=T) (S:=S) (ls:=ls)) : World (T:=T) (S:=S) (ls:=ls) :=
  mkWorld (w_service c) (w_tasks c ++ own) (w_results c).

(** The engine keeps the block it started from. *)
Definition tracked (service : Service (T:=T) (S:=S)) : Prop := s_blocks service.1 !! anchor = Some ab.

Record loop_ok (own : list Task) (w : LW) : Prop := {
  lo_world : world_inv (rep:=rep) (signer_inv:=signer_inv) anchor vs (with_own own (lw_chain w));
  lo_anchor : tracked (w_service (lw_chain w));
  lo_gossip : ingress_ok (lw_gossip w);
  lo_blocks : Forall (fun '(_, b) => ssz_wf b) (block_queue w);
  lo_votes : Forall (fun '(_, v) => ssz_wf v) (vote_queue w);
}.

(** While the loop waits: the clock stands still, no guard is released, and what
    arrives is paid for by the traffic. *)
Record waits (w w' : LW) : Prop := {
  wt_clock : clock w' = clock w;
  wt_calls : lw_calls w' = lw_calls w;
  wt_failures : lw_failures w' = lw_failures w;
  wt_importing : gr_importing (lw_gossip w') = gr_importing (lw_gossip w);
  wt_blocks : (length (block_queue w') + traffic (lw_env w') <= length (block_queue w) + traffic (lw_env w))%nat;
  wt_votes : (length (vote_queue w') + traffic (lw_env w') <= length (vote_queue w) + traffic (lw_env w))%nat;
}.

#[local] Instance waits_preorder : PreOrder waits.
Proof.
  split; [by split|]. intros w1 w2 w3 [] []. split; try congruence; lia.
Qed.

(** *** The chain service *)

Lemma world_inv_tasks service tasks tasks' results :
  tasks ≡ₚ tasks' -> world_inv (rep:=rep) (signer_inv:=signer_inv) anchor vs (mkWorld (T:=T) (S:=S) (ls:=ls) service tasks results) ->
  world_inv (rep:=rep) (signer_inv:=signer_inv) anchor vs (mkWorld service tasks' results).
Proof.
  intros Hp. unfold world_inv. cbn [w_service w_tasks w_results]. destruct service as [engine [t s]].
  intros (Hok & Ht & Htasks & Hres & c & Hrep & Hdb & Hcov). split_and!; try done; [by rewrite <- Hp|].
  exists c. split_and!; try done. intros Hall root Hs. destruct (Hcov Hall root Hs) as [|(task & Hin & Hr)]; [by left|right].
  exists task. by rewrite <- Hp.
Qed.

Lemma delete_app_lt {A} i (l k : list A) : (i < length l)%nat -> delete i (l ++ k) = delete i l ++ k.
Proof. revert i. induction l as [|x l IH]; intros [|i] Hi; cbn in *; try lia; [done|]. f_equal. apply IH. lia. Qed.

Lemma section_tracked engine t s c roots run :
  section_post (rep:=rep) (signer_inv:=signer_inv) anchor vs engine c roots run -> tracked (engine, (t, s)) -> tracked run.2.
Proof.
  intros (r & engine' & t' & s' & c' & -> & _ & Hg & _) Ht. unfold tracked in *. cbn in *. eapply lookup_weaken; [exact Ht|apply (gr_blocks _ _ Hg)].
Qed.

Lemma start_tracked c call : world_inv (rep:=rep) (signer_inv:=signer_inv) anchor vs c -> service_call_wf call -> tracked (w_service c) ->
  tracked (service_start verifier call (w_service c)).2.
Proof.
  intros Hw Hwf. unfold world_inv in Hw. destruct (w_service c) as [engine [t s]].
  destruct Hw as (Hok & Ht & _ & _ & ci & Hrep & Hdb & _). eapply section_tracked. by eapply start_section.
Qed.

Lemma resume_tracked c task : world_inv (rep:=rep) (signer_inv:=signer_inv) anchor vs c -> task ∈ w_tasks c -> tracked (w_service c) ->
  tracked (service_resume task (w_service c)).2.
Proof.
  intros Hw Hin. unfold world_inv in Hw. destruct (w_service c) as [engine [t s]].
  destruct Hw as (Hok & Ht & Htasks & _ & ci & Hrep & Hdb & _). eapply section_tracked. eapply resume_section; try done.
  by eapply Forall_forall in Htasks.
Qed.

(** A section leaves its call going on, or ended. *)
Definition new_tasks (r : Outcome (ChainError (ls:=ls)) (option Task)) : list Task :=
  match r with Ok (Some task) => [task] | _ => [] end.

Lemma section_done_shape (w : World (T:=T) (S:=S) (ls:=ls)) r service :
  section_done w (r, service) = mkWorld service (w_tasks w ++ new_tasks r) (w_results w ++ ended r).
Proof. destruct r as [[]| | |]; cbn; by rewrite ?app_nil_r. Qed.

Lemma other_chain_ok own c step :
  world_inv (rep:=rep) (signer_inv:=signer_inv) anchor vs (with_own own c) -> step_wf step ->
  world_inv (rep:=rep) (signer_inv:=signer_inv) anchor vs (with_own own (service_step verifier c step)).
Proof.
  intros Hw Hs. pose proof (service_step_inv verifier anchor vs _ step Hw Hs) as Hi. destruct c as [service tasks results].
  unfold with_own in *. cbn [w_service w_tasks w_results] in *. destruct step as [call|i]; cbn [service_step w_service w_tasks w_results] in *.
  - destruct (service_start verifier call service) as [r service']. rewrite !section_done_shape in *. cbn [w_service w_tasks w_results] in *.
    eapply world_inv_tasks; [|exact Hi]. by rewrite <- !app_assoc, (Permutation_app_comm own).
  - destruct (tasks !! i) as [task|] eqn:Ei; [|exact Hw].
    rewrite (lookup_app_l_Some _ _ _ _ Ei) in Hi. destruct (service_resume task service) as [r service'].
    rewrite !section_done_shape in *. cbn [w_service w_tasks w_results] in *.
    rewrite delete_app_lt in Hi by (by eapply lookup_lt_Some).
    eapply world_inv_tasks; [|exact Hi]. by rewrite <- !app_assoc, (Permutation_app_comm own).
Qed.

Lemma other_chain_tracked own c step :
  world_inv (rep:=rep) (signer_inv:=signer_inv) anchor vs (with_own own c) -> step_wf step -> tracked (w_service c) ->
  tracked (w_service (service_step verifier c step)).
Proof.
  intros Hw Hs Htr. destruct step as [call|i]; cbn [service_step].
  - pose proof (start_tracked _ call Hw Hs Htr) as Ht. cbn [with_own w_service] in Ht.
    destruct (service_start verifier call (w_service c)) as [r service']. by rewrite section_done_shape.
  - destruct (w_tasks c !! i) as [task|] eqn:Ei; [|done].
    assert (Hin : task ∈ w_tasks (with_own own c)) by (cbn; apply elem_of_app; left; by eapply list_elem_of_lookup_2).
    pose proof (resume_tracked _ task Hw Hin Htr) as Ht. cbn [with_own w_service] in Ht.
    destruct (service_resume task (w_service c)) as [r service']. by rewrite section_done_shape.
Qed.

(** A section of a call of the loop. *)
Lemma own_section_ok own own' c w :
  let run := c (w_service (lw_chain w)) in
  world_inv (rep:=rep) (signer_inv:=signer_inv) anchor vs (section_done (with_own own (lw_chain w)) run) -> tracked run.2 -> loop_ok own' w ->
  exists w', own_section c w = (run.1, w') /\ returned run.1 /\ loop_ok (new_tasks run.1 ++ own) w' /\
    w' = set_chain (lw_chain w') w /\ clock w' = s_time run.2.1.
Proof.
  intros run Hw Htr Hl. unfold own_section. fold run. destruct run as [r service]. cbn [fst snd].
  rewrite section_done_shape in Hw. cbn [with_own w_tasks w_results] in Hw. eexists. split; [reflexivity|]. split_and!; [| |done|done].
  - destruct r as [?| | |]; try done; unfold world_inv in Hw; cbn [w_service w_results] in Hw; destruct service as [? []];
      destruct Hw as (_ & _ & _ & Hres & _); apply Forall_app in Hres as [_ Hres]; by inversion Hres.
  - destruct Hl as [_ _ Hg Hb Hv]. split; try done. unfold with_own. cbn. eapply world_inv_tasks; [|exact Hw].
    by rewrite <- app_assoc, (Permutation_app_comm own).
Qed.

(** What a call does to the clock. *)
Definition clock_after (call : ServiceCall) (time : N) : N := if is_tick call then N.min (time + 1) u64_max else time.

(** The loop has made a call: it and the time are recorded. *)
Record calls (call : ServiceCall) (w w' : LW) : Prop := {
  cl_clock : clock w' = clock_after call (clock w);
  cl_calls : lw_calls w' = lw_calls w ++ [(clock w, call)];
  cl_failures : lw_failures w' = lw_failures w;
  cl_importing : gr_importing (lw_gossip w') = gr_importing (lw_gossip w);
  cl_blocks : (length (block_queue w') + traffic (lw_env w') <= length (block_queue w) + traffic (lw_env w))%nat;
  cl_votes : (length (vote_queue w') + traffic (lw_env w') <= length (vote_queue w) + traffic (lw_env w))%nat;
}.

Lemma calls_waits call w1 w2 w3 : calls call w1 w2 -> waits w2 w3 -> calls call w1 w3.
Proof. intros [] []. split; try congruence; lia. Qed.

Lemma waits_calls call w1 w2 w3 : waits w1 w2 -> calls call w2 w3 -> calls call w1 w3.
Proof. intros [] []. split; try congruence; lia. Qed.

Lemma loop_ok_time own w : loop_ok own w -> u64_ok (clock w).
Proof.
  intros [Hw _ _ _ _]. unfold world_inv, with_own in Hw. cbn [w_service] in Hw. unfold clock. destruct (w_service (lw_chain w)) as [engine [t s]].
  destruct Hw as ([Hi _] & _). apply (si_time _ _ _ Hi).
Qed.

Lemma start_own_ok own call w : loop_ok own w -> service_call_wf call ->
  exists r w', start_own verifier call w = (r, w') /\ returned r /\ loop_ok (new_tasks r ++ own) w' /\ calls call w w' /\
    r = (service_start verifier call (w_service (lw_chain w))).1.
Proof.
  intros Hl Hwf. unfold start_own. cbn [mmodify mbind]. set (w0 := add_call call w).
  pose proof (service_step_inv verifier anchor vs _ (Start call) (lo_world _ _ Hl) Hwf) as Hi. cbn [service_step] in Hi.
  assert (Hl0 : loop_ok own w0) by (destruct Hl; by split).
  pose proof (start_tracked _ call (lo_world _ _ Hl) Hwf (lo_anchor _ _ Hl)) as Htr.
  destruct (own_section_ok own own (service_start verifier call) w0 Hi Htr Hl0) as (w' & E & Hr & Hl' & Hw & Hc).
  eexists _, w'. split; [exact E|]. split_and!; [done|done| |done].
  rewrite Hw. split; try done; cbn.
  pose proof (loop_ok_time _ _ Hl) as Ht. unfold clock_after. rewrite <- Hw, Hc. destruct call; cbn [is_tick];
    try (by apply service_start_time). by apply service_tick_time.
Qed.

Lemma resume_own_ok own task w : loop_ok (task :: own) w ->
  exists r w', own_section (service_resume task) w = (r, w') /\ returned r /\ loop_ok (new_tasks r ++ own) w' /\ waits w w' /\
    r = (service_resume task (w_service (lw_chain w))).1.
Proof.
  intros Hl. set (n := length (w_tasks (lw_chain w))).
  pose proof (service_step_inv verifier anchor vs _ (Resume n) (lo_world _ _ Hl) I) as Hi. cbn [service_step with_own w_tasks w_service w_results] in Hi.
  rewrite (list_lookup_middle (w_tasks (lw_chain w)) own task n eq_refl) in Hi. unfold n in Hi. rewrite delete_middle in Hi.
  assert (Hin : task ∈ w_tasks (with_own (task :: own) (lw_chain w))) by (cbn; apply elem_of_app; right; by constructor).
  pose proof (resume_tracked _ task (lo_world _ _ Hl) Hin (lo_anchor _ _ Hl)) as Htr.
  destruct (own_section_ok own (task :: own) (service_resume task) w Hi Htr Hl) as (w' & E & Hr & Hl' & Hw & Hc).
  eexists _, w'. split; [exact E|]. split_and!; [done|done| |done].
  rewrite Hw. split; try done; cbn. rewrite <- Hw, Hc. apply service_resume_time.
Qed.

(** *** Waiting *)

Lemma other_step_ok own w step : loop_ok own w -> other_wf step ->
  loop_ok own (other_step verifier w step) /\ clock (other_step verifier w step) = clock w /\
  lw_calls (other_step verifier w step) = lw_calls w /\ lw_failures (other_step verifier w step) = lw_failures w /\
  lw_env (other_step verifier w step) = lw_env w /\
  gr_importing (lw_gossip (other_step verifier w step)) = gr_importing (lw_gossip w) /\
  (length (block_queue (other_step verifier w step)) <= length (block_queue w) + (if is_route step then 1 else 0))%nat /\
  (length (vote_queue (other_step verifier w step)) <= length (vote_queue w) + (if is_route step then 1 else 0))%nat.
Proof.
  intros [Hw Htr Hg Hb Hv] Hs. destruct step as [step|msg|source msg]; cbn [other_step is_route].
  - assert (Hwf : step_wf step) by (destruct step; [exact (proj1 Hs)|done]).
    split_and!; [split; try done; [by apply other_chain_ok|by apply (other_chain_tracked own)]| |done|done|done|done|unfold block_queue; cbn; lia|unfold vote_queue; cbn; lia].
    unfold clock. cbn [set_chain lw_chain].
    destruct step as [call|i]; cbn [service_step].
    + destruct Hs as [_ Ht]. pose proof (service_start_time verifier call (w_service (lw_chain w)) Ht) as Hc.
      destruct (service_start verifier call _) as [r service']. by rewrite section_done_shape.
    + destruct (w_tasks (lw_chain w) !! i) as [task|]; [|done].
      pose proof (service_resume_time task (w_service (lw_chain w))) as Hc. destruct (service_resume task _) as [r service'].
      by rewrite section_done_shape.
  - destruct (gossip_event_ok (MessageIdOf msg) (lw_gossip w) Hg) as (g' & E & Hg').
    assert (Hsame : gr_importing g' = gr_importing (lw_gossip w) /\ gi_blocks (gr_ingress g') = gi_blocks (gr_ingress (lw_gossip w)) /\
      gi_votes (gr_ingress g') = gi_votes (gr_ingress (lw_gossip w))).
    { cbn in E. destruct (gossipsub_message_id msg _). by simplify_eq. }
    destruct Hsame as (Hi & Hbq & Hvq). rewrite E. unfold block_queue, vote_queue in *. cbn. rewrite Hi, Hbq, Hvq.
    split_and!; try done; try lia. split; try done; unfold block_queue, vote_queue; cbn; by rewrite ?Hbq, ?Hvq.
  - destruct (gossip_event_ok (Route source msg) (lw_gossip w) Hg) as (g' & E & Hg').
    destruct (route_extends source (message_id msg) msg (gr_ingress (lw_gossip w))) as [(nb & Hbq & Hbw & Hbl) (nv & Hvq & Hvw & Hvl)].
    assert (Hsame : gr_importing g' = gr_importing (lw_gossip w) /\ gr_ingress g' = (route_gossipsub_message source (message_id msg) msg (gr_ingress (lw_gossip w))).2).
    { cbn in E. destruct (route_gossipsub_message source (message_id msg) msg _). by simplify_eq. }
    destruct Hsame as (Hi & Hin). rewrite E. unfold block_queue, vote_queue in *. cbn. rewrite Hi, Hin, Hbq, Hvq, !length_app.
    split_and!; try done; try lia. split; try done; unfold block_queue, vote_queue; cbn; rewrite Hin, ?Hbq, ?Hvq; by apply Forall_app.
Qed.

Lemma other_steps_ok own steps : forall w, loop_ok own w -> Forall other_wf steps ->
  let w' := fold_left (other_step verifier) steps w in
  loop_ok own w' /\ clock w' = clock w /\ lw_calls w' = lw_calls w /\ lw_failures w' = lw_failures w /\ lw_env w' = lw_env w /\
  gr_importing (lw_gossip w') = gr_importing (lw_gossip w) /\
  (length (block_queue w') <= length (block_queue w) + routes steps)%nat /\ (length (vote_queue w') <= length (vote_queue w) + routes steps)%nat.
Proof.
  induction steps as [|step steps IH]; intros w Hl Hs; cbn zeta; [cbn; split_and!; try done; lia|]. inversion Hs as [|? ? Hst Hss]; subst.
  destruct (other_step_ok own w step Hl Hst) as (Hl1 & ? & ? & ? & ? & ? & ? & ?). destruct (IH _ Hl1 Hss) as (? & ? & ? & ? & ? & ? & ? & ?).
  cbn [fold_left]. unfold routes in *. cbn [List.filter]. destruct (is_route step); cbn [length]; split_and!; try done; try congruence; lia.
Qed.

Lemma yield_ok {E} own w : loop_ok own w -> exists w', yield (E:=E) verifier w = (Ok tt, w') /\ loop_ok own w' /\ waits w w'.
Proof.
  intros Hl. unfold yield. pose proof (others_wf (lw_env w)) as Hwf. pose proof (others_traffic (lw_env w)) as Ht.
  destruct (others (lw_env w)) as [steps x]. cbn [fst snd] in *.
  assert (Hl0 : loop_ok own (set_env x w)) by (destruct Hl; by split).
  destruct (other_steps_ok own steps _ Hl0 Hwf) as (Hl' & Hc & Hk & Hf & He & Hi & Hb & Hv). eexists. split; [reflexivity|].
  split; [done|]. split; try done; rewrite He; cbn in *; unfold block_queue, vote_queue in *; cbn in *; lia.
Qed.

(** *** Whole calls *)

(** The sections a call has left. *)
Definition task_left (task : Task) : nat :=
  match task with
  | SignProposal _ _ _ => 3
  | ReimportProposal _ _ _ _ | SignVote _ => 2
  | PersistAccepted _ _ | PersistProduced _ | ReimportVote _ _ => 1
  end.

Inductive TaskKind := KindImport | KindProposal | KindVote.
Definition task_kind (task : Task) : TaskKind :=
  match task with
  | PersistAccepted _ _ => KindImport
  | SignProposal _ _ _ | ReimportProposal _ _ _ _ | PersistProduced _ => KindProposal
  | SignVote _ | ReimportVote _ _ => KindVote
  end.

Definition call_kind (call : ServiceCall) : option TaskKind :=
  match call with
  | ImportBlock _ | ImportBlockSynced _ => Some KindImport
  | ProduceBlock _ _ => Some KindProposal
  | ProduceAttestation _ _ => Some KindVote
  | ImportAttestation _ | TickInterval _ => None
  end.

Lemma start_kind call s next : (service_start (T:=T) (S:=S) verifier call s).1 = Ok next ->
  task_kind <$> next = call_kind call /\ from_option task_left 0%nat next = match call_kind call with Some KindProposal => 3 | Some KindVote => 2 | Some KindImport => 1 | None => 0 end%nat.
Proof.
  destruct call; cbn [service_start]; unfold mbind.
  - destruct (on_engine infallible _ s) as [[[outcome plan]| | |] s']; by intros [= <-].
  - destruct (on_engine infallible _ s) as [[[outcome plan]| | |] s']; by intros [= <-].
  - destruct (service_import_attestation _ s) as [[]s']; by intros [= <-].
  - destruct (service_tick_interval _ s) as [[]s']; by intros [= <-].
  - destruct (produce_unsigned _ _ s) as [[[prod inputs]| | |] s']; by intros [= <-].
  - destruct (on_engine ChainEngine _ s) as [[]s']; by intros [= <-].
Qed.

Lemma resume_kind task s next : (service_resume (T:=T) (S:=S) task s).1 = Ok next ->
  task_left task = Datatypes.S (from_option task_left 0%nat next) /\ forall task', next = Some task' -> task_kind task' = task_kind task.
Proof.
  destruct task; cbn [service_resume]; unfold mbind.
  - destruct (persist_accepted _ _ s) as [[]s']; by intros [= <-].
  - destruct (sign_own _ s) as [[]s']; intros [= <-]. split; [done|]. by intros _ [= <-].
  - destruct (reimport_own _ _ s) as [[]s']; intros [= <-]. split; [done|]. by intros _ [= <-].
  - destruct (persist_plan _ s) as [[]s']; by intros [= <-].
  - destruct (sign_own _ s) as [[]s']; intros [= <-]. split; [done|]. by intros _ [= <-].
  - destruct (reimport_own _ _ s) as [[]s']; by intros [= <-].
Qed.

Lemma loop_ok_task own task w : loop_ok (task :: own) w -> exists engine, task_ok engine task.
Proof.
  intros [Hw _ _ _ _]. unfold world_inv, with_own in Hw. cbn [w_service w_tasks] in Hw. destruct (w_service (lw_chain w)) as [engine [t s]].
  destruct Hw as (_ & _ & Ht & _). exists engine. apply Forall_app in Ht as [_ Ht]. by inversion Ht.
Qed.

(** The last section of a call of a kind. *)
Definition last_of (kind : TaskKind) (last : option Task) : Prop :=
  exists task engine, last = Some task /\ task_kind task = kind /\ task_left task = 1%nat /\ task_ok engine task.

Lemma finish_own_ok own fuel : forall last task w, (task_left task <= fuel)%nat -> loop_ok (task :: own) w ->
  exists r w', finish_own verifier fuel last (Some task) w = (r, w') /\ returned r /\ loop_ok own w' /\ waits w w' /\
    forall l, r = Ok l -> last_of (task_kind task) l.
Proof.
  induction fuel as [|fuel IH]; intros last task w Hf Hl; [destruct task; cbn in Hf; lia|]. cbn [finish_own].
  destruct (yield_ok (E:=ChainError (ls:=ls)) _ _ Hl) as (w1 & E1 & Hl1 & W1). rewrite (mbind_Ok _ _ _ _ _ E1).
  destruct (loop_ok_task _ _ _ Hl1) as [engine Hok].
  destruct (resume_own_ok own task w1 Hl1) as (r & w2 & E2 & Hr & Hl2 & W2 & Hres).
  destruct r as [next|e| |]; try done.
  - rewrite (mbind_Ok _ _ _ _ _ E2). destruct (resume_kind task _ _ (eq_sym Hres)) as [Hleft Hkind]. destruct next as [task'|].
    + cbn [from_option] in Hleft. destruct (IH (Some task) task' w2) as (r & w3 & E3 & Hr3 & Hl3 & W3 & Hk); [lia|exact Hl2|].
      exists r, w3. split_and!; [exact E3|done|done|by etrans; [exact W1|etrans]|]. by rewrite <- (Hkind task' eq_refl).
    + exists (Ok (Some task)), w2. split_and!; [by destruct fuel|done|exact Hl2|by etrans|]. intros _ [= <-]. by exists task, engine.
  - exists (Err e), w2. rewrite (mbind_Err _ _ _ _ _ E2). split_and!; [done|done|exact Hl2|by etrans|done].
Qed.

Lemma own_call_ok own call w : loop_ok own w -> service_call_wf call ->
  exists r w', own_call verifier call w = (r, w') /\ returned r /\ loop_ok own w' /\ calls call w w' /\
    forall l kind, r = Ok l -> call_kind call = Some kind -> last_of kind l.
Proof.
  intros Hl Hwf. unfold own_call. destruct (yield_ok (E:=ChainError (ls:=ls)) _ _ Hl) as (w1 & E1 & Hl1 & W1). rewrite (mbind_Ok _ _ _ _ _ E1).
  destruct (start_own_ok own call w1 Hl1 Hwf) as (r & w2 & E2 & Hr & Hl2 & C2 & Hres).
  pose proof (waits_calls _ _ _ _ W1 C2) as C. destruct r as [next|e| |]; try done.
  - rewrite (mbind_Ok _ _ _ _ _ E2). destruct (start_kind call _ _ (eq_sym Hres)) as [Hkind Hleft]. destruct next as [task|].
    + destruct (finish_own_ok own 3 None task w2) as (r & w3 & E3 & Hr3 & Hl3 & W3 & Hk); [destruct task; cbn; lia|exact Hl2|].
      exists r, w3. split_and!; [exact E3|done|done|by eapply calls_waits|]. intros l kind Hlr Hc. cbn in Hkind. rewrite Hc in Hkind.
      injection Hkind as <-. by apply Hk.
    + exists (Ok None), w2. split_and!; [done|done|exact Hl2|done|]. intros l kind _ Hc. cbn in Hkind. by rewrite Hc in Hkind.
  - exists (Err e), w2. rewrite (mbind_Err _ _ _ _ _ E2). by split_and!.
Qed.

(** *** What the loop does *)

(** Calls made one after the other, each at the time the engine then has. *)
Fixpoint timed (t : N) (made : list (N * ServiceCall)) (t' : N) : Prop :=
  match made with
  | [] => t' = t
  | (at_time, call) :: made => at_time = t /\ timed (clock_after call t) made t'
  end.

Lemma timed_app t made t1 made' t' : timed t made t1 -> timed t1 made' t' -> timed t (made ++ made') t'.
Proof. revert t. induction made as [|[a call] made IH]; intros t; cbn; [by intros ->|]. intros [-> H] H'. by split; [|apply IH]. Qed.

Record progress (made : list (N * ServiceCall)) (w w' : LW) : Prop := {
  pr_calls : lw_calls w' = lw_calls w ++ made;
  pr_timed : timed (clock w) made (clock w');
  pr_importing : gr_importing (lw_gossip w') = gr_importing (lw_gossip w);
  pr_blocks : (length (block_queue w') + traffic (lw_env w') <= length (block_queue w) + traffic (lw_env w))%nat;
  pr_votes : (length (vote_queue w') + traffic (lw_env w') <= length (vote_queue w) + traffic (lw_env w))%nat;
}.

Lemma progress_trans made made' w1 w2 w3 : progress made w1 w2 -> progress made' w2 w3 -> progress (made ++ made') w1 w3.
Proof.
  intros [] []. split; [|by eapply timed_app|congruence|lia|lia]. rewrite app_assoc. congruence.
Qed.

Lemma waits_progress w w' : waits w w' -> progress [] w w'.
Proof. intros []. split; try done. by rewrite app_nil_r. Qed.

Lemma calls_progress call w w' : calls call w w' -> progress [(clock w, call)] w w'.
Proof. intros []. by split. Qed.

Lemma catch_ok {E A} (c : M LW E A) w r w' : c w = (r, w') -> returned r -> exists x, catch c w = (Ok x, w') /\
  (forall a, x = inl a <-> r = Ok a) /\ (forall e, x = inr e <-> r = Err e).
Proof. intros E0 Hr. unfold catch. rewrite E0. destruct r; try done; eexists; (split; [reflexivity|]); split; naive_solver. Qed.

Lemma on_env_ok {A} (f : X -> A * X) own w : loop_ok own w -> (traffic (f (lw_env w)).2 <= traffic (lw_env w))%nat ->
  exists w', on_env (E:=Empty_set) f w = (Ok (f (lw_env w)).1, w') /\ loop_ok own w' /\ waits w w'.
Proof.
  intros Hl Ht. unfold on_env. destruct (f (lw_env w)) as [a x]. eexists. split; [reflexivity|].
  split; [destruct Hl; by split|]. split; try done; unfold block_queue, vote_queue in *; cbn in *; lia.
Qed.

(** *** Gossip *)

Definition is_import (call : ServiceCall) : bool :=
  match call with ImportBlock _ | ImportAttestation _ => true | _ => false end.

(** A message is taken out of its channel and its guard is held. *)
Lemma take_block_ok w permit block q : loop_ok [] w -> block_queue w = (permit, block) :: q ->
  let w1 := set_gossip (gossip_event TakeBlock (lw_gossip w)).2 w in
  loop_ok [] w1 /\ ssz_wf block /\ gr_importing (lw_gossip w1) = permit :: gr_importing (lw_gossip w) /\
  length (block_queue w) = Datatypes.S (length (block_queue w1)) /\ vote_queue w1 = vote_queue w.
Proof.
  intros [Hw Htr Hg Hb Hv] Hq w1. destruct (gossip_event_ok TakeBlock (lw_gossip w) Hg) as (g' & E & Hg').
  assert (Hg1 : lw_gossip w1 = g') by (unfold w1; by rewrite E). unfold block_queue, vote_queue in *. rewrite Hg1, Hq.
  cbn in E. rewrite Hq in E. injection E as <-. rewrite Hq in Hb. inversion Hb as [|? ? Hwf Hq']; subst.
  split_and!; try done. split; unfold block_queue, vote_queue; rewrite ?Hg1; done.
Qed.

Lemma take_vote_ok w permit vote q : loop_ok [] w -> vote_queue w = (permit, vote) :: q ->
  let w1 := set_gossip (gossip_event TakeVote (lw_gossip w)).2 w in
  loop_ok [] w1 /\ ssz_wf vote /\ gr_importing (lw_gossip w1) = permit :: gr_importing (lw_gossip w) /\
  length (vote_queue w) = Datatypes.S (length (vote_queue w1)) /\ block_queue w1 = block_queue w.
Proof.
  intros [Hw Htr Hg Hb Hv] Hq w1. destruct (gossip_event_ok TakeVote (lw_gossip w) Hg) as (g' & E & Hg').
  assert (Hg1 : lw_gossip w1 = g') by (unfold w1; by rewrite E). unfold block_queue, vote_queue in *. rewrite Hg1, Hq.
  cbn in E. rewrite Hq in E. injection E as <-. rewrite Hq in Hv. inversion Hv as [|? ? Hwf Hq']; subst.
  split_and!; try done. split; unfold block_queue, vote_queue; rewrite ?Hg1; done.
Qed.

(** The guard is dropped. *)
Lemma drop_admit_ok w permit rest : loop_ok [] w -> gr_importing (lw_gossip w) = permit :: rest ->
  exists w', drop_admit w = (Ok tt, w') /\ loop_ok [] w' /\ lw_calls w' = lw_calls w /\ clock w' = clock w /\ lw_env w' = lw_env w /\
    gr_importing (lw_gossip w') = rest /\ block_queue w' = block_queue w /\ vote_queue w' = vote_queue w.
Proof.
  intros [Hw Htr Hg Hb Hv] Hi. destruct (gossip_event_ok (ImportDone 0) (lw_gossip w) Hg) as (g' & E & Hg').
  unfold drop_admit, mmodify. rewrite E. eexists. split; [reflexivity|]. cbn in E. rewrite Hi in E. cbn in E. injection E as <-.
  by split_and!.
Qed.

Lemma drain_blocks_ok fuel : forall w, loop_ok [] w -> (length (block_queue w) + traffic (lw_env w) <= fuel)%nat ->
  exists made w', drain_blocks verifier fuel w = (Ok tt, w') /\ loop_ok [] w' /\ progress made w w' /\ Forall (fun c => is_import c.2) made.
Proof.
  induction fuel as [|fuel IH]; intros w Hl Hf.
  { exists [], w. cbn [drain_blocks]. fold (block_queue w). destruct (block_queue w); [|cbn in Hf; lia].
    split_and!; [done|done|by apply waits_progress|done]. }
  cbn [drain_blocks]. fold (block_queue w). destruct (block_queue w) as [|[permit block] q] eqn:Hq.
  { exists [], w. split_and!; [done|done|by apply waits_progress|done]. }
  rewrite <- Hq in Hf. destruct (take_block_ok w permit block q Hl Hq) as (Hl1 & Hwf & Hi1 & Hq1 & Hv1).
  cbn [mmodify mbind]. set (w1 := set_gossip _ w) in *.
  destruct (own_call_ok [] (ImportBlock block) w1 Hl1 Hwf) as (r & w2 & E2 & Hr & Hl2 & C2 & _).
  destruct (catch_ok _ _ _ _ E2 Hr) as (x & E2' & _). erewrite mbind_Ok by exact E2'.
  destruct (drop_admit_ok w2 permit (gr_importing (lw_gossip w)) Hl2) as (w3 & E3 & Hl3 & Hc3 & Ht3 & He3 & Hi3 & Hb3 & Hv3).
  { by rewrite (cl_importing _ _ _ C2). }
  erewrite mbind_Ok by exact E3.
  assert (P3 : progress [(clock w, ImportBlock block)] w w3).
  { destruct C2 as [K1 K2 _ K4 K5 K6]. split; [by rewrite Hc3, K2|cbn; rewrite Ht3, K1; by split|done| |];
      rewrite ?Hb3, ?Hv3, He3; change (lw_env w1) with (lw_env w) in *; rewrite ?Hv1 in *; lia. }
  destruct (IH w3 Hl3) as (made & w4 & E4 & Hl4 & P4 & Hm).
  { destruct C2 as [_ _ _ _ K5 _]. rewrite Hb3, He3. change (lw_env w1) with (lw_env w) in K5. lia. }
  exists ([(clock w, ImportBlock block)] ++ made), w4. split_and!; [exact E4|done|by eapply progress_trans|]. by constructor.
Qed.

Lemma drain_votes_ok fuel : forall w, loop_ok [] w -> (length (vote_queue w) + traffic (lw_env w) <= fuel)%nat ->
  exists made w', drain_votes verifier fuel w = (Ok tt, w') /\ loop_ok [] w' /\ progress made w w' /\ Forall (fun c => is_import c.2) made.
Proof.
  induction fuel as [|fuel IH]; intros w Hl Hf.
  { exists [], w. cbn [drain_votes]. fold (vote_queue w). destruct (vote_queue w); [|cbn in Hf; lia].
    split_and!; [done|done|by apply waits_progress|done]. }
  cbn [drain_votes]. fold (vote_queue w). destruct (vote_queue w) as [|[permit vote] q] eqn:Hq.
  { exists [], w. split_and!; [done|done|by apply waits_progress|done]. }
  rewrite <- Hq in Hf. destruct (take_vote_ok w permit vote q Hl Hq) as (Hl1 & Hwf & Hi1 & Hq1 & Hb1).
  cbn [mmodify mbind]. set (w1 := set_gossip _ w) in *.
  destruct (own_call_ok [] (ImportAttestation vote) w1 Hl1 Hwf) as (r & w2 & E2 & Hr & Hl2 & C2 & _).
  destruct (catch_ok _ _ _ _ E2 Hr) as (x & E2' & _). erewrite mbind_Ok by exact E2'.
  destruct (drop_admit_ok w2 permit (gr_importing (lw_gossip w)) Hl2) as (w3 & E3 & Hl3 & Hc3 & Ht3 & He3 & Hi3 & Hb3 & Hv3).
  { by rewrite (cl_importing _ _ _ C2). }
  erewrite mbind_Ok by exact E3.
  assert (P3 : progress [(clock w, ImportAttestation vote)] w w3).
  { destruct C2 as [K1 K2 _ K4 K5 K6]. split; [by rewrite Hc3, K2|cbn; rewrite Ht3, K1; by split|done| |];
      rewrite ?Hb3, ?Hv3, He3; change (lw_env w1) with (lw_env w) in *; rewrite ?Hb1 in *; lia. }
  destruct (IH w3 Hl3) as (made & w4 & E4 & Hl4 & P4 & Hm).
  { destruct C2 as [_ _ _ _ _ K6]. rewrite Hv3, He3. change (lw_env w1) with (lw_env w) in K6. lia. }
  exists ([(clock w, ImportAttestation vote)] ++ made), w4. split_and!; [exact E4|done|by eapply progress_trans|]. by constructor.
Qed.

Lemma drain_gossip_ok w : loop_ok [] w ->
  exists made w', drain_gossip verifier w = (Ok tt, w') /\ loop_ok [] w' /\ progress made w w' /\ Forall (fun c => is_import c.2) made.
Proof.
  intros Hl. unfold drain_gossip.
  destruct (drain_blocks_ok (length (block_queue w) + traffic (lw_env w)) w Hl) as (m1 & w1 & E1 & Hl1 & P1 & M1); [lia|].
  destruct (drain_votes_ok (length (vote_queue w1) + traffic (lw_env w1)) w1 Hl1) as (m2 & w2 & E2 & Hl2 & P2 & M2); [lia|].
  exists (m1 ++ m2), w2. split_and!; [|done|by eapply progress_trans|by apply Forall_app].
  erewrite mbind_Ok by exact E1. exact E2.
Qed.

(** *** Publishing *)

Context {snap_laws : SnapLaws snap}.

Lemma publish_ok {A} {He : Encode A} {Hd : Decode A} {Hw : SszWf A} {Hc : SszCodec A} own topic (value : A) w : loop_ok own w -> ssz_wf value -> len (encode value) <= u32_max ->
  exists r w', running_host (publish topic value) w = (r, w') /\ returned r /\ loop_ok own w' /\ waits w w'.
Proof.
  intros Hl Hwf Hlen. unfold running_host. destruct (host_up (lw_env w)); [|by exists (Err HostNotRunning), w]. unfold publish.
  unfold encode_gossip, encode_gossip_data. destruct (compress_law (encode value) Hlen) as (data & -> & _).
  pose proof (publish_traffic topic data (lw_env w)) as Ht. destruct (publish_raw topic data (lw_env w)) as [err x].
  eexists _, _. split; [reflexivity|]. split_and!; [by destruct err|destruct Hl; by split|].
  split; try done; unfold block_queue, vote_queue in *; cbn in *; lia.
Qed.

Lemma block_size (b : SignedBlockWithAttestation) : ssz_wf b -> len (encode b) <= u32_max.
Proof.
  intros Hwf. rewrite sc_len by done. destruct Hwf as [[(_ & _ & Hbody) _] Hsig]. pose proof (BlockBody_bytes_len_bound _ Hbody) as Hb.
  cbn [ssz_bytes_len SignedBlockWithAttestation_Encode BlockWithAttestation_Encode Block_Encode BlockSignatures_Encode].
  change (len (bs_signatures (sb_signature b)) <= 4096) in Hsig. set (body := ssz_bytes_len _) in *. clearbody body.
  unfold u32_max. change SIGNATURE_LEN with 3116. size_lia.
Qed.

Lemma vote_size (v : SignedAttestation) : ssz_wf v -> len (encode v) <= u32_max.
Proof. intros Hwf. rewrite sc_len by done. by vm_compute. Qed.

(** *** Proposing *)

(** The validators a node runs have indices of 64 bits. *)
Definition proposers_ok (proposers : LocalProposers) : Prop := forall v, is_Some (lp_local proposers !! v) -> u64_ok v.

Lemma proposer_local proposers slot v : proposer_for_slot proposers slot = Some v -> is_Some (lp_local proposers !! v).
Proof. unfold proposer_for_slot. destruct (_ =? 0); [done|]. case_bool_decide; [|done]. by intros [= <-]. Qed.

Lemma produce_ok slot v w : loop_ok [] w -> u64_ok slot -> u64_ok v ->
  exists r w', loop_produce_block verifier slot v w = (r, w') /\ returned r /\ loop_ok [] w' /\ calls (ProduceBlock slot v) w w' /\
    forall block, r = Ok block -> ssz_wf block.
Proof.
  intros Hl Hs Hv. unfold loop_produce_block.
  destruct (own_call_ok [] (ProduceBlock slot v) w Hl (conj Hs Hv)) as (r & w' & E & Hr & Hl' & C & Hlast).
  destruct r as [last|e| |]; try done.
  - rewrite (mbind_Ok _ _ _ _ _ E). destruct (Hlast last KindProposal eq_refl eq_refl) as (task & engine & -> & Hk & H1 & Hok).
    destruct task; try done. exists (Ok (pp_block plan)), w'. split_and!; try done. intros _ [= <-]. apply (po_wf _ _ Hok).
  - exists (Err e), w'. rewrite (mbind_Err _ _ _ _ _ E). by split_and!.
Qed.

Lemma maybe_propose_ok proposers slot w : proposers_ok proposers -> loop_ok [] w -> u64_ok slot ->
  exists produced w', maybe_propose verifier proposers slot w = (Ok produced, w') /\ loop_ok [] w' /\
    progress (match proposer_for_slot proposers slot with Some v => [(clock w, ProduceBlock slot v)] | None => [] end) w w'.
Proof.
  intros Hp Hl Hs. unfold maybe_propose. destruct (proposer_for_slot proposers slot) as [v|] eqn:Hv.
  2:{ exists false, w. split_and!; [done|done|by apply waits_progress]. }
  destruct (produce_ok slot v w Hl Hs) as (r & w1 & E1 & Hr & Hl1 & C1 & Hwf); [by eapply Hp, proposer_local|].
  destruct (catch_ok _ _ _ _ E1 Hr) as (x & E1' & Hx & _). erewrite mbind_Ok by exact E1'. pose proof (calls_progress _ _ _ C1) as P1.
  assert (Hfail : forall n w2, loop_ok [] w2 -> loop_ok [] (set_failures n w2) /\ forall made w0, progress made w0 w2 -> progress made w0 (set_failures n w2)).
  { intros n w2 []. split; [by split|]. intros made w0 []. by split. }
  destruct x as [block|e].
  - pose proof (Hwf block (proj1 (Hx block) eq_refl)) as Hb.
    destruct (publish_ok [] BLOCK_TOPIC_V1 block w1 Hl1 Hb (block_size block Hb)) as (r2 & w2 & E2 & Hr2 & Hl2 & W2).
    destruct (catch_ok _ _ _ _ E2 Hr2) as (y & E2' & _). erewrite mbind_Ok by exact E2'.
    unfold on_health, mmodify, mbind. eexists _, _. split; [reflexivity|]. split; [by apply Hfail|]. apply Hfail; [done|].
    rewrite <- (app_nil_r [_]). eapply progress_trans; [exact P1|by apply waits_progress].
  - unfold on_health, mmodify, mbind. eexists _, _. split; [reflexivity|]. split; [by apply Hfail|]. by apply Hfail.
Qed.

(** *** Attesting *)

Definition stage_left (stage : AttestStage (ls:=ls)) : nat :=
  match stage with AttestStart => 4 | AttestTask task => Datatypes.S (task_left task) | AttestPublish _ => 1 end.
Definition stage_ok (stage : AttestStage (ls:=ls)) : Prop :=
  match stage with AttestStart => True | AttestTask task => task_kind task = KindVote | AttestPublish vote => ssz_wf vote end.

Definition duties_left (duties : list (ValidatorIndex * AttestStage (ls:=ls))) : nat := sum_list_with (fun d => stage_left d.2) duties.
Definition duties_tasks (duties : list (ValidatorIndex * AttestStage (ls:=ls))) : list Task :=
  omap (fun d => match d.2 with AttestTask task => Some task | _ => None end) duties.
(** The attesters that have not been asked yet. *)
Definition unasked (duties : list (ValidatorIndex * AttestStage (ls:=ls))) : list ValidatorIndex :=
  omap (fun d => match d.2 with AttestStart => Some d.1 | _ => None end) duties.

Lemma loop_ok_own own own' w : own ≡ₚ own' -> loop_ok own w -> loop_ok own' w.
Proof. intros Hp []. split; try done. eapply world_inv_tasks; [|done]. by rewrite Hp. Qed.

(** A vote that is given up leaves nothing to be stored. *)
Lemma loop_ok_drop task own w : task_kind task = KindVote -> loop_ok (task :: own) w -> loop_ok own w.
Proof.
  intros Hk [Hw ? ? ? ?]. split; try done. unfold world_inv, with_own in *. cbn [w_service w_tasks w_results] in *.
  destruct (w_service (lw_chain w)) as [engine [t s]]. destruct Hw as (Hok & Ht & Htasks & Hres & c & Hrep & Hdb & Hcov).
  apply Forall_app in Htasks as [Ht1 Ht2]. inversion Ht2; subst. split_and!; try done; [by apply Forall_app|].
  exists c. split_and!; try done. intros Hall root Hs. destruct (Hcov Hall root Hs) as [|(task' & Hin & Hr)]; [by left|right].
  exists task'. split; [|done]. apply elem_of_app in Hin as [|Hin]; [apply elem_of_app; by left|].
  apply elem_of_cons in Hin as [->|]; [destruct task; try done; by apply elem_of_nil in Hr|apply elem_of_app; by right].
Qed.

Lemma loop_ok_abandon duties w : Forall (fun d => stage_ok d.2) duties -> loop_ok (duties_tasks duties) w -> loop_ok [] w.
Proof.
  induction duties as [|[v stage] duties IH]; [done|]. intros Hs Hl. inversion Hs as [|? ? Hst Hss]; subst. apply IH; [done|].
  destruct stage; try done. by apply (loop_ok_drop task).
Qed.

(** One poll of a future; its task is the head of those under way. *)
Lemma attest_poll_ok own slot v stage w : stage_ok stage -> u64_ok slot -> u64_ok v ->
  loop_ok (duties_tasks [(v, stage)] ++ own) w ->
  exists r w', attest_poll verifier slot v stage w = (r, w') /\ returned r /\
    progress (match stage with AttestStart => [(clock w, ProduceAttestation slot v)] | _ => [] end) w w' /\
    match r with
    | Ok (Some stage') => stage_ok stage' /\ stage' <> AttestStart /\ (stage_left stage' < stage_left stage)%nat /\
                          loop_ok (duties_tasks [(v, stage')] ++ own) w'
    | _ => loop_ok own w'
    end.
Proof.
  intros Hst Hs Hv Hl. destruct stage as [|task|vote]; cbn [attest_poll duties_tasks omap list_omap app snd] in *.
  - destruct (start_own_ok own (ProduceAttestation slot v) w Hl (conj Hs Hv)) as (r & w1 & E & Hr & Hl1 & C & Hres).
    pose proof (calls_progress _ _ _ C) as P. unfold mbind. rewrite E. destruct r as [next|e| |]; try done; cbn [omap_err].
    + destruct (start_kind _ _ _ (eq_sym Hres)) as [Hk Hleft]. destruct next as [task|]; [|done]. cbn [fmap option_fmap option_map call_kind from_option] in Hk, Hleft. injection Hk as Hk.
      eexists _, w1. split; [reflexivity|]. split_and!; try done. cbn [fmap option_fmap option_map stage_left]. split_and!; try done. lia.
    + eexists _, w1. split; [reflexivity|]. by split_and!.
  - destruct (loop_ok_task _ _ _ Hl) as [engine Hok].
    destruct (resume_own_ok own task w Hl) as (r & w1 & E & Hr & Hl1 & W & Hres). pose proof (waits_progress _ _ W) as P.
    unfold mbind. rewrite E. destruct r as [next|e| |]; try done; cbn [omap_err].
    + destruct (resume_kind _ _ _ (eq_sym Hres)) as [Hleft Hk]. destruct next as [task'|].
      * eexists _, w1. split; [reflexivity|]. split_and!; try done; [cbn; by rewrite (Hk task' eq_refl)|]. cbn [stage_left from_option] in *. lia.
      * destruct task; try done. eexists _, w1. split; [reflexivity|]. split_and!; try done. cbn. lia.
    + eexists _, w1. split; [reflexivity|]. by split_and!.
  - change (ssz_wf vote) in Hst.
    destruct (publish_ok own VOTE_TOPIC_V1 vote w Hl Hst (vote_size vote Hst)) as (r & w1 & E & Hr & Hl1 & W).
    unfold publish_vote, mbind. rewrite E. pose proof (waits_progress _ _ W) as P.
    destruct r; try done; eexists _, w1; (split; [reflexivity|]); by split_and!.
Qed.

(** No cancellation and no future that runs out of time. *)
Definition undisturbed : Prop := forall x, (poll_cancelled x).1 = false /\ exists i, (choose x).1 = PollFuture i.

Lemma duty_split (duties : list (ValidatorIndex * AttestStage (ls:=ls))) i d : duties !! i = Some d ->
  duties ≡ₚ d :: delete i duties /\ forall d', <[i := d']> duties ≡ₚ d' :: delete i duties.
Proof.
  intros Hi. rewrite (delete_take_drop duties i). split.
  - rewrite <- (take_drop_middle duties i d Hi) at 1. by rewrite Permutation_middle.
  - intros d'. rewrite (insert_take_drop duties i d') by (by eapply lookup_lt_Some). by rewrite Permutation_middle.
Qed.

#[local] Instance duties_left_proper : Proper ((≡ₚ) ==> eq) duties_left.
Proof. intros d d' Hp. unfold duties_left. induction Hp; cbn in *; lia. Qed.
#[local] Instance duties_tasks_proper : Proper ((≡ₚ) ==> (≡ₚ)) duties_tasks.
Proof. intros d d' Hp. unfold duties_tasks. by rewrite Hp. Qed.
#[local] Instance unasked_proper : Proper ((≡ₚ) ==> (≡ₚ)) unasked.
Proof. intros d d' Hp. unfold unasked. by rewrite Hp. Qed.

Lemma duties_tasks_cons d duties : duties_tasks (d :: duties) = duties_tasks [d] ++ duties_tasks duties.
Proof. unfold duties_tasks. cbn. by destruct d as [v []]. Qed.
Lemma unasked_cons d duties : unasked (d :: duties) = unasked [d] ++ unasked duties.
Proof. unfold unasked. cbn. by destruct d as [v []]. Qed.

(** What a run of [attest_loop] with some fuel does. *)
Definition attests (slot : Slot) (fuel : nat) : Prop := forall duties w, (duties_left duties <= fuel)%nat ->
  Forall (fun d => stage_ok d.2 /\ u64_ok d.1) duties -> loop_ok (duties_tasks duties) w ->
  exists asked left w', attest_loop verifier fuel slot duties w = (Ok tt, w') /\ loop_ok [] w' /\
    progress ((fun v => (clock w, ProduceAttestation slot v)) <$> asked) w w' /\ asked ++ left ≡ₚ unasked duties /\ (undisturbed -> left = []).

(** The future at [i] is given up, or it has returned. *)
Lemma attest_expire slot fuel duties i d w : attests slot fuel -> duties !! i = Some d -> (duties_left duties <= Datatypes.S fuel)%nat ->
  Forall (fun d => stage_ok d.2 /\ u64_ok d.1) duties -> loop_ok (duties_tasks (delete i duties)) w ->
  exists asked left w', attest_loop verifier fuel slot (delete i duties) w = (Ok tt, w') /\ loop_ok [] w' /\
    progress ((fun v => (clock w, ProduceAttestation slot v)) <$> asked) w w' /\ asked ++ left ≡ₚ unasked (delete i duties) /\ (undisturbed -> left = []).
Proof.
  intros IH Hi Hf Hd Hl. destruct (duty_split duties i d Hi) as [Hp _]. apply IH; [|by apply Forall_delete|done].
  rewrite Hp in Hf. unfold duties_left in *. destruct d as [v []]; cbn in Hf; lia.
Qed.

(** The future at [i] is polled. *)
Lemma attest_polled slot fuel duties i v stage w : attests slot fuel -> u64_ok slot -> duties !! i = Some (v, stage) ->
  (duties_left duties <= Datatypes.S fuel)%nat -> Forall (fun d => stage_ok d.2 /\ u64_ok d.1) duties -> loop_ok (duties_tasks duties) w ->
  exists asked left w', (let! next := catch (attest_poll verifier slot v stage) in
      attest_loop verifier fuel slot (match next with inl (Some stage) => <[i := (v, stage)]> duties | _ => delete i duties end)) w = (Ok tt, w') /\
    loop_ok [] w' /\ progress ((fun v => (clock w, ProduceAttestation slot v)) <$> asked) w w' /\ asked ++ left ≡ₚ unasked duties /\
    (undisturbed -> left = []).
Proof.
  intros IH Hs Hi Hf Hd Hl. destruct (duty_split duties i _ Hi) as [Hp Hins]. pose proof (Forall_lookup_1 _ _ _ _ Hd Hi) as [Hst Hv].
  assert (Hl0 : loop_ok (duties_tasks [(v, stage)] ++ duties_tasks (delete i duties)) w).
  { eapply loop_ok_own; [|exact Hl]. rewrite Hp at 1. by rewrite duties_tasks_cons. }
  destruct (attest_poll_ok _ slot v stage w Hst Hs Hv Hl0) as (r & w1 & E & Hr & P & Hnext).
  destruct (catch_ok _ _ _ _ E Hr) as (x & Ex & Hx & _). erewrite mbind_Ok by exact Ex.
  assert (Hclock : clock w1 = clock w) by (destruct P as [_ Ht _ _ _]; destruct stage; cbn in Ht; by destruct Ht).
  assert (Hgo : forall duties', (duties_left duties' <= fuel)%nat -> Forall (fun d => stage_ok d.2 /\ u64_ok d.1) duties' ->
    loop_ok (duties_tasks duties') w1 -> unasked duties' ≡ₚ unasked (delete i duties) ->
    exists asked left w', attest_loop verifier fuel slot duties' w1 = (Ok tt, w') /\ loop_ok [] w' /\
      progress ((fun v => (clock w, ProduceAttestation slot v)) <$> asked) w w' /\ asked ++ left ≡ₚ unasked duties /\ (undisturbed -> left = [])).
  { intros duties' Hf' Hd' Hl' Hun. destruct (IH duties' w1 Hf' Hd' Hl') as (asked & left & w' & E' & Hl2 & P' & Hperm & Hu).
    exists (unasked [(v, stage)] ++ asked), left, w'. split_and!; try done.
    - rewrite fmap_app, Hclock in *. eapply progress_trans; [|exact P']. by destruct stage.
    - rewrite <- app_assoc, Hperm, Hun, <- unasked_cons. symmetry. by apply unasked_proper. }
  rewrite Hp in Hf. destruct r as [[stage'|]|e| |]; try done.
  - rewrite (proj2 (Hx _) eq_refl). destruct Hnext as (Hst' & Hne & Hlt & Hl1). apply Hgo.
    + rewrite Hins. unfold duties_left in *. cbn in *. lia.
    + rewrite Hins. constructor; [done|by apply Forall_delete].
    + eapply loop_ok_own; [|exact Hl1]. by rewrite Hins, (duties_tasks_cons _ (delete i duties)).
    + rewrite Hins, unasked_cons. by destruct stage'.
  - rewrite (proj2 (Hx _) eq_refl). apply Hgo; [|by apply Forall_delete|done|done]. unfold duties_left in *. destruct stage; cbn in *; lia.
  - destruct x as [a|e']; [by pose proof (proj1 (Hx a) eq_refl)|].
    apply Hgo; [|by apply Forall_delete|done|done]. unfold duties_left in *. destruct stage; cbn in *; lia.
Qed.

Lemma attest_loop_ok slot fuel : u64_ok slot -> attests slot fuel.
Proof.
  intros Hs. induction fuel as [|fuel IH]; intros duties w Hf Hd Hl.
  { destruct duties as [|[v []] duties]; [|cbn in Hf; lia..]. exists [], [], w. split_and!; try done. by apply waits_progress. }
  destruct duties as [|d0 duties0] eqn:Hds; [exists [], [], w; split_and!; try done; by apply waits_progress|].
  rewrite <- Hds in *. assert (Hn : length duties <> 0%nat) by (by subst).
  assert (Hloop : attest_loop verifier (Datatypes.S fuel) slot duties = attest_loop verifier (Datatypes.S fuel) slot (d0 :: duties0)) by (by subst).
  rewrite Hloop. cbn [attest_loop]. rewrite <- Hds. clear Hloop.
  destruct (on_env_ok poll_cancelled _ w Hl (poll_traffic _)) as (w1 & E1 & Hl1 & W1). erewrite mbind_Ok by exact E1.
  destruct (poll_cancelled (lw_env w)).1 eqn:Hcancel.
  { exists [], (unasked duties), w1. split_and!; [done| |by apply waits_progress|done|].
    - apply (loop_ok_abandon duties); [|done]. eapply Forall_impl; [exact Hd|]. by intros d [? _].
    - intros Hu. destruct (Hu (lw_env w)) as [Hc _]. congruence. }
  destruct (yield_ok (E:=Empty_set) _ _ Hl1) as (w2 & E2 & Hl2 & W2). erewrite mbind_Ok by exact E2.
  destruct (on_env_ok choose _ w2 Hl2 (choose_traffic _)) as (w3 & E3 & Hl3 & W3). erewrite mbind_Ok by exact E3.
  assert (W : waits w w3) by (etrans; [exact W1|]; by etrans).
  set (choice := (choose (lw_env w2)).1) in *.
  assert (Hclock : clock w3 = clock w) by apply (wt_clock _ _ W).
  assert (Hi : forall i, is_Some (duties !! (i mod length duties)%nat)).
  { intros i. apply lookup_lt_is_Some. by apply Nat.mod_upper_bound. }
  destruct choice as [i|i] eqn:Hch; destruct (Hi i) as [[v stage] Hd'].
  - rewrite Hd'. destruct (attest_polled slot fuel duties _ v stage w3 IH Hs Hd' Hf Hd Hl3) as (asked & left & w' & Ew & Hl' & P' & Hp & Hu).
    exists asked, left, w'. split_and!; try done. rewrite Hclock in P'. by eapply (progress_trans []); [apply waits_progress|].
  - assert (Hl4 : loop_ok (duties_tasks (delete (i mod length duties)%nat duties)) w3).
    { destruct (duty_split duties _ _ Hd') as [Hp _]. pose proof (Forall_lookup_1 _ _ _ _ Hd Hd') as [Hst _].
      apply (loop_ok_own _ _ _ (duties_tasks_proper _ _ Hp)) in Hl3. destruct stage; try done. by apply (loop_ok_drop task). }
    destruct (attest_expire slot fuel duties _ _ w3 IH Hd' Hf Hd Hl4) as (asked & left & w' & Ew & Hl' & P' & Hp & Hu).
    exists asked, (unasked [(v, stage)] ++ left), w'. split_and!; try done.
    + rewrite Hclock in P'. by eapply (progress_trans []); [apply waits_progress|].
    + destruct (duty_split duties _ _ Hd') as [Hdp _].
      rewrite (Permutation_app_swap_app asked), Hp, <- unasked_cons. symmetry. by apply unasked_proper.
    + intros Hun. destruct (Hun (lw_env w2)) as [_ [j Hj]]. unfold choice in Hch. congruence.
Qed.

Lemma run_attesters_ok proposers slot w : proposers_ok proposers -> u64_ok slot -> loop_ok [] w ->
  exists asked left w', run_attesters verifier proposers slot w = (Ok tt, w') /\ loop_ok [] w' /\
    progress ((fun v => (clock w, ProduceAttestation slot v)) <$> asked) w w' /\
    asked ++ left ≡ₚ attesters_for_slot proposers slot /\ (undisturbed -> left = []).
Proof.
  intros Hp Hs Hl. unfold run_attesters. set (attesters := attesters_for_slot proposers slot).
  set (duties := (fun v => (v, AttestStart)) <$> attesters).
  assert (Hun : unasked duties = attesters) by (unfold duties; clear; induction attesters; cbn in *; [done|by f_equal]).
  assert (Htasks : duties_tasks duties = []) by (unfold duties; clear; by induction attesters).
  assert (Hleft : duties_left duties = (4 * length duties)%nat) by (unfold duties, duties_left; clear; induction attesters; cbn in *; lia).
  rewrite <- Hun. apply attest_loop_ok; [done|lia| |by rewrite Htasks].
  unfold duties. apply Forall_fmap, Forall_forall. intros v Hv. split; [done|]. apply Hp. cbn.
  unfold attesters, attesters_for_slot, proposers_local in Hv. apply list_elem_of_filter in Hv as [_ Hv].
  apply list_elem_of_fmap in Hv as ([v' u] & -> & Hin). rewrite hash_iter_perm in Hin. apply elem_of_map_to_list in Hin. by exists u.
Qed.

(** *** A tick *)

(** The duties of a tick: whether all of them are asked for, [quiet] says. *)
Definition tick_duties (quiet : Prop) (proposers : LocalProposers) (tick : N) (made : list ServiceCall) : Prop :=
  let '(slot, interval) := slot_interval_at tick in
  if interval =? 0 then made = from_option (fun v => [ProduceBlock slot v]) [] (proposer_for_slot proposers slot)
  else if interval =? VOTE_DUE_INTERVAL then
    exists asked left, made = ProduceAttestation slot <$> asked /\ asked ++ left ≡ₚ attesters_for_slot proposers slot /\ (quiet -> left = [])
  else made = [].

(** What a tick does: imports, its duties, and the tick of the engine. *)
Definition tick_calls (quiet : Prop) (proposers : LocalProposers) (tick time : N) (made : list (N * ServiceCall)) : Prop :=
  exists imports duties has_proposal, made = imports ++ ((fun c => (time, c)) <$> duties) ++ [(time, TickInterval has_proposal)] /\
    Forall (fun c => is_import c.2) imports /\ tick_duties quiet proposers tick duties.

Lemma timed_keeps t made t' : timed t made t' -> Forall (fun c => is_tick c.2 = false) made -> t' = t.
Proof.
  revert t. induction made as [|[a call] made IH]; intros t; cbn; [done|]. intros [-> Ht] Hf. inversion Hf as [|? ? Hc Hf']; subst.
  unfold clock_after in Ht. cbn in Hc. rewrite Hc in Ht. by apply IH.
Qed.

Lemma tick_duties_ok proposers tick hp w : proposers_ok proposers -> u64_ok tick -> loop_ok [] w ->
  let '(slot, interval) := slot_interval_at tick in
  exists hp' duties w', (if interval =? 0 then maybe_propose verifier proposers slot
      else if interval =? VOTE_DUE_INTERVAL then let! _ := run_attesters verifier proposers slot in mret hp
      else mret hp) w = (Ok hp', w') /\ loop_ok [] w' /\ progress ((fun c => (clock w, c)) <$> duties) w w' /\
    tick_duties undisturbed proposers tick duties.
Proof.
  intros Hp Ht Hl. unfold tick_duties. assert (Hslot : u64_ok (slot_interval_at tick).1).
  { unfold slot_interval_at, u64_ok in *. cbn [fst]. eapply N.le_lt_trans; [|exact Ht]. apply N.Div0.div_le_upper_bound. unfold INTERVALS_PER_SLOT. lia. }
  destruct (slot_interval_at tick) as [slot interval]. cbn [fst] in Hslot. destruct (interval =? 0).
  { destruct (maybe_propose_ok proposers slot w Hp Hl Hslot) as (hp' & w' & E & Hl' & P).
    exists hp', (from_option (fun v => [ProduceBlock slot v]) [] (proposer_for_slot proposers slot)), w'. split_and!; try done.
    by destruct (proposer_for_slot proposers slot). }
  destruct (interval =? VOTE_DUE_INTERVAL).
  - destruct (run_attesters_ok proposers slot w Hp Hslot Hl) as (asked & left & w' & E & Hl' & P & Hperm & Hu).
    exists hp, (ProduceAttestation slot <$> asked), w'. split_and!; [by erewrite mbind_Ok by exact E|done| |by exists asked, left].
    by rewrite <- list_fmap_compose.
  - exists hp, [], w. split_and!; try done. by apply waits_progress.
Qed.

Lemma duties_no_tick quiet proposers tick duties : tick_duties quiet proposers tick duties -> Forall (fun c => is_tick c = false) duties.
Proof.
  unfold tick_duties. destruct (slot_interval_at tick) as [slot interval]. destruct (interval =? 0).
  { intros ->. destruct (proposer_for_slot proposers slot); by repeat constructor. }
  destruct (interval =? VOTE_DUE_INTERVAL); [|by intros ->]. intros (asked & left & -> & _). apply Forall_fmap, Forall_true. done.
Qed.

Lemma run_tick_ok proposers tick hp w : proposers_ok proposers -> u64_ok tick -> loop_ok [] w ->
  exists hp' made w', run_tick verifier proposers tick hp w = (Ok hp', w') /\ loop_ok [] w' /\ progress made w w' /\
    tick_calls undisturbed proposers tick (clock w) made /\ clock w' = N.min (clock w + 1) u64_max.
Proof.
  intros Hp Ht Hl. unfold run_tick.
  destruct (drain_gossip_ok w Hl) as (imports & w1 & E1 & Hl1 & P1 & Himp). erewrite mbind_Ok by exact E1.
  assert (Hc1 : clock w1 = clock w).
  { apply (timed_keeps _ _ _ (pr_timed _ _ _ P1)). eapply Forall_impl; [exact Himp|]. by intros [? []]. }
  pose proof (tick_duties_ok proposers tick hp w1 Hp Ht Hl1) as Hd. destruct (slot_interval_at tick) as [slot interval].
  destruct Hd as (hp' & duties & w2 & E2 & Hl2 & P2 & Hd). erewrite mbind_Ok by exact E2.
  assert (Hc2 : clock w2 = clock w).
  { rewrite <- Hc1. apply (timed_keeps _ _ _ (pr_timed _ _ _ P2)). apply Forall_fmap. by apply (duties_no_tick _ _ _ _ Hd). }
  destruct (own_call_ok [] (TickInterval hp') w2 Hl2 I) as (r & w3 & E3 & Hr & Hl3 & C3 & _).
  destruct (catch_ok _ _ _ _ E3 Hr) as (x & E3' & _). erewrite mbind_Ok by exact E3'.
  exists hp', (imports ++ ((fun c => (clock w, c)) <$> duties) ++ [(clock w, TickInterval hp')]), w3.
  split_and!; [done|done| |by exists imports, duties, hp'|by rewrite (cl_clock _ _ _ C3), Hc2].
  eapply progress_trans; [exact P1|]. rewrite Hc1 in P2. eapply progress_trans; [exact P2|].
  rewrite <- Hc2. by apply calls_progress.
Qed.

(** *** A run *)

(** The calls of the ticks from [tick] on, each with the time of the engine at it;
    [n] ticks have been made, and fewer only if the loop was cancelled. *)
Inductive ticks_calls (quiet : Prop) (proposers : LocalProposers) : nat -> N -> N -> list (N * ServiceCall) -> Prop :=
| ticks_end tick time : ticks_calls quiet proposers 0 tick time []
| ticks_tick n tick time made rest :
    tick_calls quiet proposers tick time made ->
    ticks_calls quiet proposers n (N.min (tick + 1) u64_max) (N.min (time + 1) u64_max) rest ->
    ticks_calls quiet proposers (Datatypes.S n) tick time (made ++ rest).

Lemma run_loop_ok proposers n : proposers_ok proposers -> forall tick hp w, u64_ok tick -> loop_ok [] w ->
  exists m made w', run_loop verifier n proposers tick hp w = (Ok tt, w') /\ loop_ok [] w' /\ progress made w w' /\
    ticks_calls undisturbed proposers m tick (clock w) made /\ (m <= n)%nat /\ (undisturbed -> m = n).
Proof.
  intros Hp. induction n as [|n IH]; intros tick hp w Ht Hl.
  { exists 0%nat, [], w. split_and!; try done; [by apply waits_progress|constructor]. }
  cbn [run_loop]. destruct (yield_ok (E:=Empty_set) _ _ Hl) as (w1 & E1 & Hl1 & W1). erewrite mbind_Ok by exact E1.
  destruct (on_env_ok poll_cancelled _ w1 Hl1 (poll_traffic _)) as (w2 & E2 & Hl2 & W2). erewrite mbind_Ok by exact E2.
  assert (W : waits w w2) by (by etrans). destruct (poll_cancelled (lw_env w1)).1 eqn:Hcancel.
  { exists 0%nat, [], w2. split_and!; try done; [by apply waits_progress|constructor|lia|].
    intros Hu. destruct (Hu (lw_env w1)) as [Hc _]. congruence. }
  destruct (run_tick_ok proposers tick hp w2 Hp Ht Hl2) as (hp' & made & w3 & E3 & Hl3 & P3 & Hm & Hc3). erewrite mbind_Ok by exact E3.
  destruct (IH (N.min (tick + 1) u64_max) hp' w3) as (m & rest & w4 & E4 & Hl4 & P4 & Hrest & Hle & Hu); [|done|].
  { unfold u64_ok, u64_bound, u64_max in *. lia. }
  rewrite (wt_clock _ _ W) in *. rewrite Hc3 in Hrest. exists (Datatypes.S m), (made ++ rest), w4.
  split_and!; [done|done| |by constructor|lia|intros; f_equal; auto].
  eapply (progress_trans []); [by apply waits_progress|]. by eapply progress_trans.
Qed.

Lemma run_ok n self w : proposers_ok (cl_proposers self) -> loop_ok [] w ->
  exists m made w', run verifier n self w = (Ok tt, w') /\ loop_ok [] w' /\ progress made w w' /\
    ticks_calls undisturbed (cl_proposers self) m 0 (clock w) made /\ (undisturbed -> m = n).
Proof.
  intros Hp Hl. unfold run. destruct (on_env_ok poll_cancelled _ w Hl (poll_traffic _)) as (w1 & E1 & Hl1 & W1). erewrite mbind_Ok by exact E1.
  destruct (poll_cancelled (lw_env w)).1 eqn:Hcancel.
  { exists 0%nat, [], w1. split_and!; try done; [by apply waits_progress|constructor|].
    intros Hu. destruct (Hu (lw_env w)) as [Hc _]. congruence. }
  destruct (yield_ok (E:=Empty_set) _ _ Hl1) as (w2 & E2 & Hl2 & W2). erewrite mbind_Ok by exact E2.
  assert (W : waits w w2) by (by etrans).
  destruct (run_loop_ok (cl_proposers self) n Hp 0 false w2) as (m & made & w3 & E3 & Hl3 & P3 & Hm & _ & Hu); [done|done|].
  rewrite (wt_clock _ _ W) in Hm. exists m, made, w3. split_and!; try done.
  eapply (progress_trans []); [by apply waits_progress|done].
Qed.

(** A node that has been started and has not run yet. *)
Lemma loop_started engine t s x :
  world_inv (rep:=rep) (signer_inv:=signer_inv) anchor vs (mkWorld (ls:=ls) (engine, (t, s)) [] []) -> s_blocks engine !! anchor = Some ab ->
  loop_ok [] (mkLoopWorld (mkWorld (engine, (t, s)) [] []) gossip_start 0 [] x).
Proof. intros Hw Hb. by split. Qed.

(** ** The loop is safe *)


(** ** Duties *)

(** The duty of a validator in a slot: the tick it is due at, and the call. *)
Definition duty (proposers : LocalProposers) (slot : Slot) (v : ValidatorIndex) : option (N * ServiceCall) :=
  if bool_decide (proposer_for_slot proposers slot = Some v) then Some (INTERVALS_PER_SLOT * slot, ProduceBlock slot v)
  else if bool_decide (is_Some (lp_local proposers !! v)) then Some (INTERVALS_PER_SLOT * slot + VOTE_DUE_INTERVAL, ProduceAttestation slot v)
  else None.

Definition about (slot : Slot) (v : ValidatorIndex) (c : N * ServiceCall) : Prop :=
  match c.2 with ProduceBlock s v' | ProduceAttestation s v' => s = slot /\ v' = v | _ => False end.
#[export] Instance about_dec slot v c : Decision (about slot v c).
Proof. unfold about. destruct c as [t []]; apply _. Defined.

Lemma filter_about_nil slot v l : Forall (fun c => ~ about slot v c) l -> filter (about slot v) l = [].
Proof. induction 1 as [|c l Hc _ IH]; [done|]. by rewrite filter_cons_False. Qed.

Lemma attesters_elem proposers slot v :
  v ∈ attesters_for_slot proposers slot <-> is_Some (lp_local proposers !! v) /\ proposer_for_slot proposers slot <> Some v.
Proof.
  unfold attesters_for_slot, proposers_local. rewrite list_elem_of_filter.
  assert (Hin : v ∈ (hash_iter (lp_local proposers)).*1 <-> is_Some (lp_local proposers !! v)).
  { rewrite list_elem_of_fmap. setoid_rewrite hash_iter_perm. split.
    - intros ([v' u] & -> & Hin%elem_of_map_to_list). by exists u.
    - intros [u Hu]. exists (v, u). split; [done|]. by apply elem_of_map_to_list. }
  rewrite Hin. naive_solver.
Qed.

Lemma filter_attests slot v time asked : NoDup asked ->
  filter (about slot v) ((fun c => (time, c)) <$> (ProduceAttestation slot <$> asked)) =
    if bool_decide (v ∈ asked) then [(time, ProduceAttestation slot v)] else [].
Proof.
  intros Hnd. induction Hnd as [|v' asked Hn _ IH]; [done|]. cbn [fmap list_fmap].
  destruct (decide (v' = v)) as [->|Hne].
  - rewrite filter_cons_True, IH, bool_decide_eq_false_2, bool_decide_eq_true_2; [done|by constructor|done|done].
  - rewrite filter_cons_False, IH by (by intros [_ ?]). erewrite (bool_decide_ext (v ∈ v' :: asked)); [done|]. rewrite elem_of_cons. naive_solver.
Qed.

Lemma tick_filter quiet proposers tick time made slot v : tick_calls quiet proposers tick time made ->
  exists duties, tick_duties quiet proposers tick duties /\ filter (about slot v) made = filter (about slot v) ((fun c => (time, c)) <$> duties).
Proof.
  intros (imports & duties & hp & -> & Himp & Hd). exists duties. split; [done|].
  rewrite !filter_app, (filter_about_nil slot v imports), (filter_about_nil slot v [(time, TickInterval hp)]); [by rewrite app_nil_r| |].
  - apply Forall_singleton. by intros [].
  - eapply Forall_impl; [exact Himp|]. intros [t []] Hc; cbn in Hc; try done; by intros [].
Qed.

(** The share of one tick. *)
Lemma tick_share quiet proposers tick time made slot v : tick_calls quiet proposers tick time made ->
  match duty proposers slot v with
  | None => filter (about slot v) made = []
  | Some (d, call) =>
      if d =? tick then (filter (about slot v) made = [] /\ ~ quiet) \/ filter (about slot v) made = [(time, call)]
      else filter (about slot v) made = []
  end.
Proof.
  intros (duties & Hd & ->)%(tick_filter _ _ _ _ _ slot v). unfold tick_duties, slot_interval_at in Hd. unfold duty.
  pose proof (N.div_mod tick INTERVALS_PER_SLOT ltac:(done)) as Hdm. pose proof (N.mod_lt tick INTERVALS_PER_SLOT ltac:(done)) as Hlt.
  set (s0 := tick / INTERVALS_PER_SLOT) in *. set (i0 := tick mod INTERVALS_PER_SLOT) in *.
  change VOTE_DUE_INTERVAL with 2 in *. unfold INTERVALS_PER_SLOT in *.
  destruct (N.eqb_spec i0 0) as [Hi0|Hi0]; [|destruct (N.eqb_spec i0 2) as [Hi2|Hi2]].
  - subst duties. assert (Hf : proposer_for_slot proposers slot <> Some v \/ s0 <> slot ->
      filter (about slot v) ((fun c => (time, c)) <$> from_option (fun v => [ProduceBlock s0 v]) [] (proposer_for_slot proposers s0)) = []).
    { intros Hor. apply filter_about_nil, Forall_fmap. destruct (proposer_for_slot proposers s0) as [v0|] eqn:Hp; [|constructor].
      apply Forall_singleton. intros [-> ->]. naive_solver. }
    case_bool_decide as Hprop; [|case_bool_decide; [|by auto]; destruct (N.eqb_spec (4 * slot + 2) tick); [lia|by auto]].
    destruct (N.eqb_spec (4 * slot) tick) as [Ht|Ht]; [|apply Hf; right; lia].
    right. assert (s0 = slot) as -> by lia. rewrite Hprop. cbn [from_option fmap list_fmap]. by rewrite filter_cons_True.
  - destruct Hd as (asked & left & -> & Hperm & Hq).
    assert (Hnd : NoDup (asked ++ left)) by (rewrite Hperm; apply attesters_for_slot_nodup).
    assert (Hf : s0 <> slot -> filter (about slot v) ((fun c => (time, c)) <$> (ProduceAttestation s0 <$> asked)) = []).
    { intros Hne. apply filter_about_nil, Forall_fmap, Forall_fmap, Forall_true. by intros v0 [? _]. }
    destruct (decide (s0 = slot)) as [Hs|Hs].
    2:{ repeat case_bool_decide; [destruct (N.eqb_spec (4 * slot) tick); [lia|by auto]|destruct (N.eqb_spec (4 * slot + 2) tick); [lia|by auto]|by auto]. }
    subst slot. rewrite filter_attests by (by apply NoDup_app in Hnd as [? _]).
    assert (Hv : v ∈ asked \/ v ∈ left <-> is_Some (lp_local proposers !! v) /\ proposer_for_slot proposers s0 <> Some v).
    { rewrite <- attesters_elem, <- Hperm, elem_of_app. done. }
    case_bool_decide as Hprop; [|case_bool_decide as Hloc].
    + destruct (N.eqb_spec (4 * s0) tick); [lia|]. rewrite bool_decide_eq_false_2; [done|naive_solver].
    + destruct (N.eqb_spec (4 * s0 + 2) tick); [|lia]. case_bool_decide as Ha; [by right|left]. split; [done|].
      intros Hqt. rewrite (Hq Hqt) in Hv. assert (v ∈ []) as ?%elem_of_nil by naive_solver. done.
    + rewrite bool_decide_eq_false_2; [done|naive_solver].
  - subst duties. cbn. repeat case_bool_decide; [destruct (N.eqb_spec (4 * slot) tick); [lia|done]|destruct (N.eqb_spec (4 * slot + 2) tick); [lia|done]|done].
Qed.

Lemma duty_below proposers slot v d call : duty proposers slot v = Some (d, call) -> d <> u64_max.
Proof.
  intros Hd Hm. unfold duty in Hd. change u64_max with 18446744073709551615 in Hm. change VOTE_DUE_INTERVAL with 2 in Hd.
  unfold INTERVALS_PER_SLOT in Hd. repeat case_bool_decide; simplify_eq; lia.
Qed.

(** The share of a run from a tick on. *)
Lemma ticks_share quiet proposers m tick time made slot v : ticks_calls quiet proposers m tick time made -> tick <= u64_max -> time <= u64_max ->
  match duty proposers slot v with
  | None => filter (about slot v) made = []
  | Some (d, call) =>
      (filter (about slot v) made = [] /\ ~ (quiet /\ tick <= d < N.min (tick + N.of_nat m) u64_max)) \/
      (filter (about slot v) made = [(N.min (time + (d - tick)) u64_max, call)] /\ tick <= d < u64_max)
  end.
Proof.
  intros Hm. induction Hm as [tick time|m tick time made rest Hmade Hrest IH]; intros Ht Htime.
  { destruct (duty proposers slot v) as [[d call]|]; [left; split; [done|lia]|done]. }
  specialize (IH ltac:(lia) ltac:(lia)). apply (tick_share _ _ _ _ _ slot v) in Hmade. rewrite filter_app.
  pose proof (duty_below proposers slot v) as Hb.
  destruct (duty proposers slot v) as [[d call]|]; [|by rewrite Hmade, IH]. specialize (Hb d call eq_refl).
  destruct (N.eqb_spec d tick) as [->|Hne].
  - assert (filter (about slot v) rest = []) as -> by (destruct IH as [[-> _]|[_ ?]]; [done|unfold u64_max in *; lia]).
    destruct Hmade as [[-> Hq]| ->]; [left; naive_solver|right]. split; [|lia]. by rewrite N.sub_diag, N.add_0_r, N.min_l.
  - rewrite Hmade. destruct IH as [[-> Hq]|[-> Hle]]; [left; split; [done|]|right; split; [|lia]].
    + intros [Hqt Hd]. apply Hq. split; [done|]. lia.
    + cbn [app]. do 2 f_equal. lia.
Qed.

(** C8. In a run of the loop each local validator has one duty in a slot: to propose
    if it is the proposer of the slot, and otherwise to attest.  It is asked for that
    duty at most once, for no other duty in that slot, and at the interval of the
    slot the duty is due at: when the engine's clock, which only the loop advances,
    stands [4 * slot] or [4 * slot + 2] intervals after where it stood when the loop
    started.  If the loop is not cancelled and no vote runs out of time, it is asked
    in every slot the run reaches. *)
Theorem duties_schedule n self w slot v : proposers_ok (cl_proposers self) -> loop_ok [] w -> lw_calls w = [] ->
  exists w', run verifier n self w = (Ok tt, w') /\
    let asked := filter (about slot v) (lw_calls w') in
    match duty (cl_proposers self) slot v with
    | None => asked = []
    | Some (d, call) =>
        (asked = [] \/ asked = [(N.min (clock w + d) u64_max, call)]) /\
        (undisturbed -> d < N.min (N.of_nat n) u64_max -> asked <> [])
    end.
Proof.
  intros Hp Hl Hc. destruct (run_ok n self w Hp Hl) as (m & made & w' & E & _ & P & Hm & Hu). exists w'. split; [done|]. cbn zeta.
  rewrite (pr_calls _ _ _ P), Hc. cbn [app]. pose proof (loop_ok_time _ _ Hl) as Ht.
  apply (ticks_share _ _ _ _ _ _ slot v) in Hm; [|done|unfold u64_ok, u64_bound, u64_max in *; lia].
  destruct (duty (cl_proposers self) slot v) as [[d call]|]; [|done]. rewrite N.sub_0_r in Hm.
  destruct Hm as [[-> Hq]|[-> _]]; [|by split; [right|]]. split; [by left|]. intros Hun Hd _. rewrite (Hu Hun) in Hq. apply Hq. split; [done|lia].
Qed.

(** ** After a restart *)

(** No block is produced at the slot of the anchor or before. *)
Lemma produce_refused engine t s slot v : engine_ok anchor vs engine -> tracked (engine, (t, s)) -> u64_ok slot -> u64_ok v ->
  slot <= b_slot ab -> exists e, (service_start verifier (ProduceBlock slot v) (engine, (t, s))).1 = Err e.
Proof.
  intros [Hi Hfr] Htr Hs Hv Hle. unfold tracked in Htr. cbn [fst] in Htr. cbn [service_start].
  unfold produce_unsigned, produce_block_unsigned, mbind, on_engine, lift_fc.
  destruct (produce_block_cases anchor vs engine slot v Hi Hfr Hs Hv)
    as (h & _ & Hi1 & [[e ->]|(hs & votes & post & s' & _ & _ & _ & Hhs & Hgat & _ & Hst & _)]); [by eexists|].
  exfalso. set (block := mkBlock slot v h (hash_tree_root post) (body_from votes)) in *.
  destruct (si_states_dom _ _ _ Hi h) as [hb Hhb]; [by exists hs|]. destruct (si_states _ _ _ Hi h hb Hhb) as (st & Hst' & Hps).
  assert (st = hs) as -> by congruence.
  assert (Hwf : ssz_wf block) by (by apply (body_wf anchor vs _ slot v h votes Hi1)).
  set (sb := mkSignedBlockWithAttestation (mkBlockWithAttestation block Attestation_default) (mkBlockSignatures [])).
  destruct (transition_post_state vs (b_slot hb) hs sb true post Hps Hwf (Hst sb eq_refl)) as [Hlt _]. cbn in Hlt.
  destruct (si_anchor _ _ _ Hi) as (ab' & Hab & _ & Hmin). assert (ab' = ab) as -> by congruence. specialize (Hmin h hb Hhb). lia.
Qed.

(** C23. A node whose engine starts at slot [h], as after a restart from a stored head
    or at genesis with [h = 0], proposes nothing in the slots of the loop up to [h]:
    the loop counts slots from 0, so each proposal it makes there is for a slot the
    engine has passed, fails, and counts as a failure of the node. *)
Theorem restart_proposals_fail proposers slot v w :
  proposers_ok proposers -> loop_ok [] w -> u64_ok slot -> proposer_for_slot proposers slot = Some v -> slot <= b_slot ab ->
  exists w', maybe_propose verifier proposers slot w = (Ok false, w') /\ lw_failures w' = record_failure (lw_failures w) /\ loop_ok [] w'.
Proof.
  intros Hp Hl Hs Hv Hle. unfold maybe_propose. rewrite Hv. unfold loop_produce_block, own_call.
  destruct (yield_ok (E:=ChainError (ls:=ls)) _ _ Hl) as (w1 & E1 & Hl1 & W1).
  assert (Hvo : u64_ok v) by (by eapply Hp, proposer_local).
  destruct (start_own_ok [] (ProduceBlock slot v) w1 Hl1 (conj Hs Hvo)) as (r & w2 & E2 & _ & Hl2 & C2 & Hr).
  assert (Hwi := lo_world _ _ Hl1). unfold world_inv, with_own in Hwi. cbn [w_service] in Hwi. pose proof (lo_anchor _ _ Hl1) as Htr.
  destruct (w_service (lw_chain w1)) as [engine [t s]]. destruct Hwi as (Hok & _).
  destruct (produce_refused engine t s slot v Hok Htr Hs Hvo Hle) as [e He]. rewrite He in Hr. subst r.
  unfold mbind at 1. unfold catch, mbind at 1. unfold mbind at 1. rewrite E1. unfold mbind at 1. rewrite E2.
  eexists. split; [reflexivity|]. split; [cbn; by rewrite (cl_failures _ _ _ C2), (wt_failures _ _ W1)|]. destruct Hl2. by split.
Qed.

End LoopInv.
