(* ===== verification/Examples.v ===== *)
(** * Concrete runs of the fork-choice store and the engine

    A genesis store with three validators under a stand-in hash, a block produced
    on it and imported by a peer, and votes on them: the hypotheses of the
    theorems on the store, on production and on the engine hold there. *)

From stdpp Require Import base numbers list gmap strings sorting.
From Stdlib Require Import Strings.Byte ZArith Lia.
From S2P Require Import Prelude Config Types Bitfields Merkle Codec Slot Containers State Stf Justif StfInv Ancestry Ghost Store StoreInv Production ProductionInv Engine EngineInv.

(** The stand-in hash of [Merkle] with its last byte set, so that no root is
    all zero. *)
Definition marked_sha256 : Sha256 := fun input =>
  chunk_pad (take 31 (as_slice (toy_sha256 input)) ++ [x01]).

#[local] Existing Instance marked_sha256.
#[local] Existing Instance order_forward.
#[local] Existing Instance order_forward_laws.

Lemma marked_nonzero input : sha256 input <> bv_zero 32.
Proof.
  intros H. apply (f_equal (fun v => as_slice v !! 31%nat)) in H. unfold sha256, marked_sha256 in H. cbn [as_slice chunk_pad] in H.
  assert (Hl : length (take 31 (as_slice (toy_sha256 input))) = 31%nat).
  { rewrite length_take. pose proof (bv_len (toy_sha256 input)) as Hb. unfold len in Hb. lia. }
  rewrite lookup_take_lt, lookup_app_l, lookup_app_r in H by (rewrite ?length_app, ?Hl; simpl; lia).
  rewrite Hl in H. by vm_compute in H.
Qed.

Lemma block_root_nonzero (b : Block) : hash_tree_root b <> bv_zero 32.
Proof.
  unfold hash_tree_root, Block_HashTreeRoot. rewrite merkleize_tree_root by done. apply marked_nonzero.
Qed.

Definition ex_validators : list Validator := example_validators.
Definition ex_state : State := genesis_state 0 ex_validators.
Definition ex_anchor : Block := genesis_anchor_block ex_state.
Definition ex_store : Store := match from_anchor ex_state ex_anchor with Ok s => s | _ => Store_default end.

Lemma ex_store_run : from_anchor ex_state ex_anchor = Ok ex_store.
Proof.
  unfold ex_store. assert (H : match from_anchor ex_state ex_anchor with Ok _ => true | _ => false end = true)
    by (vm_compute; reflexivity).
  by destruct (from_anchor ex_state ex_anchor).
Qed.

Lemma ex_started : started (hash_tree_root ex_anchor) ex_validators ex_store.
Proof. apply (started_genesis 0); [done|by repeat constructor|done|apply ex_store_run]. Qed.

Lemma ex_anchor_tracked : s_blocks ex_store !! hash_tree_root ex_anchor = Some ex_anchor.
Proof. exact (from_anchor_block _ _ _ ex_store_run). Qed.

Lemma ex_no_cycle ab : s_blocks ex_store !! hash_tree_root ex_anchor = Some ab -> b_parent_root ab <> hash_tree_root ex_anchor.
Proof.
  intros H. rewrite ex_anchor_tracked in H. injection H as <-. apply not_eq_sym. exact (block_root_nonzero ex_anchor).
Qed.

Lemma ex_fresh : anchor_parent_fresh ex_store (hash_tree_root ex_anchor).
Proof. intros ab b Hab _. rewrite ex_anchor_tracked in Hab. injection Hab as <-. exact (block_root_nonzero b). Qed.

Lemma ex_inv : store_inv (hash_tree_root ex_anchor) ex_validators ex_store.
Proof. apply started_inv; [apply ex_started|apply ex_no_cycle]. Qed.

(** ** The store *)

(** Validator 1 votes for the anchor in slot 1. *)
Definition ex_checkpoint : Checkpoint := mkCheckpoint (hash_tree_root ex_anchor) 0.
Definition ex_vote : SignedAttestation :=
  mkSignedAttestation (mkAttestation 1 (mkAttestationData 1 ex_checkpoint ex_checkpoint ex_checkpoint)) (bv_zero 3116).

Lemma ex_vote_wf : ssz_wf ex_vote.
Proof. by repeat split. Qed.

Lemma tick_interval_spec_witness :
  exists s', tick_interval false (set_time 1 ex_store) = (Ok tt, s') /\ s_time s' = 2.
Proof.
  pose proof (tick_interval_spec (hash_tree_root ex_anchor) ex_validators (set_time 1 ex_store) false
                (set_time_inv _ _ _ 1 ex_inv eq_refl)) as H.
  change (s_time (set_time 1 ex_store)) with 1 in H. change (1 + 1 <? u64_bound) with true in H. cbv iota in H.
  destruct H as (s' & Ht & _ & H). change ((1 + 1) mod 4) with 2 in H. cbv iota zeta in H. destruct H as (h & Hs & _).
  exists s'. split; [exact Ht|]. rewrite Hs. reflexivity.
Defined.

Lemma safe_target_supermajority_witness :
  exists s' origin, update_safe_target ex_store = (Ok tt, s') /\ ancestor (s_blocks ex_store) origin (s_safe_target s').
Proof.
  destruct (safe_target_supermajority (hash_tree_root ex_anchor) ex_validators ex_store ex_inv)
    as (s' & origin & H1 & _ & _ & _ & H2 & _).
  exists s', origin. exact (conj H1 H2).
Defined.

Lemma ex_vote_accepted : (process_attestation ex_vote false ex_store).1 = Ok true.
Proof. vm_compute. reflexivity. Qed.

Lemma process_attestation_spec_witness :
  s_latest_new_votes (process_attestation ex_vote false ex_store).2 !! 1 = Some ex_vote.
Proof.
  pose proof (process_attestation_spec (hash_tree_root ex_anchor) ex_validators ex_store ex_vote false ex_inv ex_vote_wf) as H.
  pose proof ex_vote_accepted as Hr. destruct (process_attestation ex_vote false ex_store) as [r s']. cbn [fst snd] in *. subst r.
  destruct H as (_ & _ & _ & _ & _ & _ & _ & H).
  assert (Hn : s_latest_new_votes ex_store !! 1 = None) by (vm_compute; reflexivity).
  change (att_validator_id (sa_message ex_vote)) with 1 in H. rewrite Hn in H. exact H.
Defined.

Lemma get_vote_target_spec_witness :
  exists cp, get_vote_target ex_store = Ok cp /\ ancestor (s_blocks ex_store) (cp_root cp) (s_head ex_store).
Proof.
  destruct (get_vote_target_spec (hash_tree_root ex_anchor) ex_validators ex_store ex_inv) as (cp & b & H1 & _ & _ & H2 & _).
  exists cp. exact (conj H1 H2).
Defined.

(** ** Production *)

Definition is_ok {E A} (c : Outcome E A) : bool := match c with Ok _ => true | _ => false end.

Lemma ex_produced : is_ok (produce_block 1 1 ex_store).1 = true.
Proof. vm_compute. reflexivity. Qed.

Lemma produce_block_spec_witness :
  exists pb s', produce_block 1 1 ex_store = (Ok pb, s') /\ store_inv (hash_tree_root ex_anchor) ex_validators s' /\
    is_Some (s_blocks s' !! pb_root pb).
Proof.
  pose proof (produce_block_spec (hash_tree_root ex_anchor) ex_validators ex_store 1 1 ex_inv ex_fresh eq_refl eq_refl) as H.
  pose proof ex_produced as Hr. destruct (produce_block 1 1 ex_store) as [[pb|e| |] s'];
    [|discriminate Hr|discriminate Hr|discriminate Hr]. destruct H as (H1 & H2 & _).
  exists pb, s'. exact (conj eq_refl (conj H1 H2)).
Defined.

Lemma produce_attestation_vote_spec_witness :
  exists pv s', produce_attestation_vote 1 ex_store = (Ok pv, s') /\ ad_source (pv_vote pv) = s_latest_justified ex_store.
Proof.
  destruct (produce_attestation_vote_spec (hash_tree_root ex_anchor) ex_validators ex_store 1 ex_inv)
    as (pv & s' & H1 & _ & _ & H2 & _).
  exists pv, s'. exact (conj H1 H2).
Defined.

(** ** The engine *)

(** A verifier that accepts everything. *)
Definition ex_verifier : Verifier unit := fun _ _ _ _ => inl tt.

Lemma verify_positional_spec_witness :
  signature_valid ex_verifier ex_validators (sa_message ex_vote) (bv_zero 3116).
Proof.
  pose proof (verify_positional_spec [] (sa_message ex_vote) [bv_zero 3116] ex_validators ex_verifier
                ltac:(apply Forall_singleton; exact ex_vote_wf)) as H.
  assert (Hr : is_ok (verify_positional [] (sa_message ex_vote) [bv_zero 3116] ex_validators ex_verifier) = true)
    by (vm_compute; reflexivity).
  destruct (verify_positional _ _ _ _ _) as [u|e| |]; [|discriminate Hr|discriminate Hr|discriminate Hr].
  destruct H as [_ H]. exact (H 0%nat (sa_message ex_vote) (bv_zero 3116) eq_refl eq_refl).
Defined.

Definition block_of (r : Outcome ForkchoiceError ProducedBlock * Store) : Block :=
  match r.1 with Ok pb => pb_block pb | _ => ex_anchor end.
Definition ex_block : Block := block_of (produce_block 1 1 ex_store).
Definition ex_signed : SignedBlockWithAttestation :=
  mkSignedBlockWithAttestation (mkBlockWithAttestation ex_block (sa_message ex_vote)) (mkBlockSignatures []).

Lemma ex_block_run : exists pb s', produce_block 1 1 ex_store = (Ok pb, s') /\ ex_block = pb_block pb.
Proof.
  unfold ex_block. pose proof ex_produced as Hr. destruct (produce_block 1 1 ex_store) as [[pb|e| |] s']; try discriminate Hr.
  by exists pb, s'.
Qed.

Lemma ex_block_fields :
  b_slot ex_block = 1 /\ b_proposer_index ex_block = 1 /\ bb_attestations (b_body ex_block) = [].
Proof. vm_compute. done. Qed.

Lemma ex_signed_wf : ssz_wf ex_signed.
Proof.
  destruct ex_block_fields as (H1 & H2 & H3). split; [split|done]; [|apply ex_vote_wf]. simpl.
  unfold ssz_wf, Block_SszWf, ssz_wf, BlockBody_SszWf, u64_SszWf. rewrite H1, H2, H3. by repeat split.
Qed.

Definition accepted {E} (c : Outcome E (BlockImportResult unit * option PersistPlan)) : bool :=
  match c with Ok (BlockAccepted _ _ _ _, _) => true | _ => false end.

Lemma ex_imported : accepted (import_block_capturing_inner None ex_signed Enforce ex_store).1 = true.
Proof. vm_compute. reflexivity. Qed.

Lemma import_block_spec_witness :
  s_blocks (import_block_capturing_inner (CryptoError:=unit) None ex_signed Enforce ex_store).2
  = <[hash_tree_root (bwa_block (sb_message ex_signed)) := bwa_block (sb_message ex_signed)]> (s_blocks ex_store).
Proof.
  pose proof (import_block_spec (CryptoError:=unit) (hash_tree_root ex_anchor) ex_validators ex_store None ex_signed Enforce ex_inv ex_fresh
                ex_signed_wf) as H.
  pose proof ex_imported as Hr. destruct (import_block_capturing_inner None ex_signed Enforce ex_store) as [[[[]  plan]|e| |] s'];
    try discriminate Hr. destruct H as (_ & _ & _ & hs & post & hb & _ & _ & _ & _ & _ & H & _). exact H.
Defined.

Lemma ex_block_new : s_blocks ex_store !! hash_tree_root ex_block = None.
Proof.
  assert (H : bool_decide (is_Some (s_blocks ex_store !! hash_tree_root ex_block)) = false) by (vm_compute; reflexivity).
  apply bool_decide_eq_false in H. by apply eq_None_not_Some.
Qed.

Lemma ex_parent_state pb s' :
  produce_block 1 1 ex_store = (Ok pb, s') -> exists hs, s_states ex_store !! pb_parent_root pb = Some hs /\ pb_root pb = hash_tree_root (pb_block pb).
Proof.
  intros Hp. destruct (produce_block_cases _ _ ex_store 1 1 ex_inv ex_fresh eq_refl eq_refl)
    as (h & _ & _ & [[e He]|(hs & votes & post & s0 & He & _ & _ & Hhs & _)]); rewrite He in Hp; [discriminate Hp|].
  injection Hp as <- _. exists hs. cbn [pb_parent_root pb_root pb_block]. split; [exact Hhs|reflexivity].
Qed.


Definition ex_history : list entry :=
  [CallTick false; CallImportAttestation ex_vote; CallProduceUnsigned 1 1; CallImportSynced ex_signed; CallProduceVote 1].

Lemma engine_histories_safe_witness :
  exists s, run_entries (CryptoError:=unit) (Some ex_verifier) ex_history ex_store = (true, s) /\
    store_inv (hash_tree_root ex_anchor) ex_validators s.
Proof.
  assert (Hwf : Forall entry_wf ex_history).
  { unfold ex_history. repeat (apply Forall_cons; split); [exact I|exact ex_vote_wf|split; reflexivity|exact ex_signed_wf|reflexivity|apply Forall_nil; exact I]. }
  pose proof (engine_histories_safe (CryptoError:=unit) (hash_tree_root ex_anchor) ex_validators ex_store (Some ex_verifier) ex_history
                ex_started ex_fresh ex_no_cycle Hwf) as H.
  destruct (run_entries (Some ex_verifier) ex_history ex_store) as [r s]. destruct H as (H1 & H2 & _). subst r.
  exists s. exact (conj eq_refl H2).
Defined.

(** ** Two behaviours of the vote pools *)

Definition ex_vote_at (v : ValidatorIndex) (slot : Slot) (head target : Checkpoint) : SignedAttestation :=
  mkSignedAttestation (mkAttestation v (mkAttestationData slot head target ex_checkpoint)) (bv_zero 3116).

(** A known vote can be replaced by an older one: the gossip branch compares a
    vote only with the pending pool, and the promotion overwrites.  Validator 1
    has a known vote of slot 3 from a block; a vote of slot 1 arriving by gossip
    afterwards is accepted, and promoting the pending votes leaves slot 1. *)
Theorem known_vote_regresses :
  let s0 := set_time 12 ex_store in
  let s1 := (process_attestation (ex_vote_at 1 3 ex_checkpoint ex_checkpoint) true s0).2 in
  let gossip := process_attestation (ex_vote_at 1 1 ex_checkpoint ex_checkpoint) false s1 in
  let s3 := (accept_new_votes gossip.2).2 in
  vote_slot <$> s_latest_known_votes s1 !! 1 = Some 3 /\ gossip.1 = Ok true /\
  vote_slot <$> s_latest_known_votes s3 !! 1 = Some 1.
Proof. vm_compute. done. Qed.

(** One accepted vote can stop block production: here the target is a tracked
    block of slot 5, the store proposes at slot 2, and every production that has
    the vote in its pool fails, because the vote passes the filter of
    [collect_includable_votes] and [process_attestations] rejects the candidate. *)
Definition ex_future : Outcome ForkchoiceError ProducedBlock * Store := produce_block 5 2 ex_store.
Definition ex_fork : Store := (import_block_capturing_inner (CryptoError:=unit) None ex_signed Enforce ex_future.2).2.
Definition ex_future_cp : Checkpoint := mkCheckpoint (hash_tree_root (block_of ex_future)) 5.
Definition ex_near_cp : Checkpoint := mkCheckpoint (hash_tree_root ex_block) 1.

Definition is_target_out_of_range {A} (c : Outcome ForkchoiceError A) (slot : Slot) : bool :=
  match c with Err (FcStateTransition (AttestationSlotOutOfRange AttTarget s _)) => s =? slot | _ => false end.

Theorem future_target_vote_blocks_production :
  let s1 := (process_attestation (ex_vote_at 0 1 ex_near_cp ex_checkpoint) true ex_fork).2 in
  let s2 := (process_attestation (ex_vote_at 1 1 ex_near_cp ex_checkpoint) true s1).2 in
  let vote := process_attestation (ex_vote_at 2 1 ex_future_cp ex_future_cp) true s2 in
  is_ok (produce_block 2 2 s2).1 = true /\ vote.1 = Ok true /\
  is_target_out_of_range (produce_block 2 2 vote.2).1 5 = true.
Proof. vm_compute. done. Qed.
