(* ===== verification/ChainExamples.v ===== *)
(** * Concrete runs of the chain service

    A node that imports a block and restarts over its store, and what becomes of a
    node whose store fails once. *)

From stdpp Require Import base numbers list gmap strings sorting.
From Stdlib Require Import Strings.Byte ZArith Lia.
From S2P Require Import Prelude Config Types Bitfields Merkle Codec Slot Containers State Stf Justif StfInv Ancestry Ghost Store StoreInv Production ProductionInv Engine EngineInv Ots Storage Signer Chain ChainInv Examples.

#[local] Existing Instances marked_sha256 order_forward order_forward_laws ToyScheme.scheme ToyScheme.wire ToyScheme.scheme_laws.

(** ** A quiet run *)

Lemma ex_build :
  s_head ex_store = hash_tree_root ex_anchor /\
  exists s1, build_engine (S:=Inner) ex_state ex_anchor Inner_default = (Ok ex_store, s1).
Proof.
  exact (build_engine_genesis (refines:=memory_refines) 0 ex_validators eq_refl ltac:(by repeat constructor) ltac:(done)
    Inner_default Inner_default ex_store eq_refl empty_db_valid eq_refl (fun H => H) ex_store_run).
Qed.

(** A node just started over an empty store. *)
Lemma ex_world_inv : exists s1 vs,
  world_inv (rep:=eq) (signer_inv:=local_signer_inv) (hash_tree_root ex_anchor) vs
    (mkWorld (T:=LocalSigner) (S:=Inner) (ex_store, (LocalSigner_empty, s1)) [] []).
Proof.
  destruct ex_build as [Hhead [s1 Hb]]. exists s1.
  assert (Hempty : local_signer_inv LocalSigner_empty) by (intros v k Hk; discriminate (eq_trans (eq_sym (lookup_empty v)) Hk)).
  pose proof ex_fresh as Hfr. pose proof ex_no_cycle as Hne. rewrite <-Hhead in Hfr, Hne.
  destruct (started_world (refines:=memory_refines) (signer_inv:=local_signer_inv) 0 ex_validators eq_refl
    ltac:(by repeat constructor) ltac:(done) Inner_default Inner_default ex_store s1 LocalSigner_empty
    eq_refl empty_db_valid Hb Hfr Hne Hempty) as (vs & _ & Hw).
  exists vs. rewrite Hhead in Hw. exact Hw.
Qed.

Definition ex_steps : list ServiceStep := [Start (ImportBlock ex_signed); Start (TickInterval false); Resume 0].

Lemma restart_after_any_run_witness :
  exists s1, build_engine (S:=Inner) ex_state ex_anchor Inner_default = (Ok ex_store, s1) /\
    let w := service_run (T:=LocalSigner) None ex_steps (mkWorld (ex_store, (LocalSigner_empty, s1)) [] []) in
    Forall returned (w_results w).
Proof.
  destruct ex_build as [Hhead [s1 Hb]]. exists s1. split; [exact Hb|].
  assert (Hwf : Forall step_wf ex_steps) by (unfold ex_steps; repeat (apply Forall_cons; split); [exact ex_signed_wf|exact I|exact I|by apply Forall_nil]).
  assert (Hempty : local_signer_inv LocalSigner_empty) by (intros v k Hk; discriminate (eq_trans (eq_sym (lookup_empty v)) Hk)).
  pose proof ex_fresh as Hfr. pose proof ex_no_cycle as Hne. rewrite <-Hhead in Hfr, Hne.
  pose proof (restart_after_any_run (refines:=memory_refines) (signing:=guard_signer_laws) None 0 ex_validators eq_refl
    ltac:(by repeat constructor) ltac:(done) Inner_default Inner_default ex_store s1 LocalSigner_empty ex_steps
    eq_refl empty_db_valid Hb Hfr Hne Hempty Hwf) as H.
  cbv zeta in H |- *. destruct (w_service _) as [engine' [t' s']]. exact (proj1 H).
Defined.

(** ** A store that fails once

    The first [save_accepted] fails. *)
Definition Flaky : Type := nat * Inner.

Definition flaky {A} (m : M Inner StorageError A) : M Flaky StorageError A :=
  fun '(n, c) => let '(r, c) := m c in (r, (n, c)).

#[export] Instance flaky_watermarks : WatermarkStore Flaky := {
  save_ots_key_state v wm := flaky (save_ots_key_state v wm);
  load_ots_key_state v := flaky (load_ots_key_state v);
}.

#[export] Instance flaky_store : ChainStore Flaky := {
  db_save_block root block := flaky (db_save_block root block);
  db_save_state root state := flaky (db_save_state root state);
  db_save_head info := flaky (db_save_head info);
  db_save_accepted root block state info := fun '(n, c) =>
    match n with
    | O => flaky (db_save_accepted root block state info) (n, c)
    | Datatypes.S n => (Err (Backend "disk full"), (n, c))
    end;
  db_has_block root := flaky (db_has_block root);
  db_has_state root := flaky (db_has_state root);
  db_load_block root := flaky (db_load_block root);
  db_load_state root := flaky (db_load_state root);
  db_load_head := flaky db_load_head;
}.

Definition ex_far : SignedBlockWithAttestation :=
  mkSignedBlockWithAttestation (mkBlockWithAttestation (block_of ex_future) (sa_message ex_vote)) (mkBlockSignatures []).

(** What is seen of a run over the flaky store: a node starts, imports two blocks
    and restarts. *)
Record Observed := mkObserved {
  ob_first : bool;      (** the first import failed with a storage error *)
  ob_second : bool;     (** the second import succeeded *)
  ob_record : bool;     (** the head record names the first block *)
  ob_stored : bool;     (** the first block is in the store *)
  ob_genesis : bool;    (** the restarted node is at genesis *)
}.

Definition observe (first second : SignedBlockWithAttestation) : option Observed :=
  match build_engine (S:=Flaky) ex_state ex_anchor (1%nat, Inner_default) with
  | (Ok engine, db) =>
      let '(r1, node) := run_call (T:=LocalSigner) None (ImportBlock first) (engine, (LocalSigner_empty, db)) in
      let '(r2, (_, (_, db))) := run_call None (ImportBlock second) node in
      let root := hash_tree_root (bwa_block (sb_message first)) in
      Some (mkObserved
        (match r1 with Err (ChainStorage _) => true | _ => false end) (is_ok r2)
        (match in_head db.2 with Some info => bool_decide (cp_root (hi_head info) = root) | None => false end)
        (bool_decide (is_Some (in_blocks db.2 !! root)))
        (match build_engine (S:=Flaky) ex_state ex_anchor db with
         | (Ok engine, _) => bool_decide (s_head engine = hash_tree_root ex_anchor)
         | _ => false
         end))
  | _ => None
  end.

