(* ===== verification/SyncExamples.v ===== *)
(** * Concrete synchronisations

    A node at genesis and a peer that is one or two blocks ahead. *)

From stdpp Require Import base numbers list gmap sets strings.
From Stdlib Require Import Strings.Byte ZArith Lia.
From S2P Require Import Prelude Config Types Bitfields Merkle Codec Slot Containers State Stf StfInv Ancestry Ghost Store StoreInv Production ProductionInv Engine EngineInv Ots Storage Wire Signer Chain ChainInv Examples P2p Sync SyncInv.

#[local] Existing Instances marked_sha256 order_forward order_forward_laws ToyScheme.scheme ToyScheme.wire ToyScheme.scheme_laws.
#[local] Existing Instances ToyNet.net StoredSnap.snappy.

Definition ex_root : Bytes32 := hash_tree_root ex_anchor.
Definition ex_db : Inner := genesis_anchor 0 ex_validators Inner_default.

(** A block on top of [ex_signed]; the walk does not look at its content. *)
Definition ex_child : SignedBlockWithAttestation :=
  mkSignedBlockWithAttestation
    (mkBlockWithAttestation (mkBlock 2 2 (signed_root ex_signed) (bv_zero 32) (mkBlockBody [])) (sa_message ex_vote)) (mkBlockSignatures []).

Definition ex_remote : Inner := put_block (signed_root ex_child) ex_child (put_block (signed_root ex_signed) ex_signed Inner_default).

Definition ex_peer_status (sb : SignedBlockWithAttestation) : Status :=
  mkStatus ex_checkpoint (mkCheckpoint (signed_root sb) (b_slot (block_of_signed sb))).

Definition ex_world (sb : SignedBlockWithAttestation) : PeerWorld LocalSigner Inner :=
  mkPeerWorld (ex_store, (LocalSigner_empty, ex_db)) (set_status "peer" (ex_peer_status sb) PeerRegistry_default)
    (Store_default, (LocalSigner_empty, ex_remote)).

Definition ex_config : SyncConfig := with_max_sync_depth 1 SyncConfig_default.
Definition ex_peer : PeerId := mkPeerId "peer".

Lemma from_anchor_states state block s : from_anchor state block = Ok s -> s_states s = {[hash_tree_root block := state]}.
Proof.
  unfold from_anchor, seed_anchor. destruct (negb _); [done|]. destruct (checked_mul _ _); [|done].
  cbn [ok_or obind]. intros [= <-]. unfold insert_block. cbn [s_blocks]. rewrite lookup_empty. simpl. by rewrite insert_empty.
Qed.

Lemma ex_store_states : s_states ex_store = {[ex_root := ex_state]}.
Proof. exact (from_anchor_states _ _ _ ex_store_run). Qed.

Lemma ex_anchor_state : s_states ex_store !! ex_root = Some ex_state.
Proof. rewrite ex_store_states. apply lookup_singleton_eq. Qed.

Lemma ex_db_tables :
  in_blocks ex_db = {[ex_root := signed_block_envelope ex_anchor]} /\ in_states ex_db = {[ex_root := ex_state]}.
Proof. split; reflexivity. Qed.

Lemma ex_db_sound : db_sound ex_store ex_db.
Proof.
  destruct ex_db_tables as [Hb Hs]. split; rewrite ?Hb, ?Hs.
  - intros r sb st [<- <-]%lookup_singleton_Some [_ <-]%lookup_singleton_Some.
    split; [reflexivity|]. right. split; [eexists; exact ex_anchor_tracked|exact ex_anchor_state].
  - intros r. split; intros [x [<- _]%lookup_singleton_Some]; rewrite lookup_singleton_eq; by eexists.
  - eexists. split; [reflexivity|]. exists ex_anchor. split; [exact ex_anchor_tracked|reflexivity].
Qed.

Lemma ex_world_rep sb :
  world_rep (rep:=eq) (signer_inv:=local_signer_inv) ex_root ex_validators ex_store ex_db ex_remote (ex_world sb).
Proof.
  split; [split; [exact ex_inv|exact ex_fresh]| |exact ex_db_sound|by eexists _, _, _].
  eexists _, _. split; [reflexivity|]. split; [|reflexivity]. intros v k Hk. discriminate (eq_trans (eq_sym (lookup_empty v)) Hk).
Qed.

(** Roots the node and the peer have or have not. *)
Lemma ex_child_differs : signed_root ex_child <> signed_root ex_signed.
Proof. assert (H : bool_decide (signed_root ex_child = signed_root ex_signed) = false) by (vm_compute; reflexivity). by apply bool_decide_eq_false in H. Qed.

Lemma ex_signed_parent : signed_parent ex_signed = ex_root.
Proof. assert (H : bool_decide (signed_parent ex_signed = ex_root) = true) by (vm_compute; reflexivity). by apply bool_decide_eq_true in H. Qed.

Lemma ex_signed_differs : ex_root <> signed_root ex_signed.
Proof. assert (H : bool_decide (ex_root = signed_root ex_signed) = false) by (vm_compute; reflexivity). by apply bool_decide_eq_false in H. Qed.

Lemma ex_root_differs : ex_root <> signed_root ex_child.
Proof. assert (H : bool_decide (ex_root = signed_root ex_child) = false) by (vm_compute; reflexivity). by apply bool_decide_eq_false in H. Qed.

Lemma ex_not_stored sb : ex_root <> signed_root sb -> in_blocks ex_db !! signed_root sb = None /\ s_states ex_store !! signed_root sb = None.
Proof. intros Hne. rewrite (proj1 ex_db_tables), ex_store_states. split; by apply lookup_singleton_ne. Qed.

Lemma ex_remote_signed : in_blocks ex_remote !! signed_root ex_signed = Some ex_signed.
Proof.
  unfold ex_remote. cbn [put_block in_blocks].
  rewrite lookup_insert_ne by exact ex_child_differs. apply lookup_insert_eq.
Qed.

Lemma ex_remote_child : in_blocks ex_remote !! signed_root ex_child = Some ex_child.
Proof. apply lookup_insert_eq. Qed.

Lemma ex_base_stored : is_Some (in_blocks ex_db !! ex_root).
Proof. rewrite (proj1 ex_db_tables), lookup_singleton_eq. by eexists. Qed.

Lemma ex_missing_one : missing_chain ex_db ex_remote (signed_root ex_signed) [ex_signed].
Proof.
  destruct (ex_not_stored _ ex_signed_differs) as [H1 _]. split.
  - split; [exact (block_root_nonzero _)|]. split; [reflexivity|exact I].
  - exact (Forall_cons_2 _ _ _ ex_remote_signed (Forall_nil_2 _)).
  - exact (Forall_cons_2 _ _ _ H1 (Forall_nil_2 _)).
Qed.

Lemma ex_missing_two : missing_chain ex_db ex_remote (signed_root ex_child) [ex_child; ex_signed].
Proof.
  destruct ex_missing_one as [Hc Hr Hl]. destruct (ex_not_stored _ ex_root_differs) as [H2 _]. split.
  - split; [exact (block_root_nonzero _)|]. split; [reflexivity|exact Hc].
  - exact (Forall_cons_2 _ _ _ ex_remote_child Hr).
  - exact (Forall_cons_2 _ _ _ H2 Hl).
Qed.

Definition ex_post : State := (state_transition ex_signed true ex_state).2.

Lemma ex_transition : state_transition ex_signed true ex_state = (Ok tt, ex_post).
Proof.
  assert (H : is_ok (state_transition ex_signed true ex_state).1 = true) by (vm_compute; reflexivity).
  unfold ex_post. by destruct (state_transition ex_signed true ex_state) as [[[]| | |] st].
Qed.

Lemma ex_child_wf : ssz_wf ex_child.
Proof. split; [split|done]; [|apply ex_vote_wf]. by repeat split. Qed.

Lemma ex_ahead : should_sync (local_status (pw_service (ex_world ex_signed))) (ex_peer_status ex_signed) = true.
Proof. vm_compute. reflexivity. Qed.

Lemma ex_status_known sb : peer_status (pw_registry (ex_world sb)) (peer_str ex_peer) = Some (ex_peer_status sb).
Proof. unfold peer_status, status_of. cbn. apply lookup_insert_eq. Qed.

Lemma valid_run_one root sb pre post :
  state_transition sb true pre = (Ok tt, post) -> valid_run (chain_base root [sb]) pre (reverse [sb]) [post].
Proof. intros H. exact (conj eq_refl (conj H I)). Qed.

Lemma ex_depth sbs : length sbs = 1%nat -> len (A:=SignedBlockWithAttestation) sbs <= max_sync_depth ex_config.
Proof. unfold len. intros ->. done. Qed.

Lemma ex_signed_new : Forall (fun sb => s_blocks ex_store !! signed_root sb = None) [ex_signed].
Proof. assert (H : s_blocks ex_store !! signed_root ex_signed = None) by exact ex_block_new. exact (Forall_cons_2 _ _ _ H (Forall_nil_2 _)). Qed.

Lemma ex_base_one :
  is_Some (in_blocks ex_db !! chain_base (signed_root ex_signed) [ex_signed]) /\
  s_states ex_store !! chain_base (signed_root ex_signed) [ex_signed] = Some ex_state.
Proof.
  assert (H : chain_base (signed_root ex_signed) [ex_signed] = ex_root) by exact ex_signed_parent.
  rewrite H. exact (conj ex_base_stored ex_anchor_state).
Qed.


Lemma ex_base_two : is_Some (in_blocks ex_db !! chain_base (signed_root ex_child) [ex_child; ex_signed]).
Proof. cbn [chain_base]. rewrite ex_signed_parent. exact ex_base_stored. Qed.

(** Two blocks ahead, with a depth of one: ten connections later nothing is there. *)
Lemma gap_never_closes_witness :
  let w' := Nat.iter 10 (fun v => (handle (world:=honest_world) (cancel:=never_cancelled) None ex_config ex_peer v).2) (ex_world ex_child) in
  (pw_service w').1 = ex_store /\
  world_rep (rep:=eq) (signer_inv:=local_signer_inv) ex_root ex_validators ex_store ex_db ex_remote w'.
Proof.
  destruct (ex_not_stored _ ex_signed_differs) as [_ H1], (ex_not_stored _ ex_root_differs) as [_ H2].
  refine (gap_never_closes (refines:=memory_refines) None ex_root ex_validators ex_db ex_remote ex_config
    ex_peer "peer" (ex_peer_status ex_child) [ex_child; ex_signed] ex_store (ex_world ex_child) 10 _ _ _ _ _ _ _ _).
  - exact (ex_world_rep ex_child).
  - exact eq_refl.
  - exact (ex_status_known ex_child).
  - exact ex_missing_two.
  - exact ex_base_two.
  - exact (Forall_cons_2 _ _ _ ex_child_wf (Forall_cons_2 _ _ _ ex_signed_wf (Forall_nil_2 _))).
  - exact (Forall_cons_2 _ _ _ H2 (Forall_cons_2 _ _ _ H1 (Forall_nil_2 _))).
  - right. exact eq_refl.
Defined.

Lemma lookup_roots_returns roots e t (s : Inner) :
  exists bs, lookup_roots (T:=LocalSigner) ProviderChain roots (e, (t, s)) = (Ok bs, (e, (t, s))).
Proof.
  induction roots as [|root roots [bs IH]]; [by eexists|]. cbn [lookup_roots get_block_by_root db_load_block].
  unfold mbind. cbn. rewrite IH. by eexists.
Qed.

Lemma honest_host_returns peer request timeout (w : PeerWorld LocalSigner Inner) :
  returned (host_send_request (SyncWorld:=honest_world) peer request timeout w).1.
Proof.
  destruct request as [st|r]; [done|]. cbn [host_send_request honest_world]. destruct w as [sv reg [e [t s]]].
  unfold build_response, mbind. cbn [pw_remote]. by destruct (lookup_roots_returns (br_roots r) e t s) as [bs ->].
Qed.

Lemma walk_back_hash_chain_witness :
  match walk_back (world:=honest_world) (cancel:=never_cancelled) ex_config ex_peer (signed_root ex_child) (ex_world ex_child) with
  | (Ok pending, _) => hash_chain (signed_root ex_child) pending /\ len pending <= max_sync_depth ex_config
  | (Err e, _) => exists reason, e = Network reason
  | _ => False
  end.
Proof.
  generalize (signed_root ex_child) as start_root, (ex_world ex_child) as w. intros start_root w.
  refine (walk_back_hash_chain (world:=honest_world) _ (cancel:=never_cancelled) ex_config ex_peer start_root w _).
  - exact honest_host_returns.
  - intros root v. cbn [world_service honest_world]. destruct (pw_service v) as [e [t s]]. exact I.
Defined.

(** Two peers connect; one of them twice. *)
Lemma watch_walks_bounded_witness :
  let s := spawn_walk (mkPeerId "b") (on_peer_event "b" (on_peer_event "a" (spawn_walk (mkPeerId "a")
             (on_peer_event "a" (watch_start SyncConfig_default))))) in
  watch_reachable SyncConfig_default s /\ N.of_nat (size (wt_walking s)) <= 4.
Proof.
  cbv zeta. match goal with |- watch_reachable ?cfg ?st /\ _ => assert (H : watch_reachable cfg st) end.
  { eapply watch_trans; [|apply watch_spawn; vm_compute; reflexivity].
    eapply watch_trans; [|apply watch_event; vm_compute; reflexivity].
    eapply watch_trans; [|apply watch_event; vm_compute; reflexivity].
    eapply watch_trans; [|apply watch_spawn; vm_compute; reflexivity].
    eapply watch_trans; [apply watch_init|apply watch_event; vm_compute; reflexivity]. }
  split; [exact H|]. exact (proj1 (watch_walks_bounded SyncConfig_default _ H)).
Defined.
