(* ===== verification/LoopExamples.v ===== *)
(** * Concrete runs of the consensus loop *)

From stdpp Require Import base numbers list gmap sets strings.
From Stdlib Require Import Strings.Byte ZArith Lia.
From S2P Require Import Prelude Config Types Merkle Codec Slot Containers State Stf StfInv Ancestry Ghost Store StoreInv Production ProductionInv Engine EngineInv Ots Storage Wire Signer Duties Chain ChainInv P2p SwarmTask Services Loop LoopInv Examples ChainExamples.

#[local] Existing Instances marked_sha256 order_forward order_forward_laws ToyScheme.scheme ToyScheme.wire ToyScheme.scheme_laws.
#[local] Existing Instances ToyNet.net StoredSnap.snappy StoredSnap.snappy_laws eth_ssz_reference eth_ssz_reference_laws.

(** Messages left to arrive: one each time the loop waits.  Publishing fails, as for a
    node without peers. *)
#[local] Instance ex_env : LoopEnv nat := {|
  others := fun x => match x with O => ([], O) | S x => ([OtherMessageId ToyNet.vote_message; OtherRoute "peer" ToyNet.vote_message], x) end;
  poll_cancelled := fun x => (false, x);
  host_up := fun _ => true;
  publish_raw := fun _ _ x => (Some (PublishGossipsub "InsufficientPeers"), x);
  choose := fun x => (PollFuture x, x);
  traffic := fun x => x;
|}.

#[local] Instance ex_env_laws : LoopEnvLaws ex_env.
Proof.
  split; try done; intros [|x]; cbn; try lia; [constructor|by repeat constructor].
Qed.

Lemma ex_undisturbed : undisturbed (env:=ex_env).
Proof. intros x. split; [done|]. by exists x. Qed.

(** Validators 0 and 2 of four. *)
Definition ex_loop : ConsensusLoop := mkConsensusLoop (LocalProposers_new [0; 2] 4) 0.

Lemma ex_proposers_ok : proposers_ok (cl_proposers ex_loop).
Proof. intros v Hv. apply local_lookup in Hv. set_solver. Qed.

(** The node after its start. *)
Definition ex_loop_world (s1 : Inner) (x : nat) : LoopWorld (T:=LocalSigner) (S:=Inner) (X:=nat) :=
  mkLoopWorld (mkWorld (ex_store, (LocalSigner_empty, s1)) [] []) gossip_start 0 [] x.

Lemma ex_loop_ok : exists s1 vs, forall x,
  loop_ok (rep:=eq) (signer_inv:=local_signer_inv) (hash_tree_root ex_anchor) vs ex_anchor [] (ex_loop_world s1 x).
Proof.
  destruct ex_world_inv as (s1 & vs & Hw). exists s1, vs. intros x. apply loop_started; [exact Hw|exact ex_anchor_tracked].
Qed.


(** Validator 2 attests once in slot 1, at the sixth interval. *)
Lemma duties_schedule_witness : exists s1 w',
  run (env:=ex_env) None 8 ex_loop (ex_loop_world s1 3) = (Ok tt, w') /\
  filter (about 1 2) (lw_calls w') = [(6, ProduceAttestation 1 2)].
Proof.
  destruct ex_loop_ok as (s1 & vs & Hok). exists s1.
  destruct (duties_schedule (refines:=memory_refines) (signing:=guard_signer_laws) (env_laws:=ex_env_laws) None (hash_tree_root ex_anchor) vs ex_anchor
    8 ex_loop (ex_loop_world s1 3) 1 2 ex_proposers_ok (Hok 3%nat) eq_refl) as (w' & E & Hd).
  exists w'. split; [exact E|].
  assert (Hdue : duty (cl_proposers ex_loop) 1 2 = Some (6, ProduceAttestation 1 2)) by (vm_compute; reflexivity).
  assert (Hclock : clock (ex_loop_world s1 3) = 0) by (vm_compute; reflexivity).
  rewrite Hdue, Hclock in Hd. cbv zeta beta iota in Hd.
  destruct Hd as [[Hn|Hs] Hall]; [|exact Hs]. exfalso. apply (Hall ex_undisturbed); [by vm_compute|exact Hn].
Defined.

(** The proposal of slot 0 fails: the engine is at slot 0 from the start. *)
Lemma restart_proposals_fail_witness : exists s1 w',
  maybe_propose (env:=ex_env) None (cl_proposers ex_loop) 0 (ex_loop_world s1 0) = (Ok false, w') /\ lw_failures w' = 1.
Proof.
  destruct ex_loop_ok as (s1 & vs & Hok). exists s1.
  destruct (restart_proposals_fail (refines:=memory_refines) (signing:=guard_signer_laws) (env_laws:=ex_env_laws) None (hash_tree_root ex_anchor) vs ex_anchor
    (cl_proposers ex_loop) 0 0 (ex_loop_world s1 0) ex_proposers_ok (Hok 0%nat) ltac:(done) ltac:(by vm_compute) ltac:(done)) as (w' & E & Hf & _).
  exists w'. exact (conj E Hf).
Defined.
