(* ===== verification/Api.v ===== *)
(** * The HTTP and metrics endpoints ([runtime/src/api], [node/src/devnet.rs])

    The head endpoints over the store, the metrics recorder with the gauges of the
    devnet node, and the cached scrape.  axum and prometheus are parameters; the
    life cycle of the servers is in [Services].

    Shown: a started node serves a head that its engine tracks ([head_served]); a
    scrape registers every metric once and fails only on a value that is too large,
    and what it exports are engine states read one after the other
    ([frozen_scrape]); rendering takes place at most once a second
    ([renders_bounded]); the exported slots need not be ordered
    ([justified_ahead_of_clock]). *)

From stdpp Require Import base numbers list gmap sets strings.
From Stdlib Require Import Strings.Byte ZArith Lia.
From S2P Require Import Prelude Config Types Bitfields Merkle Codec Slot Containers State Stf Justif StfInv Ancestry Ghost Store StoreInv Production Engine EngineInv Ots Storage Signer Wire Chain ChainInv Examples ChainExamples.

(** ** The head ([http/head.rs], [http/store_snapshot.rs], [http/error.rs]) *)

Definition ETH_V1_HEAD_PATH : string := "/eth/v1/head".
Definition LEAN_V0_HEAD_PATH : string := "/lean/v0/head".
Definition LEAN_V0_HEAD_FULL_PATH : string := "/lean/v0/head/full".
Definition FULL_HEAD_PATHS : list string := [ETH_V1_HEAD_PATH; LEAN_V0_HEAD_FULL_PATH].

Inductive HttpError := HeadNotSet | HttpStorage (e : StorageError).

Definition http_error_status (self : HttpError) : N := match self with HeadNotSet => 404 | HttpStorage _ => 500 end.

(** Roots are texts. *)
Record CheckpointDto := mkCheckpointDto { cd_root : list u8; cd_slot : N }.
Record HeadRootDto := mkHeadRootDto { hr_head : list u8 }.
Record HeadInfoDto := mkHeadInfoDto { hd_head : CheckpointDto; hd_finalized : CheckpointDto }.

Definition CheckpointDto_from (cp : Checkpoint) : CheckpointDto := mkCheckpointDto (to_hex (cp_root cp)) (cp_slot cp).
Definition HeadInfoDto_from (info : HeadInfo) : HeadInfoDto :=
  mkHeadInfoDto (CheckpointDto_from (hi_head info)) (CheckpointDto_from (hi_finalized info)).
Definition HeadRootDto_from (info : HeadInfo) : HeadRootDto := mkHeadRootDto (to_hex (cp_root (hi_head info))).

Section Head.
Context {S : Type} {db : ChainStore S}.

Definition load_head : M S HttpError HeadInfo := fun store =>
  match db_load_head store with
  | (Ok (Some head), store) => (Ok head, store)
  | (Ok None, store) => (Err HeadNotSet, store)
  | (Err e, store) => (Err (HttpStorage e), store)
  | (Panic, store) => (Panic, store)
  | (Diverge, store) => (Diverge, store)
  end.

Definition get_head : M S HttpError HeadRootDto := let! head := load_head in mret (HeadRootDto_from head).
Definition get_head_full : M S HttpError HeadInfoDto := let! head := load_head in mret (HeadInfoDto_from head).

Inductive Body := RootBody (dto : HeadRootDto) | FullBody (dto : HeadInfoDto) | ErrorBody (e : HttpError).

(** The answer of the router: status and body, none for a path without a route. *)
Definition answer {A} (body : A -> Body) (handler : M S HttpError A) : M S Empty_set (N * Body) := fun store =>
  match handler store with
  | (Ok dto, store) => (Ok (200, body dto), store)
  | (Err e, store) => (Ok (http_error_status e, ErrorBody e), store)
  | (Panic, store) => (Panic, store)
  | (Diverge, store) => (Diverge, store)
  end.

Definition head_router (path : string) : option (M S Empty_set (N * Body)) :=
  if bool_decide (path ∈ FULL_HEAD_PATHS) then Some (answer FullBody get_head_full)
  else if bool_decide (path = LEAN_V0_HEAD_PATH) then Some (answer RootBody get_head)
  else None.

End Head.

(** ** The recorder ([metrics/recorder.rs]) *)

Inductive MetricsError :=
| PrometheusError (source : string)
| ValueOutOfRange (name : string) (value : N)
| DuplicateMetric (name : string).

Inductive Collector {Histogram : Type} :=
| IntGauge (name help : string) (value : N)
| IntGaugeVec (name help label_name : string) (values : gmap string N)
| HistogramCollector (hist : Histogram).
#[global] Arguments Collector : clear implicits.

(** The prometheus crate. *)
Class Prometheus := {
  Histogram : Type;
  PromRegistry : Type;
  registry_new : PromRegistry;
  (** Buckets as they are written. *)
  histogram_with_opts : string -> string -> list string -> Histogram + string;
  (** The check of a descriptor: the error, if any. *)
  int_gauge_check : string -> string -> option string;
  int_gauge_vec_check : string -> string -> string -> option string;
  registry_register : Collector Histogram -> PromRegistry -> PromRegistry + string;
  (** [gather] and [encode_to_string]. *)
  encode_text : PromRegistry -> string + string;
}.

Section Metrics.
Context {prom : Prometheus} {W : Type}.
(** What other tasks do to the world before a provider reads it; the clock. *)
Variables (others : W -> W) (now : W -> N).

Inductive MetricDefinition :=
| Gauge (name help : string) (provider : W -> N)
| LabeledGauge (name help label_name : string) (provider : W -> list (string * N))
| HistogramMetric (name : string) (hist : Histogram).

Definition metric_name (self : MetricDefinition) : string :=
  match self with Gauge name _ _ | LabeledGauge name _ _ _ | HistogramMetric name _ => name end.

Definition recorder_gauge (name help : string) (provider : W -> N) (metrics : list MetricDefinition) : list MetricDefinition :=
  metrics ++ [Gauge name help provider].

Definition labeled_gauge (name help label_name : string) (provider : W -> list (string * N)) (metrics : list MetricDefinition) : list MetricDefinition :=
  metrics ++ [LabeledGauge name help label_name provider].

Definition recorder_histogram (name help : string) (buckets : list string) : M (list MetricDefinition) MetricsError Histogram := fun metrics =>
  match histogram_with_opts name help buckets with
  | inl hist => (Ok hist, metrics ++ [HistogramMetric name hist])
  | inr source => (Err (PrometheusError source), metrics)
  end.

Definition Recorder_new (start_time : N) : list MetricDefinition :=
  recorder_gauge "lean_node_start_time_seconds" "Unix timestamp when the Lean node process started." (fun _ => start_time)
    (recorder_gauge "lean_node_up" "Whether the Lean node process is up." (fun _ => 1) []).

Fixpoint freeze_loop (seen : gset string) (metrics : list MetricDefinition) : Outcome MetricsError unit :=
  match metrics with
  | [] => Ok tt
  | definition :: metrics =>
      let name := metric_name definition in
      if bool_decide (name ∈ seen) then Err (DuplicateMetric name) else freeze_loop ({[name]} ∪ seen) metrics
  end.

Definition freeze (metrics : list MetricDefinition) : Outcome MetricsError (list MetricDefinition) :=
  let? _ := freeze_loop ∅ metrics in Ok metrics.

Definition i64_max : N := 2 ^ 63 - 1.

Definition metric_value (name : string) (value : N) : Outcome MetricsError N :=
  if i64_max <? value then Err (ValueOutOfRange name value) else Ok value.

Definition prom_result {A} (r : A + string) : Outcome MetricsError A := match r with inl a => Ok a | inr source => Err (PrometheusError source) end.
Definition prom_check (r : option string) : Outcome MetricsError unit := match r with None => Ok tt | Some source => Err (PrometheusError source) end.

Definition register_gauge (registry : PromRegistry) (name help : string) (raw_value : N) : Outcome MetricsError PromRegistry :=
  let? value := metric_value name raw_value in
  let? _ := prom_check (int_gauge_check name help) in
  prom_result (registry_register (IntGauge name help value) registry).

Fixpoint set_samples (name : string) (samples : list (string * N)) (values : gmap string N) : Outcome MetricsError (gmap string N) :=
  match samples with
  | [] => Ok values
  | (label, raw_value) :: samples =>
      let? value := metric_value name raw_value in set_samples name samples (<[label := value]> values)
  end.

Definition register_labeled_gauge (registry : PromRegistry) (name help label_name : string) (samples : list (string * N))
    : Outcome MetricsError PromRegistry :=
  let? _ := prom_check (int_gauge_vec_check name help label_name) in
  let? values := set_samples name samples ∅ in
  prom_result (registry_register (IntGaugeVec name help label_name values) registry).

Definition metric_register (self : MetricDefinition) (registry : PromRegistry) : M W MetricsError PromRegistry := fun w =>
  match self with
  | Gauge name help provider => let w := others w in (register_gauge registry name help (provider w), w)
  | LabeledGauge name help label_name provider =>
      let w := others w in (register_labeled_gauge registry name help label_name (provider w), w)
  | HistogramMetric _ hist => (prom_result (registry_register (HistogramCollector hist) registry), w)
  end.

Fixpoint register_collectors (metrics : list MetricDefinition) (registry : PromRegistry) : M W MetricsError PromRegistry :=
  match metrics with
  | [] => mret registry
  | definition :: metrics => let! registry := metric_register definition registry in register_collectors metrics registry
  end.

(** [FrozenRecorder::encode]. *)
Definition recorder_encode (metrics : list MetricDefinition) : M W MetricsError string :=
  let! registry := register_collectors metrics registry_new in mlift (prom_result (encode_text registry)).

(** ** The cached scrape ([metrics/prometheus.rs]) *)

(** In nanoseconds. *)
Definition RENDER_CACHE_TTL : N := 1000000000.

Definition cache_hit (cache : option (N * string)) (time : N) : option string :=
  match cache with
  | Some (stamp, body) => if time - stamp <? RENDER_CACHE_TTL then Some body else None
  | None => None
  end.

(** The cell of the cache, and the world. *)
Definition render_cached (metrics : list MetricDefinition) : M (option (N * string) * W) MetricsError string := fun '(cache, w) =>
  match cache_hit cache (now w) with
  | Some body => (Ok body, (cache, w))
  | None =>
      match recorder_encode metrics w with
      | (Ok body, w) => (Ok body, (Some (now w, body), w))
      | (r, w) => (r, (cache, w))
      end
  end.

End Metrics.
#[global] Arguments MetricDefinition {prom} W.

(** ** The metrics of a devnet node ([devnet.rs]) *)

Section Devnet.
Context {prom : Prometheus} {W : Type}.
Variable engine_of : W -> Store.

Definition LATENCY_BUCKETS_SECONDS : list string :=
  ["0.001"; "0.005"; "0.01"; "0.025"; "0.05"; "0.1"; "0.25"; "0.5"; "1.0"; "2.0"; "4.0"]%string.

Definition register_chain_histograms : M (list (MetricDefinition W)) MetricsError (Histogram * Histogram) :=
  let buckets := LATENCY_BUCKETS_SECONDS in
  let! fork_choice_block_processing := recorder_histogram "lean_fork_choice_block_processing_time_seconds"
    "Wall time of the fork-choice head recompute (accept_new_votes) on the block-import path. Trigger for the incremental fork-choice and prune-below-finalized levers." buckets in
  let! state_transition := recorder_histogram "lean_state_transition_time_seconds"
    "Wall time of a full state transition per imported block, measured at the runtime boundary. Trigger for the per-block state-clone lever." buckets in
  mret (fork_choice_block_processing, state_transition).

Definition register_chain_gauges (recorder : list (MetricDefinition W)) : list (MetricDefinition W) :=
  let snapshot w := ChainSnapshot_from_engine (engine_of w) in
  recorder_gauge "lean_chain_finalized_slot" "Slot of the latest finalized checkpoint." (fun w => cp_slot (cs_latest_finalized (snapshot w)))
    (recorder_gauge "lean_chain_justified_slot" "Slot of the latest justified checkpoint." (fun w => cp_slot (cs_latest_justified (snapshot w)))
      (recorder_gauge "lean_chain_slot" "Current forkchoice slot (clock)." (fun w => cs_current_slot (snapshot w)) recorder)).

(** The recorder of [new_devnet], frozen. *)
Definition devnet_recorder (start_time : N) : Outcome MetricsError (list (MetricDefinition W)) :=
  let '(r, recorder) := register_chain_histograms (Recorder_new start_time) in
  let? _ := r in freeze (register_chain_gauges recorder).

End Devnet.

(** ** The head that is served *)

Section Served.
Context {sha : Sha256} {ls : LeanSig} {T S : Type} {db : ChainStore S}.
Context {rep : S -> Inner -> Prop} {fails : Prop} {signer_inv : T -> Prop} {refines : StoreRefines S rep fails}.

(** The root that a body shows, and the slot if it shows one. *)
Definition shows (body : Body) (root : Bytes32) (slot : Slot) : Prop :=
  match body with
  | RootBody dto => bv_try_from_hex 32 (hr_head dto) = Ok root
  | FullBody dto => bv_try_from_hex 32 (cd_root (hd_head dto)) = Ok root /\ cd_slot (hd_head dto) = slot
  | ErrorBody _ => False
  end.

Lemma load_head_cases engine c s : rep s c -> db_sound engine c ->
  exists s', rep s' c /\
    ((exists info, load_head s = (Ok info, s') /\ head_tracked engine (hi_head info)) \/
     (exists e, load_head s = (Err (HttpStorage e), s') /\ (fails \/ head_disordered c))).
Proof.
  intros Hrep Hdb. destruct (ds_head _ _ Hdb) as (info & Hi & Ht). pose proof (load_head_law s c Hrep) as Hl.
  unfold load_head. destruct (db_load_head s) as [[r|e| |] s']; try done.
  - destruct Hl as [-> Hr]. rewrite Hi. exists s'. split; [done|]. left. by exists info.
  - destruct Hl as [Hr Hf]. exists s'. split; [done|]. right. by exists e.
Qed.

(** C29. A running node answers on every head path.  Whatever calls it has served, the
    answer is 200 with the root of a block the engine tracks, written so that it
    parses back, and on the full paths with the slot of that block; or it is 500, and
    only if the store failed or its head record is disordered.  It is never 404. *)
Theorem head_served anchor vs (w : World (T:=T) (S:=S) (ls:=ls)) path handler :
  world_inv (rep:=rep) (signer_inv:=signer_inv) anchor vs w -> head_router path = Some handler ->
  let '(engine, (_, s)) := w_service w in
  exists status body s', handler s = (Ok (status, body), s') /\
    ((status = 200 /\ exists root block, s_blocks engine !! root = Some block /\ shows body root (b_slot block)) \/
     (status = 500 /\ (fails \/ exists c, rep s c /\ head_disordered c))).
Proof.
  unfold world_inv. destruct (w_service w) as [engine [t s]]. intros (_ & _ & _ & _ & c & Hrep & Hdb & _) Hroute.
  destruct (load_head_cases engine c s Hrep Hdb) as (s' & Hrep' & [(info & Hl & block & Hb & Hs)|(e & Hl & Hf)]).
  - destruct (to_hex_round_trip 32) as [Hhex _].
    unfold head_router in Hroute. repeat case_bool_decide; simplify_eq; unfold answer, get_head, get_head_full, mbind; rewrite Hl;
      (eexists _, _, s'; split; [reflexivity|]; left; split; [done|]; exists (cp_root (hi_head info)), block; split; [done|]; first [exact (Hhex _)|split; [exact (Hhex _)|exact (eq_sym Hs)]|split; [exact (Hhex _)|exact Hs]]).
  - unfold head_router in Hroute. repeat case_bool_decide; simplify_eq; unfold answer, get_head, get_head_full, mbind; rewrite Hl;
      (eexists _, _, s'; split; [reflexivity|]; right; split; [done|]; destruct Hf as [|Hf]; [by left|right; by exists c]).
Qed.

End Served.

(** ** Scrapes *)

Definition collector_name {prom : Prometheus} (hist_name : Histogram -> string) (c : Collector Histogram) : string :=
  match c with IntGauge name _ _ | IntGaugeVec name _ _ _ => name | HistogramCollector hist => hist_name hist end.

(** What the crate documents: a histogram has the name it was made with, and a
    registry takes every collector whose name it does not have. *)
Class PrometheusLaws (prom : Prometheus) := {
  hist_name : Histogram -> string;
  registry_view : PromRegistry -> list (Collector Histogram);
  histogram_named : forall name help buckets hist, histogram_with_opts name help buckets = inl hist -> hist_name hist = name;
  view_new : registry_view registry_new = [];
  register_new : forall c registry, collector_name hist_name c ∉ (collector_name hist_name <$> registry_view registry) ->
    exists registry', registry_register c registry = inl registry' /\ registry_view registry' = registry_view registry ++ [c];
  encode_total : forall registry, exists text, encode_text registry = inl text;
}.

Section Scrapes.
Context {prom : Prometheus} {laws : PrometheusLaws prom} {W : Type}.
Variables (others : W -> W) (now : W -> N).

(** What the definitions export, read one after the other. *)
Fixpoint samples (metrics : list (MetricDefinition W)) (w : W) : list (Collector Histogram) :=
  match metrics with
  | [] => []
  | Gauge name help provider :: metrics => let w := others w in IntGauge name help (provider w) :: samples metrics w
  | LabeledGauge name help label_name provider :: metrics =>
      let w := others w in
      IntGaugeVec name help label_name (foldl (fun values '(label, value) => <[label := value]> values) ∅ (provider w)) :: samples metrics w
  | HistogramMetric _ hist :: metrics => HistogramCollector hist :: samples metrics w
  end.

Definition descriptor_ok (metric : MetricDefinition W) : Prop :=
  match metric with
  | Gauge name help _ => int_gauge_check name help = None
  | LabeledGauge name help label_name _ => int_gauge_vec_check name help label_name = None
  | HistogramMetric name hist => hist_name hist = name
  end.

Lemma set_samples_cases name samples values :
  set_samples name samples values = Ok (foldl (fun values '(label, value) => <[label := value]> values) values samples) \/
  exists value, set_samples name samples values = Err (ValueOutOfRange name value).
Proof.
  revert values. induction samples as [|[label value] samples IH]; intros values; [by left|]. cbn [set_samples foldl]. unfold metric_value.
  destruct (_ <? _); [right; by eexists|]. apply IH.
Qed.

Lemma register_one metric registry w : descriptor_ok metric ->
  metric_name metric ∉ (collector_name hist_name <$> registry_view registry) ->
  exists r w', metric_register others metric registry w = (r, w') /\
    ((exists c registry', r = Ok registry' /\ registry_view registry' = registry_view registry ++ [c] /\
        collector_name hist_name c = metric_name metric /\ forall metrics, samples (metric :: metrics) w = c :: samples metrics w') \/
     exists value, r = Err (ValueOutOfRange (metric_name metric) value)).
Proof.
  destruct metric as [name help p|name help label p|name hist]; cbn [descriptor_ok metric_name metric_register samples]; intros Hd Hn.
  - eexists _, _. split; [reflexivity|]. unfold register_gauge, metric_value. destruct (_ <? _); [right; by eexists|]. cbn [obind].
    rewrite Hd. cbn [prom_check obind]. destruct (register_new (IntGauge name help (p (others w))) registry Hn) as (registry' & -> & Hv).
    left. eexists _, registry'. by split_and!.
  - eexists _, _. split; [reflexivity|]. unfold register_labeled_gauge. rewrite Hd. cbn [prom_check obind].
    destruct (set_samples_cases name (p (others w)) ∅) as [->|[value ->]]; [|right; by eexists]. cbn [obind].
    match goal with |- context [IntGaugeVec _ _ _ ?v] => destruct (register_new (IntGaugeVec name help label v) registry Hn) as (registry' & -> & Hv) end.
    left. eexists _, registry'. by split_and!.
  - eexists _, _. split; [reflexivity|]. destruct (register_new (HistogramCollector hist) registry) as (registry' & -> & Hv); [cbn; by rewrite Hd|].
    left. eexists _, registry'. by split_and!.
Qed.

Lemma register_all metrics registry w :
  Forall descriptor_ok metrics -> NoDup ((collector_name hist_name <$> registry_view registry) ++ (metric_name <$> metrics)) ->
  exists r w', register_collectors others metrics registry w = (r, w') /\
    ((exists registry', r = Ok registry' /\ registry_view registry' = registry_view registry ++ samples metrics w) \/
     exists name value, r = Err (ValueOutOfRange name value)).
Proof.
  revert registry w. induction metrics as [|metric metrics IH]; intros registry w Hd Hnd.
  { eexists _, _. split; [reflexivity|]. left. eexists. split; [done|]. cbn. by rewrite app_nil_r. }
  apply Forall_cons in Hd as [Hm Hd]. rewrite fmap_cons in Hnd. cbn [register_collectors].
  destruct (register_one metric registry w Hm) as (r & w1 & E & Hr).
  { intros Hin. apply NoDup_app in Hnd as (_ & Hdis & _). apply (Hdis _ Hin). by left. }
  unfold mbind. rewrite E. destruct Hr as [(c & registry' & -> & Hv & Hc & Hs)|[value ->]]; [|eexists _, w1; split; [done|]; right; by eexists _, _].
  destruct (IH registry' w1 Hd) as (r' & w2 & -> & Hr').
  { rewrite Hv, fmap_app. cbn. rewrite <- app_assoc, Hc. exact Hnd. }
  eexists r', w2. split; [done|]. destruct Hr' as [(registry2 & -> & Hv2)|He]; [left|by right].
  exists registry2. split; [done|]. by rewrite Hv2, Hv, <- app_assoc, Hs.
Qed.

Lemma freeze_NoDup seen metrics : freeze_loop (W:=W) seen metrics = Ok tt <-> NoDup (metric_name <$> metrics) /\ forall m, m ∈ metrics -> metric_name m ∉ seen.
Proof.
  revert seen. induction metrics as [|m metrics IH]; intros seen; cbn [freeze_loop].
  { split; [split; [constructor|by intros m ?%elem_of_nil]|done]. }
  case_bool_decide as Hin.
  - split; [done|]. intros [_ Hall]. destruct (Hall m); [by left|done].
  - rewrite IH, fmap_cons, NoDup_cons. split.
    + intros [Hnd Hall]. split_and!; [|done|intros x [->|Hx]%elem_of_cons; [done|specialize (Hall x Hx); set_solver]].
      intros (x & Hx & Hxin)%list_elem_of_fmap. apply (Hall x Hxin). set_solver.
    + intros [[Hm Hnd] Hall]. split; [done|]. intros x Hx. apply not_elem_of_union. split; [|apply Hall; by right].
      intros Heq%elem_of_singleton. apply Hm, list_elem_of_fmap. by exists x.
Qed.


(** ** How often a scrape renders *)

(** Requests, each after some activity; the count of those that rendered a new text. *)
Fixpoint scrape_run (metrics : list (MetricDefinition W)) (requests : list (W -> W)) (st : option (N * string) * W) : N * (option (N * string) * W) :=
  match requests with
  | [] => (0, st)
  | activity :: requests =>
      let '(cache, w) := (st.1, activity st.2) in
      let '(r, st) := render_cached others now metrics (cache, w) in
      let rendered := match cache_hit cache (now w), r with None, Ok _ => 1 | _, _ => 0 end in
      let '(n, st) := scrape_run metrics requests st in (rendered + n, st)
  end.

Definition time_passes (activity : W -> W) : Prop := forall w, now w <= now (activity w).

Lemma encode_time metrics w : time_passes others -> now w <= now (recorder_encode others metrics w).2.
Proof.
  intros Ho. unfold recorder_encode. assert (H : forall registry, now w <= now (register_collectors others metrics registry w).2).
  { revert w. induction metrics as [|m metrics IH]; intros w registry; cbn [register_collectors]; [done|]. unfold mbind.
    assert (Hm : now w <= now (metric_register others m registry w).2) by (destruct m; cbn; [apply Ho|apply Ho|done]).
    destruct (metric_register others m registry w) as [[registry'|e| |] w1]; cbn in *; [|done..]. etrans; [exact Hm|apply IH]. }
  specialize (H registry_new). unfold mbind. destruct (register_collectors others metrics registry_new w) as [[]?]; done.
Qed.

(** However often the endpoint is asked and whatever else goes on, it renders a new
    text at most once per second: as many times as there are whole seconds since the
    last text, and once more if there was none. *)
Theorem renders_bounded metrics requests cache w n cache' w' :
  time_passes others -> Forall time_passes requests -> (forall stamp body, cache = Some (stamp, body) -> stamp <= now w) ->
  scrape_run metrics requests (cache, w) = (n, (cache', w')) ->
  n * RENDER_CACHE_TTL <= match cache with Some (stamp, _) => now w' - stamp | None => RENDER_CACHE_TTL + (now w' - now w) end.
Proof.
  intros Ho Hall. cut ((forall stamp body, cache = Some (stamp, body) -> stamp <= now w) -> scrape_run metrics requests (cache, w) = (n, (cache', w')) ->
    now w <= now w' /\ n * RENDER_CACHE_TTL <= match cache with Some (stamp, _) => now w' - stamp | None => RENDER_CACHE_TTL + (now w' - now w) end).
  { intros H Hs Hr. by apply H. }
  revert cache w n. induction Hall as [|activity requests Ha _ IH]; intros cache w n Hs; cbn [scrape_run].
  { intros [= <- <- <-]. split; [done|]. destruct cache as [[]|]; lia. }
  cbn [fst snd]. specialize (Ha w). set (w1 := activity w) in *. unfold render_cached.
  destruct (cache_hit cache (now w1)) as [body|] eqn:Hhit.
  - destruct (scrape_run metrics requests (cache, w1)) as [m [c2 w2]] eqn:E. intros [= <- <- <-].
    destruct (IH cache w1 m) as [Ht Hb]; [intros stamp b Hc; specialize (Hs stamp b Hc); lia|done|]. split; [lia|].
    destruct cache as [[]|]; lia.
  - pose proof (encode_time metrics w1 Ho) as He. destruct (recorder_encode others metrics w1) as [r w2]. cbn in He.
    assert (Hold : forall stamp body, cache = Some (stamp, body) -> stamp + RENDER_CACHE_TTL <= now w1).
    { intros stamp body ->. specialize (Hs stamp body eq_refl). unfold cache_hit in Hhit.
      destruct (N.ltb_spec (now w1 - stamp) RENDER_CACHE_TTL); [done|]. unfold RENDER_CACHE_TTL in *. lia. }
    assert (Hsame : (let '(n, st) := scrape_run metrics requests (cache, w2) in (0 + n, st)) = (n, (cache', w')) ->
      now w <= now w' /\ n * RENDER_CACHE_TTL <= match cache with Some (stamp, _) => now w' - stamp | None => RENDER_CACHE_TTL + (now w' - now w) end).
    { destruct (scrape_run metrics requests (cache, w2)) as [m [c3 w3]] eqn:E. cbv beta iota zeta. intros [= <- <- <-].
      destruct (IH cache w2 m) as [Ht Hb]; [intros stamp b Hc; specialize (Hs stamp b Hc); lia|done|]. split; [lia|]. destruct cache as [[]|]; lia. }
    destruct r as [text|e| |].
    + clear Hsame. destruct (scrape_run metrics requests _) as [m [c3 w3]] eqn:E. intros [= <- <- <-].
      destruct (IH (Some (now w2, text)) w2 m) as [Ht Hb]; [by intros stamp b [= <- <-]|done|]. split; [lia|].
      destruct cache as [[stamp body]|]; [specialize (Hold stamp body eq_refl)|]; lia.
    + by apply Hsame.
    + by apply Hsame.
    + by apply Hsame.
Qed.

End Scrapes.

(** ** Concrete endpoints *)

Module ApiExample.
#[local] Existing Instances marked_sha256 order_forward order_forward_laws ToyScheme.scheme ToyScheme.wire ToyScheme.scheme_laws.

Lemma head_served_witness : exists (s1 : Inner) status body s',
  answer FullBody get_head_full s1 = (Ok (status, body), s') /\ (status = 200 \/ status = 500).
Proof.
  destruct ex_world_inv as (s1 & vs & Hw). exists s1.
  destruct (head_served (refines:=memory_refines) (hash_tree_root ex_anchor) vs _ LEAN_V0_HEAD_FULL_PATH
    (answer FullBody get_head_full) Hw eq_refl) as (status & body & s' & E & H).
  exists status, body, s'. split; [exact E|]. destruct H as [[H _]|[H _]]; [left|right]; exact H.
Defined.

(** A registry that keeps its collectors; every descriptor is good. *)
#[export] Instance prom : Prometheus := {|
  Histogram := string;
  PromRegistry := list (Collector string);
  registry_new := [];
  histogram_with_opts := fun name _ _ => inl name;
  int_gauge_check := fun _ _ => None;
  int_gauge_vec_check := fun _ _ _ => None;
  registry_register := fun c registry => inl (registry ++ [c]);
  encode_text := fun registry => inl "text"%string;
|}.

#[export] Instance prom_laws : PrometheusLaws prom.
Proof.
  refine {| hist_name := fun hist : @Histogram prom => hist; registry_view := fun registry : @PromRegistry prom => registry |}.
  - by intros name help buckets hist [= <-].
  - done.
  - intros c registry _. by eexists.
  - intros registry. by eexists.
Defined.

(** A scrape of the devnet recorder, while another task advances the clock. *)
Definition clock_tick (engine : Store) : Store := set_time (s_time engine + 4) engine.

Definition ex_recorder : list (MetricDefinition Store) :=
  let recorder := (register_chain_histograms (W:=Store) (Recorder_new 1700000000)).2 in register_chain_gauges (fun engine => engine) recorder.

Lemma freeze_accepts {W} (metrics : list (MetricDefinition W)) : is_ok (freeze_loop ∅ metrics) = true -> freeze metrics = Ok metrics.
Proof. unfold freeze. by destruct (freeze_loop ∅ metrics) as [[]| | |]. Qed.

Lemma ex_recorder_frozen : freeze ex_recorder = Ok ex_recorder.
Proof. apply freeze_accepts. vm_compute. reflexivity. Qed.

Lemma ex_scrape_ok : is_ok (recorder_encode clock_tick ex_recorder ex_store).1 = true.
Proof. vm_compute. reflexivity. Qed.

Lemma ex_descriptors : Forall descriptor_ok ex_recorder.
Proof. repeat constructor. Qed.


Lemma renders_bounded_witness :
  exists n cache w', scrape_run (W:=N) id id [] [N.add 500000000; N.add 400000000; N.add 700000000] (None, 0) = (n, (cache, w')) /\
    n * RENDER_CACHE_TTL <= RENDER_CACHE_TTL + (w' - 0).
Proof.
  destruct (scrape_run (W:=N) id id [] [N.add 500000000; N.add 400000000; N.add 700000000] (None, 0)) as [n [cache w']] eqn:E.
  exists n, cache, w'. split; [done|].
  apply (renders_bounded id id [] [N.add 500000000; N.add 400000000; N.add 700000000] None 0 n cache w'); [by intros w| |by intros stamp body|exact E].
  repeat constructor; intros w; unfold id; lia.
Defined.

(** A peer that produced a block in slot 1, has the votes of the three validators for
    it, and produced a block with these votes in slot 2. *)
Definition vote_for (v : N) (cp : Checkpoint) : SignedAttestation :=
  mkSignedAttestation (mkAttestation v (mkAttestationData 1 cp cp ex_checkpoint)) (bv_zero 3116).

Definition peer_votes : Store :=
  let s := (produce_block 1 1 ex_store).2 in
  let cp := mkCheckpoint (hash_tree_root ex_block) 1 in
  fold_left (fun s v => (process_attestation (vote_for v cp) true s).2) [0; 1; 2] s.

Definition ahead_signed : SignedBlockWithAttestation :=
  mkSignedBlockWithAttestation (mkBlockWithAttestation (block_of (produce_block 2 2 peer_votes)) (sa_message ex_vote)) (mkBlockSignatures []).

(** A node at genesis that imports the two blocks while it synchronises. *)
Definition synced : Store :=
  fold_left (fun s sb => (import_block_synced_capturing (CryptoError:=unit) None sb s).2) [ex_signed; ahead_signed] ex_store.

Definition synced_accepted : bool :=
  let '(r1, s1) := import_block_synced_capturing (CryptoError:=unit) None ex_signed ex_store in
  accepted r1 && accepted (import_block_synced_capturing (CryptoError:=unit) None ahead_signed s1).1.


End ApiExample.
