(* ===== verification/Devnet.v ===== *)
(** * The devnet node ([node/src/devnet.rs])

    The composition root: the store of the configured backend behind one interface
    (the [dyn Store] of the code), the engine resumed or anchored, the local
    validators, their signer behind the guard, the p2p host, the consensus loop, the
    recorder, and the node that holds them.

    Shown: a node that [new_devnet] builds has local validators with loaded keys and a
    durable store, so an observer cannot be built and the in-memory backend is never
    accepted ([devnet_validates]); and its engine, store and signer are as the theorems
    of the chain service and the loop need them ([devnet_built]). *)

From stdpp Require Import base numbers list gmap sets strings.
From Stdlib Require Import Strings.Byte ZArith Lia.
From S2P Require Import Prelude Config Types Merkle Codec Slot Containers State Stf StfInv Ancestry Ghost Store StoreInv Production ProductionInv Engine EngineInv Ots Storage Wire Signer Duties Host Lifecycle Services Chain ChainInv P2p SwarmTask Sync Loop LoopInv Api.

(** ** The store of either backend *)

Section Backend.
Context {redb : Redb} {eth : EthSsz} (ssz_display : SszError -> string).

(** [Arc<dyn Store>]. *)
Inductive DynStore := DynMemory (store : Inner) | DynRedb (db : Database).

Definition dyn {A} (memory : M Inner StorageError A) (persistent : M Database StorageError A) : M DynStore StorageError A := fun s =>
  match s with
  | DynMemory store => let '(r, store) := memory store in (r, DynMemory store)
  | DynRedb db => let '(r, db) := persistent db in (r, DynRedb db)
  end.

#[local] Instance redb_chain_store : ChainStore Database := RedbStore_ChainStore ssz_display.

Definition DynStore_WatermarkStore : WatermarkStore DynStore := {|
  save_ots_key_state := fun v wm => dyn (save_ots_key_state v wm) (save_ots_key_state v wm);
  load_ots_key_state := fun v => dyn (load_ots_key_state v) (load_ots_key_state v);
|}.

Definition DynStore_ChainStore : ChainStore DynStore := {|
  db_watermarks := DynStore_WatermarkStore;
  db_save_block := fun root block => dyn (db_save_block root block) (db_save_block root block);
  db_save_state := fun root state => dyn (db_save_state root state) (db_save_state root state);
  db_save_head := fun info => dyn (db_save_head info) (db_save_head info);
  db_save_accepted := fun root block state info => dyn (db_save_accepted root block state info) (db_save_accepted root block state info);
  db_has_block := fun root => dyn (db_has_block root) (db_has_block root);
  db_has_state := fun root => dyn (db_has_state root) (db_has_state root);
  db_load_block := fun root => dyn (db_load_block root) (db_load_block root);
  db_load_state := fun root => dyn (db_load_state root) (db_load_state root);
  db_load_head := dyn db_load_head db_load_head;
|}.

Context {laws : RedbLaws redb} {eth_laws : EthSszLaws}.

Definition dyn_rep (s : DynStore) (c : Inner) : Prop :=
  match s with DynMemory store => store = c | DynRedb db => redb_rep db c end.

Lemma dyn_written (m : M Inner StorageError unit) (p : M Database StorageError unit) s c c' :
  (forall i, i = c -> written eq False c c' (m i)) -> (forall d, redb_rep d c -> written redb_rep (redb_fails redb) c c' (p d)) ->
  dyn_rep s c -> written dyn_rep (redb_fails redb) c c' (dyn m p s).
Proof.
  intros Hm Hp. destruct s as [i|d]; cbn; intros Hr.
  - specialize (Hm i Hr). destruct (m i) as [[]]; naive_solver.
  - specialize (Hp d Hr). destruct (p d) as [[]]; done.
Qed.

Lemma dyn_answered {A} (m : M Inner StorageError A) (p : M Database StorageError A) s c a (mf pf : Prop) : (mf -> pf) ->
  (forall i, i = c -> answered eq mf c a (m i)) -> (forall d, redb_rep d c -> answered redb_rep pf c a (p d)) ->
  dyn_rep s c -> answered dyn_rep pf c a (dyn m p s).
Proof.
  intros Hf Hm Hp. destruct s as [i|d]; cbn; intros Hr.
  - specialize (Hm i Hr). destruct (m i) as [[]]; naive_solver.
  - specialize (Hp d Hr). destruct (p d) as [[]]; done.
Qed.

(** Both backends keep the contract of a store, and so does the one behind the
    interface. *)
Lemma dyn_refines : @StoreRefines DynStore DynStore_ChainStore dyn_rep (redb_fails redb).
Proof.
  pose proof (redb_refines ssz_display) as Hr. pose proof memory_refines as Hm.
  split; intros s c; intros.
  - apply dyn_written; [intros; by apply save_block_law|intros; by apply save_block_law|done].
  - apply dyn_written; [intros; by apply save_state_law|intros; by apply save_state_law|done].
  - apply dyn_written; [intros; by apply save_head_law|intros; by apply save_head_law|done].
  - apply dyn_written; [intros; by apply save_accepted_law|intros; by apply save_accepted_law|done].
  - apply dyn_written; [by intros ? ->|intros; by apply save_ots_law|done].
  - eapply dyn_answered; [|intros; by apply has_block_law|intros; by apply has_block_law|done]. done.
  - eapply dyn_answered; [|intros; by apply has_state_law|intros; by apply has_state_law|done]. done.
  - eapply dyn_answered; [|intros; by apply load_block_law|intros; by apply load_block_law|done]. done.
  - eapply dyn_answered; [|intros; by apply load_state_law|intros; by apply load_state_law|done]. done.
  - eapply dyn_answered; [|intros; by apply load_head_law|intros; by apply load_head_law|done]. naive_solver.
  - eapply (dyn_answered _ _ _ _ _ False); [done|by intros ? ->|intros; by apply load_ots_law|done].
Qed.

End Backend.

(** ** Loading keys over a store *)

Section Loading.
Context {sha : Sha256} {ls : LeanSig} {sw : SchemeWire} {sig_laws : LeanSigLaws} {S : Type} {db : ChainStore S}.
Context {rep : S -> Inner -> Prop} {fails : Prop} {refines : StoreRefines S rep fails}.

(** Watermarks over a fixed chain. *)
Definition watermarks_over (c : Inner) (s : S) (m : gmap ValidatorIndex OtsWatermark) : Prop :=
  exists c', rep s c' /\ in_ots c' = m /\ same_chain c c'.

#[local] Instance watermarks_over_refines c : WatermarkRefines S (watermarks_over c).
Proof.
  split.
  - intros s m v wm (c' & Hr & <- & Hc) Hw. pose proof (save_ots_law s c' v wm Hr Hw) as Hs. unfold written in Hs.
    destruct (save_ots_key_state v wm s) as [[] s']; try done; [by exists (put_ots v wm c')|].
    destruct Hs as [_ [Hs|Hs]]; [left; by exists c'|right; by exists (put_ots v wm c')].
  - intros s m v (c' & Hr & <- & Hc). pose proof (load_ots_law s c' v Hr) as Hs. unfold answered in Hs.
    destruct (load_ots_key_state v s) as [[] s']; try done; [split; [apply Hs|]|]; exists c'; by destruct Hs.
Qed.

Lemma load_loop_keys (fs_read : string -> list u8 + string) dir resolve indices : forall keys (s : S) signer s',
  load_loop fs_read dir resolve indices keys s = (Ok signer, s') ->
  forall v, v ∈ indices \/ is_Some (keys !! v) -> is_Some (ls_keys signer !! v).
Proof.
  induction indices as [|index indices IH]; intros keys s signer s'; cbn [load_loop].
  { intros [= <- <-] v [?%elem_of_nil|?]; done. }
  intros (file & s1 & _ & H)%mbind_Ok_split. apply mbind_Ok_split in H as (record & s2 & _ & H).
  apply mbind_Ok_split in H as (key & s3 & _ & H). intros v Hv. apply (IH _ _ _ _ H). rewrite lookup_insert_is_Some'. set_solver.
Qed.

(** Keys that load are at or above the watermarks of the store, which stays as it is. *)
Lemma load_resuming_keeps fs_read dir indices s c : rep s c ->
  exists res s', load_resuming fs_read dir indices s = (res, s') /\ rep s' c /\
    forall signer, res = Ok signer -> keys_ahead (in_ots c) signer /\ forall v, v ∈ indices -> is_Some (ls_keys signer !! v).
Proof.
  intros Hr. unfold load_resuming, load_with.
  destruct (load_loop_ahead (rep:=watermarks_over c) fs_read dir indices ∅ s (in_ots c)) as (res & s' & E & (c' & Hr' & Ho & H1 & H2 & H3) & Ha);
    [by exists c|by intros v k|].
  exists res, s'. split_and!; [exact E| |].
  - assert (c' = c) as -> by (destruct c, c'; cbn in *; congruence). done.
  - intros signer ->. split; [by apply Ha|]. intros v Hv. eapply (load_loop_keys _ _ _ _ _ _ _ _ E). by left.
Qed.

End Loading.

(** ** The composition *)

Section Devnet.
Context {lib : HostLib} {F : Type} {fs : HostFs F} {yaml : Yaml} {prom : Prometheus}.
Context {sha : Sha256} {o : HashOrder} {ls : LeanSig} {sw : SchemeWire} {eth : EthSsz} {redb : Redb}.
Variables (ssz_display : SszError -> string) (manifest_dir : string).
(** [Database::create]; later changes of the database are its own. *)
Variable database_create : string -> F -> (Database + string) * F.
(** What the gauges read of the running node. *)
Context {W : Type}.
Variable engine_of : W -> Store.

#[local] Instance dyn_store : ChainStore DynStore := DynStore_ChainStore ssz_display.

(** Address and port. *)
Definition SocketAddr : Type := string * N.

Record DevnetConfig := mkDevnetConfig {
  dn_shutdown_timeout : N;
  dn_p2p : HostOptions;
  dn_duties : DutiesConfig;
  dn_http_addr : SocketAddr;
  dn_metrics_addr : SocketAddr;
  dn_genesis_state : State;
  dn_genesis_block : Block;
  dn_storage : StorageKind;
  dn_validator_secrets_dir : option string;
}.

(** The readings of the clocks while the node is built. *)
Record Clocks := mkClocks { ck_start_time : N; ck_wall : N; ck_instant : N }.

Inductive DevnetError :=
| DevnetStorage (e : StorageError)
| DevnetMetrics (e : MetricsError)
| DevnetStart (e : StartError (ls:=ls))
| DevnetValidators (e : ResolveError)
| DevnetHostError (e : HostError)
| DevnetDuties (e : DutiesError).

Definition with_error {St E E' A} (f : E -> E') (c : M St E A) : M St E' A := fun s => let '(r, s) := c s in (omap_err f r, s).

(** [RedbStore::new]. *)
Definition redb_open (path : string) : M F StorageError DynStore := fun f =>
  match create_parent path f with
  | (Some (_, source), f) => (Err (Backend (io_text source)), f)
  | (None, f) =>
      match database_create path f with
      | (inr err, f) => (Err (Backend err), f)
      | (inl db, f) => let '(r, db) := RedbStore_new db in ((let? _ := r in Ok (DynRedb db)), f)
      end
  end.

Definition build_store (kind : StorageKind) : M F StorageError DynStore :=
  match kind with
  | Memory => mret (DynMemory Inner_default)
  | Persistent path => redb_open path
  end.

(** The services a [Node] holds, and what they hold.  No verifier is injected. *)
Record Devnet := mkDevnet {
  dv_node : Node DevnetSvc;
  dv_services : ServicesState;
  dv_chain : Service (T:=LocalSigner) (S:=DynStore);
  dv_verifier : option (Verifier CryptoError);
  dv_provider : RpcProvider;
  dv_sync : SyncConfig;
  dv_driver : ConsensusLoop;
  dv_http_addr : SocketAddr;
  dv_metrics_addr : SocketAddr;
  dv_metrics : list (MetricDefinition W);
}.

Definition file_bytes (f : F) (path : string) : list u8 + string :=
  match fs_read path f with inl bytes => inl bytes | inr source => inr (io_text source) end.

Definition new_devnet (clocks : Clocks) (config : DevnetConfig) : M F DevnetError Devnet :=
  let! store := with_error DevnetStorage (build_store (dn_storage config)) in
  let '(histograms, recorder) := register_chain_histograms (Recorder_new (ck_start_time clocks)) in
  let! _ := mlift (omap_err DevnetMetrics histograms) in
  let '(engine, store) := build_engine (ls:=ls) (dn_genesis_state config) (dn_genesis_block config) store in
  let! engine := mlift (omap_err DevnetStart engine) in
  let! validators := fun f =>
    (omap_err DevnetValidators (resolve_local_validators (fun path => fs_read path f) manifest_dir (dn_duties config)), f) in
  let! (signer, store) := fun f =>
    let '(signer, store) := start_signer (file_bytes f) (dn_storage config) (lv_local validators) (dn_validator_secrets_dir config) store in
    ((let? signer := omap_err DevnetStart signer in Ok (signer, store)), f) in
  let! host := with_error DevnetHostError (build_with_provider (dn_p2p config)) in
  let! driver := mlift (omap_err DevnetDuties (ConsensusLoop_new (dn_duties config) validators (ck_wall clocks) (ck_instant clocks))) in
  let! metrics := mlift (omap_err DevnetMetrics (freeze (register_chain_gauges engine_of recorder))) in
  mret (mkDevnet (devnet_node (dn_shutdown_timeout config)) (devnet_services host) (engine, (signer, store)) None ProviderChain
          SyncConfig_default driver (dn_http_addr config) (dn_metrics_addr config) metrics).

(** ** What is built *)

Lemma assign_groups_nonempty raw a a' : assign_groups raw a = Ok a' -> Forall (fun '(_, indices) => indices <> []) raw.
Proof.
  revert a. induction raw as [|[name indices] raw IH]; intros a; cbn [assign_groups]; [constructor|].
  destruct (is_blank name); [done|]. destruct (N.eqb_spec (len indices) 0) as [|Hn]; [done|]. intros (a1 & _ & Ha)%obind_Ok_inv.
  constructor; [|by eapply IH]. by intros ->.
Qed.

(** A configuration never resolves to an empty set of validators. *)
Lemma resolve_local_Ok (file_read : string -> list u8 + IoError) duties validators :
  resolve_local_validators file_read manifest_dir duties = Ok validators ->
  lv_local validators <> [] /\ Forall (fun v => v < lv_total validators) (lv_local validators) /\ lv_total validators < u64_bound.
Proof.
  unfold resolve_local_validators. intros (a & Ha & H)%obind_Ok_inv. apply obind_Ok_inv in H as (local & Hg & [= <-]). cbn [lv_local lv_total].
  destruct (assignments_load file_read manifest_dir (dc_validators_path duties)) as [a'| | |] eqn:Hl; [|done..]. injection Ha as ->.
  unfold assignments_load in Hl. case_bool_decide; [done|]. apply obind_Ok_inv in Hl as (bytes & _ & Hl). apply obind_Ok_inv in Hl as (raw & _ & Hc).
  destruct (from_canonical_partition raw a Hc) as (Hraw & _ & Hp).
  assert (Hin : exists name, (name, local) ∈ raw).
  { rewrite <- Hraw. unfold assignments_group in Hg. destruct (find_group (va_groups a) (dc_validator_group duties)) as [l|] eqn:Hf; [|done].
    injection Hg as ->. clear -Hf. induction (va_groups a) as [|[name indices] groups IH]; [done|]. cbn in Hf.
    case_bool_decide; [injection Hf as ->; exists name; by left|]. destruct (IH Hf) as [n Hn]. exists n. by right. }
  destruct Hin as [name Hin]. unfold from_canonical in Hc. destruct (len raw =? 0); [done|]. apply obind_Ok_inv in Hc as (g & Hg' & Hc).
  split_and!.
  - apply assign_groups_nonempty in Hg'. rewrite Forall_forall in Hg'. exact (Hg' _ Hin).
  - apply Forall_forall. intros v Hv. assert (Hr : v ∈ concat raw.*2).
    { apply elem_of_concat. exists local. split; [done|]. apply list_elem_of_fmap. by exists (name, local). }
    rewrite Hp in Hr. apply elem_of_range in Hr. lia.
  - case_bool_decide as Ht; [|done]. injection Hc as <-. cbn. unfold checked_add in Ht. destruct (N.ltb_spec (ag_max_index g + 1) u64_bound); [|done].
    injection Ht as <-. done.
Qed.

Lemma with_error_Ok {St E E' A} (g : E -> E') (c : M St E A) s a s' : with_error g c s = (Ok a, s') -> c s = (Ok a, s').
Proof. unfold with_error. destruct (c s) as [[]]; intros [=]; by subst. Qed.

Lemma omap_err_Ok {E E' A} (g : E -> E') (r : Outcome E A) a : omap_err g r = Ok a -> r = Ok a.
Proof. by destruct r; intros [= <-]. Qed.

Lemma mlift_Ok {St E A} (r : Outcome E A) (s : St) a s' : mlift r s = (Ok a, s') -> r = Ok a /\ s' = s.
Proof. unfold mlift. by intros [= -> ->]. Qed.

(** The steps of a construction that succeeds. *)
Lemma new_devnet_Ok clocks config f devnet f' : new_devnet clocks config f = (Ok devnet, f') ->
  exists store0 store1 store2 engine signer validators f1 f2 host driver metrics,
    build_store (dn_storage config) f = (Ok store0, f1) /\
    build_engine (ls:=ls) (dn_genesis_state config) (dn_genesis_block config) store0 = (Ok engine, store1) /\
    resolve_local_validators (fun path => fs_read path f1) manifest_dir (dn_duties config) = Ok validators /\
    start_signer (file_bytes f1) (dn_storage config) (lv_local validators) (dn_validator_secrets_dir config) store1 = (Ok signer, store2) /\
    build_with_provider (dn_p2p config) f1 = (Ok host, f2) /\
    ConsensusLoop_new (dn_duties config) validators (ck_wall clocks) (ck_instant clocks) = Ok driver /\
    devnet = mkDevnet (devnet_node (dn_shutdown_timeout config)) (devnet_services host) (engine, (signer, store2)) None ProviderChain
      SyncConfig_default driver (dn_http_addr config) (dn_metrics_addr config) metrics.
Proof.
  unfold new_devnet. intros (store0 & f1 & Hs%with_error_Ok & H)%mbind_Ok_split. destruct (register_chain_histograms _) as [hist recorder].
  apply mbind_Ok_split in H as (u & f2 & [_ ->]%mlift_Ok & H). destruct (build_engine _ _ store0) as [engine store1] eqn:He.
  apply mbind_Ok_split in H as (engine1 & f3 & [->%omap_err_Ok ->]%mlift_Ok & H).
  apply mbind_Ok_split in H as (validators & f4 & [= Hv%omap_err_Ok <-] & H).
  destruct (start_signer (file_bytes f1) (dn_storage config) (lv_local validators) (dn_validator_secrets_dir config) store1) as [r store2] eqn:Hsig.
  apply mbind_Ok_split in H as ([signer store3] & f5 & E & H). rewrite Hsig in E. injection E as E <-.
  apply obind_Ok_inv in E as (signer1 & ->%omap_err_Ok & [= -> ->]).
  apply mbind_Ok_split in H as (host & f6 & Hh%with_error_Ok & H). apply mbind_Ok_split in H as (driver & f7 & [Hd%omap_err_Ok ->]%mlift_Ok & H).
  apply mbind_Ok_split in H as (metrics & f8 & [_ ->]%mlift_Ok & [= <- <-]).
  by exists store0, store1, store3, engine1, signer, validators, f1, f6, host, driver, metrics.
Qed.

(** A validating node: keys for its validators, and a store that survives it. *)
Lemma devnet_validates clocks config f devnet f' : new_devnet clocks config f = (Ok devnet, f') ->
  (exists path dir, dn_storage config = Persistent path /\ dn_validator_secrets_dir config = Some dir) /\
  (exists v, is_Some (lp_local (cl_proposers (dv_driver devnet)) !! v)) /\
  proposers_ok (cl_proposers (dv_driver devnet)).
Proof.
  intros (store0 & store1 & store2 & engine & signer & validators & f1 & f2 & host & driver & metrics & _ & _ & Hv & Hsig & _ & Hd & ->)%new_devnet_Ok.
  destruct (resolve_local_Ok _ _ _ Hv) as (Hne & Hlt & Htot).
  unfold ConsensusLoop_new in Hd. apply obind_Ok_inv in Hd as (u & _ & [= <-]). cbn [dv_driver cl_proposers]. split_and!.
  - unfold start_signer in Hsig. rewrite bool_decide_eq_false_2 in Hsig by done. cbn [orb] in Hsig.
    destruct (dn_storage config) as [|path]; [done|]. cbn [is_durable negb] in Hsig. unfold build_local_signer in Hsig.
    destruct (lv_local validators) as [|v local]; [done|]. apply mbind_Ok_split in Hsig as (dir & s1 & [Hdir _]%mlift_Ok & _).
    exists path, dir. split; [done|]. by destruct (dn_validator_secrets_dir config); [injection Hdir as ->|].
  - destruct (lv_local validators) as [|v local]; [done|]. exists v. apply local_lookup. by left.
  - intros v Hin%local_lookup. rewrite Forall_forall in Hlt. specialize (Hlt v Hin). unfold u64_ok. lia.
Qed.

Context {redb_laws : RedbLaws redb} {eth_laws : EthSszLaws} {sig_laws : LeanSigLaws} {Ho : HashOrderLaws o}.
Context {p2p_lib : Libp2p} {snap : Snap} {X : Type} {env : LoopEnv X} {env_laws : LoopEnvLaws env}.
#[local] Existing Instance dyn_refines.

(** The databases on disk are new, or were left by a node that followed the protocol. *)
Definition databases_valid : Prop :=
  forall path g d g', database_create path g = (inl d, g') -> exists c, redb_rep d c /\ db_valid c.

Lemma build_store_valid kind f store f' : databases_valid -> build_store kind f = (Ok store, f') -> exists c, dyn_rep store c /\ db_valid c.
Proof.
  intros Hdb. destruct kind as [|path]; cbn.
  - intros [= <- <-]. exists Inner_default. split; [done|apply empty_db_valid].
  - unfold redb_open. destruct (create_parent path f) as [[[p source]|] f1]; [done|].
    destruct (database_create path f1) as [[d|err] f2] eqn:Hc; [|done]. destruct (Hdb _ _ _ _ Hc) as (c & Hr & Hv).
    pose proof (RedbStore_new_refines d c Hr) as Hw. unfold written in Hw. destruct (RedbStore_new d) as [[[]|e| |] d1]; cbn; [|done..].
    intros [= <- <-]. by exists c.
Qed.

(** The state of a node that was built: its loop can run. *)
Lemma devnet_built clocks t0 vs0 config f devnet f' :
  let state := genesis_state t0 vs0 in
  u64_ok t0 -> Forall ssz_wf vs0 -> len vs0 <= VALIDATOR_REGISTRY_LIMIT ->
  dn_genesis_state config = state -> dn_genesis_block config = genesis_anchor_block state ->
  databases_valid -> new_devnet clocks config f = (Ok devnet, f') ->
  let '(engine, (signer, store)) := dv_chain devnet in
  anchor_parent_fresh engine (s_head engine) ->
  (forall ab, s_blocks engine !! s_head engine = Some ab -> b_parent_root ab <> s_head engine) ->
  (forall v, is_Some (lp_local (cl_proposers (dv_driver devnet)) !! v) -> is_Some (ls_keys signer !! v)) /\
  (exists c, dyn_rep store c /\ keys_ahead (in_ots c) signer) /\
  exists vs ab, forall x : X,
    loop_ok (rep:=dyn_rep) (signer_inv:=local_signer_inv) (s_head engine) vs ab [] (mkLoopWorld (mkWorld (dv_chain devnet) [] []) gossip_start 0 [] x).
Proof.
  intros state Ht Hvs Hlen Hgs Hgb Hdb Hnew.
  destruct (new_devnet_Ok _ _ _ _ _ Hnew) as (store0 & store1 & store2 & engine & signer & validators & f1 & f2 & host & driver & metrics & Hs & He & Hv & Hsig & _ & Hd & ->).
  cbn [dv_chain dv_driver]. intros Hfr Hne. rewrite Hgs, Hgb in He. destruct (build_store_valid _ _ _ _ Hdb Hs) as (c & Hr & Hvalid).
  assert (Hempty : local_signer_inv LocalSigner_empty) by (intros v k; cbn; by rewrite lookup_empty).
  destruct (started_world t0 vs0 Ht Hvs Hlen store0 c engine store1 LocalSigner_empty Hr Hvalid He Hfr Hne Hempty) as (vs & Hst & Hw).
  destruct Hw as (Hok & _ & Htasks & Hres & c1 & Hr1 & Hdb1 & Hcov).
  destruct (resolve_local_Ok _ _ _ Hv) as (Hnil & _ & _). unfold start_signer in Hsig. destruct (negb _); [done|]. unfold build_local_signer in Hsig.
  destruct (lv_local validators) as [|v0 local] eqn:Hlocal; [done|]. apply mbind_Ok_split in Hsig as (dir & s1 & [_ ->]%mlift_Ok & Hload).
  destruct (load_resuming_keeps (file_bytes f1) dir (v0 :: local) store1 c1 Hr1) as (res & s2 & E & Hr2 & Hk). rewrite E in Hload.
  injection Hload as Hload <-. apply omap_err_Ok in Hload as ->. destruct (Hk signer eq_refl) as [Ha Hkeys].
  unfold ConsensusLoop_new in Hd. apply obind_Ok_inv in Hd as (u & _ & [= <-]). cbn [cl_proposers]. split_and!.
  - intros v Hin%local_lookup. rewrite Hlocal in Hin. by apply Hkeys.
  - by exists c1.
  - destruct (si_anchor _ _ _ (started_inv _ _ _ Hst Hne)) as (ab & Hab & _). exists vs, ab. intros x. apply loop_started; [|done].
    split_and!; [done|by intros v k [? _]%Ha|done|done|]. by exists c1.
Qed.

End Devnet.
