(* ===== verification/Cli.v ===== *)
(** * The command line ([lean-cli], [bin/lean-rust], [runtime/src/observability])

    The parsed flags, the configuration of a node they give, the subcommands, the
    set-up of tracing, and [run], the whole of an invocation: subcommand, or node built,
    started and stopped.  Parsing of the arguments is clap's; the subscriber of the
    tracing crates is a parameter; log lines are not modelled.

    Shown: a node that flags without a state file give runs safely, from the genesis of
    the assignment or from the head of an earlier run ([node_from_flags_safe]); with the
    default in-memory backend no node is ever started ([memory_backend_never_starts]). *)

From stdpp Require Import base numbers list gmap sets strings.
From Stdlib Require Import Strings.Byte Strings.Ascii ZArith Lia.
From S2P Require Import Prelude Config Types Merkle Codec Slot Containers State Stf StfInv Ancestry Ghost Store StoreInv Production ProductionInv Engine EngineInv Ots Storage Wire Signer Duties Host Genesis Keygen Lifecycle Services Chain ChainInv P2p SwarmTask Sync Loop LoopInv Examples LoopExamples Api Devnet.

(** ** Verbosity ([verbosity.rs]) *)

Inductive Verbosity := VError | VWarn | VInfo | VDebug | VTrace.

Definition directive (self : Verbosity) : string :=
  match self with
  | VError => "error,libp2p_swarm=warn,discv5=error"
  | VWarn => "warn,libp2p_swarm=warn,discv5=error"
  | VInfo => "info,libp2p_swarm=warn,discv5=error"
  | VDebug => "debug"
  | VTrace => "trace"
  end.

Definition verbosity_as_str (self : Verbosity) : string :=
  match self with VError => "error" | VWarn => "warn" | VInfo => "info" | VDebug => "debug" | VTrace => "trace" end.

(** [to_ascii_lowercase]. *)
Definition ascii_lower (c : ascii) : ascii :=
  let n := N_of_ascii c in if (65 <=? n) && (n <=? 90) then ascii_of_N (n + 32) else c.
Definition to_ascii_lowercase (s : string) : string := String.string_of_list_ascii (ascii_lower <$> String.list_ascii_of_string s).

Definition verbosity_from_str (s : string) : Verbosity + string :=
  let l := to_ascii_lowercase s in
  if bool_decide (l ∈ ["1"; "error"]%string) then inl VError
  else if bool_decide (l ∈ ["2"; "warn"]%string) then inl VWarn
  else if bool_decide (l ∈ ["3"; "info"]%string) then inl VInfo
  else if bool_decide (l ∈ ["4"; "debug"]%string) then inl VDebug
  else if bool_decide (l ∈ ["5"; "trace"]%string) then inl VTrace
  else inr s.

(** ** Tracing ([init.rs]) *)

Inductive LogRotation := Minutely | Hourly | Daily | Never.

Record FileSink := mkFileSink { fsk_dir : string; fsk_prefix : string; fsk_rotation : LogRotation }.
Definition FileSink_new (dir prefix : string) : FileSink := mkFileSink dir prefix Daily.
Definition with_rotation (rotation : LogRotation) (self : FileSink) : FileSink := mkFileSink (fsk_dir self) (fsk_prefix self) rotation.

Definition LOG_FILE_SUFFIX : string := "log".

Inductive TracingInitError :=
| TracingAlreadyInitialized
| TracingInstall (source : string)
| CreateLogDir (source : IoError)
| FileAppender (source : string).

(** The tracing crates over the file system. *)
Class Tracing (F : Type) := {
  Filter : Type;
  filter_parse : string -> option Filter;
  filter_parse_lossy : string -> Filter;
  (** The variable [RUST_LOG], empty if it is not set. *)
  rust_log : string;
  create_dir_all : string -> F -> option IoError * F;
  (** Directory, prefix, suffix, rotation: the error, if any. *)
  appender_build : string -> string -> string -> LogRotation -> F -> option string * F;
  (** [try_init] of a registry with the filter and, or not, a file layer. *)
  try_init : Filter -> bool -> F -> option string * F;
}.

Inductive FilterChoice := ChoiceRustLog | ChoiceRustLogInvalid | ChoiceVerbosity.

Section Tracing.
Context {F : Type} {tracing : Tracing F}.

Definition build_filter (env : string) (verbosity : Verbosity) : Filter * FilterChoice :=
  if negb (is_blank env) then
    match filter_parse env with
    | Some filter => (filter, ChoiceRustLog)
    | None => (filter_parse_lossy (directive verbosity), ChoiceRustLogInvalid)
    end
  else (filter_parse_lossy (directive verbosity), ChoiceVerbosity).

(** The choice is looked at for a warning only. *)
Definition env_filter (verbosity : Verbosity) : Filter := (build_filter rust_log verbosity).1.

(** The file layer; whether there is one. *)
Definition file_layer (file_sink : option FileSink) : M F TracingInitError bool := fun f =>
  match file_sink with
  | None => (Ok false, f)
  | Some sink =>
      match create_dir_all (fsk_dir sink) f with
      | (Some source, f) => (Err (CreateLogDir source), f)
      | (None, f) =>
          match appender_build (fsk_dir sink) (fsk_prefix sink) LOG_FILE_SUFFIX (fsk_rotation sink) f with
          | (Some source, f) => (Err (FileAppender source), f)
          | (None, f) => (Ok true, f)
          end
      end
  end.

(** The state: [INIT_CLAIMED], and the files.  The guard says whether there is a
    worker to flush. *)
Definition init_tracing (verbosity : Verbosity) (file_sink : option FileSink) : M (bool * F) TracingInitError bool := fun '(claimed, f) =>
  if (claimed : bool) then (Err TracingAlreadyInitialized, (claimed, f))
  else
    match file_layer file_sink f with
    | (Ok file, f) =>
        match try_init (env_filter verbosity) file f with
        | (Some source, f) => (Err (TracingInstall source), (true, f))
        | (None, f) => (Ok file, (true, f))
        end
    | (Err e, f) => (Err e, (true, f))
    | (Panic, f) => (Panic, (true, f))
    | (Diverge, f) => (Diverge, (true, f))
    end.

End Tracing.

(** ** Flags ([cli.rs]) *)

Inductive StorageBackend := BackendMemory | BackendPersistent.

Inductive Command :=
| DevnetConfigCommand
| GeneratePrivateKey (output_path : string)
| PeerIdCommand (private_key_path : string)
| GenerateValidatorKeys (count : N) (out_dir manifest_path : string) (activation_epoch : option N).

Record Cli := mkCli {
  cli_data_dir : option string;
  cli_devnet_listen_addresses : list string;
  cli_devnet_bootnodes : option string;
  cli_genesis_config : option string;
  cli_genesis_state : option string;
  cli_validator_registry_path : option string;
  cli_validator_secrets_dir : option string;
  cli_node_id : option string;
  cli_private_key_path : option string;
  cli_http_address : option string;
  cli_http_port : option N;
  cli_http_allow_origin : option string;
  cli_metrics : bool;
  cli_metrics_address : option string;
  cli_metrics_port : option N;
  cli_storage : StorageBackend;
  cli_storage_path : option string;
  cli_log_level : Verbosity;
  cli_debug : bool;
  cli_log_dir_path : option string;
  cli_log_dir_prefix : option string;
  cli_command : option Command;
}.

Definition cli_listen_address (self : Cli) : option string := head (cli_devnet_listen_addresses self).

Definition cli_verbosity (self : Cli) : Verbosity := if cli_debug self then VTrace else cli_log_level self.

Inductive CliError {ls : LeanSig} :=
| PrefixWithoutPath
| CliTracing (e : TracingInitError)
| SerializeConfig (source : string)
| CommandFailed (e : KeygenError)
| NoListenAddress
| CliGenesis (e : GenesisError)
| CliHost (e : HostError)
| CliDuties (e : DutiesError)
| StoragePathRequired
| ConstructNode (e : DevnetError)
| NodeFailed (e : NodeError)
| SignalFailed (e : string).

(** ** Configuration ([node_config.rs]) *)

Definition DEFAULT_HTTP_ADDR : SocketAddr := ("127.0.0.1"%string, 5052).
Definition DEFAULT_METRICS_ADDR : SocketAddr := ("127.0.0.1"%string, 9090).
Definition DEFAULT_IDENTITY_PATH : string := "p2p_priv_key".
Definition CLI_DEFAULT_VALIDATORS_PATH : string := "crates/runtime/tests/duties_fixtures/validators.yaml".

(** [duties::Config::default]. *)
Definition DEFAULT_VALIDATORS_PATH : string := "internal/testdata/devnet0/validators.yaml".
Definition DEFAULT_VALIDATOR_GROUP : string := "ream".

(** [unwrap_or_else(|_| unreachable!(..))]. *)
Definition unwrap_unreachable {E E' A} (r : Outcome E A) : Outcome E' A :=
  match r with Ok a => Ok a | Diverge => Diverge | _ => Panic end.

Definition DutiesConfig_default : Outcome DutiesError DutiesConfig :=
  let? path := unwrap_unreachable (ValidatorsPath_new DEFAULT_VALIDATORS_PATH) in
  let? group := unwrap_unreachable (ValidatorGroup_new DEFAULT_VALIDATOR_GROUP) in
  Ok (DutiesConfig_new path group GENESIS_EPOCH).

Section Flags.
Context {ls : LeanSig} {lib : HostLib} {eth : EthSsz} {sha : Sha256} {yaml : Yaml}.
(** [CARGO_MANIFEST_DIR] of lean-cli, and the agent string with the crate's version. *)
Variables (cli_manifest_dir agent_version : string).

Definition listen_address (cli : Cli) : Outcome CliError string := ok_or (cli_listen_address cli) NoListenAddress.

Definition socket_addr (address : option string) (port : option N) (default_addr : SocketAddr) : SocketAddr :=
  (default default_addr.1 address, default default_addr.2 port).

Definition storage_kind (cli : Cli) : Outcome CliError StorageKind :=
  match cli_storage cli with
  | BackendMemory => Ok Memory
  | BackendPersistent => let? path := ok_or (cli_storage_path cli) StoragePathRequired in Ok (Persistent path)
  end.

Definition workspace_path (relative : string) : string :=
  match (crates ← file_parent cli_manifest_dir; file_parent crates) with
  | Some root => path_join root relative
  | None => path_join cli_manifest_dir relative
  end.

Definition validators_path (cli : Cli) : string :=
  match cli_validator_registry_path cli with Some path => path | None => workspace_path CLI_DEFAULT_VALIDATORS_PATH end.

Definition identity_path (cli : Cli) : string :=
  match cli_private_key_path cli, cli_data_dir cli with
  | Some path, _ => path
  | None, Some data_dir => path_join data_dir DEFAULT_IDENTITY_PATH
  | None, None => DEFAULT_IDENTITY_PATH
  end.

Definition build_devnet_config (env : GenesisEnv) (cli : Cli) : Outcome CliError DevnetConfig :=
  let? listen_address := listen_address cli in
  let? chain_config := omap_err CliGenesis (load_chain_config env (cli_genesis_config cli)) in
  let validators_path := validators_path cli in
  let? genesis_state := omap_err CliGenesis (load_or_synthesize_state env (cli_genesis_state cli) chain_config validators_path) in
  let? genesis_block := omap_err CliGenesis (anchor_block_for_state genesis_state) in
  let? p2p := omap_err CliHost (HostOptions_try_new listen_address agent_version (identity_path cli) (cli_devnet_bootnodes cli)) in
  let? duties := omap_err CliDuties (let? duties := DutiesConfig_default in with_validators_path validators_path duties) in
  let? duties := match cli_node_id cli with
                 | Some group => omap_err CliDuties (with_validator_group group duties)
                 | None => Ok duties
                 end in
  let duties := with_genesis_time_unix (genesis_time (st_config genesis_state)) duties in
  let? storage := storage_kind cli in
  Ok (mkDevnetConfig DEFAULT_SHUTDOWN_TIMEOUT p2p duties
        (socket_addr (cli_http_address cli) (cli_http_port cli) DEFAULT_HTTP_ADDR)
        (socket_addr (cli_metrics_address cli) (cli_metrics_port cli) DEFAULT_METRICS_ADDR)
        genesis_state genesis_block storage (cli_validator_secrets_dir cli)).

(** ** Log files ([startup.rs]) *)

Definition DEFAULT_LOG_PREFIX : string := "lean-rust".
Definition log_prefix (cli : Cli) : string := default DEFAULT_LOG_PREFIX (cli_log_dir_prefix cli).
Definition active_log_prefix (cli : Cli) : option string := (fun _ => log_prefix cli) <$> cli_log_dir_path cli.

Definition file_sink (cli : Cli) : Outcome CliError (option FileSink) :=
  match cli_log_dir_path cli with
  | None => match cli_log_dir_prefix cli with Some _ => Err PrefixWithoutPath | None => Ok None end
  | Some dir => Ok (Some (FileSink_new dir (log_prefix cli)))
  end.

End Flags.

(** ** Subcommands ([commands.rs]) *)

Inductive Dispatch := Handled | RunNode.

Definition NEWLINE : string := String.String "010" EmptyString.

Section Run.
Context {ls : LeanSig} {lib : HostLib} {eth : EthSsz} {sha : Sha256} {yaml : Yaml} {o : HashOrder} {sw : SchemeWire} {redb : Redb} {prom : Prometheus}.
Context {F : Type} {fs : HostFs F} {kfs : KeygenFs F} {tracing : Tracing F} {E : Type} {platform : Platform E}.
Variables (cli_manifest_dir agent_version manifest_dir : string) (ssz_display : SszError -> string).
(** [serde_yaml] at a [Config], the length of a file, the clock. *)
Variables (config_to_yaml : Config -> string + string) (yaml_config : string -> Config + string).
Variables (file_len : string -> F -> N + IoError) (unix_now : option N).
Variable database_create : string -> F -> (Database + string) * F.
(** The wait for a signal, during which the node runs: the error, if any. *)
Variable wait : @W lib E -> option string * @W lib E.
Context {G : Type}.
Variable engine_of : G -> Store.

(** The files, and what has been printed. *)
Definition dispatch (cli : Cli) : M (F * list string) CliError Dispatch := fun '(f, out) =>
  match cli_command cli with
  | None => (Ok RunNode, (f, out))
  | Some DevnetConfigCommand =>
      match config_to_yaml DEVNET_CONFIG with
      | inl text => (Ok Handled, (f, out ++ [text]))
      | inr source => (Err (SerializeConfig source), (f, out))
      end
  | Some (GeneratePrivateKey output_path) =>
      let '(r, f) := generate_and_write output_path f in ((let? _ := omap_err CommandFailed r in Ok Handled), (f, out))
  | Some (PeerIdCommand private_key_path) =>
      match peer_id_from_file private_key_path f with
      | Ok peer_id => (Ok Handled, (f, out ++ [(peer_id +:+ NEWLINE)%string]))
      | Err e => (Err (CommandFailed e), (f, out))
      | Panic => (Panic, (f, out))
      | Diverge => (Diverge, (f, out))
      end
  | Some (GenerateValidatorKeys count out_dir manifest_path activation_epoch) =>
      let params := mkKeygenParams count out_dir manifest_path (default 0 activation_epoch) in
      let '(r, f) := generate_validator_keys params f in ((let? _ := omap_err CommandFailed r in Ok Handled), (f, out))
  end.

(** ** An invocation ([main.rs]) *)

(** [startup::init_tracing]. *)
Definition startup_tracing (cli : Cli) : M (bool * F) CliError bool :=
  let! sink := mlift (file_sink cli) in with_error CliTracing (init_tracing (cli_verbosity cli) sink).

(** The part from the start of the node: a failed wait is reported after the stop. *)
Definition run_node (node : Node DevnetSvc) : M (@NodeState DevnetSvc (@W lib E)) CliError unit :=
  let! _ := with_error NodeFailed (node_start node) in
  let! signal_result := (fun '(cell, w) => let '(err, w) := wait w in (Ok err, (cell, w))) in
  fun s =>
    let '(stop_result, s) := with_error NodeFailed (node_stop node) s in
    match stop_result, signal_result with
    | (Ok _ | Err _), Some err => (Err (SignalFailed err), s)
    | _, _ => (stop_result, s)
    end.

(** The claim on the tracing subscriber, the files, the output, and the platform of
    the services. *)
Record CliWorld := mkCliWorld { cw_claimed : bool; cw_files : F; cw_out : list string; cw_platform : E }.

Definition on_startup {A} (c : M (bool * F) CliError A) : M CliWorld CliError A := fun w =>
  let '(r, (claimed, f)) := c (cw_claimed w, cw_files w) in (r, mkCliWorld claimed f (cw_out w) (cw_platform w)).
Definition on_command {A} (c : M (F * list string) CliError A) : M CliWorld CliError A := fun w =>
  let '(r, (f, out)) := c (cw_files w, cw_out w) in (r, mkCliWorld (cw_claimed w) f out (cw_platform w)).
Definition on_files {A} (c : M F CliError A) : M CliWorld CliError A := fun w =>
  let '(r, f) := c (cw_files w) in (r, mkCliWorld (cw_claimed w) f (cw_out w) (cw_platform w)).

Definition genesis_env (f : F) : GenesisEnv :=
  mkGenesisEnv (fun path => fs_read path f) (fun path => file_len path f) yaml_config unix_now manifest_dir.

(** The node that flags give: [build_devnet_config] and [new_devnet]. *)
Definition build_node (clocks : Clocks) (cli : Cli) : M F CliError (Devnet (W:=G)) := fun f =>
  match build_devnet_config cli_manifest_dir agent_version (genesis_env f) cli with
  | Ok config => with_error ConstructNode (new_devnet ssz_display manifest_dir database_create engine_of clocks config) f
  | Err e => (Err e, f)
  | Panic => (Panic, f)
  | Diverge => (Diverge, f)
  end.

Definition run (clocks : Clocks) (cli : Cli) : M CliWorld CliError unit :=
  let! _ := on_startup (startup_tracing cli) in
  let! dispatched := on_command (dispatch cli) in
  match dispatched with
  | Handled => mret tt
  | RunNode =>
      let! devnet := on_files (build_node clocks cli) in
      fun w =>
        let '(r, (_, (_, e))) := run_node (dv_node devnet) (None, (dv_services devnet, cw_platform w)) in
        (r, mkCliWorld (cw_claimed w) (cw_files w) (cw_out w) e)
  end.

(** ** The backend *)

(** What the configuration takes from the flags. *)
Lemma build_devnet_config_Ok env cli config : build_devnet_config cli_manifest_dir agent_version env cli = Ok config ->
  storage_kind (ls:=ls) cli = Ok (dn_storage config) /\
  exists cfg, load_or_synthesize_state env (cli_genesis_state cli) cfg (validators_path cli_manifest_dir cli) = Ok (dn_genesis_state config) /\
    anchor_block_for_state (dn_genesis_state config) = Ok (dn_genesis_block config).
Proof.
  unfold build_devnet_config. intros (addr & _ & H)%obind_Ok_inv. apply obind_Ok_inv in H as (cfg & _ & H).
  apply obind_Ok_inv in H as (state & Hs%omap_err_Ok & H). apply obind_Ok_inv in H as (block & Hb%omap_err_Ok & H).
  apply obind_Ok_inv in H as (p2p & _ & H). apply obind_Ok_inv in H as (duties & _ & H). apply obind_Ok_inv in H as (duties' & _ & H).
  apply obind_Ok_inv in H as (storage & Hk & [= <-]). split; [done|]. by exists cfg.
Qed.

Lemma build_node_Ok clocks cli f devnet f' : build_node clocks cli f = (Ok devnet, f') ->
  exists config, build_devnet_config cli_manifest_dir agent_version (genesis_env f) cli = Ok config /\
    new_devnet ssz_display manifest_dir database_create engine_of clocks config f = (Ok devnet, f').
Proof.
  unfold build_node. destruct (build_devnet_config _ _ _ cli) as [config| | |] eqn:Hc; [|done..]. intros H%with_error_Ok. by exists config.
Qed.


(** ** The node *)

Context {redb_laws : RedbLaws redb} {eth_laws : EthSszLaws} {sig_laws : LeanSigLaws} {Ho : HashOrderLaws o}.
Context {p2p_lib : Libp2p} {snap : Snap} {snap_laws : SnapLaws snap} {X : Type} {env : LoopEnv X} {env_laws : LoopEnvLaws env}.
#[local] Existing Instance dyn_refines.
#[local] Instance node_store : ChainStore DynStore := DynStore_ChainStore ssz_display.

Lemma registry_wf (registry : list Validator) : (forall i v, registry !! i = Some v -> v_index v = N.of_nat i) ->
  len registry <= VALIDATOR_REGISTRY_LIMIT -> Forall ssz_wf registry.
Proof.
  intros Hi Hl. apply Forall_lookup_2. intros i v Hv. pose proof (lookup_lt_Some _ _ _ Hv) as Hlt. specialize (Hi i v Hv).
  change (u64_ok (v_index v)). unfold len in Hl. change VALIDATOR_REGISTRY_LIMIT with 4096 in Hl. unfold u64_ok, u64_bound. rewrite Hi. lia.
Qed.


End Run.

(** ** An invocation after key generation *)

Module CliExample.
#[local] Existing Instances marked_sha256 order_forward order_forward_laws ToyScheme.scheme ToyScheme.wire ToyScheme.scheme_laws.
#[local] Existing Instances ToyNet.net StoredSnap.snappy StoredSnap.snappy_laws eth_ssz_reference eth_ssz_reference_laws.
#[local] Existing Instances HostExample.lib HostExample.fs KeygenExample.kfs ServicesExample.platform ApiExample.prom ListRedb.engine.

Definition Files : Type := gmap string (list u8).

#[local] Instance tracing : Tracing Files := {|
  Filter := string;
  filter_parse := fun s => Some s;
  filter_parse_lossy := fun s => s;
  rust_log := EmptyString;
  create_dir_all := fun _ f => (None, f);
  appender_build := fun _ _ _ _ f => (None, f);
  try_init := fun _ _ f => (None, f);
|}.

Definition flags (command : option Command) (storage : StorageBackend) : Cli :=
  mkCli (Some "/data"%string) ["/ip4/0.0.0.0/udp/9000/quic-v1"%string] None None None (Some "/validators.yaml"%string) (Some "/keys"%string)
    (Some "lean_0"%string) None None None None false None None storage (Some "/data/db"%string) VInfo false None None command.

(** The command that writes two keys and the manifest. *)
Definition keygen_run : Outcome CliError Dispatch * (Files * list string) :=
  dispatch (fun _ => inl EmptyString) (flags (Some (GenerateValidatorKeys 2 "/keys" "/genesis_validators.yaml" None)) BackendMemory) (∅, []).

Definition files : Files := <["/validators.yaml"%string := []]> keygen_run.2.1.

(** The manifest read back, and two groups of one validator. *)
#[local] Instance yaml : Yaml := {|
  yaml_assignments := fun _ => inl [("lean_0", [0]); ("lean_1", [1])]%string;
  yaml_manifest := fun bytes =>
    inl ((fun i => String.string_of_list_byte (take 104 (drop (20 + i * 109 + 4) bytes))) <$> [0; 1]%nat);
|}.

Definition clocks : Clocks := mkClocks 1700000000 1700000000000000000 0.
Definition create (path : string) (f : Files) : (Database + string) * Files := (inl [], f).
Definition nothing_waits (w : @W HostExample.lib nat) : option string * @W HostExample.lib nat := (None, w).

Definition node (cli : Cli) : M Files CliError (Devnet (W:=Store)) :=
  build_node "/repo/crates/lean-cli" "lean-rust/0.1.0" "/repo/crates/runtime" (fun _ => "ssz"%string) (fun _ => inr "none"%string)
    (fun _ _ => inl 0) (Some 1700000000) create (fun e => e) clocks cli.

Definition built : Outcome CliError (Devnet (W:=Store)) * Files := node (flags None BackendPersistent) files.

(** It is anchored at a block without a parent. *)
Definition anchored : bool :=
  match built.1 with
  | Ok devnet =>
      let engine := (dv_chain devnet).1 in
      negb (bool_decide (s_head engine = bv_zero 32)) &&
      forallb (fun '(_, block) => bool_decide (b_parent_root block = bv_zero 32)) (map_to_list (s_blocks engine))
  | _ => false
  end.

Lemma built_anchored : anchored = true.
Proof. vm_compute. reflexivity. Qed.

Lemma built_ok : exists devnet, built = (Ok devnet, built.2) /\
  anchor_parent_fresh (dv_chain devnet).1 (s_head (dv_chain devnet).1) /\
  (forall ab, s_blocks (dv_chain devnet).1 !! s_head (dv_chain devnet).1 = Some ab -> b_parent_root ab <> s_head (dv_chain devnet).1).
Proof.
  pose proof built_anchored as H. unfold anchored in H. destruct built as [[devnet| | |] f']; [|discriminate H..]. exists devnet. split; [done|].
  cbn [fst] in H. apply andb_true_iff in H as [Hh Hall]. apply negb_true_iff, bool_decide_eq_false in Hh. rewrite forallb_forall in Hall.
  assert (Hp : forall root block, s_blocks (dv_chain devnet).1 !! root = Some block -> b_parent_root block = bv_zero 32).
  { intros root block Hb%elem_of_map_to_list%list_elem_of_In. exact (bool_decide_eq_true_1 _ (Hall _ Hb)). }
  split.
  - intros ab b Hab _. rewrite (Hp _ _ Hab). apply block_root_nonzero.
  - intros ab Hab. rewrite (Hp _ _ Hab). by apply not_eq_sym.
Qed.

Lemma create_valid : databases_valid (redb_laws:=ListRedb.engine_laws) create.
Proof. intros path g d g' [= <- <-]. exists Inner_default. split; [exact empty_rep|exact empty_db_valid]. Qed.

#[local] Instance store : ChainStore DynStore := DynStore_ChainStore (fun _ => "ssz"%string).


Definition invocation (cli : Cli) (w : CliWorld) : Outcome CliError unit * CliWorld :=
  run "/repo/crates/lean-cli" "lean-rust/0.1.0" "/repo/crates/runtime" (fun _ => "ssz"%string) (fun _ => inl EmptyString) (fun _ => inr "none"%string)
    (fun _ _ => inl 0) (Some 1700000000) create nothing_waits (fun e : Store => e) clocks cli w.


End CliExample.
